(* ===== verification/_CoqProject ===== *)
-Q . S2P
Prelude.v
Error.v
HttpConfig.v
Streams.v
SocketStream.v
HttpRequest.v
Analyser.v
Incomplete.v
Objects.v
RequestBuffer.v
HttpRequestBuilder.v
Router.v
Reader.v
Cache.v
ResourceAccessor.v
HttpResponse.v
HttpResponseBuilder.v
SharedBuffer.v
HttpExamples.v
RedisPool.v
RedisCache.v
RedisConnectionBuilder.v
RedisThreads.v
AccessThreads.v
RedisExamples.v
AccessExamples.v
Buffer.v
AsyncLogger.v
LogLiveness.v
Logger.v
LogExamples.v
Kernel.v
SimKernel.v
Epoll.v
PollerThreads.v
EpollExamples.v
TestPrograms.v
TestExamples.v
Worker.v
Reactor.v
Distribution.v
System.v
Truncated.v
Descriptors.v
Client.v
Admission.v
ReactorExamples.v
Server.v
ServerFacts.v
Shutdown.v
Lifecycle.v
Service.v
Main.v
ServerExamples.v
