(* ===== verification/Prelude.v ===== *)
(** * A verification of CXXWebServer

    CXXWebServer is a multi-threaded HTTP server: one thread accepts clients and
    hands them to I/O workers, each of which polls an epoll instance, reads
    requests from the sockets that are ready, looks the URI up in a router, gets
    the file through an accessor (with an optional Redis cache) and writes the
    response. Log statements go through a buffer to an asynchronous logger thread.
    This library models the program (the code under src/) in Rocq, operation by
    operation, and proves what makes its parts correct, and where they are not.

    ** Parts and files

    - Prelude: bytes, [outcome] (return, C++ exception, undefined behaviour, out of
      fuel), the state monad [SM], [reachable] and [inevitable] for systems of steps,
      decimal printing and [stoul], iteration over unordered maps as the parameter
      [MapOrder].
    - Error: Error.hpp. HttpConfig: HttpUtils/HttpConfig.
    - Streams: what the source uses of libstdc++'s input and output streams
      ([operator>>], [getline], [get], [readsome], [write], [flush]) over the classes
      [StreamBuf] and [OStreamBuf] of stream buffers, whose laws [StreamBufOk] and
      [OStreamBufOk] are all that the theorems on parsing and on responses use.
      Reader: the seekable streams a resource is read through.
    - SocketStream: HttpUtils/SocketStream; it discharges the laws of Streams for a
      socket. What has arrived is a list of pieces carried by the buffer, of which a
      [recv] takes one, or the first 4096 bytes of it; the results of [send] are a
      parameter ([SendOracle]), and [sent_of] says what then becomes of a text that is
      written: all of it is sent when every [send] takes all it is given, a prefix of
      it when each takes all or nothing, and otherwise prefixes of it, as the code
      repeats the start of its buffer after a [send] that takes a part.
    - HttpRequest: HttpUtils/HttpRequest (the object, its text and the analyser).
      Analyser: what it does with any input. Incomplete: what it does with a request
      that is cut off. RequestBuffer: the loop of [parseBody] in steps, by several
      threads over their static buffer.
    - Objects: objects behind shared pointers, and fluent interfaces over them.
      HttpRequestBuilder, HttpResponseBuilder, RedisConnectionBuilder: the three
      builders as classes with a contract each, their implementations, and what is
      built with them; the analyser over the first is that of HttpRequest.
    - Router: HttpUtils/Resource and Router, and the interface [IRouter].
    - Cache: Cache/Cache.hpp, the interface [ICache] with its laws [ICacheOk].
      ResourceAccessor: HttpUtils/ResourceAccessor over it, with the interface
      [IResourceAccessor] and its contract [IResourceAccessorOk], which both
      accessors discharge.
    - HttpResponse: HttpUtils/HttpResponse (choosing and writing the response),
      against [IRouterOk] and [IResourceAccessorOk]. SharedBuffer: the loop of
      [genResponseBody] in steps, by any number of threads over their static buffer.
    - RedisPool and RedisCache: Cache/RedisCache. The hiredis library, the Redis
      server and timed locks are the class [Hiredis]; [HiredisOk] says that the
      server answers with what it was sent, and RedisCache then is an [ICacheOk].
      RedisThreads: requests of several threads on one cache, step by step.
      AccessThreads: accesses of several threads through one cached accessor, whose
      requests are the threads of RedisThreads.
    - Buffer, AsyncLogger, Logger: Log/Buffer.hpp, Log/AsyncLogger, Log/LogStream and
      Log/Logger. Opening a log file, what the
      stream holds back and what the file takes are the class [LogFS]; [files] is what
      the files hold, [writes] the transfers to them, and [log_files] relates the two.
      LogLiveness: infinite executions of the logger's threads.
    - Kernel: the system calls of the reactor as the class [Kernel], and what their
      manual pages promise as [KernelOk]. Its [fds] are the open descriptors of the
      reactor: sockets, epoll instances and clients. Those of the log file and of the
      Redis connections are the logger's and the client library's, and not among them.
    - Epoll: Event and Epoll, events being counted pointers whose destructor closes
      the descriptor. PollerThreads: several threads on one poller, in steps between
      the acquisitions of its lock. Worker: Worker, IOEventHandler and ListenEventHandler.
      Reactor: the invariant [proc_wf] of their process and the lemmas on each
      operation. Distribution: which clients go to which workers. System: the
      interleaving [sys_step] of the workers' threads.
      Descriptors: which open descriptors belong to no one, and that no step changes
      that. Client: what becomes of one client among the steps of all threads.
      Admission: what becomes of those that a call of the listening handler takes in.
      Truncated: what becomes of one that has sent only a part of its request.
    - Server: Server (configuration, initialisation, start, stop, cleaning, status
      check). [start] is one step: [run_poll_commute] and [run_exit_commute] say why.
      [__maxFD] is a [uint32_t] and narrowed to an [int], which throws when it is
      negative. ServerFacts: what they establish. Shutdown: what destroying it leaves.
      Lifecycle: from a fresh server over its threads' steps to its destruction.
      Service: from a fresh server over its threads' steps to its clients' answers.
      Main: main.cc, the main thread among the others.
    - TestPrograms: the programs under test/, which drive the components above.
    - SimKernel, EpollExamples, ReactorExamples, ServerExamples, HttpExamples,
      RedisExamples, AccessExamples, LogExamples, TestExamples: lawful instances of the
      parameters (a small operating system, a Redis server, file systems, a log file),
      and every theorem with hypotheses applied to concrete values over them.

    ** Correspondence

    Definitions have the names of the C++ members, prefixed where two classes share
    one name in one file ([ssb_], [ls_], [redis_], [server_]); each file's comments
    say which function a definition with another name stands for. Objects are
    records; pointers are addresses in a store where sharing matters (events,
    workers, connections) and options where only nullness does. Uninitialised
    variables are [None] and reading them is [Undef]. [unsigned], [uint8_t] and
    [uint16_t] arithmetic that can wrap is reduced modulo its width (the pool's
    counts, status codes, ports).

    ** What is proved

    - A connection that sends well-formed requests has each answered, in their order
      (C1); any connection is read request by request, to its end, and then its event is
      unregistered, or to a request whose reading throws or hangs (C28). No interleaving
      of the threads forgets a registered client: it stays registered until a thread
      answers it (C3), and so every client that a started server takes in is attended to
      (C4). What is sent is [sent_of] the answers in all of these. Clients go to the
      first worker with room (C26), and so to the workers in turn (C27).
    - In every interleaving of the workers the books of the reactor are kept (C2, with
      C24 and C25 for the single operations), and those of a poller in every
      interleaving of threads that use it (C7). A server that starts with SERVER_OK has
      them in order (C19), and over its whole life nothing is dereferenced that is not
      there and no descriptor of the reactor is left open but those in the hands of
      threads (C5), which destroying it takes the workers from (C40). The main thread
      watches all of it and says so (C6).
    - Requests that one [recv] takes are read back as they were written (C14), those
      without bodies however the bytes arrive (C34), also when they are built through
      shared pointers (C33); on any input the analyser has the outcomes of C15. The
      responder answers every request (C16), what it writes is delivered over a buffer
      that keeps its contract (C17) and its error codes are right (C35). The socket
      buffer is never overrun, and every flush stops with what C29 says sent.
    - Threads that write bodies through their shared buffer keep the answers framed
      (C30) and all come to an end (C31), in any order of their steps; the bodies are
      their own as long as no thread disturbs another's piece (C32).
    - The cached accessor refines the plain one over any lawful cache (C18), and the
      Redis cache is one ([RedisCache_ICacheOk], [redis_put_get]). Concurrent requests
      on it are served as if one after the other (C8), never share a connection's lock
      (C12) and all come to an end (C10). Accesses that share it still refine the plain
      accessor in every interleaving (C9), all return (C11), and each alone is the
      access function ([access_alone_is_access]). Its pool counts its users (C21) and
      hands out a least used connection (C39); connecting fails as it says (C37). The
      sessions of the test programs are runs of such a cache (C38).
    - The log files hold what they held before and then what they were given, in order
      (C22), all of it if the files work (C23), each byte some time later (C13), with
      one entry per statement (C36); the threads of LoggerTest never stop it
      ([logger_test_runs]).
    - Where the code does not do what it means to: a request that arrives in two parts
      is dropped, answered too early, ends the process or hangs the worker (C20); a body
      larger than the buffer hangs the worker (C15, [large_body_never_parsed]); bodies
      cross between clients through the shared buffers ([shared_buffer_crosses_bodies],
      [shared_buffer_crosses_requests]); a descriptor is closed twice
      ([refused_client_closed_twice]); a log ends at its first failed write
      ([write_failure_ends_logging]); a poller is taken over its limit
      ([concurrent_adds_exceed_limit]); and [short_send_repeats_prefix],
      [header_ending_in_colon_throws], [serialize_not_accepted],
      [failed_start_leaks_socket], [bad_content_length_throws], [byte_255_ends_input],
      [unlimited_pool_broken], [redis_nul_keys_collide], [cgi_answer_undefined] and
      [request_timeout_in_microseconds].

    ** Bounds and fuel

    The analyser's loops, the loops over a body or a file and the loop over the
    requests of a connection take fuel, and [Spin] is its exhaustion. Fuel above the
    number of bytes to be read is enough for the analyser (each iteration reads one
    byte at least, except in [parseBody], whose starvation is a case of C15), and fuel not
    below the length of a body or file for the loops that copy it; the theorems ask
    for that much and conclude a returned value. Buffer sizes are those of the source
    (4096, and 512 for a request body's pieces).

    ** What is not modelled

    The descriptors of the log file and of hiredis, so that nothing is said of their
    being closed (a server without a log opens "/dev/null", which stays open); the
    workers' threads between the two ends of [start]; the lengths of the main thread's
    sleeps and the exact moments at which threads look at the clock; the handler of
    SIGPIPE, which does nothing; the C++ memory model (threads interleave at the
    granularity of operations under a lock, of polls and handler calls in System, of
    calls on the connection in RedisThreads and AccessThreads, of the poller's critical
    sections in PollerThreads, of stream calls in the two files on static buffers);
    allocation failure; the times that the test programs sleep or spin. The build files
    are left aside. *)

From Stdlib Require Export Ascii ZArith Lia.
From stdpp Require Export base option list gmap strings numbers.

#[global] Open Scope Z_scope.

Create HintDb webserver.

(** * Bytes

    A C++ [std::string] or [char] buffer is a list of characters. *)

Abbreviation bytes := (list ascii).

(** A string literal of the source as bytes. *)
Definition lit (s : string) : bytes := String.list_ascii_of_string s.

Declare Scope bytes_scope.
Delimit Scope bytes_scope with bytes.
Notation "'$' s" := (lit s%string) (at level 1, format "'$' s") : bytes_scope.
#[global] Open Scope bytes_scope.

Definition ch_CR : ascii := Ascii.ascii_of_nat 13.
Definition ch_LF : ascii := Ascii.ascii_of_nat 10.
Definition ch_SP : ascii := Ascii.ascii_of_nat 32.
Definition ch_COLON : ascii := Ascii.ascii_of_nat 58.

(** [isspace] of the "C" locale: blank, \t, \n, \v, \f, \r. *)
Definition isspace (c : ascii) : bool :=
  let n := N_of_ascii c in
  ((n =? 32) || ((9 <=? n) && (n <=? 13)))%N.

(** A NUL-free string survives [c_str()]; [c_str] truncates at the first NUL. *)
Definition NUL : ascii := Ascii.zero.

Fixpoint c_str (s : bytes) : bytes :=
  match s with
  | [] => []
  | c :: s' => if decide (c = NUL) then [] else c :: c_str s'
  end.

Lemma c_str_id (s : bytes) : NUL ∉ s → c_str s = s.
Proof.
  induction s as [|c s IH]; simpl; intros H; [done|].
  rewrite decide_False by set_solver. f_equal. apply IH. set_solver.
Qed.

(** * Outcomes

    The result of running code that may return, throw, read an uninitialised
    variable or a null pointer (undefined behaviour), or exceed the fuel its
    loops were given. *)

Inductive exn := invalid_argument | out_of_range | length_error.

Inductive outcome (A : Type) : Type :=
| Ret (a : A)
| Throw (e : exn)
| Undef
| Spin.
Arguments Ret {A} a.
Arguments Throw {A} e.
Arguments Undef {A}.
Arguments Spin {A}.

#[global] Instance outcome_ret : MRet outcome := @Ret.
#[global] Instance outcome_bind : MBind outcome := λ A B f m,
  match m with Ret a => f a | Throw e => Throw e | Undef => Undef | Spin => Spin end.

(** Dereferencing a possibly null pointer, reading a possibly uninitialised
    variable: undefined when there is nothing there. *)
Definition deref {A} (o : option A) : outcome A :=
  match o with Some a => Ret a | None => Undef end.

Lemma ret_bind {A B} (a : A) (f : A → outcome B) : Ret a ≫= f = f a.
Proof. done. Qed.

Lemma deref_Some_bind {A B} (a : A) (f : A → outcome B) : deref (Some a) ≫= f = f a.
Proof. done. Qed.

(** Computations that also thread a state. *)
Definition SM (S A : Type) : Type := S → outcome (A * S).

#[global] Instance SM_ret {S} : MRet (SM S) := λ A a s, Ret (a, s).
#[global] Instance SM_bind {S} : MBind (SM S) := λ A B f m s,
  match m s with
  | Ret (a, s') => f a s'
  | Throw e => Throw e
  | Undef => Undef
  | Spin => Spin
  end.

Definition sm_lift {S A} (o : outcome A) : SM S A := λ s,
  match o with
  | Ret a => Ret (a, s)
  | Throw e => Throw e
  | Undef => Undef
  | Spin => Spin
  end.
Definition sm_gets {S A} (f : S → A) : SM S A := λ s, Ret (f s, s).
Definition sm_modify {S} (f : S → S) : SM S () := λ s, Ret ((), f s).

Lemma SM_bind_Ret {S A B} (m : SM S A) (k : A → SM S B) s a s' :
  m s = Ret (a, s') → (m ≫= k) s = k a s'.
Proof. intros H. unfold mbind, SM_bind. by rewrite H. Qed.

Lemma SM_bind_Throw {S A B} (m : SM S A) (k : A → SM S B) s e :
  m s = Throw e → (m ≫= k) s = Throw e.
Proof. intros H. unfold mbind, SM_bind. by rewrite H. Qed.

Lemma SM_bind_Spin {S A B} (m : SM S A) (k : A → SM S B) s :
  m s = Spin → (m ≫= k) s = Spin.
Proof. intros H. unfold mbind, SM_bind. by rewrite H. Qed.

(** [smstep H] runs the first computation of a sequence by the equation [H]. *)
Ltac smstep H := erewrite SM_bind_Ret; [|solve [eapply H; eauto with webserver]].

(** [sm_compute] unfolds the plumbing of a state computation, not its operations. *)
Ltac sm_compute :=
  cbv beta iota zeta delta [mbind SM_bind mret SM_ret sm_lift sm_gets sm_modify deref
                            outcome_bind outcome_ret].

(** Closed goals, at concrete inputs: decided, or computed. *)
Ltac decide_now := apply (bool_decide_unpack _); vm_compute; exact I.
Ltac compute_now := vm_compute; reflexivity.

(** * Transition systems *)

Section star.
Context {St : Type} (step : St → St → Prop).

(** Reflexive transitive closure, growing at its end: rule induction on it is
    induction over the steps from an initial state. *)
Inductive reachable (s : St) : St → Prop :=
| reach_refl : reachable s s
| reach_step s1 s2 : reachable s s1 → step s1 s2 → reachable s s2.

Lemma reachable_invariant (I : St → Prop) s s' :
  (∀ a b, I a → step a b → I b) → I s → reachable s s' → I s'.
Proof. intros Hstep H0. induction 1; eauto. Qed.

Lemma reachable_trans a b c : reachable a b → reachable b c → reachable a c.
Proof. intros Hab. induction 1; eauto using reachable. Qed.

(** A schedule: which thread makes the next step, [f i] being the step of thread [i]. *)
Fixpoint schedule (f : nat → St → option St) (l : list nat) (s : St) : option St :=
  match l with
  | [] => Some s
  | i :: l' => s' ← f i s; schedule f l' s'
  end.

Lemma schedule_reachable f l s0 s s' :
  (∀ i a b, f i a = Some b → step a b) → reachable s0 s → schedule f l s = Some s' → reachable s0 s'.
Proof.
  intros Hf. revert s. induction l as [|i l IH]; intros s Hr; cbn [schedule]; [by intros [= ->]|].
  destruct (f i s) as [s1|] eqn:Hi; [|done]. apply IH. eapply reach_step; [exact Hr|by eapply Hf].
Qed.

(** [P] is reached whatever steps are chosen: it holds, or some step can be made
    and after every step it is inevitable. No execution avoids it, by going on for
    ever or by getting stuck. *)
Inductive inevitable (P : St → Prop) (s : St) : Prop :=
| inev_now : P s → inevitable P s
| inev_step : (∃ s', step s s') → (∀ s', step s s' → inevitable P s') → inevitable P s.

(** A measure that every step decreases, under an invariant that excludes
    getting stuck before [P]. *)
Lemma inevitable_measure (I P : St → Prop) (m : St → nat) s :
  (∀ a, Decision (P a)) → (∀ a b, I a → step a b → I b ∧ (m b < m a)%nat) →
  (∀ a, I a → ¬ P a → ∃ b, step a b) → I s → inevitable P s.
Proof.
  intros Hd Hstep Hprog. remember (m s) as n eqn:Hn. revert s Hn.
  induction n as [n IH] using lt_wf_ind. intros s -> Hs. destruct (decide (P s)); [by apply inev_now|].
  apply inev_step; [by apply Hprog|]. intros s' Hs'. destruct (Hstep _ _ Hs Hs') as [Hs1 Hlt]. by eapply IH.
Qed.

(** What the invariant says of [P] holds where it is reached. *)
Lemma inevitable_strengthen (I P Q : St → Prop) s :
  (∀ a b, I a → step a b → I b) → (∀ a, I a → P a → Q a) → I s → inevitable P s → inevitable Q s.
Proof.
  intros Hstep HQ Hs Hi. induction Hi as [s HP|s Hex Hall IH]; [by apply inev_now, HQ|].
  apply inev_step; [done|]. intros s' Hs'. apply IH; [done|]. by eapply Hstep.
Qed.
End star.

(** * Lists of threads

    Replacing one element of a list, up to the order of the others. *)

Lemma list_focus {A} (l : list A) i x :
  l !! i = Some x → ∃ rest, l ≡ₚ x :: rest ∧ ∀ y, <[i := y]> l ≡ₚ y :: rest.
Proof.
  intros Hi. exists (delete i l). split; [by apply delete_Permutation|]. intros y.
  rewrite insert_take_drop by (by eapply lookup_lt_Some). rewrite delete_take_drop.
  by rewrite Permutation_middle.
Qed.

(** * Decimal numbers *)

(** [std::to_string] and [operator<<] of an unsigned integer. *)
Definition digit (d : N) : ascii := ascii_of_N (48 + d).

Fixpoint digits (fuel : nat) (n : N) : bytes :=
  match fuel with
  | O => []
  | S f => if (n <? 10)%N then [digit n]
           else digits f (n / 10) ++ [digit (n mod 10)]
  end.

Definition to_string (n : N) : bytes := digits (S (N.size_nat n)) n.

Definition is_digit (c : ascii) : bool :=
  let n := N_of_ascii c in ((48 <=? n) && (n <=? 57))%N.

Definition digit_val (c : ascii) : N := (N_of_ascii c - 48)%N.

(** Value of a run of digits, most significant first. *)
Definition digits_val (ds : bytes) : N :=
  fold_left (λ acc c, (acc * 10 + digit_val c)%N) ds 0%N.

Definition ULONG_MAX : N := (2 ^ 64 - 1)%N.

(** The longest prefix whose characters satisfy [p], and the rest. *)
Fixpoint span {A} (p : A → bool) (l : list A) : list A * list A :=
  match l with
  | [] => ([], [])
  | x :: l' => if p x then let '(a, b) := span p l' in (x :: a, b) else ([], l)
  end.

(** [std::stoul]: skips blanks, accepts one sign, reads the longest run of
    digits; no digit throws [invalid_argument], a value above [ULONG_MAX] throws
    [out_of_range]; a minus sign negates modulo 2^64. *)
Definition stoul (s : bytes) : outcome N :=
  let s1 := snd (span isspace s) in
  let '(neg, s2) :=
    match s1 with
    | c :: t => if decide (c = "-"%char) then (true, t)
                else if decide (c = "+"%char) then (false, t) else (false, s1)
    | [] => (false, [])
    end in
  let ds := fst (span is_digit s2) in
  match ds with
  | [] => Throw invalid_argument
  | _ => let v := digits_val ds in
         if (ULONG_MAX <? v)%N then Throw out_of_range
         else Ret (if neg then ((2 ^ 64 - v) mod 2 ^ 64)%N else v)
  end.

Lemma length_span {A} (p : A → bool) l : (length (fst (span p l)) ≤ length l)%nat.
Proof.
  induction l as [|x l IH]; simpl; [lia|]. destruct (p x); [|simpl; lia]. destruct (span p l). simpl in *. lia.
Qed.

(** Bytes stored at the start of an array. *)
Lemma length_overlay {A} (d buf : list A) :
  (length d ≤ length buf)%nat → length (d ++ drop (length d) buf) = length buf.
Proof. rewrite length_app, length_drop. lia. Qed.

Lemma span_all {A} (p : A → bool) (l r : list A) :
  Forall (λ x, p x = true) l →
  match r with [] => True | x :: _ => p x = false end →
  span p (l ++ r) = (l, r).
Proof.
  intros Hl Hr. induction Hl as [|x l Hx Hl IH]; simpl.
  - destruct r as [|y r]; simpl; [done|]. by rewrite Hr.
  - by rewrite Hx, IH.
Qed.

Lemma digit_is_digit d : (d < 10)%N → is_digit (digit d) = true.
Proof.
  intros H. unfold is_digit, digit. rewrite N_ascii_embedding by lia.
  apply andb_true_intro; split; apply N.leb_le; lia.
Qed.

Lemma digit_val_digit d : (d < 10)%N → digit_val (digit d) = d.
Proof. intros H. unfold digit_val, digit. rewrite N_ascii_embedding; lia. Qed.

Lemma digits_all_digits f n : Forall (λ c, is_digit c = true) (digits f n).
Proof.
  revert n. induction f as [|f IH]; intros n; simpl; [constructor|].
  destruct (N.ltb_spec n 10).
  - repeat constructor. by apply digit_is_digit.
  - apply Forall_app; split; [apply IH|]. repeat constructor.
    apply digit_is_digit. apply N.mod_lt. lia.
Qed.

Lemma digits_val_snoc ds c : digits_val (ds ++ [c]) = (digits_val ds * 10 + digit_val c)%N.
Proof. unfold digits_val. by rewrite fold_left_app. Qed.

Lemma digits_value f n : (n < 2 ^ N.of_nat f)%N → digits_val (digits (S f) n) = n.
Proof.
  revert n. induction f as [|f IH]; intros n Hn.
  - assert (n = 0)%N as -> by (change (2 ^ N.of_nat 0)%N with 1%N in Hn; lia). done.
  - change (digits (S (S f)) n) with
      (if (n <? 10)%N then [digit n] else digits (S f) (n / 10) ++ [digit (n mod 10)]).
    destruct (N.ltb_spec n 10) as [Hlt|Hge].
    + unfold digits_val. simpl. by rewrite digit_val_digit.
    + rewrite digits_val_snoc, IH.
      * rewrite digit_val_digit by (apply N.mod_lt; lia).
        pose proof (N.div_mod n 10). lia.
      * rewrite Nat2N.inj_succ, N.pow_succ_r' in Hn.
        apply N.Div0.div_lt_upper_bound. lia.
Qed.

Lemma N_lt_size n : (n < 2 ^ N.of_nat (N.size_nat n))%N.
Proof.
  destruct n as [|p]; [simpl; lia|]. simpl.
  induction p as [p IH|p IH|]; cbn [Pos.size_nat]; rewrite ?Nat2N.inj_succ, ?N.pow_succ_r'; lia.
Qed.

Lemma to_string_value n : digits_val (to_string n) = n.
Proof. apply digits_value, N_lt_size. Qed.

Lemma to_string_digits n : Forall (λ c, is_digit c = true) (to_string n).
Proof. apply digits_all_digits. Qed.

Lemma to_string_nonempty n : to_string n ≠ [].
Proof.
  unfold to_string. cbn [digits]. destruct (n <? 10)%N; [done|].
  intros H. by apply app_nil in H as [_ ?].
Qed.

Lemma is_digit_range c : is_digit c = true → (48 ≤ N_of_ascii c ≤ 57)%N.
Proof. unfold is_digit. rewrite andb_true_iff, !N.leb_le. lia. Qed.

(** Printing an unsigned long and reading it back. *)
Lemma stoul_to_string n : (n ≤ ULONG_MAX)%N → stoul (to_string n) = Ret n.
Proof.
  intros Hn. pose proof (to_string_digits n) as Hd. pose proof (to_string_nonempty n) as Hne.
  unfold stoul. destruct (to_string n) as [|c ds] eqn:E; [done|].
  pose proof (Forall_inv Hd) as Hc. cbn beta in Hc.
  apply is_digit_range in Hc.
  assert (span isspace (c :: ds) = ([], c :: ds)) as ->.
  { cbn [span]. unfold isspace.
    replace ((N_of_ascii c =? 32) || (9 <=? N_of_ascii c) && (N_of_ascii c <=? 13))%N with false; [done|].
    symmetry. apply orb_false_intro; [apply N.eqb_neq; lia|].
    apply andb_false_intro2, N.leb_gt. lia. }
  cbn [snd].
  do 2 (rewrite decide_False by (intros ->; vm_compute in Hc; destruct Hc; congruence)).
  cbn [snd]. pose proof (span_all is_digit (c :: ds) [] Hd I) as Hs. rewrite app_nil_r in Hs. rewrite Hs. cbn [fst].
  rewrite <- E, to_string_value. replace (ULONG_MAX <? n)%N with false; [done|].
  symmetry. by apply N.ltb_ge.
Qed.

(** [std::to_string] and [operator<<] of a signed integer. *)
Definition to_string_Z (z : Z) : bytes :=
  if z <? 0 then "-"%char :: to_string (Z.to_N (- z)) else to_string (Z.to_N z).

(** * Iteration over an [std::unordered_map]

    The order in which the container enumerates its entries is unspecified: it
    is a parameter, known to be an enumeration of the map. *)
Class MapOrder := map_order : gmap bytes bytes → list (bytes * bytes).
Class MapOrderOk `{MapOrder} : Prop := map_order_perm m : map_order m ≡ₚ map_to_list m.

(** Assigning a list of entries in order, later ones overwriting earlier ones. *)
Definition assign_all (l : list (bytes * bytes)) (m : gmap bytes bytes) : gmap bytes bytes :=
  fold_left (λ m kv, <[kv.1 := kv.2]> m) l m.

Lemma assign_all_perm l m :
  l ≡ₚ map_to_list m → assign_all l ∅ = m.
Proof.
  intros Hp. assert (NoDup l.*1) as Hnd.
  { rewrite Hp. apply NoDup_fst_map_to_list. }
  rewrite <- (list_to_map_to_list m), <- (list_to_map_proper l _ Hnd Hp). clear Hp.
  assert (∀ m0, (∀ k, k ∈ l.*1 → m0 !! k = None) → assign_all l m0 = list_to_map l ∪ m0) as Hgen.
  { induction l as [|[k v] l IH]; intros m0 Hm0; simpl.
    - by rewrite map_empty_union.
    - apply list.NoDup_cons in Hnd as [Hk Hnd]. rewrite IH; [|done|].
      + rewrite <- insert_union_r, insert_union_l; [done|].
        by apply not_elem_of_list_to_map_1.
      + intros k' Hk'. rewrite lookup_insert_ne; [|intros ->; done].
        apply Hm0. simpl. by right. }
  rewrite Hgen; [by rewrite map_union_empty|]. intros k _. apply lookup_empty.
Qed.
