(* ===== verification/Error.v ===== *)
(** The error codes of Error.hpp: [server_err_t] is the unsigned value of an
    enumerator, so a code is modelled by its enumerator and [err_code] gives the
    value that is logged and compared. *)

From S2P Require Export Prelude.

Inductive Error :=
| SERVER_OK | SERVER_ALREADY_RUNNING
| SOCKET_INIT_FAILED | SOCKET_BIND_FAILED | SOCKET_LISTEN_FAILED
| LISTEN_WORKER_DUMP | IO_WORKER_DUMP | WORKER_START_FAILED
| WORKER_ALREADY_RUNNING | SAME_CLIENT_FD
| INVALID_EPOLL_FD | MAX_EVENT_NUM | EPOLL_EVENT_ADD_FAILED
| EPOLL_EVENT_DEL_FAILED | EPOLL_EVENT_MOD_FAILED | EPOLL_WAIT_FAILED
| PARSE_REQ_METHOD_FAILED | PARSE_REQ_URI_FAILED | PARSE_REQ_VERSION_FAILED
| PARSE_TERMINATE_CH_FAILED | INVALID_REQ_HEADER_FORMAT
| PARSE_REQ_HEADER_FAILED | PARSE_REQ_BODY_FAILED
| GEN_RESPONSE_LINE_FAILED | GEN_RESPONSE_HEAD_FAILED
| GEN_RESPONSE_BODY_FAILED | INVALID_CONTENT_LENGTH
| STATIC_RESOURCE_ACCESS_FAILED | INVALID_FILE_PATH | FILE_READ_ABORT
| REDIS_CONN_TIMEOUT | REDIS_INIT_FAILED | REDIS_INIT_ALREADYDONE
| REDIS_PASSWD_WRONG | REDIS_NULL_REPLY
| REDIS_POOL_CONN_NULL | REDIS_POOL_MAXCONN | REDIS_POOL_CONNEXIST
| LOGFILE_OPEN_FAILED | LOG_THREAD_STOPPED | LOGFILE_WRITE_FAILE.

Abbreviation server_err_t := Error (only parsing).

#[global] Instance Error_eq_dec : EqDecision Error.
Proof. solve_decision. Defined.

(** The enumerators in declaration order; the value of one is its position. *)
Definition all_errors : list Error :=
  [ SERVER_OK; SERVER_ALREADY_RUNNING;
    SOCKET_INIT_FAILED; SOCKET_BIND_FAILED; SOCKET_LISTEN_FAILED;
    LISTEN_WORKER_DUMP; IO_WORKER_DUMP; WORKER_START_FAILED;
    WORKER_ALREADY_RUNNING; SAME_CLIENT_FD;
    INVALID_EPOLL_FD; MAX_EVENT_NUM; EPOLL_EVENT_ADD_FAILED;
    EPOLL_EVENT_DEL_FAILED; EPOLL_EVENT_MOD_FAILED; EPOLL_WAIT_FAILED;
    PARSE_REQ_METHOD_FAILED; PARSE_REQ_URI_FAILED; PARSE_REQ_VERSION_FAILED;
    PARSE_TERMINATE_CH_FAILED; INVALID_REQ_HEADER_FORMAT;
    PARSE_REQ_HEADER_FAILED; PARSE_REQ_BODY_FAILED;
    GEN_RESPONSE_LINE_FAILED; GEN_RESPONSE_HEAD_FAILED;
    GEN_RESPONSE_BODY_FAILED; INVALID_CONTENT_LENGTH;
    STATIC_RESOURCE_ACCESS_FAILED; INVALID_FILE_PATH; FILE_READ_ABORT;
    REDIS_CONN_TIMEOUT; REDIS_INIT_FAILED; REDIS_INIT_ALREADYDONE;
    REDIS_PASSWD_WRONG; REDIS_NULL_REPLY;
    REDIS_POOL_CONN_NULL; REDIS_POOL_MAXCONN; REDIS_POOL_CONNEXIST;
    LOGFILE_OPEN_FAILED; LOG_THREAD_STOPPED; LOGFILE_WRITE_FAILE ].

Fixpoint index_of (e : Error) (l : list Error) (i : N) : N :=
  match l with
  | [] => i
  | x :: l' => if decide (x = e) then i else index_of e l' (N.succ i)
  end.

Definition err_code (e : Error) : N := index_of e all_errors 0.

(** Two codes are equal exactly when the enumerators are: comparing unsigned
    values, as the code does, is comparing enumerators. *)
Lemma err_code_inj : Inj (=) (=) err_code.
Proof.
  intros e1 e2 H.
  assert (∀ e, all_errors !! N.to_nat (err_code e) = Some e) as Hl by (intros []; reflexivity).
  apply (inj Some). by rewrite <- (Hl e1), <- (Hl e2), H.
Qed.
