(* ===== verification/HttpConfig.v ===== *)
(** HttpUtils/HttpConfig: request methods, protocol versions and response
    statuses, with their string tables. *)

From S2P Require Export Prelude.

Inductive HttpRequestMethod :=
| GET | HEAD | POST
| PUT | DELETE | CONNECT
| OPTIONS | TRACE | PATCH
| UNKNOWN_REQUEST_METHOD.

#[global] Instance HttpRequestMethod_eq_dec : EqDecision HttpRequestMethod.
Proof. solve_decision. Defined.

(** [HttpRequestMethodString], indexed by the enumerator. *)
Definition HttpRequestMethodString (m : HttpRequestMethod) : bytes :=
  match m with
  | GET => $"GET" | HEAD => $"HEAD" | POST => $"POST"
  | PUT => $"PUT" | DELETE => $"DELETE" | CONNECT => $"CONNECT"
  | OPTIONS => $"OPTIONS" | TRACE => $"TRACE" | PATCH => $"PATCH"
  | UNKNOWN_REQUEST_METHOD => $"UNKNOWN_REQUEST_METHOD"
  end.

Definition request_method_entries : list (bytes * HttpRequestMethod) :=
  [ ($"GET", GET); ($"HEAD", HEAD); ($"POST", POST);
    ($"PUT", PUT); ($"DELETE", DELETE); ($"CONNECT", CONNECT);
    ($"OPTIONS", OPTIONS); ($"TRACE", TRACE); ($"PATCH", PATCH) ].

Definition string2HttpReqeustMethod : gmap bytes HttpRequestMethod :=
  list_to_map request_method_entries.

Definition toRequestMethod (s : bytes) : HttpRequestMethod :=
  match string2HttpReqeustMethod !! s with
  | Some m => m
  | None => UNKNOWN_REQUEST_METHOD
  end.

Definition serialize_method (m : HttpRequestMethod) : bytes := HttpRequestMethodString m.

Inductive HttpVersion := HTTP_1_0 | HTTP_1_1 | UNKNOWN_HTTP_VERSION.

#[global] Instance HttpVersion_eq_dec : EqDecision HttpVersion.
Proof. solve_decision. Defined.

Definition HttpVersionString (v : HttpVersion) : bytes :=
  match v with
  | HTTP_1_0 => $"HTTP/1.0"
  | HTTP_1_1 => $"HTTP/1.1"
  | UNKNOWN_HTTP_VERSION => $"UNKNOWN_HTTP_VERSION"
  end.

Definition http_version_entries : list (bytes * HttpVersion) :=
  [ ($"HTTP/1.0", HTTP_1_0); ($"HTTP/1.1", HTTP_1_1) ].

Definition string2HttpVersion : gmap bytes HttpVersion := list_to_map http_version_entries.

Definition toHttpVersion (s : bytes) : HttpVersion :=
  match string2HttpVersion !! s with
  | Some v => v
  | None => UNKNOWN_HTTP_VERSION
  end.

Definition serialize_version (v : HttpVersion) : bytes := HttpVersionString v.

(** ** Response statuses *)

(** [statecode_t] is [uint16_t]: a value is stored modulo 2^16. *)
Definition statecode_t (n : N) : N := (n mod 2 ^ 16)%N.

Definition status_entries : list (N * bytes) :=
  [ (200%N, $"OK"); (206%N, $"Partial Content");
    (400%N, $"Bad Request"); (403%N, $"Forbidden"); (404%N, $"Not Found");
    (500%N, $"Internal Server Error"); (501%N, $"Not Implemented");
    (502%N, $"Bad Gateway"); (505%N, $"HTTP Version not supported") ].

Definition StatusCodeDetail : gmap N bytes := list_to_map status_entries.

Record HttpResponseStatus := { __code : N; __detail : bytes }.

Definition mk_status (code : N) : HttpResponseStatus :=
  {| __code := statecode_t code;
     __detail := match StatusCodeDetail !! statecode_t code with
                 | Some d => d
                 | None => []
                 end |}.

Definition default_status : HttpResponseStatus := mk_status 200.

Definition getCode (s : HttpResponseStatus) : N := __code s.
Definition getDetail (s : HttpResponseStatus) : bytes := __detail s.

(** ** Properties *)

Lemma serialize_method_word m :
  serialize_method m ≠ [] ∧ Forall (λ c, isspace c = false) (serialize_method m).
Proof. destruct m; (split; [done|]); repeat constructor. Qed.

Lemma serialize_version_word v :
  serialize_version v ≠ [] ∧ Forall (λ c, isspace c = false) (serialize_version v).
Proof. destruct v; (split; [done|]); repeat constructor. Qed.

Lemma toRequestMethod_serialize m : toRequestMethod (serialize_method m) = m.
Proof. destruct m; vm_compute; reflexivity. Qed.

Lemma toHttpVersion_serialize v : toHttpVersion (serialize_version v) = v.
Proof. destruct v; vm_compute; reflexivity. Qed.

Ltac in_table :=
  repeat match goal with
  | H : _ ∈ _ :: _ |- _ => apply elem_of_cons in H as [[= -> ->]|H]
  | H : _ ∈ [] |- _ => by apply not_elem_of_nil in H
  end.

Lemma toRequestMethod_known s m :
  m ≠ UNKNOWN_REQUEST_METHOD → toRequestMethod s = m → s = serialize_method m.
Proof.
  unfold toRequestMethod, string2HttpReqeustMethod. intros Hm H.
  destruct (_ !! s) as [m'|] eqn:E; [|congruence]. subst m'.
  apply elem_of_list_to_map_2 in E. unfold request_method_entries in E. in_table; reflexivity.
Qed.

Lemma toHttpVersion_known s v :
  v ≠ UNKNOWN_HTTP_VERSION → toHttpVersion s = v → s = serialize_version v.
Proof.
  unfold toHttpVersion, string2HttpVersion. intros Hv H.
  destruct (_ !! s) as [v'|] eqn:E; [|congruence]. subst v'.
  apply elem_of_list_to_map_2 in E. unfold http_version_entries in E. in_table; reflexivity.
Qed.

(** A status built for a code of the table carries that code and its reason
    phrase; every other code carries an empty one. *)
Lemma mk_status_table code d :
  (code, d) ∈ status_entries → mk_status code = {| __code := code; __detail := d |}.
Proof. unfold status_entries. intros H. in_table; vm_compute; reflexivity. Qed.
