(* ===== verification/Streams.v ===== *)
(** The part of the C++ stream library the server is written against: input
    stream buffers with their get area and virtual [underflow]/[showmanyc],
    [std::istream]'s sentry, [operator>>] of a string, [get], [getline],
    [readsome], and output streams over a buffer with [sputc] and [sync].

    [StreamBuf] and [OStreamBuf] are the interfaces a concrete buffer
    implements (the socket buffer of SocketStream.v, a string buffer);
    [StreamBufOk] states what reading from a lawful buffer means: a buffer has a
    [view], the bytes still to be read, and nothing else is observable by the
    operations below except [readsome]. *)

From S2P Require Export Prelude.

(** [traits::eof()] *)
Definition EOF : Z := -1.

Definition to_int_type (c : ascii) : Z := Z.of_N (N_of_ascii c).

(** Conversion of an [int] to [char]: its low eight bits. *)
Definition to_char_type (i : Z) : ascii := ascii_of_N (Z.to_N (i mod 256)).

(** [char] is signed: the value of [*gptr()] converted to [int]. *)
Definition char_as_int (c : ascii) : Z :=
  let n := to_int_type c in if n <? 128 then n else n - 256.

(** * Input *)

Class StreamBuf (B : Type) := {
  get_area : B → bytes;       (* the characters of [gptr, egptr) *)
  gbump : nat → B → B;
  underflow : B → Z * B;
  showmanyc : B → Z
}.

Section streambuf.
Context {B : Type} `{StreamBuf B}.

Definition sgetc (b : B) : Z * B :=
  match get_area b with
  | c :: _ => (to_int_type c, b)
  | [] => underflow b
  end.

(** The default [uflow]. *)
Definition uflow (b : B) : Z * B :=
  let '(c, b1) := underflow b in
  if c =? EOF then (EOF, b1)
  else match get_area b1 with
       | x :: _ => (to_int_type x, gbump 1 b1)
       | [] => (EOF, b1)
       end.

Definition sbumpc (b : B) : Z * B :=
  match get_area b with
  | c :: _ => (to_int_type c, gbump 1 b)
  | [] => uflow b
  end.

Definition snextc (b : B) : Z * B :=
  let '(c, b1) := sbumpc b in
  if c =? EOF then (EOF, b1) else sgetc b1.

Definition in_avail (b : B) : Z :=
  match get_area b with
  | [] => showmanyc b
  | l => Z.of_nat (length l)
  end.

(** The default [xsgetn]: characters one after the other until [n] are read. *)
Fixpoint xsgetn (n : nat) (b : B) : bytes * B :=
  match n with
  | O => ([], b)
  | S n' =>
      let '(c, b1) := sbumpc b in
      if c =? EOF then ([], b1)
      else let '(r, b2) := xsgetn n' b1 in (to_char_type c :: r, b2)
  end.

(** The inner loop of the extractors: with [c] the current character, advance
    until the end of the input or a character [stop] accepts, collecting the
    characters passed. *)
Fixpoint scan (stop : Z → bool) (fuel : nat) (c : Z) (acc : bytes) (b : B)
  : outcome (Z * bytes * B) :=
  if (c =? EOF) || stop c then Ret (c, acc, b)
  else match fuel with
       | O => Spin
       | S f => let '(c', b') := snextc b in
                scan stop f c' (acc ++ [to_char_type c]) b'
       end.
End streambuf.

(** An [std::istream]: a buffer and the state bits ([badbit] is set by nothing
    the server does to an input stream). *)
Record istream (B : Type) := mk_istream {
  rdbuf : B;
  eofbit : bool;
  failbit : bool
}.
Arguments mk_istream {B} _ _ _.
Arguments rdbuf {B} _.
Arguments eofbit {B} _.
Arguments failbit {B} _.

Abbreviation IS B A := (SM (istream B) A).

Section istream_ops.
Context {B : Type} `{StreamBuf B}.

Definition good (s : istream B) : bool := negb (eofbit s || failbit s).

(** [eof()], [fail()] and [operator bool]. *)
Definition is_eof : IS B bool := sm_gets eofbit.
Definition is_fail : IS B bool := sm_gets failbit.

Definition setstate (eof fail : bool) (s : istream B) : istream B :=
  mk_istream (rdbuf s) (eofbit s || eof) (failbit s || fail).

(** An operation of the buffer, the state bits unchanged. *)
Definition on_buf {A} (f : B → A * B) : IS B A := λ s,
  let '(a, b) := f (rdbuf s) in Ret (a, mk_istream b (eofbit s) (failbit s)).

(** Characters of a scan up to a stopping one, starting at the current one. *)
Definition scan_stream (stop : Z → bool) (fuel : nat) : IS B (Z * bytes) := λ s,
  let '(c, b) := sgetc (rdbuf s) in
  match scan stop fuel c [] b with
  | Ret (c', w, b') => Ret ((c', w), mk_istream b' (eofbit s) (failbit s))
  | Throw e => Throw e
  | Undef => Undef
  | Spin => Spin
  end.

Definition set_bits (eof fail : bool) : IS B () := sm_modify (setstate eof fail).

Definition not_space (c : Z) : bool := negb (isspace (to_char_type c)).
Definition is_space (c : Z) : bool := isspace (to_char_type c).

(** [istream::sentry(is, noskipws)]; the stream's [skipws] flag is set. *)
Definition sentry (noskip : bool) (fuel : nat) : IS B bool :=
  ok ← sm_gets good;
  if negb ok then set_bits false true;; mret false
  else if noskip then mret true
  else
    '(c, _) ← scan_stream not_space fuel;
    if c =? EOF then set_bits true true;; mret false
    else mret true.

(** [operator>>(istream&, string&)]: [None] when the sentry failed and the
    string is left as it was. *)
Definition extract_word (fuel : nat) : IS B (option bytes) :=
  ok ← sentry false fuel;
  if negb ok then mret None
  else
    '(c, w) ← scan_stream is_space fuel;
    set_bits (c =? EOF) (bool_decide (w = []));;
    mret (Some w).

(** [istream::get()] *)
Definition get (fuel : nat) : IS B Z :=
  ok ← sentry true fuel;
  if negb ok then mret EOF
  else
    c ← on_buf sbumpc;
    set_bits (c =? EOF) (c =? EOF);;
    mret c.

(** [getline(istream&, string&, '\n')]; [None] when the sentry failed. *)
Definition is_LF (c : Z) : bool := c =? to_int_type ch_LF.

Definition getline (fuel : nat) : IS B (option bytes) :=
  ok ← sentry true fuel;
  if negb ok then mret None
  else
    '(c, w) ← scan_stream is_LF fuel;
    if c =? EOF then
      set_bits true (bool_decide (w = []));; mret (Some w)
    else
      on_buf sbumpc;; mret (Some w).

(** [istream::readsome(buf, n)]: the characters stored into [buf]. *)
Definition readsome (n : nat) : IS B bytes :=
  ok ← sentry true 0;
  if negb ok then mret []
  else
    num ← sm_gets (λ s, in_avail (rdbuf s));
    if 0 <? num then on_buf (xsgetn (Nat.min (Z.to_nat num) n))
    else set_bits (num =? -1) false;; mret [].
End istream_ops.

(** ** What reading means *)

(** [c] is the [int] some buffer operation returns for the character [x]:
    its unsigned value, or its signed one when it came from an [underflow] that
    returned a plain [char]. *)
Definition char_int (x : ascii) (c : Z) : Prop := c = to_int_type x ∨ c = char_as_int x.

Class StreamView (B : Type) := view : B → bytes.

Class StreamBufOk (B : Type) `{StreamBuf B, StreamView B} : Prop := {
  get_area_gbump n b : (n ≤ length (get_area b))%nat → get_area (gbump n b) = drop n (get_area b);
  view_get_area b : get_area b `prefix_of` view b;
  view_gbump n b : (n ≤ length (get_area b))%nat → view (gbump n b) = drop n (view b);
  underflow_EOF b b' : get_area b = [] → underflow b = (EOF, b') → view b = [];
  underflow_char b c b' :
    get_area b = [] → underflow b = (c, b') → c ≠ EOF →
    view b' = view b ∧ ∃ x tl, get_area b' = x :: tl ∧ char_int x c
}.

(** The string buffer of an [std::istringstream] over a string: the get area is
    all that is left, and there is never more to come. *)
#[global] Instance string_buf : StreamBuf bytes := {
  get_area b := b;
  gbump n b := drop n b;
  underflow b := (EOF, b);
  showmanyc b := 0
}.
#[global] Instance string_view : StreamView bytes := λ b, b.
#[global] Instance string_buf_ok : StreamBufOk bytes.
Proof. split; simpl; [done|done|done|by intros b b' ->|congruence]. Qed.

Lemma to_int_range x : 0 ≤ to_int_type x < 256.
Proof. unfold to_int_type. pose proof (N_ascii_bounded x). lia. Qed.

Lemma char_int_to_char x c : char_int x c → to_char_type c = x.
Proof.
  pose proof (to_int_range x) as Hx. unfold to_char_type.
  assert (c mod 256 = to_int_type x → ascii_of_N (Z.to_N (c mod 256)) = x) as Hc.
  { intros ->. unfold to_int_type. by rewrite N2Z.id, ascii_N_embedding. }
  intros [->| ->]; apply Hc.
  - by apply Z.mod_small.
  - unfold char_as_int. destruct (Z.ltb_spec (to_int_type x) 128).
    + by apply Z.mod_small.
    + symmetry. apply (Z.mod_unique_pos _ _ (-1)); lia.
Qed.

Lemma char_int_LF x c : char_int x c → is_LF c = bool_decide (x = ch_LF).
Proof.
  intros Hc. unfold is_LF. destruct (decide (x = ch_LF)) as [->|Hne].
  - rewrite bool_decide_true by done. by destruct Hc as [->| ->].
  - rewrite bool_decide_false by done. apply Z.eqb_neq. intros ->. apply Hne.
    by rewrite <- (char_int_to_char _ _ Hc).
Qed.

Lemma to_int_not_EOF x : to_int_type x ≠ EOF.
Proof. pose proof (to_int_range x). unfold EOF. lia. Qed.

(** A test on characters that does not depend on how they were converted. *)
Definition stop_of (stop : Z → bool) (p : ascii → bool) : Prop :=
  ∀ x c, char_int x c → stop c = p x.

Lemma stop_not_space : stop_of not_space (λ x, negb (isspace x)).
Proof. intros x c Hc. unfold not_space. by rewrite (char_int_to_char x c). Qed.
Lemma stop_is_space : stop_of is_space isspace.
Proof. intros x c Hc. unfold is_space. by rewrite (char_int_to_char x c). Qed.
Lemma stop_is_LF : stop_of is_LF (λ x, bool_decide (x = ch_LF)).
Proof. intros x c. apply char_int_LF. Qed.
#[export] Hint Resolve stop_not_space stop_is_space stop_is_LF : webserver.

(** ** Streams with the same view behave alike

    [peeked b c v]: the buffer [b] has just returned [c] as its current
    character, and [v] is what is left to be read, the current one included. *)
Section view.
Context {B : Type} `{StreamBufOk B}.

Definition peeked (b : B) (c : Z) (v : bytes) : Prop :=
  (c = EOF ∧ v = []) ∨
  (c ≠ EOF ∧ view b = v ∧ ∃ x tl, get_area b = x :: tl ∧ char_int x c).

Lemma char_int_to_int x : char_int x (to_int_type x).
Proof. by left. Qed.

Lemma peeked_cons b c v :
  peeked b c v → c ≠ EOF →
  ∃ x v' tl, v = x :: v' ∧ char_int x c ∧ get_area b = x :: tl ∧ view b = v.
Proof.
  intros [[? _]|(_ & Hv & x & tl & Hga & Hc)] Hne; [done|].
  destruct (view_get_area b) as [k Hk]. rewrite Hga in Hk.
  exists x, (tl ++ k), tl. subst v. rewrite Hk. done.
Qed.

Lemma sgetc_peeked b c b' : sgetc b = (c, b') → peeked b' c (view b).
Proof.
  unfold sgetc. destruct (get_area b) as [|x tl] eqn:Hga.
  - intros Hu. destruct (decide (c = EOF)) as [->|Hne].
    + left. split; [done|]. by eapply underflow_EOF.
    + destruct (underflow_char _ _ _ Hga Hu Hne) as (Hv & x & tl & ? & ?).
      right. split_and!; [done..|]. eauto.
  - intros [= <- <-]. right. split_and!; [apply to_int_not_EOF|done|].
    exists x, tl. split; [done|by left].
Qed.

Lemma snextc_peeked b c x v c' b' :
  peeked b c (x :: v) → snextc b = (c', b') → peeked b' c' v.
Proof.
  intros Hp. assert (c ≠ EOF) as Hne by (destruct Hp as [[??]|[??]]; done).
  destruct (peeked_cons _ _ _ Hp Hne) as (y & v' & tl & [= <- <-] & _ & Hga & Hv).
  unfold snextc, sbumpc. rewrite Hga.
  rewrite (proj2 (Z.eqb_neq _ _) (to_int_not_EOF x)). intros Hs.
  assert (view (gbump 1 b) = v) as <-.
  { rewrite view_gbump by (rewrite Hga; simpl; lia). by rewrite Hv. }
  by apply sgetc_peeked.
Qed.

(** A scan seen on the view: what is passed, what is left. *)
Fixpoint vscan (p : ascii → bool) (fuel : nat) (acc v : bytes) : outcome (bytes * bytes) :=
  match v with
  | [] => Ret (acc, [])
  | x :: v' =>
      if p x then Ret (acc, v)
      else match fuel with O => Spin | S f => vscan p f (acc ++ [x]) v' end
  end.

Lemma scan_vscan stop p fuel : stop_of stop p → ∀ c acc b v,
  peeked b c v →
  match scan stop fuel c acc b with
  | Ret (c', w, b') => ∃ v', vscan p fuel acc v = Ret (w, v') ∧ peeked b' c' v'
  | Spin => vscan p fuel acc v = Spin
  | _ => False
  end.
Proof.
  intros Hstop. induction fuel as [|f IH]; intros c acc b v Hp; simpl;
    (destruct (Z.eqb_spec c EOF) as [->|Hne]; simpl;
     [destruct Hp as [[_ ->]|[? _]]; [exists []; split; [done|by left]|done]|]);
    destruct (peeked_cons _ _ _ Hp Hne) as (x & v' & tl & -> & Hc & Hga & Hv);
    rewrite (Hstop x c Hc); destruct (p x) eqn:Hpx.
  - by exists (x :: v').
  - done.
  - by exists (x :: v').
  - destruct (snextc b) as [c' b'] eqn:Hs.
    rewrite (char_int_to_char x c Hc). apply IH. by eapply snextc_peeked.
Qed.

Lemma peeked_EOF b c v : peeked b c v → (c =? EOF) = bool_decide (v = []).
Proof.
  intros Hp. destruct (Z.eqb_spec c EOF) as [->|Hne].
  - destruct Hp as [[_ ->]|[? _]]; done.
  - destruct (peeked_cons _ _ _ Hp Hne) as (x & v' & tl & -> & _). done.
Qed.

Lemma peeked_view b c v : peeked b c v → v ≠ [] → view b = v.
Proof. intros [[_ ->]|(_ & ? & _)]; done. Qed.

Lemma sbumpc_view b c b' :
  sbumpc b = (c, b') →
  match view b with
  | [] => c = EOF
  | x :: v => (c = to_int_type x ∧ view b' = v)
  end.
Proof.
  unfold sbumpc. destruct (get_area b) as [|x tl] eqn:Hga.
  - unfold uflow. destruct (underflow b) as [c1 b1] eqn:Hu.
    destruct (Z.eqb_spec c1 EOF) as [->|Hne].
    + intros [= <- <-]. by rewrite (underflow_EOF _ _ Hga Hu).
    + destruct (underflow_char _ _ _ Hga Hu Hne) as (Hv & x & tl & Hga1 & Hc).
      rewrite Hga1. intros [= <- <-]. rewrite <- Hv.
      destruct (view_get_area b1) as [k Hk]. rewrite Hga1 in Hk. rewrite Hk. split; [done|].
      rewrite view_gbump by (rewrite Hga1; simpl; lia). by rewrite Hk.
  - intros [= <- <-]. destruct (view_get_area b) as [k Hk]. rewrite Hga in Hk.
    rewrite Hk. split; [done|].
    rewrite view_gbump by (rewrite Hga; simpl; lia). by rewrite Hk.
Qed.
End view.

(** [sim Q m1 m2]: from streams with the same bits and, while they are good, the
    same view, the two computations have the same outcome, results related by
    [Q] and streams still alike. *)
Section sim.
Context {B1 B2 : Type} `{StreamBufOk B1} `{StreamBufOk B2}.

Definition alike (s : istream B1) (t : istream B2) : Prop :=
  eofbit s = eofbit t ∧ failbit s = failbit t ∧
  (good s = true → view (rdbuf s) = view (rdbuf t)).

Definition sim {A1 A2} (Q : A1 → A2 → Prop) (m1 : IS B1 A1) (m2 : IS B2 A2) : Prop :=
  ∀ s t, alike s t →
  match m1 s, m2 t with
  | Ret (a, s'), Ret (b, t') => Q a b ∧ alike s' t'
  | Throw e, Throw e' => e = e'
  | Undef, Undef => True
  | Spin, Spin => True
  | _, _ => False
  end.

Lemma sim_ret {A1 A2} (Q : A1 → A2 → Prop) a b : Q a b → sim Q (mret a) (mret b).
Proof. intros HQ s t Hst. by split. Qed.

Lemma sim_bind {A1 A2 C1 C2} (P : A1 → A2 → Prop) (Q : C1 → C2 → Prop) m1 m2 k1 k2 :
  sim P m1 m2 → (∀ a b, P a b → sim Q (k1 a) (k2 b)) → sim Q (m1 ≫= k1) (m2 ≫= k2).
Proof.
  intros Hm Hk s t Hst. specialize (Hm s t Hst). unfold mbind, SM_bind.
  destruct (m1 s) as [[a s']| | |], (m2 t) as [[b t']| | |]; try done.
  destruct Hm as [HP Hst']. by apply Hk.
Qed.

Lemma alike_good s t : alike s t → good s = good t.
Proof. intros (He & Hf & _). unfold good. by rewrite He, Hf. Qed.

Lemma alike_setstate e f s t : alike s t → alike (setstate e f s) (setstate e f t).
Proof.
  intros (He & Hf & Hv). split_and!; simpl; [by rewrite He|by rewrite Hf|].
  unfold good; simpl. intros Hg. apply Hv. unfold good.
  destruct (eofbit s), (failbit s), e, f; simpl in *; done.
Qed.

(** Once a bit is set, what the buffer holds no longer matters. *)
Lemma alike_dead b1 b2 e f : e || f = true → alike (mk_istream b1 e f) (mk_istream b2 e f).
Proof. intros Hef. split_and!; [done..|]. unfold good. simpl. by rewrite Hef. Qed.

Lemma sim_is_fail : sim eq is_fail is_fail.
Proof. intros s t Hst. split; [by destruct Hst as (_ & ? & _)|done]. Qed.

Lemma scan_stream_sim stop p fuel s t :
  stop_of stop p → alike s t → good s = true →
  match scan_stream stop fuel s, scan_stream stop fuel t with
  | Ret ((c, w), s'), Ret ((c', w'), t') =>
      w = w' ∧ (c =? EOF) = (c' =? EOF) ∧
      eofbit s' = eofbit s ∧ failbit s' = failbit s ∧
      eofbit t' = eofbit t ∧ failbit t' = failbit t ∧
      ((c =? EOF) = false → view (rdbuf s') = view (rdbuf t') ∧ view (rdbuf s') ≠ [])
  | Spin, Spin => True
  | _, _ => False
  end.
Proof.
  intros Hstop (He & Hf & Hv) Hg. specialize (Hv Hg). unfold scan_stream.
  destruct (sgetc (rdbuf s)) as [c1 b1] eqn:E1.
  destruct (sgetc (rdbuf t)) as [c2 b2] eqn:E2.
  pose proof (scan_vscan stop p fuel Hstop c1 [] b1 _ (sgetc_peeked _ _ _ E1)) as S1.
  pose proof (scan_vscan stop p fuel Hstop c2 [] b2 _ (sgetc_peeked _ _ _ E2)) as S2.
  rewrite Hv in S1.
  destruct (scan stop fuel c1 [] b1) as [[[c1' w1] b1']| | |],
           (scan stop fuel c2 [] b2) as [[[c2' w2] b2']| | |]; try done;
    try (destruct S1 as (v1 & S1 & P1)); try (destruct S2 as (v2 & S2 & P2));
    try congruence.
  rewrite S1 in S2. injection S2 as <- <-.
  rewrite (peeked_EOF _ _ _ P1), (peeked_EOF _ _ _ P2).
  split_and!; try done. intros Hne. apply bool_decide_eq_false in Hne. simpl.
  by rewrite (peeked_view _ _ _ P1 Hne), (peeked_view _ _ _ P2 Hne).
Qed.

Lemma alike_ret_bits b1 b2 e f :
  view b1 = view b2 → alike (mk_istream b1 e f) (mk_istream b2 e f).
Proof. intros Hv. by split_and!. Qed.

Lemma good_bits {B} (s : istream B) : good s = true → eofbit s = false ∧ failbit s = false.
Proof. unfold good. destruct (eofbit s), (failbit s); done. Qed.

(** What a scan-based operation does after its scan. *)
Lemma sim_after_scan {A} stop p fuel (k1 : Z * bytes → IS B1 A) (k2 : Z * bytes → IS B2 A) s t :
  stop_of stop p → alike s t → good s = true →
  (∀ c c' w b1 b2, (c =? EOF) = (c' =? EOF) →
     ((c =? EOF) = false → view b1 = view b2 ∧ view b1 ≠ []) →
     match k1 (c, w) (mk_istream b1 false false), k2 (c', w) (mk_istream b2 false false) with
     | Ret (a, s'), Ret (b, t') => a = b ∧ alike s' t'
     | _, _ => False
     end) →
  match (scan_stream stop fuel ≫= k1) s, (scan_stream stop fuel ≫= k2) t with
  | Ret (a, s'), Ret (b, t') => a = b ∧ alike s' t'
  | Spin, Spin => True
  | _, _ => False
  end.
Proof.
  intros Hstop Hst Hg Hk. pose proof (scan_stream_sim stop p fuel s t Hstop Hst Hg) as Hs.
  unfold mbind, SM_bind. pose proof Hst as (He & Hf & _). destruct (good_bits _ Hg) as [Hse Hsf].
  destruct (scan_stream stop fuel s) as [[[c w] [b1 e1 f1]]| | |],
           (scan_stream stop fuel t) as [[[c' w'] [b2 e2 f2]]| | |]; try done.
  simpl in Hs. destruct Hs as (<- & Hc & -> & -> & -> & -> & Hv).
  rewrite <- He, <- Hf, Hse, Hsf. specialize (Hk c c' w b1 b2 Hc Hv).
  destruct (k1 (c, w) (mk_istream b1 false false)) as [[]| | |],
           (k2 (c', w) (mk_istream b2 false false)) as [[]| | |]; done.
Qed.

Ltac sim_unfold := unfold mbind, SM_bind, mret, SM_ret, sm_gets, set_bits, sm_modify in *.

Lemma sim_sentry noskip fuel : sim eq (@sentry B1 _ noskip fuel) (@sentry B2 _ noskip fuel).
Proof.
  intros s t Hst. unfold sentry.
  change ((sm_gets good ≫= ?k) s) with (k (good s) s).
  change ((sm_gets good ≫= ?k) t) with (k (good t) t).
  cbv beta. rewrite <- (alike_good s t Hst). destruct (good s) eqn:Hg; simpl.
  - destruct noskip; [done|].
    match goal with |- context [(scan_stream not_space fuel ≫= ?k1) s] =>
      match goal with |- context [(scan_stream not_space fuel ≫= ?k2) t] =>
        pose proof (sim_after_scan _ _ fuel k1 k2 s t stop_not_space Hst Hg) as Hs end end.
    revert Hs; intros Hs; (lapply Hs; clear Hs; [intros Hs|]).
    + by repeat case_match.
    + intros c c' w b1 b2 Hc Hv. rewrite <- Hc. destruct (c =? EOF); sim_unfold; simpl.
      * split; [done|]. by apply alike_dead.
      * split; [done|]. by apply alike_ret_bits, Hv.
  - sim_unfold. split; [done|]. by apply alike_setstate.
Qed.

(** A stream the sentry accepted is good. *)
Lemma sentry_good {B} `{StreamBuf B} noskip fuel (s s' : istream B) :
  sentry noskip fuel s = Ret (true, s') → good s' = true.
Proof.
  unfold sentry. change ((sm_gets good ≫= ?k) s) with (k (good s) s). cbv beta.
  destruct (good s) eqn:Hg; simpl; [|sim_unfold; congruence].
  destruct noskip; [by intros [= <-]|].
  unfold scan_stream. sim_unfold.
  destruct (sgetc (rdbuf s)) as [c b]. destruct (scan _ _ _ _ _) as [[[c' w] b']| | |]; try done.
  destruct (c' =? EOF); [done|]. by intros [= <-].
Qed.

(** Operations guarded by a sentry. *)
Lemma sim_guarded {A} noskip fuel (d : A) (k1 : IS B1 A) (k2 : IS B2 A) :
  (∀ s t, alike s t → good s = true →
     match k1 s, k2 t with
     | Ret (a, s'), Ret (b, t') => a = b ∧ alike s' t'
     | Spin, Spin => True
     | _, _ => False
     end) →
  sim eq (ok ← sentry noskip fuel; if negb ok then mret d else k1)
         (ok ← sentry noskip fuel; if negb ok then mret d else k2).
Proof.
  intros Hk s t Hst. pose proof (sim_sentry noskip fuel s t Hst) as Hsen.
  pose proof (sentry_good noskip fuel s) as Hg.
  unfold mbind, SM_bind.
  destruct (sentry noskip fuel s) as [[ok s']| | |], (sentry noskip fuel t) as [[ok' t']| | |]; try done.
  destruct Hsen as [<- Hst']. destruct ok; simpl; [|done].
  specialize (Hk s' t' Hst' (Hg s' eq_refl)).
  destruct (k1 s') as [[]| | |], (k2 t') as [[]| | |]; done.
Qed.

Lemma sim_scan_op {A} noskip stop p fuel (d : A) (k1 : Z * bytes → IS B1 A) (k2 : Z * bytes → IS B2 A) :
  stop_of stop p →
  (∀ c c' w b1 b2, (c =? EOF) = (c' =? EOF) →
     ((c =? EOF) = false → view b1 = view b2 ∧ view b1 ≠ []) →
     match k1 (c, w) (mk_istream b1 false false), k2 (c', w) (mk_istream b2 false false) with
     | Ret (a, s'), Ret (b, t') => a = b ∧ alike s' t'
     | _, _ => False
     end) →
  sim eq (ok ← sentry noskip fuel; if negb ok then mret d else scan_stream stop fuel ≫= k1)
         (ok ← sentry noskip fuel; if negb ok then mret d else scan_stream stop fuel ≫= k2).
Proof.
  intros Hstop Hk. apply sim_guarded. intros s t Hst Hg. by eapply sim_after_scan.
Qed.

Lemma sim_extract_word fuel : sim eq (@extract_word B1 _ fuel) (@extract_word B2 _ fuel).
Proof.
  apply (sim_scan_op _ _ _ _ _ _ _ stop_is_space).
  intros c c' w b1 b2 Hc Hv. rewrite <- Hc. sim_unfold. simpl. split; [done|].
  destruct (c =? EOF); simpl; [by apply alike_dead|by apply alike_ret_bits, Hv].
Qed.

Lemma sbumpc_alike (b1 : B1) (b2 : B2) c1 c2 b1' b2' :
  view b1 = view b2 → sbumpc b1 = (c1, b1') → sbumpc b2 = (c2, b2') →
  c1 = c2 ∧ (c1 ≠ EOF → view b1' = view b2') ∧ (c1 = EOF → view b1 = []).
Proof.
  intros Hv H1' H2'. apply sbumpc_view in H1', H2'. rewrite Hv in H1' |- *.
  destruct (view b2); [by subst|]. destruct H1' as [-> ->], H2' as [-> ->].
  split_and!; [done|done|]. intros He. by apply to_int_not_EOF in He.
Qed.

Lemma sim_get fuel : sim eq (@get B1 _ fuel) (@get B2 _ fuel).
Proof.
  apply sim_guarded. intros s t Hst Hg. destruct (good_bits _ Hg) as [He Hf].
  pose proof Hst as (He' & Hf' & Hv). unfold on_buf. sim_unfold.
  destruct (sbumpc (rdbuf s)) as [c1 b1] eqn:E1, (sbumpc (rdbuf t)) as [c2 b2] eqn:E2.
  destruct (sbumpc_alike _ _ _ _ _ _ (Hv Hg) E1 E2) as (<- & Hv' & _).
  split; [done|]. rewrite <- He', <- Hf', He, Hf.
  destruct (Z.eqb_spec c1 EOF); simpl; [by apply alike_dead|by apply alike_ret_bits, Hv'].
Qed.

Lemma sim_getline fuel : sim eq (@getline B1 _ fuel) (@getline B2 _ fuel).
Proof.
  apply (sim_scan_op _ _ _ _ _ _ _ stop_is_LF).
  intros c c' w b1 b2 Hc Hv. rewrite <- Hc. sim_unfold. destruct (c =? EOF); simpl.
  - split; [done|]. by apply alike_dead.
  - unfold on_buf. simpl. destruct (sbumpc b1) as [c1 b1'] eqn:E1, (sbumpc b2) as [c2 b2'] eqn:E2.
    destruct (Hv eq_refl) as [Hv1 Hne].
    destruct (sbumpc_alike _ _ _ _ _ _ Hv1 E1 E2) as (<- & Hv' & He).
    split; [done|]. apply alike_ret_bits, Hv'. intros ->. by apply Hne, He.
Qed.
End sim.
#[export] Hint Resolve sim_ret sim_is_fail sim_extract_word sim_get sim_getline : webserver.

(** ** Reading a string buffer, with enough fuel *)
Section string_reading.
Implicit Types (l r : bytes) (x : ascii).

Lemma sgetc_string l : sgetc l = (match l with [] => EOF | x :: _ => to_int_type x end, l).
Proof. by destruct l. Qed.

Lemma snextc_string x l : snextc (x :: l) = sgetc l.
Proof.
  unfold snextc, sbumpc. simpl. by rewrite (proj2 (Z.eqb_neq _ _) (to_int_not_EOF x)).
Qed.

Lemma scan_string stop p l r fuel acc :
  stop_of stop p → Forall (λ x, p x = false) l →
  match r with [] => True | x :: _ => p x = true end →
  (length l ≤ fuel)%nat →
  scan stop fuel (fst (sgetc (l ++ r))) acc (l ++ r)
  = Ret (fst (sgetc r), acc ++ l, r).
Proof.
  intros Hstop Hl Hr. revert fuel acc.
  induction Hl as [|x l Hx Hl IH]; intros fuel acc Hf; simpl in *.
  - rewrite app_nil_r. rewrite sgetc_string. simpl.
    destruct r as [|x r]; destruct fuel; simpl; try done;
      rewrite (Hstop x _ (or_introl eq_refl)), Hr, orb_true_r; done.
  - destruct fuel as [|fuel]; [lia|]. simpl.
    rewrite (proj2 (Z.eqb_neq _ _) (to_int_not_EOF x)). simpl.
    rewrite (Hstop x _ (or_introl eq_refl)), Hx.
    rewrite snextc_string, sgetc_string. specialize (IH fuel (acc ++ [x]) ltac:(lia)).
    rewrite sgetc_string in IH. cbn [fst] in IH.
    rewrite (char_int_to_char x _ (or_introl eq_refl)), IH. by rewrite <- app_assoc.
Qed.

Lemma scan_stream_string stop p l r fuel e f :
  stop_of stop p → Forall (λ x, p x = false) l →
  match r with [] => True | x :: _ => p x = true end →
  (length l ≤ fuel)%nat →
  scan_stream stop fuel (mk_istream (l ++ r) e f)
  = Ret ((fst (sgetc r), l), mk_istream r e f).
Proof.
  intros Hstop Hl Hr Hf. unfold scan_stream. simpl.
  pose proof (scan_string stop p l r fuel [] Hstop Hl Hr Hf) as Hs.
  rewrite sgetc_string in Hs |- *. cbn [fst] in Hs. by rewrite Hs.
Qed.

Lemma fst_sgetc_EOF r : (fst (sgetc r) =? EOF) = bool_decide (r = []).
Proof.
  rewrite sgetc_string. destruct r as [|x r]; [done|]. simpl.
  apply Z.eqb_neq, to_int_not_EOF.
Qed.

(** [operator>>] skips blanks and reads one word. *)
Lemma extract_word_string ws w r fuel :
  Forall (λ x, isspace x = true) ws → w ≠ [] → Forall (λ x, isspace x = false) w →
  match r with [] => True | x :: _ => isspace x = true end →
  (length ws ≤ fuel)%nat → (length w ≤ fuel)%nat →
  extract_word fuel (mk_istream (ws ++ w ++ r) false false)
  = Ret (Some w, mk_istream r (bool_decide (r = [])) false).
Proof.
  intros Hws Hne Hw Hr Hf1 Hf2. unfold extract_word.
  erewrite SM_bind_Ret.
  2: { unfold sentry. change ((sm_gets good ≫= ?k) ?s) with (k (good s) s). cbn -[scan_stream].
       erewrite SM_bind_Ret.
       2: { eapply (scan_stream_string _ _ ws (w ++ r)).
            - apply stop_not_space.
            - apply (list.Forall_impl _ _ _ Hws). cbn. by intros x ->.
            - destruct w as [|x w]; [done|]. simpl. inversion Hw; subst. by apply negb_true_iff.
            - done. }
       cbn beta iota. rewrite fst_sgetc_EOF, bool_decide_false by (by destruct w). reflexivity. }
  cbn [negb]. erewrite SM_bind_Ret; [|by eapply scan_stream_string; [apply stop_is_space|..]].
  cbn beta iota. rewrite fst_sgetc_EOF. rewrite (bool_decide_false (w = [])) by done.
  done.
Qed.

Lemma get_string x r fuel :
  get fuel (mk_istream (x :: r) false false) = Ret (to_int_type x, mk_istream r false false).
Proof.
  unfold get, sentry, on_buf, set_bits, sm_modify, sm_gets, mbind, SM_bind, setstate, mret, SM_ret.
  simpl. by rewrite (proj2 (Z.eqb_neq _ _) (to_int_not_EOF x)).
Qed.

(** [getline] reads up to the next line feed and removes it. *)
Lemma getline_string l r fuel :
  Forall (λ x, x ≠ ch_LF) l → (length l ≤ fuel)%nat →
  getline fuel (mk_istream (l ++ ch_LF :: r) false false)
  = Ret (Some l, mk_istream r false false).
Proof.
  intros Hl Hf. unfold getline. erewrite SM_bind_Ret; [|done]. cbn [negb].
  erewrite SM_bind_Ret.
  2: { eapply scan_stream_string; [apply stop_is_LF|..|done].
       - apply (list.Forall_impl _ _ _ Hl). intros x Hx. by apply bool_decide_eq_false.
       - by apply bool_decide_eq_true. }
  done.
Qed.

(** On a stream already at its end, every operation fails at its sentry. *)
Lemma getline_dead fuel b e f :
  e || f = true →
  getline fuel (@mk_istream bytes b e f) = Ret (None, mk_istream b e true).
Proof.
  intros Hef. unfold getline, sentry, sm_gets, set_bits, sm_modify, mbind, SM_bind, setstate, good. simpl.
  rewrite Hef. simpl. by rewrite orb_false_r, orb_true_r.
Qed.
End string_reading.

(** ** Progress on a string

    [tame fuel m]: with more fuel than characters, [m] does not exhaust its fuel;
    it throws, or ends with the state bits only ever set, a failed stream being
    at its end, and never more to read than before. *)
Section tame.
Definition settled (s : istream bytes) : Prop := failbit s = true → eofbit s = true.

Definition advanced (s s' : istream bytes) : Prop :=
  settled s' ∧ (eofbit s = true → eofbit s' = true) ∧ (length (rdbuf s') ≤ length (rdbuf s))%nat.

Definition tame (fuel : nat) {A} (m : IS bytes A) : Prop :=
  ∀ s, settled s → (length (rdbuf s) < fuel)%nat →
  (∃ e, m s = Throw e) ∨ ∃ a s', m s = Ret (a, s') ∧ advanced s s'.

Lemma tame_ret fuel {A} (a : A) : tame fuel (mret a).
Proof. intros s Hs Hf. right. by exists a, s. Qed.

Lemma tame_gets fuel {A} (f : istream bytes → A) : tame fuel (sm_gets f).
Proof. intros s Hs Hf. right. by exists (f s), s. Qed.

Lemma advanced_trans s1 s2 s3 : advanced s1 s2 → advanced s2 s3 → advanced s1 s3.
Proof. intros (H1 & H2 & H3) (H4 & H5 & H6). split_and!; [done|auto|lia]. Qed.

Lemma tame_bind fuel {A C} (m : IS bytes A) (k : A → IS bytes C) :
  tame fuel m → (∀ a, tame fuel (k a)) → tame fuel (m ≫= k).
Proof.
  intros Hm Hk s Hs Hf. destruct (Hm s Hs Hf) as [[e He]|(a & s1 & Hr & Had)].
  - left. exists e. by apply SM_bind_Throw.
  - rewrite (SM_bind_Ret _ _ _ _ _ Hr). destruct Had as (Hs1 & He & Hl).
    destruct (Hk a s1 Hs1 ltac:(lia)) as [[e He']|(c & s2 & Hr2 & Had2)]; [left; by exists e|].
    right. exists c, s2. split; [done|]. by eapply advanced_trans.
Qed.

Lemma span_spec {A} (p : A → bool) l a b :
  span p l = (a, b) →
  l = a ++ b ∧ Forall (λ x, p x = true) a ∧ match b with [] => True | x :: _ => p x = false end.
Proof.
  revert a b. induction l as [|x l IH]; intros a b; simpl; [by intros [= <- <-]|].
  destruct (p x) eqn:E.
  - destruct (span p l) as [a' b'] eqn:E'. intros [= <- <-].
    destruct (IH _ _ eq_refl) as (-> & ? & ?). split_and!; [done|by constructor|done].
  - intros [= <- <-]. done.
Qed.

Lemma sentry_dead n fuel b e f :
  e || f = true → sentry n fuel (@mk_istream bytes b e f) = Ret (false, mk_istream b e true).
Proof.
  intros Hef. unfold sentry, sm_gets, set_bits, sm_modify, mbind, SM_bind, setstate, good. simpl.
  rewrite Hef. simpl. by rewrite orb_false_r, orb_true_r.
Qed.

(** [operator>>] on any string: blanks, then a word or the end. *)
Lemma extract_word_any fuel v :
  (length v < fuel)%nat →
  (extract_word fuel (mk_istream v false false) = Ret (None, mk_istream [] true true)) ∨
  ∃ ws w r, v = ws ++ w ++ r ∧ w ≠ [] ∧
    extract_word fuel (mk_istream v false false) = Ret (Some w, mk_istream r (bool_decide (r = [])) false).
Proof.
  intros Hf. destruct (span isspace v) as [ws r1] eqn:E1.
  destruct (span_spec _ _ _ _ E1) as (-> & Hws & Hr1). rewrite length_app in Hf.
  destruct r1 as [|x r1].
  - left. assert (Forall (λ c, negb (isspace c) = false) ws) as Hws'
      by (apply (list.Forall_impl _ _ _ Hws); cbn; by intros x ->).
    pose proof (scan_stream_string _ _ ws [] fuel false false stop_not_space Hws' I) as Hsc.
    simpl in Hf. specialize (Hsc ltac:(lia)). rewrite app_nil_r in Hsc |- *.
    assert (sentry false fuel (mk_istream ws false false) = Ret (false, mk_istream [] true true)) as Hsen.
    { unfold sentry. change ((sm_gets good ≫= ?k) ?s) with (k (good s) s). cbn -[scan_stream].
      by rewrite (SM_bind_Ret _ _ _ _ _ Hsc). }
    unfold extract_word. by rewrite (SM_bind_Ret _ _ _ _ _ Hsen).
  - right. destruct (span (λ c, negb (isspace c)) (x :: r1)) as [w r] eqn:E2.
    destruct (span_spec _ _ _ _ E2) as (Hx & Hw & Hr). exists ws, w, r.
    assert (w ≠ []) as Hne.
    { intros ->. simpl in Hx. rewrite <- Hx in Hr. by rewrite Hr1 in Hr. }
    rewrite Hx in Hf |- *. rewrite length_app in Hf. split_and!; [done|done|].
    apply extract_word_string; [done|done| | |lia|lia].
    + apply (list.Forall_impl _ _ _ Hw). cbn. intros c. by rewrite negb_true_iff.
    + destruct r; [done|]. by rewrite negb_false_iff in Hr.
Qed.

Lemma advanced_dead b e f : settled (mk_istream b e f) → e || f = true →
  advanced (mk_istream b e f) (mk_istream b e true).
Proof.
  intros Hs Hef. unfold settled in Hs. simpl in Hs. split_and!; simpl; [intros _|done|done].
  destruct e; [done|]. simpl in Hef. by apply Hs.
Qed.

(** It never leaves a stream that is not at its end where it was. *)
Lemma extract_word_tame_strict fuel s :
  settled s → (length (rdbuf s) < fuel)%nat →
  ∃ a s', extract_word fuel s = Ret (a, s') ∧ advanced s s' ∧
          (eofbit s' = false → (length (rdbuf s') < length (rdbuf s))%nat).
Proof.
  intros Hs Hf. destruct s as [v e f]. destruct (e || f) eqn:Hef.
  - exists None, (mk_istream v e true). split_and!.
    + unfold extract_word. by rewrite (SM_bind_Ret _ _ _ _ _ (sentry_dead _ _ _ _ _ Hef)).
    + by apply advanced_dead.
    + simpl. intros ->. simpl in Hef. unfold settled in Hs. simpl in Hs. by discriminate (Hs Hef).
  - apply orb_false_elim in Hef as [-> ->]. simpl in Hf.
    destruct (extract_word_any fuel v Hf) as [Hr|(ws & w & r & -> & Hw & Hr)].
    + eexists _, _. split; [exact Hr|]. split; [by split_and!; simpl; [|done|lia]|]. done.
    + eexists _, _. split; [exact Hr|]. simpl. rewrite !length_app.
      assert (0 < length w)%nat by (destruct w; [done|simpl; lia]).
      split; [|intros _; lia]. split_and!; simpl; [done|done|rewrite !length_app; lia].
Qed.

Lemma tame_extract_word fuel : tame fuel (extract_word fuel).
Proof.
  intros s Hs Hf. destruct (extract_word_tame_strict fuel s Hs Hf) as (a & s' & Hr & Had & _).
  right. by exists a, s'.
Qed.

Lemma tame_get fuel fuel' : tame fuel (get fuel').
Proof.
  intros [v e f] Hs Hf. right. destruct (e || f) eqn:Hef.
  - exists EOF, (mk_istream v e true). split; [|by apply advanced_dead].
    unfold get. by rewrite (SM_bind_Ret _ _ _ _ _ (sentry_dead _ _ _ _ _ Hef)).
  - apply orb_false_elim in Hef as [-> ->]. destruct v as [|x v].
    + by exists EOF, (mk_istream [] true true).
    + eexists _, _. split; [apply get_string|]. split_and!; [done|done|simpl; lia].
Qed.

(** A line that could be read leaves less to be read. *)
Lemma getline_tame_strict fuel s :
  settled s → (length (rdbuf s) < fuel)%nat →
  ∃ a s', getline fuel s = Ret (a, s') ∧ advanced s s' ∧
          (failbit s' = false → (length (rdbuf s') < length (rdbuf s))%nat).
Proof.
  intros Hs Hf. destruct s as [v e f]. destruct (e || f) eqn:Hef.
  - exists None, (mk_istream v e true). split_and!; [by apply getline_dead|by apply advanced_dead|done].
  - apply orb_false_elim in Hef as [-> ->]. simpl in Hf.
    destruct (span (λ c, negb (bool_decide (c = ch_LF))) v) as [l r] eqn:E.
    destruct (span_spec _ _ _ _ E) as (-> & Hl & Hr). rewrite length_app in Hf.
    assert (Forall (λ c, c ≠ ch_LF) l) as Hl'.
    { apply (list.Forall_impl _ _ _ Hl). cbn. intros c.
      by rewrite negb_true_iff, bool_decide_eq_false. }
    destruct r as [|x r].
    + exists (Some l), (mk_istream [] true (bool_decide (l = []))). split.
      * unfold getline. erewrite SM_bind_Ret; [|done]. cbn [negb]. erewrite SM_bind_Ret.
        2: { eapply scan_stream_string; [apply stop_is_LF| |done|lia].
             apply (list.Forall_impl _ _ _ Hl'). intros c Hc. by apply bool_decide_eq_false. }
        done.
      * split; [by split_and!; simpl; [|done|lia]|]. simpl. rewrite app_nil_r.
        intros Hne%bool_decide_eq_false. destruct l; [done|simpl; lia].
    + apply negb_false_iff, bool_decide_eq_true in Hr. subst x.
      exists (Some l), (mk_istream r false false). split; [apply getline_string; [done|lia]|].
      split; [split_and!; simpl; [done|done|]|intros _]; simpl; rewrite length_app; simpl; lia.
Qed.
End tame.
#[export] Hint Resolve tame_ret tame_gets tame_extract_word tame_get : webserver.

(** Decompose a computation into its operations. *)
Ltac sm_decompose bind_lemma :=
  repeat first [ solve [eauto with webserver] | apply bind_lemma; [|intros ?] | case_match ].

(** ** Invariants of the buffer

    A property of the buffer kept by [gbump] and by [underflow] is kept by every
    operation of the stream. *)
Section preserved.
Context {B : Type} `{StreamBuf B} (P : B → Prop).

Definition buf_closed : Prop :=
  (∀ n b, P b → (n ≤ length (get_area b))%nat → P (gbump n b)) ∧
  (∀ b, P b → get_area b = [] → P (snd (underflow b))).

Definition pres {A} (m : IS B A) : Prop :=
  ∀ s a s', P (rdbuf s) → m s = Ret (a, s') → P (rdbuf s').

Lemma pres_ret {A} (a : A) : pres (mret a).
Proof. by intros s a' s' HP [= _ <-]. Qed.

Lemma pres_lift {A} (o : outcome A) : pres (sm_lift o).
Proof. intros s a s' HP. unfold sm_lift. destruct o; by intros [= _ <-]. Qed.

Lemma pres_gets {A} (f : istream B → A) : pres (sm_gets f).
Proof. by intros s a s' HP [= _ <-]. Qed.

Lemma pres_set_bits e f : pres (set_bits e f).
Proof. by intros s a s' HP [= _ <-]. Qed.

Lemma pres_bind {A C} (m : IS B A) (k : A → IS B C) :
  pres m → (∀ a, pres (k a)) → pres (m ≫= k).
Proof.
  intros Hm Hk s c s' HP. unfold mbind, SM_bind.
  destruct (m s) as [[a s1]| | |] eqn:E; try done. intros Hr.
  eapply Hk; [|done]. by eapply Hm.
Qed.

Hypothesis Hcl : buf_closed.

Lemma sgetc_pres b : P b → P (snd (sgetc b)).
Proof.
  intros HP. unfold sgetc. destruct (get_area b) eqn:E; [|done]. by apply Hcl.
Qed.

Lemma sbumpc_pres b : P b → P (snd (sbumpc b)).
Proof.
  intros HP. unfold sbumpc. destruct (get_area b) as [|x l] eqn:E.
  - unfold uflow. pose proof (proj2 Hcl b HP E) as HP1.
    destruct (underflow b) as [c b1]. simpl in HP1. destruct (c =? EOF); [done|].
    destruct (get_area b1) eqn:E1; simpl; [done|]. apply Hcl; [done|]. rewrite E1. simpl. lia.
  - apply Hcl; [done|]. rewrite E. simpl. lia.
Qed.

Lemma snextc_pres b : P b → P (snd (snextc b)).
Proof.
  intros HP. unfold snextc. pose proof (sbumpc_pres b HP) as H1.
  destruct (sbumpc b) as [c b1]. simpl in H1. destruct (c =? EOF); [done|]. by apply sgetc_pres.
Qed.

Lemma scan_pres stop fuel c acc b c' w b' :
  P b → scan stop fuel c acc b = Ret (c', w, b') → P b'.
Proof.
  revert c acc b. induction fuel as [|f IH]; intros c acc b HP; simpl;
    (destruct ((c =? EOF) || stop c); [by intros [= _ _ <-]|]); [done|].
  pose proof (snextc_pres b HP) as H1. destruct (snextc b) as [c1 b1]. by apply IH.
Qed.

Lemma xsgetn_pres n b : P b → P (snd (xsgetn n b)).
Proof.
  revert b. induction n as [|n IH]; intros b HP; simpl; [done|].
  pose proof (sbumpc_pres b HP) as H1. destruct (sbumpc b) as [c b1]. simpl in H1.
  destruct (c =? EOF); [done|]. specialize (IH b1 H1). by destruct (xsgetn n b1).
Qed.

Lemma pres_on_buf {A} (f : B → A * B) : (∀ b, P b → P (snd (f b))) → pres (on_buf f).
Proof.
  intros Hf s a s' HP. unfold on_buf. specialize (Hf _ HP).
  destruct (f (rdbuf s)) as [a1 b1]. by intros [= _ <-].
Qed.

Lemma pres_scan_stream stop fuel : pres (scan_stream stop fuel).
Proof.
  intros s a s' HP. unfold scan_stream. pose proof (sgetc_pres _ HP) as H1.
  destruct (sgetc (rdbuf s)) as [c b]. destruct (scan stop fuel c [] b) as [[[c' w] b']| | |] eqn:E; try done.
  intros [= _ <-]. by eapply scan_pres.
Qed.

#[local] Hint Resolve pres_ret pres_lift pres_gets pres_set_bits pres_scan_stream
  pres_on_buf sbumpc_pres xsgetn_pres : webserver.

Lemma pres_sentry n f : pres (sentry n f).
Proof. unfold sentry. sm_decompose @pres_bind. Qed.
#[local] Hint Resolve pres_sentry : webserver.

Lemma pres_extract_word f : pres (extract_word f).
Proof. unfold extract_word. sm_decompose @pres_bind. Qed.
Lemma pres_get f : pres (get f).
Proof. unfold get. sm_decompose @pres_bind. Qed.
Lemma pres_getline f : pres (getline f).
Proof. unfold getline. sm_decompose @pres_bind. Qed.
Lemma pres_readsome n : pres (readsome n).
Proof. unfold readsome. sm_decompose @pres_bind. Qed.
End preserved.
#[export] Hint Resolve pres_ret pres_lift pres_gets pres_set_bits pres_extract_word
  pres_get pres_getline pres_readsome : webserver.

(** * Output

    [sputc c] returns whether the character was accepted; [pubsync] whether the
    buffer could be written out. *)
Class OStreamBuf (O : Type) := {
  sputc : ascii → O → bool * O;
  pubsync : O → bool * O
}.

(** An [std::ostream]: its buffer and [fail()]. *)
Record ostream (O : Type) := mk_ostream { obuf : O; obad : bool }.
Arguments mk_ostream {O} _ _.
Arguments obuf {O} _.
Arguments obad {O} _.

Section ostream_ops.
Context {O : Type} `{OStreamBuf O}.

(** The default [xsputn]: characters are stored one after the other until one
    is refused. *)
Fixpoint sputn (s : bytes) (o : O) : bool * O :=
  match s with
  | [] => (true, o)
  | c :: s' => let '(ok, o1) := sputc c o in
               if ok then sputn s' o1 else (false, o1)
  end.

(** [write] and the inserters: nothing happens on a failed stream, and a
    refused character sets [badbit]. *)
Definition owrite (s : bytes) (os : ostream O) : ostream O :=
  if obad os then os
  else let '(ok, o) := sputn s (obuf os) in mk_ostream o (negb ok).

Definition oflush (os : ostream O) : ostream O :=
  if obad os then os
  else let '(ok, o) := pubsync (obuf os) in mk_ostream o (negb ok).
End ostream_ops.

(** What a lawful output buffer promises while it is well formed: [sunk], every
    byte accepted so far, grows by each accepted character, a successful
    [pubsync] makes all of it [delivered], and a failure leaves no more than it
    had accepted in the device. *)
Class OStreamBufOk (O : Type) `{OStreamBuf O} := {
  owf : O → Prop;
  sunk : O → bytes;
  delivered : O → bytes;
  sputc_ok c o o' : owf o → sputc c o = (true, o') → owf o' ∧ sunk o' = sunk o ++ [c];
  pubsync_ok o o' : owf o → pubsync o = (true, o') →
    owf o' ∧ sunk o' = sunk o ∧ delivered o' = sunk o
}.

Section ostream_laws.
Context {O : Type} `{OStreamBufOk O}.

Lemma sputn_ok s o o' : owf o → sputn s o = (true, o') → owf o' ∧ sunk o' = sunk o ++ s.
Proof.
  revert o. induction s as [|c s IH]; intros o Hwf; simpl.
  - intros [= <-]. by rewrite app_nil_r.
  - destruct (sputc c o) as [[] o1] eqn:E; [|done].
    destruct (sputc_ok _ _ _ Hwf E) as [Hwf1 Hs1]. intros Hr.
    destruct (IH _ Hwf1 Hr) as [? ->]. split; [done|]. by rewrite Hs1, <- app_assoc.
Qed.

Lemma owrite_ok s os :
  owf (obuf os) → obad (owrite s os) = false →
  obad os = false ∧ owf (obuf (owrite s os)) ∧ sunk (obuf (owrite s os)) = sunk (obuf os) ++ s.
Proof.
  unfold owrite. destruct (obad os) eqn:Hb; [congruence|]. intros Hwf.
  destruct (sputn s (obuf os)) as [[] o'] eqn:E; simpl; [|done].
  intros _. split; [done|]. by apply sputn_ok.
Qed.

Lemma oflush_ok os :
  owf (obuf os) → obad (oflush os) = false →
  obad os = false ∧ owf (obuf (oflush os)) ∧
  sunk (obuf (oflush os)) = sunk (obuf os) ∧ delivered (obuf (oflush os)) = sunk (obuf os).
Proof.
  unfold oflush. destruct (obad os) eqn:Hb; [congruence|]. intros Hwf.
  destruct (pubsync (obuf os)) as [[] o'] eqn:E; simpl; [|done].
  intros _. split; [done|]. by apply pubsync_ok.
Qed.

Lemma owrite_bad s os : obad os = true → owrite s os = os.
Proof. unfold owrite. by intros ->. Qed.

Lemma owrite_app s1 s2 os : owrite s2 (owrite s1 os) = owrite (s1 ++ s2) os.
Proof.
  unfold owrite. destruct os as [o b]. simpl. destruct b; [done|]. revert o.
  induction s1 as [|c s1 IH]; intros o; simpl; [done|].
  destruct (sputc c o) as [[] o1]; simpl; [apply IH|done].
Qed.
End ostream_laws.

(** An [std::ostringstream] buffer accepts everything. *)
#[global] Instance string_obuf : OStreamBuf bytes := {
  sputc c o := (true, o ++ [c]);
  pubsync o := (true, o)
}.
#[global, refine] Instance string_obuf_ok : OStreamBufOk bytes := {
  owf _ := True; sunk o := o; delivered o := o
}.
Proof.
  - by intros c o o' _ [= <-].
  - by intros o o' _ [= <-].
Defined.
