(* ===== verification/SocketStream.v ===== *)
(** HttpUtils/SocketStream: the stream buffer over a socket.

    One [char] array serves as get area and as put area (a buffer is used for
    one direction only). The kernel is a parameter: what arrives on the socket is the
    list of pieces [rx] carried by the buffer, of which each [recv] takes the next,
    or its first [BFSIZE] bytes, up to the first call that returns 0 or -1; the [k]-th call of [send], asked for [n] bytes, returns
    [os_send k n]. [tx] records the bytes [send] has taken. [overrun] is a ghost
    flag set by a store outside the array. *)

From S2P Require Export Streams.

Definition BFSIZE : nat := 4096.

Record SocketStreamBuffer := mk_ssb {
  __buffer : bytes;
  __socket : Z;
  gptr : nat;
  egptr : nat;
  pptr : nat;
  rx : list bytes;
  tx : bytes;
  ntx : nat;
  overrun : bool
}.

(** The constructor: empty get area, put area [[0, BFSIZE-1)]; the contents of
    the array are unspecified. *)
Definition mk_SocketStreamBuffer (init : bytes) (socket : Z) (incoming : list bytes) : SocketStreamBuffer :=
  mk_ssb init socket 0 0 0 incoming [] 0 false.

Definition epptr : nat := BFSIZE - 1.

(** The streams over a buffer, in the state that their constructors leave. *)
Definition SocketInputStream : Type := istream SocketStreamBuffer.
Definition SocketOutputStream : Type := ostream SocketStreamBuffer.
Definition new_SocketInputStream (buff : SocketStreamBuffer) : SocketInputStream := mk_istream buff false false.
Definition new_SocketOutputStream (buff : SocketStreamBuffer) : SocketOutputStream := mk_ostream buff false.

(** * Reading *)

Definition ssb_get_area (b : SocketStreamBuffer) : bytes :=
  take (egptr b - gptr b) (drop (gptr b) (__buffer b)).

Definition ssb_gbump (n : nat) (b : SocketStreamBuffer) : SocketStreamBuffer :=
  mk_ssb (__buffer b) (__socket b) (gptr b + n) (egptr b) (pptr b) (rx b) (tx b) (ntx b) (overrun b).

(** What a [recv] leaves of a piece stays in front of the others. *)
Definition put_back (left : bytes) (pieces : list bytes) : list bytes :=
  match left with [] => pieces | _ => left :: pieces end.

(** [underflow]: a [recv] of at most [BFSIZE] bytes into the array; its first
    character is returned as a plain [char], converted to [int]. *)
Definition ssb_underflow (b : SocketStreamBuffer) : Z * SocketStreamBuffer :=
  match rx b with
  | [] => (EOF, b)
  | [] :: _ => (EOF, b)
  | (x :: d) :: rx' =>
      let received := take BFSIZE (x :: d) in
      let recvLen := length received in
      (char_as_int x,
       mk_ssb (received ++ drop recvLen (__buffer b)) (__socket b) 0 recvLen
              (pptr b) (put_back (drop BFSIZE (x :: d)) rx') (tx b) (ntx b) (overrun b))
  end.

(** [showmanyc] is not overridden: the default returns 0. *)
#[global] Instance ssb_StreamBuf : StreamBuf SocketStreamBuffer := {
  get_area := ssb_get_area;
  gbump := ssb_gbump;
  underflow := ssb_underflow;
  showmanyc _ := 0
}.

Definition ch_FF : ascii := ascii_of_N 255.

(** The results of [recv]: a piece of more than [BFSIZE] bytes takes several. *)
Fixpoint split_piece (fuel : nat) (c : bytes) : list bytes :=
  match fuel, c with
  | S f, _ :: _ => take BFSIZE c :: split_piece f (drop BFSIZE c)
  | _, _ => []
  end.
Definition received (c : bytes) : list bytes :=
  match c with [] => [[]] | _ => split_piece (length c) c end.

(** What the reader can see of the data to come: a result of [recv] that begins
    with byte 255 looks like the end of the stream. *)
Fixpoint seen (pieces : list bytes) : bytes :=
  match pieces with
  | [] => []
  | [] :: _ => []
  | (x :: d) :: cs => if decide (x = ch_FF) then [] else (x :: d) ++ seen cs
  end.
Definition visible (chunks : list bytes) : bytes := seen (chunks ≫= received).

Lemma split_piece_fuel f c : (length c ≤ f)%nat → split_piece f c = split_piece (length c) c.
Proof.
  revert c. induction f as [f IH] using lt_wf_ind. intros c Hf. destruct c as [|x d]; [by destruct f|].
  destruct f as [|f]; [simpl in Hf; lia|]. cbn [length split_piece]. f_equal.
  assert (length (drop BFSIZE (x :: d)) ≤ length d)%nat as Hl by (rewrite length_drop; unfold BFSIZE; cbn [length]; lia).
  rewrite (IH f) by (cbn [length] in *; lia). destruct (decide (length d = f)) as [<-|Hne]; [by rewrite (IH (length d)) by (cbn [length] in *; lia)|].
  by rewrite (IH (length d)) by (cbn [length] in *; lia).
Qed.

Lemma visible_cons x d cs :
  visible ((x :: d) :: cs) =
  if decide (x = ch_FF) then [] else take BFSIZE (x :: d) ++ visible (put_back (drop BFSIZE (x :: d)) cs).
Proof.
  unfold visible. cbn [mbind list_bind received length split_piece]. 
  assert (split_piece (length d) (drop BFSIZE (x :: d)) ++ (cs ≫= received) = put_back (drop BFSIZE (x :: d)) cs ≫= received) as <-.
  { assert (length (drop BFSIZE (x :: d)) ≤ length d)%nat as Hl by (rewrite length_drop; unfold BFSIZE; cbn [length]; lia).
    rewrite split_piece_fuel by done. by destruct (drop BFSIZE (x :: d)). }
  change BFSIZE with (S 4095). by cbn [take app seen].
Qed.

Lemma visible_small c cs :
  (length c ≤ BFSIZE)%nat → c ≠ [] → head c ≠ Some ch_FF → visible (c :: cs) = c ++ visible cs.
Proof.
  destruct c as [|x d]; intros Hl Hne Hx; [done|]. rewrite visible_cons, take_ge, drop_ge by done.
  by rewrite decide_False by (intros ->; by apply Hx).
Qed.

#[global] Instance ssb_view : StreamView SocketStreamBuffer := λ b, ssb_get_area b ++ visible (rx b).

Lemma char_as_int_EOF x : char_as_int x = EOF ↔ x = ch_FF.
Proof.
  split; [|by intros ->]. unfold char_as_int, EOF.
  pose proof (to_int_range x). destruct (Z.ltb_spec (to_int_type x) 128); [lia|].
  intros Hx. assert (to_int_type x = 255) as Hx' by lia.
  rewrite <- (char_int_to_char x (to_int_type x)) by (by left). by rewrite Hx'.
Qed.

#[global] Instance ssb_StreamBufOk : StreamBufOk SocketStreamBuffer.
Proof.
  assert (∀ n b, (n ≤ length (ssb_get_area b))%nat →
                 ssb_get_area (ssb_gbump n b) = drop n (ssb_get_area b)) as Hbump.
  { intros n b Hn. unfold ssb_get_area, ssb_gbump. simpl.
    rewrite skipn_firstn_comm, drop_drop. f_equal; lia. }
  split; simpl.
  - apply Hbump.
  - intros b. by eexists.
  - intros n b Hn. unfold view, ssb_view. rewrite Hbump by done. simpl.
    by rewrite drop_app_le.
  - intros b b' Hga Hu. unfold view, ssb_view. rewrite Hga. cbn [app].
    unfold ssb_underflow in Hu. destruct (rx b) as [|[|x d] cs] eqn:Hrx; [done|done|].
    rewrite visible_cons, decide_True; [done|]. apply char_as_int_EOF. congruence.
  - intros b c b' Hga Hu Hne. unfold view, ssb_view. rewrite Hga. cbn [app].
    unfold ssb_underflow in Hu. destruct (rx b) as [|[|x d] cs] eqn:Hrx; [congruence..|].
    cbv zeta in Hu. pose proof (f_equal fst Hu) as Hc. pose proof (f_equal snd Hu) as Hb. cbn [fst snd] in Hc, Hb. subst c b'.
    rewrite visible_cons, decide_False by (by rewrite <- char_as_int_EOF).
    unfold ssb_get_area. cbn [egptr gptr __buffer rx]. rewrite Nat.sub_0_r, drop_0, take_app_length.
    split; [done|]. change BFSIZE with (S 4095). cbn [take app]. exists x, (take 4095 d). split; [done|]. by right.
Qed.

(** Data without byte 255 is all visible, however it is received. *)
Lemma visible_concat cs :
  Forall (λ c : bytes, c ≠ [] ∧ ch_FF ∉ c) cs → visible cs = concat cs.
Proof.
  induction 1 as [|c cs [Hne Hc] Hcs IH]; [done|]. cbn [concat]. rewrite <- IH. clear IH.
  assert (∀ n c, (length c ≤ n)%nat → ch_FF ∉ c → visible (put_back c cs) = c ++ visible cs) as Hput.
  { clear. induction n as [|n IH]; intros c Hn Hc; [by destruct c; [|simpl in Hn; lia]|].
    destruct c as [|x d]; [done|]. cbn [put_back]. rewrite visible_cons, decide_False by set_solver.
    rewrite IH; [by rewrite app_assoc, take_drop| |].
    - rewrite length_drop. unfold BFSIZE. cbn [length] in *. lia.
    - intros Hin. apply Hc. rewrite <- (take_drop BFSIZE (x :: d)). apply elem_of_app. by right. }
  rewrite <- (Hput (length c) c) by done. by destruct c.
Qed.

(** * Writing *)

(** The [k]-th [send] of [n] bytes; documented to return at most [n]. *)
Class SendOracle := os_send : nat → nat → Z.
Class SendOk `{SendOracle} : Prop := os_send_le k n : os_send k n ≤ Z.of_nat n.

Section writer.
Context `{SendOracle}.

(** The loop of [flush]: [send(__socket, __buffer, rest, 0)] until nothing is
    left or [send] fails; every iteration passes the start of the array. *)
Fixpoint flush_loop (fuel : nat) (rest : nat) (b : SocketStreamBuffer) : nat * SocketStreamBuffer :=
  match fuel with
  | O => (rest, b)
  | S f =>
      if Nat.eqb rest 0 then (rest, b)
      else
        let tmp := os_send (ntx b) rest in
        let b1 := mk_ssb (__buffer b) (__socket b) (gptr b) (egptr b) (pptr b) (rx b)
                         (tx b ++ take (Z.to_nat tmp) (__buffer b)) (S (ntx b)) (overrun b) in
        if tmp <=? 0 then (rest, b1)
        else flush_loop f (rest - Z.to_nat tmp) b1
  end.

Definition set_pptr (n : nat) (b : SocketStreamBuffer) : SocketStreamBuffer :=
  mk_ssb (__buffer b) (__socket b) (gptr b) (egptr b) n (rx b) (tx b) (ntx b) (overrun b).

Definition flush (b : SocketStreamBuffer) : Z * SocketStreamBuffer :=
  let total := pptr b in
  let '(rest, b1) := flush_loop total total b in
  let b2 := set_pptr (pptr b1 + rest - total) b1 in
  if Nat.eqb rest 0 then (Z.of_nat total, b2) else (EOF, b2).

(** [*pptr() = c; pbump(1)] *)
Definition put_char (c : ascii) (b : SocketStreamBuffer) : SocketStreamBuffer :=
  mk_ssb (<[pptr b := c]> (__buffer b)) (__socket b) (gptr b) (egptr b) (S (pptr b))
         (rx b) (tx b) (ntx b) (overrun b || negb (Nat.ltb (pptr b) BFSIZE)).

Definition overflow (c : Z) (b : SocketStreamBuffer) : Z * SocketStreamBuffer :=
  let b1 := if c =? EOF then b else put_char (to_char_type c) b in
  let '(r, b2) := flush b1 in
  if r =? EOF then (EOF, b2) else (c, b2).

Definition sync (b : SocketStreamBuffer) : Z * SocketStreamBuffer :=
  let '(r, b1) := flush b in
  if r =? EOF then (EOF, b1) else (0, b1).

(** The default [sputc] over the put area. *)
Definition ssb_sputc (c : ascii) (b : SocketStreamBuffer) : bool * SocketStreamBuffer :=
  if Nat.ltb (pptr b) epptr then (true, put_char c b)
  else let '(r, b1) := overflow (to_int_type c) b in (negb (r =? EOF), b1).

Definition ssb_pubsync (b : SocketStreamBuffer) : bool * SocketStreamBuffer :=
  let '(r, b1) := sync b in (negb (r =? EOF), b1).

#[global] Instance ssb_OStreamBuf : OStreamBuf SocketStreamBuffer := {
  sputc := ssb_sputc;
  pubsync := ssb_pubsync
}.

(** The destructor synchronises once more. *)
Definition ssb_destroy (b : SocketStreamBuffer) : SocketStreamBuffer := snd (sync b).

(** ** The flush loop *)

(** Its fuel, the number of bytes to send, is enough: it stops because
    nothing is left or because the last [send] returned no more than 0. *)
Lemma flush_loop_stops fuel rest b rest' b' :
  (rest ≤ fuel)%nat → flush_loop fuel rest b = (rest', b') →
  rest' = 0%nat ∨ (∃ k, os_send k rest' ≤ 0 ∧ ntx b' = S k).
Proof.
  revert rest b. induction fuel as [|f IH]; intros rest b Hf; simpl.
  - intros [= <- <-]. left. lia.
  - destruct (Nat.eqb_spec rest 0) as [->|Hr]; [intros [= <- <-]; by left|].
    destruct (Z.leb_spec (os_send (ntx b) rest) 0).
    + intros [= <- <-]. right. by exists (ntx b).
    + apply IH. lia.
Qed.

(** Each [send] that takes something takes a prefix of the array; their lengths add
    up to what was to be sent but for what is left. *)
Definition prefixes (ns : list nat) (d : bytes) : bytes := concat ((λ n, take n d) <$> ns).

Lemma flush_loop_sends `{!SendOk} fuel rest b rest' b' :
  flush_loop fuel rest b = (rest', b') →
  ∃ ns, tx b' = tx b ++ prefixes ns (__buffer b) ∧ Forall (λ n, 0 < n)%nat ns ∧ (sum_list ns + rest' = rest)%nat.
Proof.
  revert rest b. induction fuel as [|f IH]; intros rest b; cbn [flush_loop].
  - intros [= <- <-]. exists []. split_and!; [by unfold prefixes; simpl; rewrite app_nil_r|constructor|done].
  - destruct (Nat.eqb_spec rest 0) as [->|Hr].
    { intros [= <- <-]. exists []. split_and!; [by unfold prefixes; simpl; rewrite app_nil_r|constructor|done]. }
    pose proof (os_send_le (ntx b) rest) as Hle. destruct (Z.leb_spec (os_send (ntx b) rest) 0) as [Hneg|Hpos].
    + intros [= <- <-]. exists []. rewrite Z2Nat.nonpos by done. split_and!; [done|constructor|done].
    + intros Hl. destruct (IH _ _ Hl) as (ns & Htx & Hns & Hsum). cbn [tx __buffer] in Htx.
      exists (Z.to_nat (os_send (ntx b) rest) :: ns). split_and!.
      * rewrite Htx, <- app_assoc. done.
      * constructor; [lia|done].
      * cbn [sum_list sum_list_with]. unfold sum_list, id in *. cbn [sum_list_with]. lia.
Qed.

(** It changes nothing but what was sent. *)
Lemma flush_loop_frame fuel rest b rest' b' :
  flush_loop fuel rest b = (rest', b') →
  (rest' ≤ rest)%nat ∧ __buffer b' = __buffer b ∧ pptr b' = pptr b ∧ rx b' = rx b ∧
  overrun b' = overrun b.
Proof.
  revert rest b. induction fuel as [|f IH]; intros rest b; simpl.
  - by intros [= <- <-].
  - destruct (Nat.eqb rest 0); [by intros [= <- <-]|].
    destruct (os_send (ntx b) rest <=? 0); [by intros [= <- <-]|].
    intros Hl. destruct (IH _ _ Hl) as (? & ? & ? & ? & ?). simpl in *. split_and!; [lia|done..].
Qed.

Lemma flush_frame b r b' :
  flush b = (r, b') →
  __buffer b' = __buffer b ∧ rx b' = rx b ∧ overrun b' = overrun b ∧
  (pptr b' ≤ pptr b)%nat ∧ (r ≠ EOF → pptr b' = 0%nat ∧ r = Z.of_nat (pptr b)).
Proof.
  unfold flush. destruct (flush_loop _ _ b) as [rest b1] eqn:E.
  destruct (flush_loop_frame _ _ _ _ _ E) as (Hr & Hb & Hp & Hrx & Ho). rewrite Hp.
  destruct (Nat.eqb_spec rest 0); intros [= <- <-]; simpl; split_and!; try done; try lia.
Qed.

(** ** Memory safety of the writer, whatever [send] returns *)

Definition in_array (b : SocketStreamBuffer) : Prop :=
  length (__buffer b) = BFSIZE ∧ overrun b = false ∧ (pptr b ≤ BFSIZE)%nat.

(** A stream may be used while it has not failed: then there is still room for
    the character [overflow] stores. *)
Definition ssb_safe (os : ostream SocketStreamBuffer) : Prop :=
  in_array (obuf os) ∧ (obad os = false → (pptr (obuf os) ≤ epptr)%nat).

Lemma flush_in_array b r b' : flush b = (r, b') → in_array b → in_array b'.
Proof.
  intros Hf (Hl & Ho & Hp). destruct (flush_frame _ _ _ Hf) as (Hb & _ & Ho' & Hp' & _).
  unfold in_array. rewrite Hb, Ho'. split_and!; [done..|lia].
Qed.

Lemma put_char_in_array c b : in_array b → (pptr b < BFSIZE)%nat → in_array (put_char c b).
Proof.
  intros (Hl & Ho & Hp) Hlt. split_and!; simpl; [by rewrite length_insert| |lia].
  rewrite Ho. simpl. apply negb_false_iff, Nat.ltb_lt, Hlt.
Qed.

Lemma sputc_in_array c b ok b' :
  in_array b → (pptr b ≤ epptr)%nat → ssb_sputc c b = (ok, b') →
  in_array b' ∧ (ok = true → (pptr b' ≤ epptr)%nat).
Proof.
  intros Hb Hp. assert (pptr b < BFSIZE)%nat as Hlt by (unfold epptr, BFSIZE in *; lia).
  unfold ssb_sputc. destruct (Nat.ltb_spec (pptr b) epptr) as [Hlt'|Hge].
  - intros [= <- <-]. split; [by apply put_char_in_array|]. simpl. lia.
  - unfold overflow. rewrite (proj2 (Z.eqb_neq _ _) (to_int_not_EOF c)).
    destruct (flush _) as [r b2] eqn:Hf.
    assert (in_array b2) as Hb2 by (by eapply flush_in_array, put_char_in_array).
    destruct (flush_frame _ _ _ Hf) as (_ & _ & _ & _ & Hr).
    destruct (Z.eqb_spec r EOF) as [->|Hne]; intros [= <- <-]; (split; [done|]).
    + done.
    + intros _. destruct (Hr Hne) as [-> _]. lia.
Qed.

Lemma owrite_safe s os : ssb_safe os → ssb_safe (owrite s os).
Proof.
  unfold owrite. destruct os as [b bad]. simpl. destruct bad; [done|].
  intros [Hb Hp]. simpl in *. specialize (Hp eq_refl). revert b Hb Hp.
  induction s as [|c s IH]; intros b Hb Hp; simpl; [done|].
  destruct (ssb_sputc c b) as [ok b1] eqn:E.
  destruct (sputc_in_array _ _ _ _ Hb Hp E) as [Hb1 Hp1].
  destruct ok; [by apply IH; [|apply Hp1]|]. by split.
Qed.

Lemma oflush_safe os : ssb_safe os → ssb_safe (oflush os).
Proof.
  unfold oflush. destruct os as [b bad]. simpl. destruct bad; [done|].
  intros [Hb Hp]. simpl in *. unfold ssb_pubsync, sync.
  destruct (flush b) as [r b1] eqn:Hf.
  pose proof (flush_in_array _ _ _ Hf Hb) as Hb1.
  destruct (flush_frame _ _ _ Hf) as (_ & _ & _ & _ & Hr).
  destruct (Z.eqb_spec r EOF) as [->|Hne]; simpl; (split; [done|]); simpl; [done|].
  intros _. destruct (Hr Hne) as [-> _]. lia.
Qed.

(** ** What is sent when [send] never stops short *)

Class SendAtomic : Prop := os_send_atomic k n : os_send k n = Z.of_nat n ∨ os_send k n ≤ 0.

Definition ssb_sunk (b : SocketStreamBuffer) : bytes := tx b ++ take (pptr b) (__buffer b).

Definition ssb_wf (b : SocketStreamBuffer) : Prop :=
  length (__buffer b) = BFSIZE ∧ (pptr b ≤ epptr)%nat.

Lemma flush_atomic `{!SendAtomic} b r b' :
  flush b = (r, b') → r ≠ EOF →
  tx b' = tx b ++ take (pptr b) (__buffer b) ∧ pptr b' = 0%nat ∧ __buffer b' = __buffer b.
Proof.
  intros Hf Hr. destruct (flush_frame _ _ _ Hf) as (Hb & _ & _ & _ & Hp).
  destruct (Hp Hr) as [Hp0 _]. split_and!; [|done..]. clear Hp Hb Hp0. revert Hf Hr.
  unfold flush. destruct (pptr b) as [|n] eqn:Hpp.
  - simpl. intros [= <- <-] _. simpl. by rewrite app_nil_r.
  - cbn [flush_loop Nat.eqb]. destruct (os_send_atomic (ntx b) (S n)) as [Hs|Hs].
    + rewrite Hs. destruct (Z.leb_spec (Z.of_nat (S n)) 0); [lia|].
      rewrite Nat2Z.id, Nat.sub_diag. destruct n; cbn [flush_loop Nat.eqb]; by intros [= <- <-].
    + destruct (Z.leb_spec (os_send (ntx b) (S n)) 0); [|lia]. simpl. by intros [= <- <-].
Qed.

Lemma sputc_atomic `{!SendAtomic} c b b' :
  ssb_wf b → ssb_sputc c b = (true, b') → ssb_wf b' ∧ ssb_sunk b' = ssb_sunk b ++ [c].
Proof.
  intros [Hl Hp]. unfold ssb_sputc. unfold ssb_wf, ssb_sunk.
  assert (pptr b < length (__buffer b))%nat as Hlt by (rewrite Hl; unfold epptr, BFSIZE in *; lia).
  assert (take (S (pptr b)) (<[pptr b:=c]> (__buffer b)) = take (pptr b) (__buffer b) ++ [c]) as Ht.
  { rewrite (take_S_r _ _ c) by by apply list_lookup_insert_eq.
    by rewrite take_insert_ge. }
  destruct (Nat.ltb_spec (pptr b) epptr) as [Hlt'|Hge].
  - intros [= <-]. simpl. rewrite length_insert, Ht, app_assoc. split; [split; [done|lia]|done].
  - unfold overflow. rewrite (proj2 (Z.eqb_neq _ _) (to_int_not_EOF c)).
    destruct (flush _) as [r b2] eqn:Hf.
    destruct (Z.eqb_spec r EOF) as [->|Hne]; [done|]. intros [= Hc <-].
    destruct (flush_atomic _ _ _ Hf Hne) as (Htx & Hp2 & Hb2).
    rewrite Hp2, Hb2, Htx. simpl. rewrite length_insert, app_nil_r.
    rewrite (char_int_to_char c _ (or_introl eq_refl)), Ht, app_assoc. split; [split; [done|lia]|done].
Qed.

Lemma pubsync_atomic `{!SendAtomic} b b' :
  ssb_wf b → ssb_pubsync b = (true, b') → ssb_wf b' ∧ ssb_sunk b' = ssb_sunk b ∧ tx b' = ssb_sunk b.
Proof.
  intros [Hl Hp]. unfold ssb_pubsync, sync. destruct (flush b) as [r b1] eqn:Hf.
  destruct (Z.eqb_spec r EOF) as [->|Hne]; [done|]. intros [= <-].
  destruct (flush_atomic _ _ _ Hf Hne) as (Htx & Hp1 & Hb1).
  unfold ssb_wf, ssb_sunk. rewrite Hp1, Hb1, Htx. simpl. rewrite app_nil_r.
  split_and!; [done|lia|done|done].
Qed.

(** Over a socket whose [send] takes everything or fails, the buffer is a
    lawful output buffer. *)
#[global, refine] Instance ssb_OStreamBufOk `{!SendAtomic} : OStreamBufOk SocketStreamBuffer := {
  owf := ssb_wf; sunk := ssb_sunk; delivered := tx
}.
Proof.
  - intros c o o'. apply sputc_atomic.
  - intros o o'. apply pubsync_atomic.
Defined.

(** ** A socket that takes everything *)

Class SendAll : Prop := os_send_all k n : os_send k n = Z.of_nat n.

#[global] Instance SendAll_atomic `{!SendAll} : SendAtomic.
Proof. intros k n. left. apply os_send_all. Qed.

Lemma flush_all `{!SendAll} b : fst (flush b) ≠ EOF.
Proof.
  unfold flush. destruct (flush_loop _ _ b) as [rest b1] eqn:E.
  assert (rest = 0%nat) as ->; [|unfold EOF; simpl; lia].
  destruct (flush_loop_stops _ _ _ _ _ (le_n _) E) as [->|(k & Hk & _)]; [done|].
  rewrite os_send_all in Hk. lia.
Qed.

Lemma sputc_all `{!SendAll} c b : fst (ssb_sputc c b) = true.
Proof.
  unfold ssb_sputc, overflow. destruct (Nat.ltb _ _); [done|].
  rewrite (proj2 (Z.eqb_neq _ _) (to_int_not_EOF c)).
  pose proof (flush_all (put_char (to_char_type (to_int_type c)) b)) as Hf. destruct (flush _) as [r b2]. simpl in Hf.
  rewrite (proj2 (Z.eqb_neq _ _) Hf). simpl. by rewrite (proj2 (Z.eqb_neq _ _) (to_int_not_EOF c)).
Qed.

Lemma owrite_all `{!SendAll} s os : obad os = false → obad (owrite s os) = false.
Proof.
  unfold owrite. destruct os as [b bad]. simpl. intros ->. revert b.
  induction s as [|c s IH]; intros b; simpl; [done|].
  pose proof (sputc_all c b) as Hc. destruct (ssb_sputc c b) as [ok b1]. simpl in Hc. subst ok. apply IH.
Qed.

Lemma oflush_all `{!SendAll} os : obad os = false → obad (oflush os) = false.
Proof.
  unfold oflush. destruct os as [b bad]. simpl. intros ->. unfold ssb_pubsync, sync.
  pose proof (flush_all b) as Hf. destruct (flush b) as [r b1]. simpl in Hf.
  by rewrite (proj2 (Z.eqb_neq _ _) Hf).
Qed.
End writer.

(** * Properties *)

(** What a client does with an output stream over a socket. *)
Inductive out_op := OWrite (s : bytes) | OFlush.

Definition run_op `{SendOracle} (os : ostream SocketStreamBuffer) (op : out_op) : ostream SocketStreamBuffer :=
  match op with OWrite s => owrite s os | OFlush => oflush os end.

Definition run_ops `{SendOracle} (ops : list out_op) (os : ostream SocketStreamBuffer) : ostream SocketStreamBuffer :=
  fold_left run_op ops os.

Lemma run_ops_safe `{SendOracle} ops os : ssb_safe os → ssb_safe (run_ops ops os).
Proof.
  revert os. induction ops as [|[s|] ops IH]; intros os Hs; [done|..]; simpl; apply IH;
    [by apply owrite_safe|by apply oflush_safe].
Qed.

Lemma run_ops_app `{SendOracle} l1 l2 os : run_ops (l1 ++ l2) os = run_ops l2 (run_ops l1 os).
Proof. apply fold_left_app. Qed.

(** Whether the array can take what [overflow] stores, a failed [send] or not:
    what the socket has taken and what is still buffered grow by the bytes written. *)
Section sunk.
Context `{SendOracle} `{!SendAtomic}.

Lemma flush_sunk b r b' :
  flush b = (r, b') → ssb_sunk b' = ssb_sunk b ∧ tx b' `prefix_of` ssb_sunk b' ∧ (r ≠ EOF → tx b' = ssb_sunk b).
Proof.
  intros Hf. destruct (decide (r = EOF)) as [->|Hr].
  - assert (tx b' = tx b ∧ pptr b' = pptr b ∧ __buffer b' = __buffer b) as (Ht & Hp & Hb).
    2: { unfold ssb_sunk. rewrite Ht, Hp, Hb. split_and!; [done|by apply prefix_app_r|done]. }
    revert Hf. unfold flush. destruct (pptr b) as [|n] eqn:Hpp; [by cbn; intros [=]|]. cbn [flush_loop Nat.eqb].
    destruct (os_send_atomic (ntx b) (S n)) as [Hs|Hs].
    + rewrite Hs. destruct (Z.leb_spec (Z.of_nat (S n)) 0); [lia|]. rewrite Nat2Z.id, Nat.sub_diag.
      destruct n; cbn [flush_loop Nat.eqb]; by intros [=].
    + destruct (Z.leb_spec (os_send (ntx b) (S n)) 0); [|lia]. intros [= <-]. cbn [tx pptr __buffer set_pptr Nat.eqb].
      rewrite Z2Nat.nonpos, Hpp, take_0, app_nil_r by done. split_and!; [done|lia|done].
  - destruct (flush_atomic _ _ _ Hf Hr) as (Ht & Hp & Hb). unfold ssb_sunk. rewrite Ht, Hp, take_0, app_nil_r. done.
Qed.

Lemma put_char_sunk c b : (pptr b < length (__buffer b))%nat → ssb_sunk (put_char c b) = ssb_sunk b ++ [c].
Proof.
  intros Hlt. unfold ssb_sunk. cbn [tx pptr __buffer put_char].
  rewrite (take_S_r _ _ c) by by apply list_lookup_insert_eq. rewrite take_insert_ge by lia. by rewrite app_assoc.
Qed.

Lemma sputc_sunk c b ok b' :
  length (__buffer b) = BFSIZE → (pptr b ≤ epptr)%nat → ssb_sputc c b = (ok, b') → ssb_sunk b' = ssb_sunk b ++ [c].
Proof.
  intros Hl Hp. assert (pptr b < length (__buffer b))%nat as Hlt by (rewrite Hl; unfold epptr, BFSIZE in *; lia).
  unfold ssb_sputc. destruct (Nat.ltb _ _); [intros [= <- <-]; by apply put_char_sunk|].
  unfold overflow. rewrite (proj2 (Z.eqb_neq _ _) (to_int_not_EOF c)), (char_int_to_char c _ (or_introl eq_refl)).
  destruct (flush _) as [r b2] eqn:Hf. destruct (flush_sunk _ _ _ Hf) as [Hs _]. rewrite put_char_sunk in Hs by done.
  destruct (r =? EOF); by intros [= _ <-].
Qed.

Lemma sputn_sunk s b ok b' :
  in_array b → (pptr b ≤ epptr)%nat → sputn s b = (ok, b') →
  ∃ n, ssb_sunk b' = ssb_sunk b ++ take n s ∧ (ok = true → take n s = s).
Proof.
  revert b. induction s as [|c s IH]; intros b Hb Hp; cbn [sputn].
  - intros [= <- <-]. exists 0%nat. by rewrite app_nil_r.
  - change (sputc c b) with (ssb_sputc c b). destruct (ssb_sputc c b) as [ok1 b1] eqn:E.
    pose proof (sputc_sunk _ _ _ _ (proj1 Hb) Hp E) as Hs. destruct (sputc_in_array _ _ _ _ Hb Hp E) as [Hb1 Hp1].
    destruct ok1; [|intros [= <- <-]; by exists 1%nat].
    intros Hrest. destruct (IH b1 Hb1 (Hp1 eq_refl) Hrest) as (n & Hn & Hall).
    exists (S n). cbn [take]. split; [by rewrite Hn, Hs, <- app_assoc|]. intros Hok. by rewrite Hall.
Qed.
End sunk.

(** The bytes of the writes, and what the socket has been given of them when the
    stream, used and destroyed, is gone. *)
Definition op_bytes (op : out_op) : bytes := match op with OWrite w => w | OFlush => [] end.
Definition ops_bytes (ops : list out_op) : bytes := concat (op_bytes <$> ops).

Definition sent_by `{SendOracle} (ops : list out_op) (os : ostream SocketStreamBuffer) : bytes :=
  tx (ssb_destroy (obuf (run_ops ops os))).

Lemma run_ops_bad `{SendOracle} ops os : obad os = true → run_ops ops os = os.
Proof.
  intros Hb. induction ops as [|op ops IH]; [done|]. cbn [run_ops fold_left].
  assert (run_op os op = os) as -> by (destruct op; cbn; unfold owrite, oflush; by rewrite Hb). exact IH.
Qed.

Lemma run_ops_sunk `{SendOracle} `{!SendAtomic} ops os :
  ssb_safe os → obad os = false →
  ∃ w, w `prefix_of` ops_bytes ops ∧ ssb_sunk (obuf (run_ops ops os)) = ssb_sunk (obuf os) ++ w ∧
       (obad (run_ops ops os) = false → w = ops_bytes ops).
Proof.
  revert os. induction ops as [|op ops IH]; intros os Hs Hb; [exists []; split_and!; [done|by rewrite app_nil_r|done]|].
  assert (∃ n, ssb_sunk (obuf (run_op os op)) = ssb_sunk (obuf os) ++ take n (op_bytes op) ∧
               (obad (run_op os op) = false → take n (op_bytes op) = op_bytes op)) as (n & Hn & Hall).
  { destruct Hs as [Hin Hp]. specialize (Hp Hb). destruct op as [w|]; cbn [run_op op_bytes].
    - unfold owrite. rewrite Hb. destruct (sputn w (obuf os)) as [ok b'] eqn:E. cbn [obuf obad].
      destruct (sputn_sunk _ _ _ _ Hin Hp E) as (n & Hn & Hok). exists n. split; [done|].
      intros Hf%negb_false_iff. by apply Hok.
    - exists 0%nat. split; [|done]. rewrite app_nil_r. unfold oflush. rewrite Hb.
      unfold pubsync, ssb_OStreamBuf, ssb_pubsync, sync. destruct (flush (obuf os)) as [r b'] eqn:E.
      destruct (flush_sunk _ _ _ E) as [<- _]. by destruct (r =? EOF). }
  assert (ssb_safe (run_op os op)) as Hs1 by (destruct op; [by apply owrite_safe|by apply oflush_safe]).
  change (ops_bytes (op :: ops)) with (op_bytes op ++ ops_bytes ops).
  change (run_ops (op :: ops) os) with (run_ops ops (run_op os op)). destruct (obad (run_op os op)) eqn:Hb1.
  - rewrite run_ops_bad by done. exists (take n (op_bytes op)). split_and!; [|done|by rewrite Hb1].
    apply prefix_app_r. exists (drop n (op_bytes op)). by rewrite take_drop.
  - destruct (IH _ Hs1 Hb1) as (w & Hw & Hsunk & Hok). rewrite (Hall eq_refl) in Hn. exists (op_bytes op ++ w).
    split_and!; [by apply prefix_app|by rewrite Hsunk, Hn, app_assoc|]. intros Hf. by rewrite Hok.
Qed.

(** How what was sent relates to what was written: a prefix of it when every
    [send] takes everything or nothing, and all of it when every one takes everything. *)
Definition sent_of (send : SendOracle) (w sent : bytes) : Prop :=
  ((∀ k n, send k n = Z.of_nat n ∨ send k n ≤ 0) → sent `prefix_of` w) ∧
  ((∀ k n, send k n = Z.of_nat n) → sent = w).

Lemma sent_by_of `{SO : SendOracle} init fd ops :
  length init = BFSIZE → sent_of SO (ops_bytes ops) (sent_by ops (new_SocketOutputStream (mk_SocketStreamBuffer init fd []))).
Proof.
  intros Hl. set (os := new_SocketOutputStream _).
  assert (ssb_safe os) as Hsafe by (split; simpl; [unfold in_array; simpl; split_and!; [done|done|lia]|intros _; lia]).
  assert (SendAtomic → sent_by ops os `prefix_of` ops_bytes ops ∧ (fst (flush (obuf (run_ops ops os))) ≠ EOF →
            obad (run_ops ops os) = false → sent_by ops os = ops_bytes ops)) as Hgen.
  { intros Hat. destruct (run_ops_sunk ops os Hsafe eq_refl) as (w & Hw & Hsunk & Hall). cbn in Hsunk.
    unfold sent_by, ssb_destroy, sync. destruct (flush _) as [r b'] eqn:E. destruct (flush_sunk _ _ _ E) as (Hs & Hp & He).
    assert (snd (if r =? EOF then (EOF, b') else (0, b')) = b') as -> by by destruct (r =? EOF).
    split; [by rewrite Hs, Hsunk in Hp; etrans|]. intros Hr Hb. rewrite He, Hsunk by done. by apply Hall. }
  split; intros Hsend.
  - by apply Hgen.
  - assert (SendAll (H:=SO)) as Hsa by exact Hsend. apply (Hgen _); [apply flush_all|].
    assert (∀ ops os, obad os = false → obad (run_ops ops os) = false) as Hok; [|by apply Hok].
    intros ops0. induction ops0 as [|op ops0 IH]; intros os0 Hb; [done|]. apply IH.
    destruct op; [by apply owrite_all|by apply oflush_all].
Qed.

(** C29: whatever is written and flushed through a fresh socket stream, and
    whatever [send] answers, no character is stored outside the array, destroying the
    buffer included. A flush stops: what it sends are prefixes of what is buffered,
    one per [send] that takes something. Their lengths add up to that of all that is
    buffered (one [send] that takes everything sends just that; more of them repeat
    the start), or to less, after a [send] that returned no more than 0. *)
Theorem writer_memory_safe `{!SendOracle} `{!SendOk} init fd ops :
  length init = BFSIZE →
  let b := obuf (run_ops ops (mk_ostream (mk_SocketStreamBuffer init fd []) false)) in
  let buffered := take (pptr b) (__buffer b) in
  let '(r, b') := flush b in
  overrun b = false ∧ length (__buffer b) = BFSIZE ∧
  overrun (ssb_destroy b) = false ∧ length (__buffer (ssb_destroy b)) = BFSIZE ∧
  ∃ ns, tx b' = tx b ++ prefixes ns buffered ∧ Forall (λ n, 0 < n)%nat ns ∧ (sum_list ns + pptr b' = pptr b)%nat ∧
    (r = Z.of_nat (pptr b) ∧ pptr b' = 0%nat ∨
     r = EOF ∧ (0 < pptr b')%nat ∧ ∃ k, os_send k (pptr b') ≤ 0 ∧ ntx b' = S k).
Proof.
  intros Hl b buffered. assert (in_array b) as Hb.
  { apply run_ops_safe. split; simpl; [unfold in_array; simpl; split_and!; [done|done|lia]|]. intros _. lia. }
  destruct (flush b) as [r b1] eqn:Hf. pose proof Hb as (H1 & H2 & _).
  pose proof (flush_in_array _ _ _ Hf Hb) as (Hl1 & Ho1 & _).
  assert (snd (sync b) = b1) as Hd by (unfold sync; rewrite Hf; by destruct (r =? EOF)).
  unfold ssb_destroy. rewrite Hd. split_and!; [done..|].
  clear Hl1 Ho1 Hd. unfold flush in Hf. destruct (flush_loop _ _ b) as [rest b0] eqn:E.
  destruct (flush_loop_frame _ _ _ _ _ E) as (_ & _ & Hp & _).
  destruct (flush_loop_sends _ _ _ _ _ E) as (ns & Htx & Hpos & Hsum).
  assert (b1 = set_pptr (pptr b0 + rest - pptr b) b0) as -> by (by destruct (Nat.eqb rest 0); injection Hf as _ <-).
  cbn [tx pptr ntx set_pptr]. rewrite Hp. replace (pptr b + rest - pptr b)%nat with rest by lia.
  exists ns. split_and!; [|done|done|].
  - rewrite Htx. f_equal. unfold prefixes, buffered. f_equal. apply list_fmap_ext. intros i n Hn.
    rewrite take_take. f_equal. apply list_elem_of_lookup_2, sum_list_with_in with (f := id) in Hn. unfold sum_list, id in *. lia.
  - destruct (flush_loop_stops _ _ _ _ _ (le_n _) E) as [-> |(k & Hk & Hn)].
    + left. by injection Hf as <-.
    + destruct (Nat.eqb_spec rest 0) as [->|Hr]; injection Hf as <-; [by left|right].
      split_and!; [done|lia|by exists k].
Qed.

(** A [send] that takes one byte at a time. *)
Definition send_one : SendOracle := λ _ n, if Nat.eqb n 0 then 0 else 1.

Lemma sputn_room `{SendOracle} s b :
  length (__buffer b) = BFSIZE → (pptr b + length s ≤ epptr)%nat →
  ∃ b', sputn s b = (true, b') ∧ pptr b' = (pptr b + length s)%nat ∧ tx b' = tx b ∧
        __buffer b' = take (pptr b) (__buffer b) ++ s ++ drop (pptr b + length s) (__buffer b).
Proof.
  revert b. induction s as [|c s IH]; intros b Hl Hp; cbn [sputn length] in *.
  - exists b. rewrite Nat.add_0_r. simpl. by rewrite take_drop.
  - assert (pptr b < epptr)%nat as Hlt by lia.
    change (sputc c b) with (ssb_sputc c b). unfold ssb_sputc.
    rewrite (proj2 (Nat.ltb_lt _ _) Hlt). cbn beta iota.
    destruct (IH (put_char c b)) as (b' & -> & Hp' & Ht' & Hb'); [by simpl; rewrite length_insert|simpl; lia|].
    exists b'. simpl in *. split_and!; [done|lia|done|]. rewrite Hb'.
    assert (pptr b < length (__buffer b))%nat as Hlb by (rewrite Hl; unfold epptr, BFSIZE in *; lia).
    rewrite (take_S_r _ _ c) by by apply list_lookup_insert_eq.
    rewrite take_insert_ge, drop_insert_lt by lia. rewrite <- app_assoc. simpl.
    by replace (pptr b + S (length s))%nat with (S (pptr b + length s)) by lia.
Qed.

Lemma flush_loop_one c l fuel rest b :
  (rest ≤ fuel)%nat → __buffer b = c :: l →
  ∃ b', flush_loop (H:=send_one) fuel rest b = (0%nat, b') ∧ tx b' = tx b ++ replicate rest c.
Proof.
  revert rest b. induction fuel as [|f IH]; intros rest b Hf Hb; cbn [flush_loop].
  - exists b. replace rest with 0%nat by lia. by rewrite app_nil_r.
  - destruct rest as [|r]; cbn [Nat.eqb]; [exists b; by rewrite app_nil_r|].
    assert (os_send (SendOracle:=send_one) (ntx b) (S r) = 1) as -> by done. destruct (Z.leb_spec 1 0); [lia|].
    match goal with |- context [flush_loop f _ ?b1] =>
      destruct (IH (S r - Z.to_nat 1)%nat b1 ltac:(lia) Hb) as (b' & -> & Ht) end.
    exists b'. split; [done|]. rewrite Ht. simpl. by rewrite Nat.sub_0_r, Hb, <- app_assoc.
Qed.

(** [flush] passes the start of the array to every [send], not what is
    left: when [send] takes one byte at a time, a text that fits into the buffer
    is written and flushed without an error, but the socket gets its first
    character over and over. *)
Theorem short_send_repeats_prefix init fd c s :
  length init = BFSIZE → (S (length s) ≤ epptr)%nat →
  let os := run_ops (H:=send_one) [OWrite (c :: s); OFlush] (mk_ostream (mk_SocketStreamBuffer init fd []) false) in
  obad os = false ∧ tx (obuf os) = replicate (S (length s)) c.
Proof.
  intros Hl Hs. cbn [run_ops fold_left run_op]. unfold owrite. cbn [obad obuf].
  destruct (sputn_room (H:=send_one) (c :: s) (mk_SocketStreamBuffer init fd [])) as (b & -> & Hp & Ht & Hb); [done|done|].
  simpl in Hp, Ht, Hb. unfold oflush. cbn [obad obuf negb]. unfold pubsync, ssb_OStreamBuf, ssb_pubsync, sync, flush.
  destruct (flush_loop_one c (s ++ drop (S (length s)) init) (pptr b) (pptr b) b) as (b' & -> & Ht'); [done|done|].
  cbn [Nat.eqb]. rewrite (proj2 (Z.eqb_neq (Z.of_nat (pptr b)) EOF)) by (unfold EOF; lia). simpl.
  by rewrite Ht', Ht, Hp.
Qed.
