(* ===== verification/HttpRequest.v ===== *)
(** HttpUtils/HttpRequest: the request object, its builder and the analyser
    that reads one request from an input stream. *)

From S2P Require Export Error HttpConfig Streams SocketStream.

Record HttpRequest := mk_HttpRequest {
  __method : HttpRequestMethod;
  __uri : bytes;
  __version : HttpVersion;
  __header : gmap bytes bytes;
  __body : bytes
}.

(** The private constructor, and a fresh [HttpRequestBuilder]. *)
Definition new_HttpRequest : HttpRequest :=
  mk_HttpRequest UNKNOWN_REQUEST_METHOD [] UNKNOWN_HTTP_VERSION ∅ [].

Definition getRequestMethod (r : HttpRequest) : HttpRequestMethod := __method r.
Definition getURI (r : HttpRequest) : bytes := __uri r.
Definition getHttpVersion (r : HttpRequest) : HttpVersion := __version r.
Definition getHeader (r : HttpRequest) : gmap bytes bytes := __header r.
Definition getBody (r : HttpRequest) : bytes := __body r.

Definition setRequestMethod (m : HttpRequestMethod) (r : HttpRequest) : HttpRequest :=
  mk_HttpRequest m (__uri r) (__version r) (__header r) (__body r).
Definition setHttpVersion (v : HttpVersion) (r : HttpRequest) : HttpRequest :=
  mk_HttpRequest (__method r) (__uri r) v (__header r) (__body r).
Definition setURI (u : bytes) (r : HttpRequest) : HttpRequest :=
  mk_HttpRequest (__method r) u (__version r) (__header r) (__body r).
Definition setHeader (k v : bytes) (r : HttpRequest) : HttpRequest :=
  mk_HttpRequest (__method r) (__uri r) (__version r) (<[k := v]> (__header r)) (__body r).
Definition delHeader (k : bytes) (r : HttpRequest) : HttpRequest :=
  match __header r !! k with
  | Some _ => mk_HttpRequest (__method r) (__uri r) (__version r) (delete k (__header r)) (__body r)
  | None => r
  end.
Definition setBody (b : bytes) (r : HttpRequest) : HttpRequest :=
  mk_HttpRequest (__method r) (__uri r) (__version r) (__header r) b.

Section serialize.
Context `{MapOrder}.

(** [HttpRequest::serialize]: lines end with a bare line feed. *)
Definition serialize (r : HttpRequest) : bytes :=
  serialize_method (__method r) ++ [ch_SP] ++ __uri r ++ [ch_SP]
  ++ serialize_version (__version r) ++ [ch_LF]
  ++ mjoin ((λ kv, kv.1 ++ $": " ++ kv.2 ++ [ch_LF]) <$> map_order (__header r))
  ++ [ch_LF] ++ __body r.

(** [operator<<] *)
Definition print_request (r : HttpRequest) : bytes := serialize r.
End serialize.

(** * [std::string] operations of the analyser *)

(** [find(c)] *)
Fixpoint find_char (c : ascii) (s : bytes) : option nat :=
  match s with
  | [] => None
  | x :: s' => if decide (x = c) then Some O else S <$> find_char c s'
  end.

(** [substr(pos)] throws when [pos] is past the end. *)
Definition substr_from (pos : nat) (s : bytes) : outcome bytes :=
  if Nat.ltb (length s) pos then Throw out_of_range else Ret (drop pos s).

Definition pop_back (s : bytes) : bytes := take (length s - 1) s.

(** [while (tok<slen && cur[tok]==' ') ++tok;] *)
Definition skip_blanks (s : bytes) (tok : nat) : nat :=
  tok + length (fst (span (λ x, bool_decide (x = ch_SP)) (drop tok s))).

(** * The analyser *)

(** The [BFSIZE] of HttpRequest.cc, the size of its static buffer. *)
Definition REQ_BFSIZE : N := 512.

Definition CONTENT_LENGTH : bytes := $"Content-Length".

Definition requestBodyLength (req : HttpRequest) : outcome N :=
  match getHeader req !! CONTENT_LENGTH with
  | None => Ret 0%N
  | Some v => stoul v
  end.

Section analyser.
Context {B : Type} `{StreamBuf B}.

Definition skipTerminateCH (fuel : nat) : IS B Error :=
  c1 ← get fuel;
  if negb (c1 =? to_int_type ch_CR) then mret PARSE_TERMINATE_CH_FAILED else
  f1 ← is_fail;
  if f1 : bool then mret PARSE_TERMINATE_CH_FAILED else
  c2 ← get fuel;
  if negb (c2 =? to_int_type ch_LF) then mret PARSE_TERMINATE_CH_FAILED else
  f2 ← is_fail;
  if f2 : bool then mret PARSE_TERMINATE_CH_FAILED else mret SERVER_OK.

(** A string variable after an extraction: unchanged if the sentry failed. *)
Definition extracted (old : bytes) (r : option bytes) : bytes :=
  match r with Some w => w | None => old end.

Definition parseLine (fuel : nat) (b : HttpRequest) : IS B (Error * HttpRequest) :=
  method ← extract_word fuel;
  f1 ← is_fail;
  if f1 : bool then mret (PARSE_REQ_METHOD_FAILED, b) else
  uri ← extract_word fuel;
  f2 ← is_fail;
  if f2 : bool then mret (PARSE_REQ_URI_FAILED, b) else
  version ← extract_word fuel;
  f3 ← is_fail;
  if f3 : bool then mret (PARSE_REQ_VERSION_FAILED, b) else
  let b1 := setHttpVersion (toHttpVersion (extracted [] version))
              (setURI (extracted [] uri)
                 (setRequestMethod (toRequestMethod (extracted [] method)) b)) in
  e ← skipTerminateCH fuel;
  mret (e, b1).

(** One header line, already read, of at least two characters with a colon at
    [tok]: strip the last character, split at the colon, skip blanks. *)
Definition header_entry (cur : bytes) (tok : nat) : outcome (bytes * bytes) :=
  let cur1 := pop_back cur in
  let key := take tok cur1 in
  let tok1 := skip_blanks cur1 (S tok) in
  value ← substr_from tok1 cur1;
  mret (key, value).

(** The do-while loop of [parseHead]; [n] bounds its iterations. *)
Fixpoint parseHead_loop (fuel n : nat) (cur : bytes) (b : HttpRequest) : IS B (Error * HttpRequest) :=
  match n with
  | O => sm_lift Spin
  | S n' =>
      line ← getline fuel;
      let cur := extracted cur line in
      f ← is_fail;
      if f : bool then mret (PARSE_REQ_HEADER_FAILED, b) else
      if Nat.eqb (length cur) 1 then mret (SERVER_OK, b) else
      match find_char ch_COLON cur with
      | None => mret (INVALID_REQ_HEADER_FORMAT, b)
      | Some tok =>
          '(key, value) ← sm_lift (header_entry cur tok);
          let b1 := setHeader key value b in
          f' ← is_fail;
          if f' : bool then mret (SERVER_OK, b1)
          else parseHead_loop fuel n' (pop_back cur) b1
      end
  end.

Definition parseHead (fuel : nat) (b : HttpRequest) : IS B (Error * HttpRequest) :=
  parseHead_loop fuel fuel [] b.

(** The [while (rest)] loop of [parseBody]: it returns the body, or [None]
    when the stream failed. *)
Fixpoint body_loop (n : nat) (rest : N) (body : bytes) : IS B (option bytes) :=
  if (rest =? 0)%N then mret (Some body) else
  match n with
  | O => sm_lift Spin
  | S n' =>
      d ← readsome (N.to_nat (N.min rest REQ_BFSIZE));
      f ← is_fail;
      if f : bool then mret None
      else body_loop n' (rest - N.of_nat (length d)) (body ++ d)
  end.

Definition parseBody (fuel : nat) (b : HttpRequest) : IS B (Error * HttpRequest) :=
  bodyLen ← sm_lift (requestBodyLength b);
  if (bodyLen =? 0)%N then mret (SERVER_OK, b) else
  r ← body_loop fuel bodyLen [];
  match r with
  | None => mret (PARSE_REQ_BODY_FAILED, b)
  | Some body => mret (SERVER_OK, setBody body b)
  end.

Definition getOneHttpRequest (fuel : nat) : IS B (Error * HttpRequest) :=
  '(e1, b1) ← parseLine fuel new_HttpRequest;
  if decide (e1 = SERVER_OK) then
    '(e2, b2) ← parseHead fuel b1;
    if decide (e2 = SERVER_OK) then parseBody fuel b2
    else mret (e2, b2)
  else mret (e1, b1).
End analyser.

(** * The analyser only depends on what can be read

    Streams that are alike give the same request line and headers: how the
    bytes arrived in the buffer does not matter. *)
Section parser_sim.
Context {B1 B2 : Type} `{StreamBufOk B1} `{StreamBufOk B2}.

Ltac sim_next :=
  eapply (sim_bind eq); [solve [eauto with webserver]|intros ? ? <-].

Lemma sim_lift_eq {A} (o : outcome A) :
  sim (B1 := B1) (B2 := B2) eq (sm_lift o) (sm_lift o).
Proof. intros s t Hst. unfold sm_lift. by destruct o. Qed.

Lemma sim_ret_eq {A} (a : A) : sim (B1 := B1) (B2 := B2) eq (mret a) (mret a).
Proof. by apply sim_ret. Qed.
#[local] Hint Resolve sim_ret_eq sim_lift_eq : webserver.

Ltac sim_case :=
  match goal with
  | |- sim _ (if ?x then _ else _) _ => destruct x; try solve [eauto with webserver]
  | |- sim _ (match ?x with _ => _ end) _ => destruct x; try solve [eauto with webserver]
  end.

Lemma sim_skipTerminateCH fuel : sim (B1 := B1) (B2 := B2) eq (skipTerminateCH fuel) (skipTerminateCH fuel).
Proof. unfold skipTerminateCH. repeat (sim_next || sim_case). Qed.
#[local] Hint Resolve sim_skipTerminateCH : webserver.

Lemma sim_parseLine fuel b : sim (B1 := B1) (B2 := B2) eq (parseLine fuel b) (parseLine fuel b).
Proof. unfold parseLine. repeat (sim_next || sim_case). eauto with webserver. Qed.

Lemma sim_parseHead fuel b : sim (B1 := B1) (B2 := B2) eq (parseHead fuel b) (parseHead fuel b).
Proof.
  unfold parseHead. generalize fuel at 2 4. intros n. generalize (@nil ascii) as cur.
  revert b. induction n as [|n IH]; intros b cur; simpl; [eauto with webserver|].
  sim_next. sim_next. sim_case. sim_case. sim_case. sim_next. sim_case. sim_next.
  sim_case.
Qed.
End parser_sim.

(** A good stream is a buffer with both bits clear. *)
Ltac split_good s :=
  let e := fresh "e" in let f := fresh "f" in let He := fresh in let Hf := fresh in
  match goal with
  | Hg : good s = true |- _ =>
      destruct s as [b e f]; destruct (good_bits _ Hg) as [He Hf];
      simpl in He, Hf; subst e f
  end.

(** * Reading the body *)
Section body.
Context {B : Type} `{StreamBufOk B}.

Lemma xsgetn_avail n b :
  (n ≤ length (get_area b))%nat →
  ∃ b', xsgetn n b = (take n (get_area b), b') ∧
        get_area b' = drop n (get_area b) ∧ view b' = drop n (view b).
Proof.
  revert b. induction n as [|n IH]; intros b Hn.
  - exists b. by rewrite !drop_0.
  - simpl. unfold sbumpc. destruct (get_area b) as [|x ga] eqn:Hga; [simpl in Hn; lia|].
    rewrite (proj2 (Z.eqb_neq _ _) (to_int_not_EOF x)).
    assert (1 ≤ length (get_area b))%nat as H1' by (rewrite Hga; simpl; lia).
    pose proof (get_area_gbump 1 b H1') as Hga1. rewrite Hga in Hga1. simpl in Hga1.
    rewrite drop_0 in Hga1.
    destruct (IH (gbump 1 b)) as (b' & -> & Hb' & Hv).
    { rewrite Hga1. simpl in Hn. lia. }
    exists b'. rewrite Hga1 in Hb' |- *. rewrite (char_int_to_char x _ (or_introl eq_refl)).
    split_and!; [done|done|]. rewrite Hv, view_gbump, drop_drop by done. done.
Qed.

(** [readsome] on a good stream takes what is in the get area, up to [n]. *)
Lemma readsome_get_area n s :
  good s = true → get_area (rdbuf s) ≠ [] →
  let k := Nat.min (length (get_area (rdbuf s))) n in
  ∃ b', readsome n s = Ret (take k (get_area (rdbuf s)), mk_istream b' false false) ∧
        get_area b' = drop k (get_area (rdbuf s)) ∧ view b' = drop k (view (rdbuf s)).
Proof.
  intros Hg Hne k. destruct (good_bits _ Hg) as [He Hf].
  destruct (xsgetn_avail k (rdbuf s)) as (b' & Hx & Hb'); [subst k; lia|].
  exists b'. split; [|done]. unfold readsome, sentry, sm_gets, mbind, SM_bind, mret, SM_ret.
  rewrite Hg. simpl. unfold in_avail. destruct (get_area (rdbuf s)) as [|x ga] eqn:Hga; [done|].
  destruct (Z.ltb_spec 0 (Z.of_nat (length (x :: ga)))) as [_|Hl]; [|simpl in Hl; lia].
  unfold on_buf. rewrite Nat2Z.id. subst k. simpl in Hx |- *. by rewrite Hx, He, Hf.
Qed.

(** A body already in the get area is read completely, in at most one
    iteration per byte. *)
Lemma body_loop_available n rest body s :
  good s = true → (N.to_nat rest ≤ length (get_area (rdbuf s)))%nat → (N.to_nat rest ≤ n)%nat →
  ∃ b', body_loop n rest body s
        = Ret (Some (body ++ take (N.to_nat rest) (get_area (rdbuf s))), mk_istream b' false false) ∧
        view b' = drop (N.to_nat rest) (view (rdbuf s)).
Proof.
  revert rest body s. induction n as [|n IH]; intros rest body s Hg Hga Hn.
  - assert (rest = 0%N) as -> by lia. split_good s.
    exists b. simpl. by rewrite take_0, app_nil_r, drop_0.
  - destruct (decide (rest = 0%N)) as [->|Hr].
    { split_good s.
      exists b. simpl. by rewrite take_0, app_nil_r, drop_0. }
    simpl. rewrite (proj2 (N.eqb_neq _ _) Hr).
    set (k := N.to_nat (N.min rest REQ_BFSIZE)).
    assert (0 < k ≤ N.to_nat rest)%nat as Hk by (subst k; unfold REQ_BFSIZE; lia).
    destruct (readsome_get_area k s Hg) as (b1 & Hrd & Hb1 & Hv1); [intros E; rewrite E in Hga; simpl in Hga; lia|].
    rewrite (SM_bind_Ret _ _ _ _ _ Hrd). rewrite Nat.min_r in Hb1, Hv1 |- * by lia.
    unfold is_fail, sm_gets, mbind, SM_bind. simpl. rewrite length_take, Nat.min_l by lia.
    destruct (IH (rest - N.of_nat k)%N (body ++ take k (get_area (rdbuf s))) (mk_istream b1 false false))
      as (b' & Hl & Hv'); [done|simpl; rewrite Hb1, length_drop; lia|lia|].
    rewrite Hl. exists b'. simpl in *. split.
    + do 3 f_equal. rewrite <- app_assoc. f_equal. rewrite Hb1.
      replace (N.to_nat rest) with (k + N.to_nat (rest - N.of_nat k))%nat by lia.
      by rewrite take_take_drop.
    + rewrite Hv', Hv1, drop_drop. f_equal. lia.
Qed.

(** A body that is not completely in the get area is waited for forever:
    [readsome] never calls [underflow], so once the get area is empty every
    iteration reads nothing. *)
Lemma body_loop_starved n rest body s :
  (∀ b : B, showmanyc b = 0) →
  good s = true → (length (get_area (rdbuf s)) < N.to_nat rest)%nat →
  body_loop n rest body s = Spin.
Proof.
  intros Hshow. revert rest body s. induction n as [|n IH]; intros rest body s Hg Hga; simpl.
  - by rewrite (proj2 (N.eqb_neq _ _)) by lia.
  - rewrite (proj2 (N.eqb_neq _ _)) by lia.
    set (k := N.to_nat (N.min rest REQ_BFSIZE)).
    destruct (get_area (rdbuf s)) as [|x ga] eqn:E.
    + erewrite SM_bind_Ret.
      2: { unfold readsome, sentry, sm_gets, mbind, SM_bind, mret, SM_ret. rewrite Hg. simpl.
           unfold in_avail. rewrite E, Hshow. simpl. reflexivity. }
      split_good s.
      unfold is_fail, sm_gets, mbind, SM_bind. simpl. apply IH; [done|]. simpl in *. rewrite E. simpl. lia.
    + destruct (readsome_get_area k s Hg) as (b1 & Hrd & Hb1 & _); [by rewrite E|].
      rewrite (SM_bind_Ret _ _ _ _ _ Hrd). unfold is_fail, sm_gets, mbind, SM_bind. simpl.
      apply IH; [done|]. simpl. rewrite Hb1, length_drop, E, length_take.
      simpl in *. lia.
Qed.
End body.

(** * A reference encoding and the analyser's round trip *)

Definition crlf : bytes := [ch_CR; ch_LF].

(** A header line without its line feed. *)
Definition header_text (kv : bytes * bytes) : bytes := kv.1 ++ $": " ++ kv.2 ++ [ch_CR].

Definition header_block (hdrs : list (bytes * bytes)) : bytes :=
  mjoin ((λ kv, header_text kv ++ [ch_LF]) <$> hdrs).

Lemma header_block_cons kv hdrs :
  header_block (kv :: hdrs) = header_text kv ++ ch_LF :: header_block hdrs.
Proof. unfold header_block. rewrite fmap_cons. simpl. by rewrite <- app_assoc. Qed.

Definition wire_head (m : HttpRequestMethod) (uri : bytes) (v : HttpVersion) (hdrs : list (bytes * bytes)) : bytes :=
  serialize_method m ++ [ch_SP] ++ uri ++ [ch_SP] ++ serialize_version v ++ crlf
  ++ header_block hdrs ++ crlf.

Definition wf_uri (u : bytes) : Prop := u ≠ [] ∧ Forall (λ c, isspace c = false) u.

(** A header the line format can carry. *)
Definition wf_header (kv : bytes * bytes) : Prop :=
  Forall (λ c, c ≠ ch_COLON ∧ c ≠ ch_LF) kv.1 ∧ Forall (λ c, c ≠ ch_LF) kv.2 ∧
  match kv.2 with [] => True | x :: _ => x ≠ ch_SP end.

#[global] Instance wf_header_dec kv : Decision (wf_header kv).
Proof.
  unfold wf_header. apply and_dec; [apply _|]. apply and_dec; [apply _|]. destruct kv.2; apply _.
Defined.

Lemma find_char_app c k r : Forall (λ x, x ≠ c) k → find_char c (k ++ c :: r) = Some (length k).
Proof.
  induction 1 as [|x k Hx Hk IH]; simpl.
  - by rewrite decide_True.
  - by rewrite decide_False, IH.
Qed.

Lemma find_char_None c s : Forall (λ x, x ≠ c) s → find_char c s = None.
Proof. induction 1 as [|x k Hx Hk IH]; simpl; [done|]. by rewrite decide_False, IH. Qed.

Lemma pop_back_snoc s c : pop_back (s ++ [c]) = s.
Proof. unfold pop_back. rewrite length_app. simpl. rewrite Nat.add_sub. apply take_app_length. Qed.

Lemma header_entry_text kv : wf_header kv → header_entry (header_text kv) (length kv.1) = Ret kv.
Proof.
  destruct kv as [k v]. intros (Hk & Hv & Hsp). cbn [fst snd] in *. unfold header_entry, header_text. cbn [fst snd].
  assert (k ++ $": " ++ v ++ [ch_CR] = (k ++ $": " ++ v) ++ [ch_CR]) as -> by (by rewrite <- !app_assoc).
  rewrite pop_back_snoc. cbv zeta.
  assert (skip_blanks (k ++ $": " ++ v) (S (length k)) = length (k ++ $": ")) as ->.
  { unfold skip_blanks. rewrite drop_app_ge by lia. replace (S (length k) - length k)%nat with 1%nat by lia.
    change (drop 1 ($": " ++ v)) with (ch_SP :: v).
    assert (span (λ x, bool_decide (x = ch_SP)) ([ch_SP] ++ v) = ([ch_SP], v)) as Hs.
    { apply span_all; [by repeat constructor|]. destruct v; [done|]. by apply bool_decide_eq_false. }
    simpl app in Hs. rewrite Hs. simpl. rewrite length_app. simpl. lia. }
  unfold substr_from. rewrite (app_assoc k). rewrite length_app.
  destruct (Nat.ltb_spec (length (k ++ $": ") + length v) (length (k ++ $": "))); [lia|].
  rewrite drop_app_length. unfold mbind, outcome_bind, mret, outcome_ret.
  by rewrite <- app_assoc, take_app_length.
Qed.

Lemma header_text_no_LF kv : wf_header kv → Forall (λ x, x ≠ ch_LF) (header_text kv).
Proof.
  destruct kv as [k v]. intros (Hk & Hv & _). unfold header_text. simpl in *.
  apply Forall_app_2; [|repeat constructor; [done..|apply Forall_app_2; [done|by repeat constructor]]].
  apply (list.Forall_impl _ _ _ Hk). by intros x [_ ?].
Qed.

Lemma header_text_length kv : (3 ≤ length (header_text kv))%nat.
Proof. destruct kv as [k v]. unfold header_text. rewrite !length_app. simpl. lia. Qed.

(** A token the extractor reads as one word. *)
Definition is_word (w : bytes) : Prop := w ≠ [] ∧ Forall (λ c, isspace c = false) w.

#[global] Instance is_word_dec w : Decision (is_word w).
Proof. unfold is_word. apply _. Defined.

(** The request object after a well-formed request line. *)
Definition with_line (w1 w2 w3 : bytes) (b : HttpRequest) : HttpRequest :=
  setHttpVersion (toHttpVersion w3) (setURI w2 (setRequestMethod (toRequestMethod w1) b)).

Lemma is_fail_bits {B} (b : B) e f : is_fail (mk_istream b e f) = Ret (f, mk_istream b e f).
Proof. done. Qed.

Section string_parsing.
Implicit Types (r : bytes) (b : HttpRequest).

Lemma skipTerminateCH_string fuel x y r :
  skipTerminateCH fuel (mk_istream (x :: y :: r) false false)
  = if decide (x = ch_CR) then
      if decide (y = ch_LF) then Ret (SERVER_OK, mk_istream r false false)
      else Ret (PARSE_TERMINATE_CH_FAILED, mk_istream r false false)
    else Ret (PARSE_TERMINATE_CH_FAILED, mk_istream (y :: r) false false).
Proof.
  assert (∀ a c, (to_int_type a =? to_int_type c) = bool_decide (a = c)) as Heq.
  { intros a c. destruct (decide (a = c)) as [->|Hne].
    - by rewrite Z.eqb_refl, bool_decide_true.
    - rewrite bool_decide_false by done. apply Z.eqb_neq. intros Hac. apply Hne.
      rewrite <- (char_int_to_char a _ (or_introl eq_refl)), Hac.
      apply char_int_to_char. by left. }
  unfold skipTerminateCH. rewrite (SM_bind_Ret _ _ _ _ _ (get_string x (y :: r) fuel)), Heq.
  case_decide; [rewrite bool_decide_true by done|by rewrite bool_decide_false].
  cbn [negb]. rewrite (SM_bind_Ret _ _ _ false (mk_istream (y :: r) false false)) by done.
  cbv iota. rewrite (SM_bind_Ret _ _ _ _ _ (get_string y r fuel)), Heq.
  case_decide; [by rewrite bool_decide_true|by rewrite bool_decide_false].
Qed.

Lemma skipTerminateCH_crlf fuel r :
  skipTerminateCH fuel (mk_istream (ch_CR :: ch_LF :: r) false false)
  = Ret (SERVER_OK, mk_istream r false false).
Proof. by rewrite skipTerminateCH_string. Qed.

(** The three words of a request line, whatever follows them. *)
Lemma parseLine_words fuel w1 w2 w3 x y r b :
  is_word w1 → is_word w2 → is_word w3 → isspace x = true →
  (length w1 + length w2 + length w3 < fuel)%nat →
  parseLine fuel b (mk_istream (w1 ++ [ch_SP] ++ w2 ++ [ch_SP] ++ w3 ++ x :: y :: r) false false)
  = (e ← skipTerminateCH fuel; mret (e, with_line w1 w2 w3 b)) (mk_istream (x :: y :: r) false false).
Proof.
  intros [H1 H1'] [H2 H2'] [H3 H3'] Hx Hf. unfold parseLine.
  erewrite SM_bind_Ret; [|apply (extract_word_string []); [done..|simpl; lia|lia]].
  rewrite (SM_bind_Ret _ _ _ _ _ (is_fail_bits _ _ _)).
  rewrite bool_decide_false by done.
  erewrite SM_bind_Ret; [|apply (extract_word_string [ch_SP]); [by repeat constructor|done..|simpl; lia|lia]].
  rewrite (SM_bind_Ret _ _ _ _ _ (is_fail_bits _ _ _)).
  rewrite bool_decide_false by done.
  erewrite SM_bind_Ret; [|apply (extract_word_string [ch_SP]); [by repeat constructor|done..|simpl; lia|lia]].
  rewrite (SM_bind_Ret _ _ _ _ _ (is_fail_bits _ _ _)).
  rewrite bool_decide_false by done. done.
Qed.

(** One header line without its line feed: every way an iteration of the loop
    can end. *)
Lemma parseHead_loop_line fuel n line r cur b :
  Forall (λ x, x ≠ ch_LF) line → (length line ≤ fuel)%nat →
  parseHead_loop fuel (S n) cur b (mk_istream (line ++ ch_LF :: r) false false)
  = if Nat.eqb (length line) 1 then Ret ((SERVER_OK, b), mk_istream r false false)
    else match find_char ch_COLON line with
         | None => Ret ((INVALID_REQ_HEADER_FORMAT, b), mk_istream r false false)
         | Some tok =>
             match header_entry line tok with
             | Ret (k, v) =>
                 parseHead_loop fuel n (pop_back line) (setHeader k v b) (mk_istream r false false)
             | Throw e => Throw e
             | Undef => Undef
             | Spin => Spin
             end
         end.
Proof.
  intros Hl Hf. cbn [parseHead_loop].
  rewrite (SM_bind_Ret _ _ _ _ _ (getline_string line r fuel Hl Hf)).
  rewrite (SM_bind_Ret _ _ _ _ _ (is_fail_bits _ _ _)). cbn [extracted]. cbv zeta.
  destruct (Nat.eqb (length line) 1); [done|].
  destruct (find_char ch_COLON line) as [tok|]; [|done].
  unfold sm_lift. unfold mbind at 1, SM_bind at 1.
  destruct (header_entry line tok) as [[k v]| | |]; [|done..].
  by rewrite (SM_bind_Ret _ _ _ _ _ (is_fail_bits _ _ _)).
Qed.

(** Well-formed header lines are all recorded. *)
Lemma parseHead_loop_headers fuel n hdrs r cur b :
  Forall wf_header hdrs →
  Forall (λ kv, (length (header_text kv) ≤ fuel)%nat) hdrs →
  ∃ cur', parseHead_loop fuel (length hdrs + n) cur b (mk_istream (header_block hdrs ++ r) false false)
  = parseHead_loop fuel n cur'
      (mk_HttpRequest (__method b) (__uri b) (__version b) (assign_all hdrs (__header b)) (__body b))
      (mk_istream r false false).
Proof.
  intros Hwf Hfl. revert cur b. induction hdrs as [|kv hdrs IH]; intros cur b.
  - exists cur. by destruct b.
  - apply Forall_cons_1 in Hwf as [Hkv Hwf]. apply Forall_cons_1 in Hfl as [Hk Hfl].
    rewrite header_block_cons, <- app_assoc. cbn [app length Nat.add].
    rewrite parseHead_loop_line by (by apply header_text_no_LF || done).
    pose proof (header_text_length kv).
    destruct (Nat.eqb_spec (length (header_text kv)) 1); [lia|].
    assert (find_char ch_COLON (header_text kv) = Some (length kv.1)) as ->.
    { unfold header_text. apply (find_char_app ch_COLON).
      destruct Hkv as [Hk1 _]. apply (list.Forall_impl _ _ _ Hk1). by intros x [? _]. }
    rewrite header_entry_text by done. destruct kv as [k v].
    destruct (IH Hwf Hfl (pop_back (header_text (k, v))) (setHeader k v b)) as [cur' Hc].
    by exists cur'.
Qed.

(** Header lines, the empty line, and what follows. *)
Lemma parseHead_loop_string fuel n hdrs r cur b :
  Forall wf_header hdrs → (length hdrs < n)%nat →
  Forall (λ kv, (length (header_text kv) ≤ fuel)%nat) hdrs → (1 ≤ fuel)%nat →
  parseHead_loop fuel n cur b (mk_istream (header_block hdrs ++ crlf ++ r) false false)
  = Ret ((SERVER_OK, mk_HttpRequest (__method b) (__uri b) (__version b)
                       (assign_all hdrs (__header b)) (__body b)),
         mk_istream r false false).
Proof.
  intros Hwf Hn Hfl Hf. replace n with (length hdrs + S (n - length hdrs - 1))%nat by lia.
  destruct (parseHead_loop_headers fuel (S (n - length hdrs - 1)) hdrs (crlf ++ r) cur b Hwf Hfl) as [cur' ->].
  change (crlf ++ r) with ([ch_CR] ++ ch_LF :: r). by rewrite parseHead_loop_line by (by repeat constructor || done).
Qed.
End string_parsing.

(** * Invariants of the buffer through the analyser *)
Section parser_pres.
Context {B : Type} `{StreamBuf B} (P : B → Prop) (Hcl : buf_closed P).

Lemma pres_is_fail : pres P is_fail.
Proof. apply pres_gets. Qed.
#[local] Hint Resolve pres_is_fail Hcl : webserver.

Lemma pres_skipTerminateCH fuel : pres P (skipTerminateCH fuel).
Proof. unfold skipTerminateCH. sm_decompose @pres_bind. Qed.
#[local] Hint Resolve pres_skipTerminateCH : webserver.

Lemma pres_parseLine fuel b : pres P (parseLine fuel b).
Proof. unfold parseLine. sm_decompose @pres_bind. Qed.

Lemma pres_parseHead fuel b : pres P (parseHead fuel b).
Proof.
  unfold parseHead. generalize fuel at 2. intros n. generalize (@nil ascii) as cur.
  revert b. induction n as [|n IH]; intros b cur; simpl; sm_decompose @pres_bind.
Qed.
#[local] Hint Resolve pres_parseLine pres_parseHead : webserver.

Lemma pres_body_loop n rest body : pres P (body_loop n rest body).
Proof. revert rest body. induction n as [|n IH]; intros rest body; simpl; sm_decompose @pres_bind. Qed.
#[local] Hint Resolve pres_body_loop : webserver.

Lemma pres_getOneHttpRequest fuel : pres P (getOneHttpRequest fuel).
Proof. unfold getOneHttpRequest, parseBody. sm_decompose @pres_bind. Qed.
End parser_pres.

(** * The head of a request on any lawful stream *)

(** The request object after the request line and the headers. *)
Definition parsed_head (m : HttpRequestMethod) (u : bytes) (v : HttpVersion) (hdrs : list (bytes * bytes)) : HttpRequest :=
  mk_HttpRequest m u v (assign_all hdrs ∅) [].

Lemma serialize_method_is_word m : is_word (serialize_method m).
Proof. apply serialize_method_word. Qed.
Lemma serialize_version_is_word v : is_word (serialize_version v).
Proof. apply serialize_version_word. Qed.
#[export] Hint Resolve serialize_method_is_word serialize_version_is_word : webserver.

Section head_string.
Context (m : HttpRequestMethod) (u : bytes) (v : HttpVersion) (hdrs : list (bytes * bytes)).
Context (Hu : is_word u) (Hwf : Forall wf_header hdrs).

Lemma parseLine_wire fuel tail :
  (length (wire_head m u v hdrs) < fuel)%nat →
  parseLine fuel new_HttpRequest
    (mk_istream (serialize_method m ++ [ch_SP] ++ u ++ [ch_SP] ++ serialize_version v ++ crlf ++ tail) false false)
  = Ret ((SERVER_OK, mk_HttpRequest m u v ∅ []), mk_istream tail false false).
Proof.
  unfold wire_head. rewrite !length_app. intros Hf.
  change (crlf ++ tail) with (ch_CR :: ch_LF :: tail).
  rewrite parseLine_words; [|auto with webserver..|done|simpl in *; lia].
  rewrite (SM_bind_Ret _ _ _ _ _ (skipTerminateCH_crlf _ _)).
  unfold with_line. by rewrite toRequestMethod_serialize, toHttpVersion_serialize.
Qed.

Lemma lines_length :
  (length hdrs ≤ length (header_block hdrs))%nat ∧
  Forall (λ kv, (length (header_text kv) ≤ length (header_block hdrs))%nat) hdrs.
Proof.
  clear. induction hdrs as [|kv l [IH1 IH2]]; [done|].
  rewrite header_block_cons, length_app. simpl. split; [lia|]. constructor; [lia|].
  apply (list.Forall_impl _ _ _ IH2). intros kv'. lia.
Qed.

Lemma parseHead_wire fuel r :
  (length (wire_head m u v hdrs) < fuel)%nat →
  parseHead fuel (mk_HttpRequest m u v ∅ [])
    (mk_istream (header_block hdrs ++ crlf ++ r) false false)
  = Ret ((SERVER_OK, parsed_head m u v hdrs), mk_istream r false false).
Proof.
  unfold wire_head. rewrite !length_app. intros Hf. destruct lines_length as [H1 H2].
  unfold parseHead. rewrite parseHead_loop_string; [done|done|lia| |lia].
  apply (list.Forall_impl _ _ _ H2). intros kv. lia.
Qed.
End head_string.

Section head_stream.
Context {B : Type} `{StreamBufOk B}.

Lemma sim_string_run {A} (m1 : IS B A) (m2 : IS bytes A) b a r e f :
  sim eq m1 m2 →
  m2 (mk_istream (view b) false false) = Ret (a, mk_istream r e f) →
  ∃ b', m1 (mk_istream b false false) = Ret (a, mk_istream b' e f) ∧
        (e || f = false → view b' = r).
Proof.
  intros Hsim Hr. assert (alike (mk_istream b false false) (mk_istream (view b) false false)) as Hal by done.
  specialize (Hsim _ _ Hal). rewrite Hr in Hsim.
  destruct (m1 _) as [[a' [b' e' f']]| | |]; try done.
  destruct Hsim as (-> & He & Hf & Hv). simpl in *. subst e' f'. exists b'. split; [done|].
  intros Hef. apply Hv. unfold good. simpl. by rewrite Hef.
Qed.

Lemma sim_string_throw {A} (m1 : IS B A) (m2 : IS bytes A) b e :
  sim eq m1 m2 → m2 (mk_istream (view b) false false) = Throw e →
  m1 (mk_istream b false false) = Throw e.
Proof.
  intros Hsim Hr. assert (alike (mk_istream b false false) (mk_istream (view b) false false)) as Hal by done.
  specialize (Hsim _ _ Hal). rewrite Hr in Hsim.
  destruct (m1 _) as [[]| | |]; try done. by subst.
Qed.

(** The request line on any stream. *)
Lemma parseLine_stream (P : B → Prop) fuel b m u v hdrs tail :
  buf_closed P → P b → is_word u → (length (wire_head m u v hdrs) < fuel)%nat →
  view b = serialize_method m ++ [ch_SP] ++ u ++ [ch_SP] ++ serialize_version v ++ crlf ++ tail →
  ∃ b', P b' ∧ view b' = tail ∧
    parseLine fuel new_HttpRequest (mk_istream b false false)
    = Ret ((SERVER_OK, mk_HttpRequest m u v ∅ []), mk_istream b' false false).
Proof.
  intros Hcl HP Hu Hf Hv.
  destruct (sim_string_run (parseLine fuel new_HttpRequest) (parseLine fuel new_HttpRequest) b
              (SERVER_OK, mk_HttpRequest m u v ∅ []) tail false false)
    as (b1 & Hl & Hv1); [apply sim_parseLine|by rewrite Hv; apply (parseLine_wire m u v hdrs)|].
  exists b1. split_and!; [|by apply Hv1|done].
  by apply (pres_parseLine P Hcl _ _ (mk_istream b false false) _ _ HP Hl).
Qed.

(** The analyser on a well-formed head leaves exactly the body to be read,
    whatever the buffer and however the bytes arrived in it. *)
Lemma getOneHttpRequest_head (P : B → Prop) fuel b m u v hdrs r :
  buf_closed P → P b →
  is_word u → Forall wf_header hdrs → (length (wire_head m u v hdrs) < fuel)%nat →
  view b = wire_head m u v hdrs ++ r →
  ∃ b', P b' ∧ view b' = r ∧
    getOneHttpRequest fuel (mk_istream b false false)
    = parseBody fuel (parsed_head m u v hdrs) (mk_istream b' false false).
Proof.
  intros Hcl HP Hu Hwf Hf Hv.
  destruct (parseLine_stream P fuel b m u v hdrs (header_block hdrs ++ crlf ++ r)) as (b1 & HP1 & Hv1 & Hl);
    [done..|by rewrite Hv; unfold wire_head; rewrite <- !app_assoc|].
  destruct (sim_string_run (parseHead fuel (mk_HttpRequest m u v ∅ [])) (parseHead fuel (mk_HttpRequest m u v ∅ [])) b1
              (SERVER_OK, parsed_head m u v hdrs) r false false)
    as (b2 & Hh & Hv2); [apply sim_parseHead|by rewrite Hv1; apply parseHead_wire|].
  exists b2. split_and!; [by apply (pres_parseHead P Hcl _ _ (mk_istream b1 false false) _ _ HP1 Hh)|by apply Hv2|].
  unfold getOneHttpRequest. rewrite (SM_bind_Ret _ _ _ _ _ Hl). cbn beta iota.
  rewrite decide_True by done. rewrite (SM_bind_Ret _ _ _ _ _ Hh). cbn beta iota.
  by rewrite decide_True.
Qed.
End head_stream.

(** * Termination and progress *)
Section parser_tame.
Lemma tame_is_fail fuel : tame fuel is_fail.
Proof. apply tame_gets. Qed.
#[local] Hint Resolve tame_is_fail : webserver.

Lemma header_entry_outcome cur tok :
  (∃ e, header_entry cur tok = Throw e) ∨ ∃ kv, header_entry cur tok = Ret kv.
Proof.
  unfold header_entry, substr_from. destruct (Nat.ltb _ _); simpl; [left|right]; by eexists.
Qed.

Lemma tame_header_entry fuel cur tok : tame fuel (sm_lift (header_entry cur tok)).
Proof.
  intros s Hs Hf. unfold sm_lift.
  destruct (header_entry_outcome cur tok) as [[e ->]|[kv ->]]; [left; by eexists|right].
  by exists kv, s.
Qed.

Lemma tame_skipTerminateCH fuel fuel' : tame fuel (skipTerminateCH fuel').
Proof. unfold skipTerminateCH. sm_decompose @tame_bind. Qed.
#[local] Hint Resolve tame_skipTerminateCH tame_header_entry : webserver.

(** The request line: it ends, and the stream is at its end or shorter. *)
Lemma parseLine_progress fuel b s :
  settled s → (length (rdbuf s) < fuel)%nat →
  (∃ e, parseLine fuel b s = Throw e) ∨
  ∃ a s', parseLine fuel b s = Ret (a, s') ∧ advanced s s' ∧
          (eofbit s' = false → (length (rdbuf s') < length (rdbuf s))%nat).
Proof.
  intros Hs Hf. unfold parseLine.
  destruct (extract_word_tame_strict fuel s Hs Hf) as (w & s1 & Hw & (Hs1 & He1 & Hl1) & Hlt).
  rewrite (SM_bind_Ret _ _ _ _ _ Hw).
  match goal with |- context [?k s1] =>
    assert (tame fuel k) as Hk by sm_decompose @tame_bind;
    destruct (Hk s1 Hs1 ltac:(lia)) as [?|(a & s' & Hr & Had)] end; [by left|right].
  exists a, s'. split; [exact Hr|]. destruct Had as (Hs' & He' & Hl').
  split; [split_and!; [done|auto|lia]|]. intros Hne.
  destruct (eofbit s1) eqn:E; [by rewrite He' in Hne|]. specialize (Hlt eq_refl). lia.
Qed.

Lemma tame_parseHead_loop n fuel cur b s :
  settled s → (length (rdbuf s) < n)%nat → (length (rdbuf s) < fuel)%nat →
  (∃ e, parseHead_loop fuel n cur b s = Throw e) ∨
  ∃ a s', parseHead_loop fuel n cur b s = Ret (a, s') ∧ advanced s s'.
Proof.
  revert cur b s. induction n as [|n IH]; intros cur b s Hs Hn Hf; [lia|]. cbn [parseHead_loop].
  destruct (getline_tame_strict fuel s Hs Hf) as (l & s1 & Hg & Had & Hlt).
  rewrite (SM_bind_Ret _ _ _ _ _ Hg). destruct s1 as [v1 e1 f1]. simpl in Hlt.
  rewrite (SM_bind_Ret _ _ _ _ _ (is_fail_bits _ _ _)).
  destruct f1; [right; by eexists _, _|]. specialize (Hlt eq_refl).
  destruct (Nat.eqb _ 1); [right; by eexists _, _|].
  destruct (find_char _ _) as [tok|]; [|right; by eexists _, _].
  destruct (header_entry_outcome (extracted cur l) tok) as [[e He]|[[k v] He]];
    unfold mbind at 1, SM_bind at 1; unfold sm_lift at 1; rewrite He; [left; by exists e|].
  rewrite (SM_bind_Ret _ _ _ _ _ (is_fail_bits _ _ _)).
  destruct (IH (pop_back (extracted cur l)) (setHeader k v b) (mk_istream v1 e1 false)) as [?|(a & s' & Hr & Had')];
    [apply Had|simpl; lia..|by left|right].
  exists a, s'. split; [done|]. by eapply advanced_trans.
Qed.

Lemma tame_parseHead fuel b : tame fuel (parseHead fuel b).
Proof. intros s Hs Hf. by apply tame_parseHead_loop. Qed.
End parser_tame.

(** * Line and headers as one phase *)
Section head_phase.
Context {B : Type} `{StreamBuf B}.

Definition head_phase (fuel : nat) : IS B (Error * HttpRequest) :=
  '(e1, b1) ← parseLine fuel new_HttpRequest;
  if decide (e1 = SERVER_OK) then parseHead fuel b1 else mret (e1, b1).

Lemma getOneHttpRequest_phases fuel s :
  getOneHttpRequest fuel s
  = (r ← head_phase fuel;
     if decide (r.1 = SERVER_OK) then parseBody fuel r.2 else mret r) s.
Proof.
  unfold getOneHttpRequest, head_phase, mbind, SM_bind.
  destruct (parseLine fuel new_HttpRequest s) as [[[e1 b1] s1]| | |]; try done.
  destruct (decide (e1 = SERVER_OK)).
  - destruct (parseHead fuel b1 s1) as [[[e2 b2] s2]| | |]; done.
  - unfold mret, SM_ret. simpl. by rewrite decide_False.
Qed.

Lemma parseBody_no_length fuel b s :
  __header b !! CONTENT_LENGTH = None → parseBody fuel b s = Ret ((SERVER_OK, b), s).
Proof.
  intros Hn. unfold parseBody, requestBodyLength, sm_lift, mbind, SM_bind. unfold getHeader. by rewrite Hn.
Qed.

Lemma parseBody_header fuel b s e b' s' :
  parseBody fuel b s = Ret ((e, b'), s') → __header b' = __header b.
Proof.
  unfold parseBody, sm_lift, mbind, SM_bind, mret, SM_ret.
  repeat case_match; try done; intros [= _ <- _]; done.
Qed.
End head_phase.

Lemma sim_head_phase {B1 B2} `{StreamBufOk B1} `{StreamBufOk B2} fuel :
  sim (B1 := B1) (B2 := B2) eq (head_phase fuel) (head_phase fuel).
Proof.
  unfold head_phase. eapply (sim_bind eq); [apply sim_parseLine|]. intros [e b] _ <-.
  destruct (decide (e = SERVER_OK)); [apply sim_parseHead|by apply sim_ret].
Qed.

(** The line and the headers on a string: they are read to their end, or to an
    error or an exception. *)
Lemma head_phase_string fuel (t : istream bytes) :
  settled t → (length (rdbuf t) < fuel)%nat →
  (∃ e, head_phase fuel t = Throw e) ∨
  ∃ a t', head_phase fuel t = Ret (a, t') ∧ advanced t t' ∧
          (eofbit t' = false → (length (rdbuf t') < length (rdbuf t))%nat).
Proof.
  intros Ht Hf. unfold head_phase.
  destruct (parseLine_progress fuel new_HttpRequest t Ht Hf) as [[e He]|([e1 b1] & t1 & Hr1 & Had & Hlt)].
  { left. exists e. by apply SM_bind_Throw. }
  rewrite (SM_bind_Ret _ _ _ _ _ Hr1). cbn beta iota.
  destruct (decide (e1 = SERVER_OK)); [|right; by exists (e1, b1), t1].
  pose proof Had as (Ht1 & He1 & Hl1).
  destruct (tame_parseHead fuel b1 t1 Ht1 ltac:(lia)) as [?|(a & t2 & Hr2 & Had2)]; [by left|right].
  exists a, t2. split; [done|]. split; [by eapply advanced_trans|]. intros Hne. destruct Had2 as (_ & He2 & Hl2).
  assert (eofbit t1 = false) as Hne1 by (destruct (eofbit t1); [by rewrite He2 in Hne|done]).
  specialize (Hlt Hne1). lia.
Qed.

(** The same on any lawful stream whose buffer never announces more than its
    get area (the default [showmanyc]). *)
Section stream_progress.
Context {B : Type} `{StreamBufOk B} (Hshow : ∀ b : B, showmanyc b = 0).

Definition settled_stream (s : istream B) : Prop := failbit s = true → eofbit s = true.

(** [s'] is at its end, or there is no more to read from it than from [s]. *)
Definition read_on (s s' : istream B) : Prop :=
  settled_stream s' ∧
  (eofbit s' = false → eofbit s = false ∧ (length (view (rdbuf s')) ≤ length (view (rdbuf s)))%nat).

Lemma read_on_refl s : settled_stream s → read_on s s.
Proof. done. Qed.

Lemma read_on_trans s1 s2 s3 : read_on s1 s2 → read_on s2 s3 → read_on s1 s3.
Proof.
  intros [_ H12] [Hs H23]. split; [done|]. intros He.
  destruct (H23 He) as [He2 ?]. destruct (H12 He2). split; [done|lia].
Qed.

Lemma readsome_outcome n (s : istream B) :
  settled_stream s → ∃ d s', readsome n s = Ret (d, s') ∧ read_on s s'.
Proof.
  intros Hs. destruct (good s) eqn:Hg.
  - destruct (get_area (rdbuf s)) as [|x ga] eqn:Hga.
    + exists [], s. split; [|by apply read_on_refl]. split_good s. simpl in Hga.
      unfold readsome, sentry, sm_gets, mbind, SM_bind, mret, SM_ret. simpl.
      unfold in_avail. by rewrite Hga, Hshow.
    + destruct (readsome_get_area n s Hg) as (b1 & Hrd & _ & Hv); [by rewrite Hga|].
      eexists _, _. split; [exact Hrd|]. split; [done|]. intros _.
      split; [by destruct (good_bits _ Hg)|]. simpl. rewrite Hv, length_drop. lia.
  - exists [], (mk_istream (rdbuf s) (eofbit s) true). split.
    + unfold readsome, sentry, sm_gets, mbind, SM_bind, mret, SM_ret, set_bits, sm_modify, setstate.
      rewrite Hg. simpl. by rewrite orb_false_r, orb_true_r.
    + destruct s as [b e f]. unfold settled_stream, good in *. simpl in *. split; simpl; [|by intros ->].
      intros _. destruct e; [done|]. destruct f; [by apply Hs|done].
Qed.

Lemma body_loop_outcome n rest body (s : istream B) :
  settled_stream s →
  body_loop n rest body s = Spin ∨ ∃ r s', body_loop n rest body s = Ret (r, s') ∧ read_on s s'.
Proof.
  revert rest body s. induction n as [|n IH]; intros rest body s Hs; simpl;
    destruct (rest =? 0)%N; [right; by exists (Some body), s|by left|right; by exists (Some body), s|].
  destruct (readsome_outcome (N.to_nat (N.min rest REQ_BFSIZE)) s Hs) as (d & [b1 e1 f1] & Hr & Hon).
  rewrite (SM_bind_Ret _ _ _ _ _ Hr), (SM_bind_Ret _ _ _ _ _ (is_fail_bits _ _ _)).
  destruct f1; [right; by eexists _, _|].
  destruct (IH (rest - N.of_nat (length d))%N (body ++ d) _ (proj1 Hon)) as [?|(r & s' & Hl & Hon')]; [by left|right].
  exists r, s'. split; [done|]. by eapply read_on_trans.
Qed.

Lemma parseBody_outcome fuel b (s : istream B) :
  settled_stream s →
  parseBody fuel b s = Spin ∨ (∃ e, parseBody fuel b s = Throw e) ∨
  ∃ a s', parseBody fuel b s = Ret (a, s') ∧ read_on s s'.
Proof.
  intros Hs. unfold parseBody.
  assert ((∃ e, requestBodyLength b = Throw e) ∨ ∃ n, requestBodyLength b = Ret n) as [[e He]|[n Hn]].
  { unfold requestBodyLength, stoul. repeat case_match; eauto. }
  - right. left. exists e. apply SM_bind_Throw. unfold sm_lift. by rewrite He.
  - rewrite (SM_bind_Ret _ _ s n s) by (unfold sm_lift; by rewrite Hn).
    destruct (n =? 0)%N; [right; right; by eexists _, _|].
    destruct (body_loop_outcome fuel n [] s Hs) as [Hr|(r & s' & Hr & Hon)].
    + left. by apply SM_bind_Spin.
    + right. right. rewrite (SM_bind_Ret _ _ _ _ _ Hr). destruct r; by eexists _, _.
Qed.

(** A run on the string of what can be read, transferred to the stream. *)
Lemma tame_stream {A} (m1 : IS B A) (m2 : IS bytes A) s t a t' :
  sim eq m1 m2 → alike s t → m2 t = Ret (a, t') →
  ∃ s', m1 s = Ret (a, s') ∧ alike s' t'.
Proof.
  intros Hsim Hal Hr. specialize (Hsim s t Hal). rewrite Hr in Hsim.
  destruct (m1 s) as [[a' s']| | |]; try done. destruct Hsim as [-> Hal']. by exists s'.
Qed.

Lemma alike_view (s : istream B) (t : istream bytes) :
  alike s t → settled t → eofbit t = false → view (rdbuf s) = rdbuf t.
Proof.
  intros (He & Hf & Hv) Hs Het. apply Hv. unfold good. rewrite He, Hf, Het. simpl.
  unfold settled in Hs. rewrite Het in Hs.
  destruct (failbit t) eqn:E; [by specialize (Hs eq_refl)|done].
Qed.

(** The line and the headers on the stream. *)
Lemma head_phase_progress fuel (b : B) :
  (length (view b) < fuel)%nat →
  let s := mk_istream b false false in
  (∃ e, head_phase fuel s = Throw e) ∨
  ∃ a s', head_phase fuel s = Ret (a, s') ∧ settled_stream s' ∧
          (eofbit s' = false → (length (view (rdbuf s')) < length (view b))%nat).
Proof.
  intros Hf s. assert (alike s (mk_istream (view b) false false)) as Hal by done.
  destruct (head_phase_string fuel (mk_istream (view b) false false))
    as [[e He]|(a & t & Hr & (Ht & _ & _) & Hlt)]; [done|done| |].
  - left. exists e. pose proof (sim_head_phase fuel _ _ Hal) as Hs. rewrite He in Hs.
    destruct (head_phase fuel s) as [[]| | |]; try done. by subst.
  - right. destruct (tame_stream _ _ _ _ _ _ (sim_head_phase fuel) Hal Hr) as (s1 & Hs1 & Hal1).
    exists a, s1. split; [done|]. pose proof Hal1 as (He & Hfl & _).
    split; [unfold settled_stream; by rewrite He, Hfl|].
    intros Hne. rewrite He in Hne. rewrite (alike_view _ _ Hal1 Ht Hne). by apply Hlt.
Qed.

(** One request: unless the body loop spins or something throws, the stream
    is at its end afterwards or there is strictly less to read. *)
Lemma getOneHttpRequest_progress fuel (b : B) :
  (length (view b) < fuel)%nat →
  let s := mk_istream b false false in
  getOneHttpRequest fuel s = Spin ∨ (∃ e, getOneHttpRequest fuel s = Throw e) ∨
  ∃ a s', getOneHttpRequest fuel s = Ret (a, s') ∧ settled_stream s' ∧
          (eofbit s' = false → (length (view (rdbuf s')) < length (view b))%nat).
Proof.
  intros Hf s. rewrite getOneHttpRequest_phases.
  destruct (head_phase_progress fuel b Hf) as [[e He]|([e r] & s1 & Hr & Hs1 & Hlt)].
  { right; left. exists e. by apply SM_bind_Throw. }
  rewrite (SM_bind_Ret _ _ _ _ _ Hr). cbn [fst snd].
  destruct (decide (e = SERVER_OK)); [|right; right; by exists (e, r), s1].
  destruct (parseBody_outcome fuel r s1 Hs1) as [?|[?|(a & s2 & Hr2 & Hs2 & Hon)]]; [by left|by right; left|].
  right; right. exists a, s2. split_and!; [done|done|]. intros Hne. destruct (Hon Hne) as [Hne1 ?].
  specialize (Hlt Hne1). lia.
Qed.
End stream_progress.

(** * The request a client sends for a request object *)

Section wire.
Context `{MapOrder}.

(** Request line and headers with CR LF, the empty line, the body. *)
Definition wire_request (req : HttpRequest) : bytes :=
  wire_head (__method req) (__uri req) (__version req) (map_order (__header req)) ++ __body req.
End wire.

(** A request the format can carry: its URI is a word, its headers fit on a
    line, its body is announced by [Content-Length] (or empty). *)
Definition wf_request (req : HttpRequest) : Prop :=
  is_word (__uri req) ∧ map_Forall (λ k v, wf_header (k, v)) (__header req) ∧
  requestBodyLength req = Ret (N.of_nat (length (__body req))).

Section request_roundtrip.
Context {B : Type} `{StreamBufOk B} `{MapOrderOk}.

Lemma wf_request_headers req :
  wf_request req → Forall wf_header (map_order (__header req)).
Proof.
  intros (_ & Hh & _). apply list.Forall_forall. intros [k v] Hkv.
  rewrite map_order_perm in Hkv. apply elem_of_map_to_list in Hkv. by apply Hh.
Qed.

Lemma parsed_head_of req :
  parsed_head (__method req) (__uri req) (__version req) (map_order (__header req))
  = setBody [] req.
Proof.
  unfold parsed_head, setBody. by rewrite (assign_all_perm _ _ (map_order_perm _)).
Qed.

(** With an invariant that keeps the whole body in the get area. *)
Lemma wire_request_parsed (P : B → Prop) fuel b req r :
  buf_closed P → P b → wf_request req →
  (∀ b', P b' → view b' = __body req ++ r → (length (__body req) ≤ length (get_area b'))%nat) →
  (length (wire_request req) < fuel)%nat →
  view b = wire_request req ++ r →
  ∃ b', getOneHttpRequest fuel (mk_istream b false false)
        = Ret ((SERVER_OK, req), mk_istream b' false false) ∧ view b' = r ∧ P b'.
Proof.
  intros Hcl HP Hwf Hbody Hf Hv.
  assert (∃ b', getOneHttpRequest fuel (mk_istream b false false)
        = Ret ((SERVER_OK, req), mk_istream b' false false) ∧ view b' = r) as (b' & Hrun & Hv').
  2: { exists b'. split_and!; [done..|]. by apply (pres_getOneHttpRequest P Hcl fuel (mk_istream b false false) _ _ HP Hrun). }
  revert Hf Hv. unfold wire_request. rewrite length_app, <- app_assoc. intros Hf Hv.
  destruct (getOneHttpRequest_head P fuel b (__method req) (__uri req) (__version req)
              (map_order (__header req)) (__body req ++ r)) as (b1 & HP1 & Hv1 & ->);
    [done|done|apply Hwf|by apply wf_request_headers|lia|done|].
  rewrite parsed_head_of. destruct Hwf as (_ & _ & Hlen). unfold parseBody.
  assert (requestBodyLength (setBody [] req) = Ret (N.of_nat (length (__body req)))) as Hlen' by done.
  rewrite (SM_bind_Ret _ _ _ (N.of_nat (length (__body req))) (mk_istream b1 false false))
    by (unfold sm_lift; by rewrite Hlen').
  destruct (N.eqb_spec (N.of_nat (length (__body req))) 0) as [E|E].
  - exists b1. assert (__body req = []) as Hnil by (destruct (__body req); [done|cbn [length] in E; lia]).
    rewrite Hnil in Hv1. split; [|done]. destruct req; simpl in *. by subst.
  - specialize (Hbody b1 HP1 Hv1).
    destruct (body_loop_available fuel (N.of_nat (length (__body req))) [] (mk_istream b1 false false))
      as (b2 & Hl & Hv2); [done|by rewrite Nat2N.id|lia|].
    rewrite (SM_bind_Ret _ _ _ _ _ Hl). exists b2. rewrite Nat2N.id in *. simpl in *.
    split; [|by rewrite Hv2, Hv1, drop_app_length].
    assert (take (length (__body req)) (get_area b1) = __body req) as ->; [|by destruct req].
    destruct (view_get_area b1) as [k Hk]. rewrite Hv1 in Hk.
    rewrite <- (take_app_le _ k) by done. by rewrite <- Hk, take_app_length.
Qed.
End request_roundtrip.

(** At the end of the stream there is no request, and the stream knows it. *)
Lemma getOneHttpRequest_end {B} `{StreamBufOk B} fuel (b : B) :
  (0 < fuel)%nat → view b = [] →
  ∃ req s', getOneHttpRequest fuel (mk_istream b false false) = Ret ((PARSE_REQ_METHOD_FAILED, req), s') ∧
            eofbit s' = true.
Proof.
  intros Hf Hv. destruct fuel as [|f]; [lia|].
  assert (∃ t, parseLine (S f) new_HttpRequest (mk_istream ([] : bytes) false false)
               = Ret ((PARSE_REQ_METHOD_FAILED, new_HttpRequest), t) ∧ eofbit t = true) as (t & Ht & He).
  { eexists. split; [reflexivity|done]. }
  assert (alike (mk_istream b false false) (mk_istream ([] : bytes) false false)) as Hal.
  { split_and!; [done|done|]. simpl. intros _. unfold view, string_view. done. }
  destruct (tame_stream _ _ _ _ _ _ (sim_parseLine (S f) new_HttpRequest) Hal Ht) as (s1 & Hs1 & He1 & _).
  exists new_HttpRequest, s1. split; [|by rewrite He1].
  unfold getOneHttpRequest. rewrite (SM_bind_Ret _ _ _ _ _ Hs1). cbn beta iota. by rewrite decide_False.
Qed.

(** * Properties *)

(** A socket whose next [recv] returns the bytes [c], and whose later ones
    return [cs]; nothing is buffered yet. *)
Definition socket_with (chunks : list bytes) (init : bytes) (fd : Z) : istream SocketStreamBuffer :=
  mk_istream (mk_SocketStreamBuffer init fd chunks) false false.

(** While a single chunk is all there is, either it is still to be received or
    nothing more is. *)
Definition one_chunk (c : bytes) (b : SocketStreamBuffer) : Prop :=
  rx b = [] ∨ (rx b = [c] ∧ ssb_get_area b = []).

Lemma one_chunk_closed c : c ≠ [] → (length c ≤ BFSIZE)%nat → buf_closed (one_chunk c).
Proof.
  intros Hc Hl. split.
  - intros n b Hb Hn. simpl in *. destruct Hb as [Hb|[Hb Hga]]; [by left|]. right.
    rewrite Hga in Hn. destruct n; [|simpl in Hn; lia].
    split; [done|]. unfold ssb_gbump, ssb_get_area in *. simpl. by rewrite Nat.add_0_r.
  - intros b Hb Hga. left. simpl. unfold ssb_underflow.
    destruct Hb as [Hb|[Hb _]]; rewrite Hb; [done|]. destruct c as [|x d]; [done|].
    cbn [snd rx]. by rewrite drop_ge.
Qed.

(** The get area never holds more than the array can take. *)
Definition area_le (b : SocketStreamBuffer) : Prop := (length (ssb_get_area b) ≤ BFSIZE)%nat.

Lemma area_le_closed : buf_closed area_le.
Proof.
  split.
  - intros k b Hga Hk. unfold area_le in *.
    pose proof (get_area_gbump k b Hk) as E. simpl in E. simpl. rewrite E, length_drop. lia.
  - intros b Hga Hg. unfold area_le. simpl. unfold ssb_underflow.
    destruct (rx b) as [|[|x d] cs] eqn:E; [done..|]. unfold ssb_get_area. cbn [snd egptr gptr __buffer].
    rewrite !length_take. lia.
Qed.

Lemma wire_head_first m u v hdrs : ∃ x d, wire_head m u v hdrs = x :: d ∧ x ≠ ch_FF.
Proof. unfold wire_head. destruct m; simpl; by eexists _, _. Qed.

Section properties.
Context `{MapOrderOk}.

(** C14: a request sent as the format prescribes (CR LF line ends, body
    announced by Content-Length) that fits into the array, received by the socket in
    one [recv], is read back exactly: method, URI, version, every header, and the
    body. *)
Theorem request_roundtrip_socket fuel init fd req :
  wf_request req → (length (wire_request req) ≤ BFSIZE)%nat → (length (wire_request req) < fuel)%nat →
  ∃ b', getOneHttpRequest fuel (socket_with [wire_request req] init fd)
        = Ret ((SERVER_OK, req), mk_istream b' false false).
Proof.
  intros Hwf Hle Hf. unfold socket_with.
  destruct (wire_head_first (__method req) (__uri req) (__version req) (map_order (__header req)))
    as (x & d & Hw & Hx).
  assert (wire_request req = x :: d ++ __body req) as Hwr by (unfold wire_request; by rewrite Hw).
  assert (visible [wire_request req] = wire_request req) as Hvis.
  { rewrite visible_small; [by apply app_nil_r|done|by rewrite Hwr|rewrite Hwr; simpl; congruence]. }
  destruct (wire_request_parsed (one_chunk (wire_request req)) fuel
              (mk_SocketStreamBuffer init fd [wire_request req]) req []) as (b' & Hb' & _ & _).
  - apply one_chunk_closed; [by rewrite Hwr|done].
  - by right.
  - done.
  - intros b1 Hb1 Hv. rewrite app_nil_r in Hv. unfold view, ssb_view in Hv.
    destruct Hb1 as [Hrx|[Hrx Hga]]; rewrite Hrx in Hv.
    + change (visible []) with (@nil ascii) in Hv. rewrite app_nil_r in Hv. simpl. by rewrite Hv.
    + exfalso. rewrite Hga, Hvis, Hwr in Hv. apply (f_equal length) in Hv. simpl in Hv. rewrite !length_app in Hv. lia.
  - done.
  - rewrite app_nil_r. exact Hvis.
  - by exists b'.
Qed.

(** A body longer than the socket buffer hangs the analyser: when
    Content-Length announces more than [BFSIZE] bytes, the loop of [parseBody]
    never ends, however much of the body has arrived and in whatever pieces. *)
Theorem large_body_never_parsed fuel init fd chunks m u v hdrs body cl n :
  is_word u → Forall wf_header hdrs →
  assign_all hdrs ∅ !! CONTENT_LENGTH = Some cl → stoul cl = Ret n →
  (N.of_nat BFSIZE < n)%N →
  visible chunks = wire_head m u v hdrs ++ body →
  (length (wire_head m u v hdrs) < fuel)%nat →
  getOneHttpRequest fuel (socket_with chunks init fd) = Spin.
Proof.
  intros Hu Hwf Hcl Hn Hlarge Hvis Hf.
  destruct (getOneHttpRequest_head area_le fuel (mk_SocketStreamBuffer init fd chunks)
              m u v hdrs body) as (b1 & Hga & _ & Hrun);
    [apply area_le_closed|by unfold area_le, ssb_get_area; simpl; lia|done..|]. unfold area_le in Hga.
  unfold socket_with. rewrite Hrun. unfold parseBody, requestBodyLength, sm_lift, parsed_head. simpl.
  rewrite Hcl. unfold mbind, SM_bind. rewrite Hn.
  destruct (N.eqb_spec n 0); [lia|]. by rewrite body_loop_starved by (done || simpl; lia).
Qed.

(** A header line whose first colon is its last character makes [substr]
    throw: the analyser does not return, whatever the stream and however the
    bytes arrive; nothing in the server catches the exception. *)
Theorem header_ending_in_colon_throws {B} `{StreamBufOk B} fuel (b : B) m u v hdrs key r :
  is_word u → Forall wf_header hdrs →
  key ≠ [] → Forall (λ c, c ≠ ch_COLON ∧ c ≠ ch_LF) key →
  (length (wire_head m u v hdrs) + length key < fuel)%nat →
  view b = serialize_method m ++ [ch_SP] ++ u ++ [ch_SP] ++ serialize_version v ++ crlf
           ++ header_block hdrs ++ (key ++ [ch_COLON]) ++ ch_LF :: r →
  getOneHttpRequest fuel (mk_istream b false false) = Throw out_of_range.
Proof.
  intros Hu Hwf Hne Hkey Hf Hv.
  destruct (parseLine_stream (λ _, True) fuel b m u v hdrs
              (header_block hdrs ++ (key ++ [ch_COLON]) ++ ch_LF :: r)) as (b1 & _ & Hv1 & Hl);
    [done..|lia|done|].
  unfold getOneHttpRequest. rewrite (SM_bind_Ret _ _ _ _ _ Hl). cbn beta iota.
  rewrite decide_True by done. apply SM_bind_Throw.
  eapply sim_string_throw; [apply sim_parseHead|]. rewrite Hv1. unfold parseHead.
  destruct (lines_length hdrs) as [H1' H2']. unfold wire_head in Hf. rewrite !length_app in Hf.
  replace fuel with (length hdrs + S (fuel - length hdrs - 1))%nat at 2 by lia.
  destruct (parseHead_loop_headers fuel (S (fuel - length hdrs - 1)) hdrs ((key ++ [ch_COLON]) ++ ch_LF :: r)
              [] (mk_HttpRequest m u v ∅ []) Hwf) as [cur' ->].
  { apply (list.Forall_impl _ _ _ H2'). intros kv. lia. }
  rewrite parseHead_loop_line; [| |rewrite length_app; simpl in *; lia].
  2: { apply Forall_app_2; [|by repeat constructor].
       apply (list.Forall_impl _ _ _ Hkey). by intros c [_ ?]. }
  rewrite length_app. destruct (Nat.eqb_spec (length key + length [ch_COLON]) 1) as [E|_].
  { destruct key; [done|simpl in E; lia]. }
  rewrite find_char_app by (apply (list.Forall_impl _ _ _ Hkey); by intros c [? _]).
  unfold header_entry. rewrite pop_back_snoc. cbv zeta.
  unfold substr_from, skip_blanks. rewrite drop_ge by lia. simpl.
  destruct (Nat.ltb_spec (length key) (S (length key + 0))); [done|lia].
Qed.

(** An announced length that [stoul] rejects (no digits, or above
    [ULONG_MAX]) makes the analyser throw instead of answering. *)
Theorem bad_content_length_throws {B} `{StreamBufOk B} fuel (b : B) m u v hdrs r cl e :
  is_word u → Forall wf_header hdrs →
  assign_all hdrs ∅ !! CONTENT_LENGTH = Some cl → stoul cl = Throw e →
  (length (wire_head m u v hdrs) < fuel)%nat →
  view b = wire_head m u v hdrs ++ r →
  getOneHttpRequest fuel (mk_istream b false false) = Throw e.
Proof.
  intros Hu Hwf Hcl He Hf Hv.
  destruct (getOneHttpRequest_head (λ _, True) fuel b m u v hdrs r) as (b1 & _ & _ & ->); [done..|].
  unfold parseBody, requestBodyLength, parsed_head, sm_lift. simpl. rewrite Hcl.
  unfold mbind, SM_bind. by rewrite He.
Qed.

(** The text [HttpRequest::serialize] produces is not a request the
    analyser accepts: its lines end with a bare line feed, and reading it back
    stops after the version with PARSE_TERMINATE_CH_FAILED. *)
Theorem serialize_not_accepted {B} `{StreamBufOk B} fuel (b : B) req :
  is_word (__uri req) → (length (serialize req) < fuel)%nat → view b = serialize req →
  ∃ b', getOneHttpRequest fuel (mk_istream b false false)
        = Ret ((PARSE_TERMINATE_CH_FAILED,
                mk_HttpRequest (__method req) (__uri req) (__version req) ∅ []),
               mk_istream b' false false).
Proof.
  intros Hu Hf Hv. unfold serialize in Hf, Hv.
  assert (∃ y t, [ch_LF] ++ mjoin ((λ kv : bytes * bytes, kv.1 ++ $": " ++ kv.2 ++ [ch_LF]) <$> map_order (__header req))
                 ++ [ch_LF] ++ __body req = ch_LF :: y :: t) as (y & t & Ht).
  { destruct (mjoin _) as [|y t]; simpl; by eexists _, _. }
  rewrite Ht in Hf, Hv. rewrite !length_app in Hf.
  destruct (sim_string_run (parseLine fuel new_HttpRequest) (parseLine fuel new_HttpRequest) b
              (PARSE_TERMINATE_CH_FAILED, mk_HttpRequest (__method req) (__uri req) (__version req) ∅ [])
              (y :: t) false false) as (b1 & Hl & _); [apply sim_parseLine| |].
  - rewrite Hv, parseLine_words; [|auto with webserver..|done|simpl in *; lia].
    rewrite (SM_bind_Ret _ _ _ PARSE_TERMINATE_CH_FAILED (mk_istream (y :: t) false false))
      by (rewrite skipTerminateCH_string; by rewrite decide_False).
    unfold with_line. by rewrite toRequestMethod_serialize, toHttpVersion_serialize.
  - exists b1. unfold getOneHttpRequest. rewrite (SM_bind_Ret _ _ _ _ _ Hl). cbn beta iota.
    by rewrite decide_False.
Qed.

(** Streams with the same view give the same request without a body. *)
Lemma same_view_request {B1 B2} `{StreamBufOk B1} `{StreamBufOk B2} fuel (b1 : B1) (b2 : B2) e req s1 :
  view b1 = view b2 →
  getOneHttpRequest fuel (mk_istream b1 false false) = Ret ((e, req), s1) →
  __header req !! CONTENT_LENGTH = None →
  ∃ s2, getOneHttpRequest fuel (mk_istream b2 false false) = Ret ((e, req), s2) ∧
        eofbit s2 = eofbit s1 ∧ failbit s2 = failbit s1.
Proof.
  intros Hv Hr Hn.
  assert (alike (mk_istream b1 false false) (mk_istream b2 false false)) as Hal by done.
  pose proof (sim_head_phase fuel _ _ Hal) as Hsim.
  rewrite (getOneHttpRequest_phases fuel (mk_istream b1 false false)) in Hr.
  rewrite (getOneHttpRequest_phases fuel (mk_istream b2 false false)). unfold mbind, SM_bind in Hr |- *.
  destruct (head_phase fuel (mk_istream b1 false false)) as [[[e1 q1] t1]| | |]; try done.
  destruct (head_phase fuel (mk_istream b2 false false)) as [[[e2 q2] t2]| | |]; try done.
  destruct Hsim as [[= <- <-] (He & Hf & _)]. cbn [fst snd] in Hr |- *.
  destruct (decide (e1 = SERVER_OK)).
  - assert (__header q1 !! CONTENT_LENGTH = None) as Hq by (by rewrite <- (parseBody_header _ _ _ _ _ _ Hr)).
    rewrite parseBody_no_length in Hr by done. rewrite parseBody_no_length by done.
    injection Hr as <- <- <-. by exists t2.
  - injection Hr as <- <- <-. by exists t2.
Qed.

(** C34: how the bytes arrive does not matter: if what can be read from two
    streams is the same (received in one piece, in many, or from a string) and
    the request read from one announces no body, the other gives the same
    request, the same error code and the same state bits. *)
Theorem chunking_irrelevant {B1 B2} `{StreamBufOk B1} `{StreamBufOk B2} fuel (b1 : B1) (b2 : B2) e req s1 :
  view b1 = view b2 →
  getOneHttpRequest fuel (mk_istream b1 false false) = Ret ((e, req), s1) →
  __header req !! CONTENT_LENGTH = None →
  ∃ s2, getOneHttpRequest fuel (mk_istream b2 false false) = Ret ((e, req), s2) ∧
        eofbit s2 = eofbit s1 ∧ failbit s2 = failbit s1.
Proof. apply same_view_request. Qed.

(** A received piece that begins with byte 255 ends the input: [underflow]
    returns that plain [char] as -1, which is EOF. The request read is the one
    read when the connection ends before the piece; the piece and all that
    follows it are never seen. *)
Theorem byte_255_ends_input fuel init fd pre d rest e req s1 :
  getOneHttpRequest fuel (socket_with pre init fd) = Ret ((e, req), s1) →
  __header req !! CONTENT_LENGTH = None →
  ∃ s2, getOneHttpRequest fuel (socket_with (pre ++ (ch_FF :: d) :: rest) init fd) = Ret ((e, req), s2) ∧
        eofbit s2 = eofbit s1 ∧ failbit s2 = failbit s1.
Proof.
  apply same_view_request. unfold view, ssb_view. simpl. unfold visible. rewrite bind_app.
  assert (visible ((ch_FF :: d) :: rest) = []) as Hend by (by rewrite visible_cons, decide_True).
  unfold visible in Hend. revert Hend. generalize (((ch_FF :: d) :: rest) ≫= received). intros tl Htl.
  induction (pre ≫= received) as [|[|x c] ps IH]; [done|done|].
  cbn [seen app]. case_decide; [done|]. by rewrite IH.
Qed.
End properties.
