(* ===== verification/Analyser.v ===== *)
(** HttpUtils/HttpRequest, every outcome of the analyser: what it gives on any input
    whatever, when it throws, and exactly when it does not end. *)

From S2P Require Export HttpRequest.

(** The result of a computation on a stream, without the stream. *)
Definition result {S A} (x : outcome (A * S)) : outcome A := '(a, _) ← x; Ret a.

(** * What the parser can throw

    Operations on streams return or run out of fuel; the line throws nothing, and the
    only exception of the headers is that of [substr]. *)

Section throws.
Context {B : Type} `{StreamBuf B}.

(** A computation that is defined and throws only exceptions in [X]. *)
Definition throws_only (X : exn → Prop) {A} (m : IS B A) : Prop := ∀ s, m s ≠ Undef ∧ ∀ x, m s = Throw x → X x.

Context (X : exn → Prop).

Lemma os_ret {A} (a : A) : throws_only X (mret a).
Proof. by intros s. Qed.
Lemma os_gets {A} (f : istream B → A) : throws_only X (sm_gets f).
Proof. by intros s. Qed.
Lemma os_set_bits e f : throws_only X (set_bits e f).
Proof. by intros s. Qed.
Lemma os_spin {A} : throws_only X (sm_lift (A := A) Spin).
Proof. by intros s. Qed.

Lemma os_bind {A C} (m : IS B A) (k : A → IS B C) :
  throws_only X m → (∀ a, throws_only X (k a)) → throws_only X (m ≫= k).
Proof.
  intros Hm Hk s. unfold mbind, SM_bind. destruct (Hm s) as [Hu Hx].
  destruct (m s) as [[a s']| | |]; [apply Hk| |done..]. split; [done|]. intros x [= ->]. by apply Hx.
Qed.

Lemma os_on_buf {A} (f : B → A * B) : throws_only X (on_buf f).
Proof. intros s. unfold on_buf. by destruct (f (rdbuf s)). Qed.

Lemma scan_ends stop fuel c acc b :
  scan stop fuel c acc b = Spin ∨ ∃ r, scan (B := B) stop fuel c acc b = Ret r.
Proof.
  revert c acc b. induction fuel as [|f IH]; intros c acc b; cbn [scan];
    (destruct ((c =? EOF) || stop c); [right; by eexists|]); [by left|].
  destruct (snextc b) as [c1 b1]. apply IH.
Qed.

Lemma os_scan_stream stop fuel : throws_only X (scan_stream stop fuel).
Proof.
  intros s. unfold scan_stream. destruct (sgetc (rdbuf s)) as [c b].
  by destruct (scan_ends stop fuel c [] b) as [->|[[[c' w] b'] ->]].
Qed.


#[local] Hint Resolve os_ret os_gets os_set_bits os_on_buf os_scan_stream os_spin : webserver.

Lemma os_is_fail : throws_only X is_fail.
Proof. apply os_gets. Qed.
Lemma os_sentry n f : throws_only X (sentry n f).
Proof. unfold sentry. sm_decompose @os_bind. Qed.
#[local] Hint Resolve os_is_fail os_sentry : webserver.
Lemma os_extract_word f : throws_only X (extract_word f).
Proof. unfold extract_word. sm_decompose @os_bind. Qed.
Lemma os_get f : throws_only X (get f).
Proof. unfold get. sm_decompose @os_bind. Qed.
Lemma os_getline f : throws_only X (getline f).
Proof. unfold getline. sm_decompose @os_bind. Qed.
#[local] Hint Resolve os_extract_word os_get os_getline : webserver.

Lemma os_skipTerminateCH f : throws_only X (skipTerminateCH f).
Proof. unfold skipTerminateCH. sm_decompose @os_bind. Qed.
#[local] Hint Resolve os_skipTerminateCH : webserver.

Lemma os_parseLine f b : throws_only X (parseLine f b).
Proof. unfold parseLine. sm_decompose @os_bind. Qed.

Context (HX : X out_of_range).

Lemma os_header_entry cur tok : throws_only X (sm_lift (header_entry cur tok)).
Proof. intros s. unfold sm_lift, header_entry, substr_from. destruct (Nat.ltb _ _); simpl; [|done]. split; [done|]. by intros x [= <-]. Qed.
#[local] Hint Resolve os_header_entry : webserver.

Lemma os_parseHead_loop f n cur b : throws_only X (parseHead_loop f n cur b).
Proof. revert cur b. induction n as [|n IH]; intros cur b; cbn [parseHead_loop]; sm_decompose @os_bind. Qed.

Lemma os_head_phase f : throws_only X (head_phase f).
Proof.
  unfold head_phase, parseHead. apply os_bind; [apply os_parseLine|]. intros [e b].
  case_match; [apply os_parseHead_loop|apply os_ret].
Qed.
End throws.

(** * The body *)

Section body.
Context {B : Type} `{StreamBufOk B} (Hshow : ∀ b : B, showmanyc b = 0).

(** What becomes of an accepted head [r], read from a stream that is then [s]. *)
Definition body_outcome (r : HttpRequest) (s : istream B) : outcome (Error * HttpRequest) :=
  n ← requestBodyLength r;
  if (n =? 0)%N then Ret (SERVER_OK, r)
  else if negb (good s) then Ret (PARSE_REQ_BODY_FAILED, r)
  else
    let buffered := get_area (rdbuf s) in
    if (n <=? N.of_nat (length buffered))%N then Ret (SERVER_OK, setBody (take (N.to_nat n) buffered) r)
    else Spin.

(** On a stream that is not good [readsome] fails at once. *)
Lemma body_loop_closed n rest body (s : istream B) :
  good s = false → (rest ≠ 0)%N → ∃ s', body_loop (S n) rest body s = Ret (None, s') ∧ eofbit s' = eofbit s.
Proof.
  intros Hg Hr. cbn [body_loop]. rewrite (proj2 (N.eqb_neq _ _) Hr).
  eexists. unfold readsome, sentry, is_fail, set_bits, sm_modify, setstate, sm_gets, mbind, SM_bind, mret, SM_ret.
  rewrite Hg. cbn. rewrite orb_true_r, orb_false_r. done.
Qed.

Lemma parseBody_result fuel r (s : istream B) :
  (0 < fuel)%nat → (eofbit s = false → (length (view (rdbuf s)) < fuel)%nat) →
  result (parseBody fuel r s) = body_outcome r s.
Proof.
  intros Hpos Hf. unfold parseBody, body_outcome. unfold mbind at 1, SM_bind at 1. unfold sm_lift at 1.
  destruct (requestBodyLength r) as [n|x| |]; [rewrite ret_bind|done..].
  destruct (N.eqb_spec n 0) as [->|Hn]; [done|]. destruct (good s) eqn:Hg; cbn [negb].
  - destruct (good_bits _ Hg) as [He _]. specialize (Hf He).
    destruct (N.leb_spec n (N.of_nat (length (get_area (rdbuf s))))) as [Hle|Hlt].
    + destruct (view_get_area (rdbuf s)) as [k Hk].
      assert (length (get_area (rdbuf s)) ≤ length (view (rdbuf s)))%nat by (rewrite Hk, length_app; lia).
      destruct (body_loop_available fuel n [] s Hg) as (b' & Hl & _); [lia..|].
      by rewrite (SM_bind_Ret _ _ _ _ _ Hl).
    + by rewrite (SM_bind_Spin _ _ _ (body_loop_starved fuel n [] s Hshow Hg ltac:(lia))).
  - destruct fuel as [|f]; [lia|]. destruct (body_loop_closed f n [] s Hg Hn) as (s' & Hl & _).
    by rewrite (SM_bind_Ret _ _ _ _ _ Hl).
Qed.

(** C15: what the analyser gives on any input: the line and the headers are always
    read to an end, which may be the exception of [substr]; if they are accepted,
    the body is what the buffer holds, or an error when the input has ended; an
    unreadable Content-Length throws; and it fails to end exactly when
    Content-Length announces more than the buffer holds after the headers. *)
Theorem analyser_outcomes fuel (b : B) :
  (length (view b) < fuel)%nat →
  let head := head_phase fuel (mk_istream b false false) in
  (head = Throw out_of_range ∨ ∃ e r s, head = Ret ((e, r), s)) ∧
  result (getOneHttpRequest fuel (mk_istream b false false)) =
    ('((e, r), s) ← head; if decide (e = SERVER_OK) then body_outcome r s else Ret (e, r)).
Proof.
  intros Hf head. destruct (head_phase_progress fuel b Hf) as [[x Hx]|([e r] & s & Hr & Hs & Hlt)].
  - assert (x = out_of_range) as -> by by eapply (os_head_phase (λ x, x = out_of_range)). split; [by left|].
    subst head. rewrite getOneHttpRequest_phases, (SM_bind_Throw _ _ _ _ Hx), Hx. done.
  - split; [right; by exists e, r, s|]. subst head. rewrite getOneHttpRequest_phases, (SM_bind_Ret _ _ _ _ _ Hr), Hr, ret_bind.
    cbn [fst snd]. destruct (decide (e = SERVER_OK)); [|done].
    apply parseBody_result; [lia|]. intros Hne. specialize (Hlt Hne). lia.
Qed.
End body.
