(* ===== verification/Incomplete.v ===== *)
(** HttpUtils/HttpRequest, requests of which only a part has arrived: the sockets do
    not block, so that for the analyser the input then ends, wherever that is. *)

From S2P Require Export Analyser.

Abbreviation one_line := (Forall (λ x, x ≠ ch_LF)).

(** * On a string *)

Section strings.
Lemma one_line_closed : buf_closed (B:=bytes) one_line.
Proof. split; [intros n b Hb _; by apply Forall_drop|done]. Qed.

Lemma get_one_line fuel (t t' : istream bytes) c :
  one_line (rdbuf t) → get fuel t = Ret (c, t') → (c =? to_int_type ch_LF) = false.
Proof.
  intros Hl. unfold get, sentry, on_buf, set_bits, sm_modify, sm_gets, mbind, SM_bind, mret, SM_ret.
  destruct (good t); cbn; [|by intros [= <- _]].
  destruct (rdbuf t) as [|x b] eqn:E; cbn; [by intros [= <- _]|].
  rewrite (proj2 (Z.eqb_neq _ _) (to_int_not_EOF x)). cbn. intros [= <- _].
  apply Z.eqb_neq. intros Hx. inversion Hl as [|? ? Hne _]; subst. apply Hne.
  rewrite <- (char_int_to_char x _ (or_introl eq_refl)), Hx. apply char_int_to_char. by left.
Qed.

Lemma skipTerminateCH_one_line fuel (t t' : istream bytes) e :
  one_line (rdbuf t) → skipTerminateCH fuel t = Ret (e, t') → e ≠ SERVER_OK.
Proof.
  intros Hl. unfold skipTerminateCH, is_fail, sm_gets, mbind, SM_bind, mret, SM_ret.
  destruct (get fuel t) as [[c t1]| | |] eqn:E; try done.
  destruct (negb _); [by intros [= <- _]|]. destruct (failbit t1); [by intros [= <- _]|].
  assert (one_line (rdbuf t1)) as Hl1 by by eapply (pres_get one_line one_line_closed fuel t).
  destruct (get fuel t1) as [[c2 t2]| | |] eqn:E2; try done.
  rewrite (get_one_line fuel t1 t2 c2 Hl1 E2). by intros [= <- _].
Qed.

Lemma parseLine_one_line fuel b (t t' : istream bytes) e r :
  one_line (rdbuf t) → parseLine fuel b t = Ret ((e, r), t') → e ≠ SERVER_OK.
Proof.
  intros Hl. unfold parseLine, is_fail, sm_gets, mbind, SM_bind, mret, SM_ret.
  destruct (extract_word fuel t) as [[w1 t1]| | |] eqn:E1; try done.
  destruct (failbit t1); [by intros [= <- _ _]|].
  assert (one_line (rdbuf t1)) as Hl1 by by eapply (pres_extract_word one_line one_line_closed fuel t).
  destruct (extract_word fuel t1) as [[w2 t2]| | |] eqn:E2; try done.
  destruct (failbit t2); [by intros [= <- _ _]|].
  assert (one_line (rdbuf t2)) as Hl2 by by eapply (pres_extract_word one_line one_line_closed fuel t1).
  destruct (extract_word fuel t2) as [[w3 t3]| | |] eqn:E3; try done.
  destruct (failbit t3); [by intros [= <- _ _]|].
  assert (one_line (rdbuf t3)) as Hl3 by by eapply (pres_extract_word one_line one_line_closed fuel t2).
  destruct (skipTerminateCH fuel t3) as [[e4 t4]| | |] eqn:E4; try done.
  intros [= <- _ _]. by eapply skipTerminateCH_one_line.
Qed.

(** An input without a line feed is an error, and what is left of it has none. *)
Lemma head_phase_one_line fuel q :
  one_line q → (length q < fuel)%nat →
  ∃ e r t', head_phase fuel (mk_istream q false false) = Ret ((e, r), t') ∧ e ≠ SERVER_OK ∧ one_line (rdbuf t') ∧
    (eofbit t' = false → failbit t' = false ∧ (length (rdbuf t') < length q)%nat).
Proof.
  intros Hq Hf. unfold head_phase.
  destruct (parseLine_progress fuel new_HttpRequest (mk_istream q false false)) as [[x Hx]|([e r] & t' & Hr & (Hset & _) & Hlt)];
    [done|done|by destruct (os_parseLine (λ _, False) fuel new_HttpRequest (mk_istream q false false)) as [_ []%(λ H, H x)]|].
  rewrite (SM_bind_Ret _ _ _ _ _ Hr). pose proof (parseLine_one_line fuel _ (mk_istream q false false) _ _ _ Hq Hr) as He.
  rewrite decide_False by done. exists e, r, t'. split_and!; [done|done| |].
  - by apply (pres_parseLine one_line one_line_closed fuel new_HttpRequest (mk_istream q false false) (e, r) t').
  - intros Hne. split; [|by apply Hlt]. unfold settled in Hset. destruct (failbit t'); [|done]. by rewrite Hset in Hne.
Qed.

(** [getline] at the end of the input. *)
Lemma getline_end p fuel :
  one_line p → (length p ≤ fuel)%nat →
  getline fuel (mk_istream p false false) = Ret (Some p, mk_istream [] true (bool_decide (p = []))).
Proof.
  intros Hp Hf. unfold getline. erewrite SM_bind_Ret; [|done]. cbn [negb].
  erewrite SM_bind_Ret.
  2: { rewrite <- (app_nil_r p) at 1. eapply scan_stream_string; [apply stop_is_LF| |done|done].
       apply (list.Forall_impl _ _ _ Hp). intros x Hx. by apply bool_decide_eq_false. }
  done.
Qed.

(** What becomes of a header line that is cut off, with [r] the request so far. *)
Definition cut_header (p : bytes) (r : HttpRequest) : outcome (Error * HttpRequest) :=
  match p with
  | [] => Ret (PARSE_REQ_HEADER_FAILED, r)
  | [_] => Ret (SERVER_OK, r)
  | _ =>
      match find_char ch_COLON p with
      | None => Ret (INVALID_REQ_HEADER_FORMAT, r)
      | Some tok =>
          if Nat.eqb (S tok) (length p) then Throw out_of_range
          else '(key, value) ← header_entry p tok; Ret (PARSE_REQ_HEADER_FAILED, setHeader key value r)
      end
  end.

Lemma find_char_lt c s tok : find_char c s = Some tok → (tok < length s)%nat.
Proof.
  revert tok. induction s as [|x s IH]; intros tok; simpl; [done|].
  case_decide; [intros [= <-]; lia|]. destruct (find_char c s) as [n|]; [|done].
  intros [= <-]. specialize (IH _ eq_refl). lia.
Qed.

(** The colon ends the line: [substr] throws. Otherwise it does not. *)
Lemma header_entry_cut p tok :
  (tok < length p)%nat →
  if Nat.eqb (S tok) (length p) then header_entry p tok = Throw out_of_range else ∃ kv, header_entry p tok = Ret kv.
Proof.
  intros Ht. unfold header_entry, substr_from, skip_blanks.
  assert (length (pop_back p) = length p - 1)%nat as Hl by (unfold pop_back; rewrite length_take; lia).
  destruct (Nat.eqb_spec (S tok) (length p)) as [E|E].
  - destruct (Nat.ltb_spec (length (pop_back p)) (S tok + length (span (λ x, bool_decide (x = ch_SP)) (drop (S tok) (pop_back p))).1)); [done|lia].
  - set (sp := span _ _).
    assert (length sp.1 ≤ length (drop (S tok) (pop_back p)))%nat as Hsp by apply length_span.
    rewrite length_drop in Hsp. destruct (Nat.ltb_spec (length (pop_back p)) (S tok + length sp.1)); [lia|].
    by eexists.
Qed.

Lemma parseHead_loop_cut fuel n p cur r :
  one_line p → (length p ≤ fuel)%nat →
  result (parseHead_loop fuel (S (S n)) cur r (mk_istream p false false)) = cut_header p r ∧
  ∀ a t', parseHead_loop fuel (S (S n)) cur r (mk_istream p false false) = Ret (a, t') →
          eofbit t' = true ∧ (failbit t' = false → rdbuf t' = []).
Proof.
  intros Hp Hf. cbn [parseHead_loop].
  rewrite (SM_bind_Ret _ _ _ _ _ (getline_end p fuel Hp Hf)), (SM_bind_Ret _ _ _ _ _ (is_fail_bits _ _ _)). cbn [extracted].
  destruct p as [|x [|y p]]; [split; [done|by intros a t' [= <- <-]]..|].
  rewrite bool_decide_false by done. cbn [Nat.eqb length]. set (q := x :: y :: p) in *.
  change (cut_header q r) with
    (match find_char ch_COLON q with
     | None => Ret (INVALID_REQ_HEADER_FORMAT, r)
     | Some tok => if Nat.eqb (S tok) (length q) then Throw out_of_range
                   else '(key, value) ← header_entry q tok; Ret (PARSE_REQ_HEADER_FAILED, setHeader key value r)
     end).
  destruct (find_char ch_COLON q) as [tok|] eqn:Htok; [|split; [done|by intros a t' [= <- <-]]].
  apply find_char_lt in Htok. pose proof (header_entry_cut q tok Htok) as He.
  destruct (Nat.eqb (S tok) (length q)).
  - rewrite (SM_bind_Throw _ _ _ out_of_range) by (unfold sm_lift; by rewrite He). done.
  - destruct He as [[k v] He]. rewrite (SM_bind_Ret _ _ _ (k, v) (mk_istream [] true false)) by (unfold sm_lift; by rewrite He).
    rewrite (SM_bind_Ret _ _ _ _ _ (is_fail_bits _ _ _)), He, ret_bind.
    rewrite (SM_bind_Ret _ _ _ _ _ (getline_dead fuel [] true false eq_refl)), (SM_bind_Ret _ _ _ _ _ (is_fail_bits _ _ _)).
    split; [done|]. by intros a t' [= <- <-].
Qed.
End strings.

(** * On any lawful stream *)

Definition request_line (m : HttpRequestMethod) (u : bytes) (v : HttpVersion) : bytes :=
  serialize_method m ++ [ch_SP] ++ u ++ [ch_SP] ++ serialize_version v ++ crlf.

Lemma head_phase_cut fuel m u v hdrs p :
  is_word u → Forall wf_header hdrs → one_line p →
  (length (request_line m u v ++ header_block hdrs ++ p) + 2 < fuel)%nat →
  result (head_phase fuel (mk_istream (request_line m u v ++ header_block hdrs ++ p) false false))
    = cut_header p (parsed_head m u v hdrs) ∧
  ∀ a t', head_phase fuel (mk_istream (request_line m u v ++ header_block hdrs ++ p) false false) = Ret (a, t') →
          eofbit t' = true.
Proof.
  intros Hu Hwf Hp Hf. destruct (lines_length hdrs) as [H1 H2].
  assert (length (wire_head m u v hdrs) < fuel)%nat as Hfw.
  { unfold wire_head, request_line in *. rewrite !length_app in *. simpl in *. lia. }
  unfold request_line in *. rewrite !length_app in Hf. rewrite <- !app_assoc. unfold head_phase.
  rewrite (SM_bind_Ret _ _ _ _ _ (parseLine_wire m u v hdrs Hu fuel (header_block hdrs ++ p) Hfw)).
  cbn beta iota. rewrite decide_True by done. unfold parseHead.
  destruct (parseHead_loop_headers fuel (S (S (fuel - length hdrs - 2))) hdrs p [] (mk_HttpRequest m u v ∅ []) Hwf) as [cur Hc].
  { apply (list.Forall_impl _ _ _ H2). intros kv. lia. }
  replace (length hdrs + S (S (fuel - length hdrs - 2)))%nat with fuel in Hc by lia. rewrite Hc.
  destruct (parseHead_loop_cut fuel (fuel - length hdrs - 2) p cur (parsed_head m u v hdrs) Hp) as [Hres Heof]; [lia|].
  split; [exact Hres|]. intros a t' Hr. by apply (Heof a t' Hr).
Qed.

Section streams.
Context {B : Type} `{StreamBufOk B}.

(** Streams with the same bytes give the same result and the same end bit. *)
Lemma sim_result {A} (m1 : IS B A) (m2 : IS bytes A) b :
  sim eq m1 m2 →
  result (m1 (mk_istream b false false)) = result (m2 (mk_istream (view b) false false)) ∧
  ∀ a s, m1 (mk_istream b false false) = Ret (a, s) →
    ∃ t, m2 (mk_istream (view b) false false) = Ret (a, t) ∧ eofbit s = eofbit t ∧ failbit s = failbit t ∧
         (good s = true → view (rdbuf s) = rdbuf t).
Proof.
  intros Hsim. assert (alike (mk_istream b false false) (mk_istream (view b) false false)) as Hal by done.
  specialize (Hsim _ _ Hal). destruct (m1 _) as [[a s]| | |], (m2 _) as [[a' t]| | |]; try done.
  - destruct Hsim as (<- & He & Hf & Hv). split; [done|]. intros a0 s0 [= <- <-]. by exists t.
  - by subst.
Qed.

Lemma getOneHttpRequest_rejected fuel (b : B) e r s :
  head_phase fuel (mk_istream b false false) = Ret ((e, r), s) → e ≠ SERVER_OK →
  getOneHttpRequest fuel (mk_istream b false false) = Ret ((e, r), s).
Proof. intros Hr He. rewrite getOneHttpRequest_phases, (SM_bind_Ret _ _ _ _ _ Hr). cbn [fst snd]. by rewrite decide_False. Qed.

(** A request of which no line has arrived in full is rejected. *)
Lemma one_line_rejected fuel (b : B) :
  one_line (view b) → (length (view b) < fuel)%nat →
  ∃ e r s, getOneHttpRequest fuel (mk_istream b false false) = Ret ((e, r), s) ∧ e ≠ SERVER_OK ∧
    (eofbit s = false → failbit s = false ∧ one_line (view (rdbuf s)) ∧ (length (view (rdbuf s)) < length (view b))%nat).
Proof.
  intros Hl Hf. destruct (head_phase_one_line fuel (view b) Hl Hf) as (e & r & t & Hr & He & Ht & Hlt).
  destruct (sim_result (head_phase fuel) (head_phase fuel) b (sim_head_phase fuel)) as [Hres Hst]. rewrite Hr in Hres, Hst.
  destruct (head_phase fuel (mk_istream b false false)) as [[a s]| | |] eqn:Hb; try done. injection Hres as ->.
  destruct (Hst _ _ eq_refl) as (t' & [= <-] & Hse & Hsf & Hv).
  exists e, r, s. split_and!; [by apply getOneHttpRequest_rejected|done|]. rewrite Hse, Hsf. intros Hne.
  destruct (Hlt Hne) as [Htf Hlen]. rewrite Hv by (unfold good; by rewrite Hse, Hsf, Hne, Htf). done.
Qed.

Lemma cut_header_defined p r : cut_header p r ≠ Undef ∧ cut_header p r ≠ Spin.
Proof.
  unfold cut_header. destruct p as [|x [|y p]]; [done..|]. destruct (find_char _ _) as [tok|] eqn:Ht; [|done].
  apply find_char_lt in Ht. pose proof (header_entry_cut _ _ Ht) as He. destruct (Nat.eqb _ _); [done|].
  destruct He as [[k v] ->]. done.
Qed.

Lemma requestBodyLength_defined r : requestBodyLength r ≠ Undef ∧ requestBodyLength r ≠ Spin.
Proof. unfold requestBodyLength, stoul. by repeat case_match. Qed.

(** The request as it then is, accepted when no body is announced; a body that is
    announced is not looked for, since the stream has ended. *)
Definition cut_request (p : bytes) (r : HttpRequest) : outcome (Error * HttpRequest) :=
  '(e, r1) ← cut_header p r;
  if decide (e = SERVER_OK) then
    n ← requestBodyLength r1;
    Ret (if (n =? 0)%N then SERVER_OK else PARSE_REQ_BODY_FAILED, r1)
  else Ret (e, r1).

Lemma cut_request_defined p r : cut_request p r ≠ Undef ∧ cut_request p r ≠ Spin.
Proof.
  unfold cut_request. destruct (cut_header_defined p r) as [H1' H2'].
  destruct (cut_header p r) as [[e r1]| | |]; [|done..]. rewrite ret_bind. case_decide; [|done].
  pose proof (requestBodyLength_defined r1) as [H3' H4']. by destruct (requestBodyLength r1).
Qed.

Context (Hshow : ∀ b : B, showmanyc b = 0).

(** At the end of the stream. *)
Lemma parseBody_ended fuel r (s : istream B) a s' :
  eofbit s = true → parseBody fuel r s = Ret (a, s') → eofbit s' = true.
Proof.
  intros He. unfold parseBody. unfold mbind at 1, SM_bind at 1. unfold sm_lift at 1.
  destruct (requestBodyLength r) as [n| | |]; [|done..]. destruct (N.eqb_spec n 0) as [->|Hn]; [by intros [= _ <-]|].
  destruct fuel as [|f]; [by unfold body_loop; rewrite (proj2 (N.eqb_neq _ _) Hn)|].
  destruct (body_loop_closed f n [] s) as (s1 & Hl & He1); [unfold good; by rewrite He|done|].
  rewrite (SM_bind_Ret _ _ _ _ _ Hl). intros [= _ <-]. by rewrite He1.
Qed.

(** A request of which the request line and the headers [hdrs] have arrived, and
    the part [p] of one more line: what the analyser makes of it, on every branch.
    A single byte of a header is taken for the end of the headers, and the request
    accepted without those to come, unless a body is announced; a line cut right after
    its first colon makes [substr] throw; any other cut is an error. The stream is
    then at its end. *)
Lemma cut_outcome fuel (b : B) m u v hdrs p :
  is_word u → Forall wf_header hdrs → one_line p →
  view b = request_line m u v ++ header_block hdrs ++ p → (length (view b) + 2 < fuel)%nat →
  result (getOneHttpRequest fuel (mk_istream b false false)) = cut_request p (parsed_head m u v hdrs) ∧
  ∀ a s, getOneHttpRequest fuel (mk_istream b false false) = Ret (a, s) → eofbit s = true.
Proof.
  intros Hu Hwf Hp Hv Hf. rewrite Hv in Hf.
  destruct (head_phase_cut fuel m u v hdrs p Hu Hwf Hp Hf) as [Hres Heof]. rewrite <- Hv in Hres, Heof.
  destruct (sim_result (head_phase fuel) (head_phase fuel) b (sim_head_phase fuel)) as [Hres' Hst]. rewrite Hres in Hres'.
  rewrite getOneHttpRequest_phases. unfold mbind at 1 2, SM_bind at 1 2. unfold cut_request. rewrite <- Hres'.
  destruct (head_phase fuel (mk_istream b false false)) as [[[e r] s]|x| |] eqn:Hb; [|done..].
  destruct (Hst _ _ eq_refl) as (t & Ht & Hse & _). specialize (Heof _ _ Ht). rewrite <- Hse in Heof.
  unfold result. rewrite !ret_bind. cbn [fst snd].
  destruct (decide (e = SERVER_OK)) as [->|Hne]; [|split; [done|by intros a s0 [= _ <-]]].
  split; [|intros a s0; by apply parseBody_ended].
  change (result (parseBody fuel r s) = (n ← requestBodyLength r; Ret (if (n =? 0)%N then SERVER_OK else PARSE_REQ_BODY_FAILED, r))).
  rewrite (parseBody_result Hshow fuel r s); [|lia|by rewrite Heof].
  unfold body_outcome. destruct (requestBodyLength r) as [n| | |]; [|done..]. rewrite !ret_bind.
  assert (good s = false) as -> by (unfold good; by rewrite Heof). by destruct (n =? 0)%N.
Qed.

(** A request whose head has arrived and of whose body, as announced, a part is
    missing: the analyser does not end. *)
Lemma cut_body_spins fuel (b : B) m u v hdrs d cl n :
  is_word u → Forall wf_header hdrs → assign_all hdrs ∅ !! CONTENT_LENGTH = Some cl → stoul cl = Ret n →
  (N.of_nat (length d) < n)%N → view b = wire_head m u v hdrs ++ d → (length (wire_head m u v hdrs) < fuel)%nat →
  getOneHttpRequest fuel (mk_istream b false false) = Spin.
Proof.
  intros Hu Hwf Hcl Hn Hlt Hv Hf.
  destruct (getOneHttpRequest_head (λ _, True) fuel b m u v hdrs d) as (b1 & _ & Hv1 & Hrun); [done..|].
  destruct (view_get_area b1) as [k Hk]. rewrite Hv1 in Hk. apply (f_equal length) in Hk. rewrite length_app in Hk.
  rewrite Hrun. unfold parseBody, requestBodyLength, sm_lift, parsed_head. simpl. rewrite Hcl. unfold mbind, SM_bind. rewrite Hn.
  destruct (N.eqb_spec n 0); [lia|]. by rewrite body_loop_starved by (done || simpl; lia).
Qed.
End streams.
