(* ===== verification/Objects.v ===== *)
(** Objects behind shared pointers, and the builders that hold one: what the
    three builder classes of the program have in common. *)

From S2P Require Export Prelude.

(** The live objects of a class, by address. *)
Abbreviation mem T := (gmap nat T).

Section memory.
Context {T : Type}.

(** [std::shared_ptr<T>(new T)] *)
Definition make_shared (x : T) : SM (mem T) nat := λ h,
  let p := fresh (dom h) in Ret (p, <[p := x]> h).

(** [p->f()], for a member function that changes the object. *)
Definition invoke (f : T → T) (p : nat) : SM (mem T) () := λ h,
  x ← deref (h !! p); Ret ((), <[p := f x]> h).

Lemma make_shared_new x h :
  ∃ p, make_shared x h = Ret (p, <[p := x]> h) ∧ p ∉ dom h.
Proof. eexists. split; [done|]. apply is_fresh. Qed.

Lemma invoke_ok f p h x : h !! p = Some x → invoke f p h = Ret ((), <[p := f x]> h).
Proof. intros Hx. unfold invoke. by rewrite Hx. Qed.

(** A chain of calls on a builder: each is made on what the one before returned. *)
Fixpoint chain {B C} (run : C → B → SM (mem T) B) (calls : list C) (b : B) : SM (mem T) B :=
  match calls with
  | [] => mret b
  | c :: calls' => b' ← run c b; chain run calls' b'
  end.

(** Calls that change the object of the builder they are made on, and return it. *)
Definition fluent {B C} (object : B → nat) (effect : C → T → T) (run : C → B → SM (mem T) B) : Prop :=
  ∀ c b h x, h !! object b = Some x → run c b h = Ret (b, <[object b := effect c x]> h).

Lemma chain_fluent {B C} (object : B → nat) (effect : C → T → T) run calls b h x :
  fluent object effect run → h !! object b = Some x →
  chain run calls b h = Ret (b, <[object b := foldl (λ x c, effect c x) x calls]> h).
Proof.
  intros Hf. revert h x. induction calls as [|c calls IH]; intros h x Hx; cbn [chain foldl].
  - by rewrite insert_id.
  - rewrite (SM_bind_Ret _ _ _ _ _ (Hf c b h x Hx)).
    rewrite (IH _ (effect c x)) by apply lookup_insert_eq. by rewrite insert_insert_eq.
Qed.

(** A new builder, whose object nothing else points to, and a chain of calls on
    it: the pointer it gives out is the same all along, so that a pointer built
    early sees the later calls. *)
Lemma new_chain {B C} (object : B → nat) (effect : C → T → T) run (make : nat → B) x0 calls h :
  (∀ p, object (make p) = p) → fluent object effect run →
  ∃ b h1 h2, (p ← make_shared x0; mret (make p)) h = Ret (b, h1) ∧ (object b ∉ dom h) ∧
    chain run calls b h1 = Ret (b, h2) ∧
    h2 = <[object b := foldl (λ x c, effect c x) x0 calls]> h.
Proof.
  intros Hm Hf. destruct (make_shared_new x0 h) as (p & Hp & Hnew).
  rewrite (SM_bind_Ret _ _ _ _ _ Hp). eexists _, _, _. split; [done|]. rewrite Hm. split; [done|]. split; [|done].
  rewrite (chain_fluent object effect run calls _ _ x0 Hf) by (rewrite Hm; apply lookup_insert_eq).
  by rewrite Hm, insert_insert_eq.
Qed.

(** [Builder().f()...g().build()]: the pointer to a new object, so changed. *)
Lemma new_built {B C} (object : B → nat) (effect : C → T → T) run (make : nat → B) x0 calls h :
  (∀ p, object (make p) = p) → fluent object effect run →
  ∃ p, h !! p = None ∧
    (b ← (p ← make_shared x0; mret (make p)); b' ← chain run calls b; mret (object b')) h
    = Ret (p, <[p := foldl (λ x c, effect c x) x0 calls]> h).
Proof.
  intros Hm Hf. destruct (new_chain object effect run make x0 calls h Hm Hf) as (b & h1 & h2 & Hb & Hnew & Hc & ->).
  exists (object b). split; [by apply not_elem_of_dom|].
  rewrite (SM_bind_Ret _ _ _ _ _ Hb). by rewrite (SM_bind_Ret _ _ _ _ _ Hc).
Qed.
End memory.
