(* ===== verification/RequestBuffer.v ===== *)
(** The static buffer of HttpRequest.cc, which all threads share: the loop of
    [parseBody] in steps, several of them over one buffer.

    [body_loop] of HttpRequest.v appends what [readsome] gives; the code lets
    [readsome] store it into the buffer and then appends what is there. For a
    thread alone the two are the same, which is shown first. *)

From S2P Require Export HttpRequest.

Section readers.
Context {B : Type} `{StreamBuf B}.

(** Where a thread is in the loop: before [readsome], before [body +=] (with the
    local [cur]), or after the loop with the body, or none for the error. *)
Inductive phase := Fill | Append (cur : nat) | Done (body : option bytes).

Record body_reader := mk_body_reader {
  b_phase : phase;
  b_rest : N;
  b_body : bytes;
  b_input : istream B
}.

Definition read_step (c : body_reader) (buf : bytes) : option (body_reader * bytes) :=
  let '(mk_body_reader ph rest body input) := c in
  match ph with
  | Done _ => None
  | Fill =>
      if (rest =? 0)%N then Some (mk_body_reader (Done (Some body)) rest body input, buf)
      else match readsome (N.to_nat (N.min rest REQ_BFSIZE)) input with
           | Ret (d, input1) => Some (mk_body_reader (Append (length d)) rest body input1, d ++ drop (length d) buf)
           | _ => None
           end
  | Append cur =>
      let body1 := body ++ take cur buf in
      if failbit input then Some (mk_body_reader (Done None) rest body1 input, buf)
      else Some (mk_body_reader Fill (rest - N.of_nat cur) body1 input, buf)
  end.

(** A thread alone with the buffer. *)
Definition alone (s s' : body_reader * bytes) : Prop := read_step s.1 s.2 = Some s'.

(** The threads together, in any order. *)
Inductive shared : list body_reader * bytes → list body_reader * bytes → Prop :=
| shared_step i cs c c' buf buf' :
    cs !! i = Some c → read_step c buf = Some (c', buf') → shared (cs, buf) (<[i := c']> cs, buf').

(** Alone, the steps are those of the loop. *)
Lemma alone_parseBody n rest body input buf r input' :
  body_loop n rest body input = Ret (r, input') →
  ∃ rest' body' buf',
    rtc alone (mk_body_reader Fill rest body input, buf) (mk_body_reader (Done r) rest' body' input', buf').
Proof.
  assert (∀ rest body input buf, (rest =? 0)%N = true →
    alone (mk_body_reader Fill rest body input, buf) (mk_body_reader (Done (Some body)) rest body input, buf)) as Hend.
  { intros ???? E. unfold alone. cbn [read_step fst snd]. by rewrite E. }
  revert rest body input buf. induction n as [|n IH]; intros rest body input buf; cbn [body_loop];
    destruct (rest =? 0)%N eqn:E; [|done|..].
  1, 2: intros [= <- <-]; eexists _, _, _; by eapply rtc_once, Hend.
  unfold mbind, SM_bind. destruct (readsome _ input) as [[d input1]| | |] eqn:Hd; [|done..].
  assert (alone (mk_body_reader Fill rest body input, buf)
            (mk_body_reader (Append (length d)) rest body input1, d ++ drop (length d) buf)) as Hfill.
  { unfold alone. cbn [read_step fst snd]. by rewrite E, Hd. }
  unfold is_fail, sm_gets. destruct (failbit input1) eqn:Hf.
  - intros [= <- <-]. eexists _, _, _. eapply rtc_l; [exact Hfill|]. eapply rtc_once.
    unfold alone. cbn [read_step fst snd]. by rewrite Hf.
  - intros Hl. destruct (IH _ _ _ (d ++ drop (length d) buf) Hl) as (rest' & body' & buf' & Hr).
    exists rest', body', buf'. eapply rtc_l; [exact Hfill|]. eapply rtc_l; [|exact Hr].
    unfold alone. cbn [read_step fst snd]. by rewrite Hf, take_app_length.
Qed.

Section buffered.
Context `{StreamView B} `{!StreamBufOk B}.

(** A body that the stream has at hand is stored by one step. *)
Lemma fill_buffered d input buf :
  good input = true → get_area (rdbuf input) = d → (0 < length d ≤ 512)%nat →
  ∃ input', read_step (mk_body_reader Fill (N.of_nat (length d)) [] input) buf
    = Some (mk_body_reader (Append (length d)) (N.of_nat (length d)) [] input', d ++ drop (length d) buf) ∧
    failbit input' = false.
Proof.
  intros Hg Hga Hd. destruct (readsome_get_area (length d) input Hg) as (b' & Hr & _).
  { intros E. rewrite E in Hga. subst d. simpl in Hd. lia. }
  exists (mk_istream b' false false). split; [|done]. cbn [read_step].
  destruct (N.eqb_spec (N.of_nat (length d)) 0); [lia|].
  replace (N.to_nat (N.min (N.of_nat (length d)) REQ_BFSIZE)) with (length d) by (unfold REQ_BFSIZE; lia).
  rewrite Hr, Hga. by rewrite Nat.min_id, firstn_all.
Qed.
End buffered.
End readers.
Arguments body_reader : clear implicits.

(** The buffer is shared by the threads that read requests, and nothing locks it:
    when two threads read bodies of equal length that fit into it, there is an
    order of their steps in which the first request gets the body of the second. *)
Theorem shared_buffer_crosses_requests {B} `{StreamBufOk B} (i1 i2 : istream B) d1 d2 buf :
  good i1 = true → good i2 = true → get_area (rdbuf i1) = d1 → get_area (rdbuf i2) = d2 →
  length d1 = length d2 → (0 < length d1 ≤ 512)%nat →
  ∃ c1 c2 buf',
    rtc shared ([mk_body_reader Fill (N.of_nat (length d1)) [] i1;
                 mk_body_reader Fill (N.of_nat (length d2)) [] i2], buf) ([c1; c2], buf') ∧
    b_phase c1 = Done (Some d2) ∧ b_phase c2 = Done (Some d2).
Proof.
  intros Hg1 Hg2 Ha1 Ha2 Hl Hd.
  destruct (fill_buffered d1 i1 buf Hg1 Ha1 Hd) as (i1' & Hf1 & Hb1).
  destruct (fill_buffered d2 i2 (d1 ++ drop (length d1) buf) Hg2 Ha2 ltac:(lia)) as (i2' & Hf2 & Hb2).
  assert (∀ i' x, failbit i' = false →
            read_step (mk_body_reader (Append (length d2)) (N.of_nat (length d2)) [] i') (d2 ++ x)
            = Some (mk_body_reader Fill 0 d2 i', d2 ++ x)) as Hap.
  { intros i' x Hb. cbn [read_step]. by rewrite Hb, take_app_length, N.sub_diag. }
  eexists _, _, _. split.
  - eapply rtc_l; [by eapply (shared_step 0)|]. cbn [insert list_insert].
    eapply rtc_l; [by eapply (shared_step 1)|]. cbn [insert list_insert]. rewrite Hl.
    eapply rtc_l; [eapply (shared_step 0); [done|by apply Hap]|]. cbn [insert list_insert].
    eapply rtc_l; [eapply (shared_step 1); [done|by apply Hap]|]. cbn [insert list_insert].
    eapply rtc_l; [eapply (shared_step 0); done|]. eapply rtc_l; [eapply (shared_step 1); done|]. apply rtc_refl.
  - by split_and!.
Qed.
