(* ===== verification/HttpRequestBuilder.v ===== *)
(** HttpUtils/HttpRequest: the builder of requests, behind its interface. *)

From S2P Require Export Objects HttpRequest.

(** What the builder promises (the interface and its name are the source's):
    [build] gives the pointer to the object, the other calls return the builder. *)
Class IHttpReqeustBuilder (B : Type) := {
  build : B → nat;
  b_setRequestMethod : HttpRequestMethod → B → SM (mem HttpRequest) B;
  b_setHttpVersion : HttpVersion → B → SM (mem HttpRequest) B;
  b_setURI : bytes → B → SM (mem HttpRequest) B;
  b_setHeader : bytes → bytes → B → SM (mem HttpRequest) B;
  b_delHeader : bytes → B → SM (mem HttpRequest) B;
  b_setBody : bytes → B → SM (mem HttpRequest) B
}.

(** The calls as data, with what they do to a request. *)
Inductive request_call :=
| SetRequestMethod (m : HttpRequestMethod)
| SetHttpVersion (v : HttpVersion)
| SetURI (u : bytes)
| SetHeader (k v : bytes)
| DelHeader (k : bytes)
| SetBody (b : bytes).

Definition on_builder {B} `{IHttpReqeustBuilder B} (c : request_call) : B → SM (mem HttpRequest) B :=
  match c with
  | SetRequestMethod m => b_setRequestMethod m
  | SetHttpVersion v => b_setHttpVersion v
  | SetURI u => b_setURI u
  | SetHeader k v => b_setHeader k v
  | DelHeader k => b_delHeader k
  | SetBody b => b_setBody b
  end.

Definition on_request (c : request_call) : HttpRequest → HttpRequest :=
  match c with
  | SetRequestMethod m => setRequestMethod m
  | SetHttpVersion v => setHttpVersion v
  | SetURI u => setURI u
  | SetHeader k v => setHeader k v
  | DelHeader k => delHeader k
  | SetBody b => setBody b
  end.

(** The contract: every call changes the one object, and nothing else. *)
Class IHttpReqeustBuilderOk (B : Type) `{IHttpReqeustBuilder B} : Prop :=
  request_builder_fluent : fluent build on_request (on_builder (B:=B)).

(** * The implementation *)

Record HttpRequestBuilder := mk_HttpRequestBuilder { __obj : nat }.

Definition new_HttpRequestBuilder : SM (mem HttpRequest) HttpRequestBuilder :=
  p ← make_shared new_HttpRequest; mret (mk_HttpRequestBuilder p).

Definition HttpRequestBuilder_build (b : HttpRequestBuilder) : nat := __obj b.

Definition HttpRequestBuilder_setRequestMethod (m : HttpRequestMethod) (b : HttpRequestBuilder)
  : SM (mem HttpRequest) HttpRequestBuilder := _ ← invoke (setRequestMethod m) (__obj b); mret b.
Definition HttpRequestBuilder_setHttpVersion (v : HttpVersion) (b : HttpRequestBuilder)
  : SM (mem HttpRequest) HttpRequestBuilder := _ ← invoke (setHttpVersion v) (__obj b); mret b.
Definition HttpRequestBuilder_setURI (u : bytes) (b : HttpRequestBuilder)
  : SM (mem HttpRequest) HttpRequestBuilder := _ ← invoke (setURI u) (__obj b); mret b.
Definition HttpRequestBuilder_setHeader (k v : bytes) (b : HttpRequestBuilder)
  : SM (mem HttpRequest) HttpRequestBuilder := _ ← invoke (setHeader k v) (__obj b); mret b.
Definition HttpRequestBuilder_delHeader (k : bytes) (b : HttpRequestBuilder)
  : SM (mem HttpRequest) HttpRequestBuilder := _ ← invoke (delHeader k) (__obj b); mret b.
Definition HttpRequestBuilder_setBody (body : bytes) (b : HttpRequestBuilder)
  : SM (mem HttpRequest) HttpRequestBuilder := _ ← invoke (setBody body) (__obj b); mret b.

#[global] Instance HttpRequestBuilder_IHttpReqeustBuilder : IHttpReqeustBuilder HttpRequestBuilder := {
  build := HttpRequestBuilder_build;
  b_setRequestMethod := HttpRequestBuilder_setRequestMethod;
  b_setHttpVersion := HttpRequestBuilder_setHttpVersion;
  b_setURI := HttpRequestBuilder_setURI;
  b_setHeader := HttpRequestBuilder_setHeader;
  b_delHeader := HttpRequestBuilder_delHeader;
  b_setBody := HttpRequestBuilder_setBody
}.

#[global] Instance HttpRequestBuilder_ok : IHttpReqeustBuilderOk HttpRequestBuilder.
Proof. intros c b h x Hx; destruct c; exact (SM_bind_Ret _ _ _ _ _ (invoke_ok _ _ _ _ Hx)). Qed.

(** * The analyser, over a builder

    The functions of HttpRequest.v pass the request along; the code changes it
    through the builder it was given. The state is the stream with the objects. *)

Section analyser.
Context {S B : Type} `{StreamBuf S} `{IHttpReqeustBuilder B}.

Abbreviation world := (istream S * mem HttpRequest)%type.

Definition in_stream {A} (m : IS S A) : SM world A := λ '(i, h), '(a, i') ← m i; Ret (a, (i', h)).
Definition in_memory {A} (m : SM (mem HttpRequest) A) : SM world A := λ '(i, h), '(a, h') ← m h; Ret (a, (i, h')).

Definition builder_parseLine (fuel : nat) (b : B) : SM world Error :=
  method ← in_stream (extract_word fuel);
  f1 ← in_stream is_fail;
  if f1 : bool then mret PARSE_REQ_METHOD_FAILED else
  uri ← in_stream (extract_word fuel);
  f2 ← in_stream is_fail;
  if f2 : bool then mret PARSE_REQ_URI_FAILED else
  version ← in_stream (extract_word fuel);
  f3 ← in_stream is_fail;
  if f3 : bool then mret PARSE_REQ_VERSION_FAILED else
  _ ← in_memory (b1 ← b_setRequestMethod (toRequestMethod (extracted [] method)) b;
                 b2 ← b_setURI (extracted [] uri) b1;
                 b_setHttpVersion (toHttpVersion (extracted [] version)) b2);
  in_stream (skipTerminateCH fuel).

Fixpoint builder_parseHead_loop (fuel n : nat) (cur : bytes) (b : B) : SM world Error :=
  match n with
  | O => sm_lift Spin
  | Datatypes.S n' =>
      line ← in_stream (getline fuel);
      let cur := extracted cur line in
      f ← in_stream is_fail;
      if f : bool then mret PARSE_REQ_HEADER_FAILED else
      if Nat.eqb (length cur) 1 then mret SERVER_OK else
      match find_char ch_COLON cur with
      | None => mret INVALID_REQ_HEADER_FORMAT
      | Some tok =>
          '(key, value) ← sm_lift (header_entry cur tok);
          _ ← in_memory (b_setHeader key value b);
          f' ← in_stream is_fail;
          if f' : bool then mret SERVER_OK
          else builder_parseHead_loop fuel n' (pop_back cur) b
      end
  end.

Definition builder_parseHead (fuel : nat) (b : B) : SM world Error := builder_parseHead_loop fuel fuel [] b.

(** [_builder.build()] is dereferenced to find the length of the body. *)
Definition builder_parseBody (fuel : nat) (b : B) : SM world Error :=
  req ← in_memory (λ h, r ← deref (h !! build b); Ret (r, h));
  bodyLen ← sm_lift (requestBodyLength req);
  if (bodyLen =? 0)%N then mret SERVER_OK else
  r ← in_stream (body_loop fuel bodyLen []);
  match r with
  | None => mret PARSE_REQ_BODY_FAILED
  | Some body => _ ← in_memory (b_setBody body b); mret SERVER_OK
  end.

(** The steps, up to the first that fails. *)
Definition builder_steps (fuel : nat) (b : B) : SM world Error :=
  e1 ← builder_parseLine fuel b;
  if decide (e1 = SERVER_OK) then
    e2 ← builder_parseHead fuel b;
    if decide (e2 = SERVER_OK) then builder_parseBody fuel b
    else mret e2
  else mret e1.

(** * It computes the request of the other *)

(** The result of passing a request along, with the request at [p]. *)
Definition placed (p : nat) (h : mem HttpRequest) (x : outcome ((Error * HttpRequest) * istream S)) : outcome (Error * world) :=
  '((e, r), i) ← x; Ret (e, (i, <[p := r]> h)).

Context `{!IHttpReqeustBuilderOk B}.

Lemma in_stream_bind {A C} (m : IS S A) (k : A → SM world C) i h :
  (x ← in_stream m; k x) (i, h) = match m i with
                                 | Ret (a, i') => k a (i', h)
                                 | Throw e => Throw e | Undef => Undef | Spin => Spin end.
Proof. unfold mbind at 1, SM_bind, in_stream. by destruct (m i) as [[a i']| | |]. Qed.

Lemma lift_bind {T A C} (m : outcome A) (k : A → SM T C) w :
  (x ← sm_lift m; k x) w = match m with Ret a => k a w | Throw e => Throw e | Undef => Undef | Spin => Spin end.
Proof. unfold mbind, SM_bind, sm_lift. by destruct m. Qed.

Lemma stream_bind {A C} (m : IS S A) (k : A → IS S C) i :
  (m ≫= k) i = match m i with
               | Ret (a, i') => k a i'
               | Throw e => Throw e | Undef => Undef | Spin => Spin end.
Proof. done. Qed.

Lemma in_memory_bind {A C} (m : SM (mem HttpRequest) A) (k : A → SM world C) i h a h' :
  m h = Ret (a, h') → (x ← in_memory m; k x) (i, h) = k a (i, h').
Proof. intros Hm. unfold mbind at 1, SM_bind, in_memory. by rewrite Hm. Qed.

(** A call on the builder. *)
Lemma call_ok c b r (h : mem HttpRequest) :
  on_builder c b (<[build b := r]> h) = Ret (b, <[build b := on_request c r]> h).
Proof. rewrite (request_builder_fluent c b _ r) by apply lookup_insert_eq. by rewrite insert_insert_eq. Qed.

(** The three calls of the request line. *)
Lemma line_calls_ok m u v b r (h : mem HttpRequest) :
  (b1 ← b_setRequestMethod m b; b2 ← b_setURI u b1; b_setHttpVersion v b2) (<[build b := r]> h)
  = Ret (b, <[build b := setHttpVersion v (setURI u (setRequestMethod m r))]> h).
Proof.
  rewrite (SM_bind_Ret _ _ _ _ _ (call_ok (SetRequestMethod m) b r h) : _ = _).
  rewrite (SM_bind_Ret _ _ _ _ _ (call_ok (SetURI u) b _ h) : _ = _). exact (call_ok (SetHttpVersion v) b _ h).
Qed.

Lemma in_stream_fail {C} (k : bool → SM world C) i h : (f ← in_stream is_fail; k f) (i, h) = k (failbit i) (i, h).
Proof. done. Qed.

Lemma stream_fail {C} (k : bool → IS S C) i : (f ← is_fail; k f) i = k (failbit i) i.
Proof. done. Qed.

(** Both analysers read, and look at the stream's failbit. *)
Ltac both_read i :=
  rewrite in_stream_bind, stream_bind;
  match goal with |- match ?m i with _ => _ end = _ => destruct (m i) as [[? ?i']| | |]; [|done..]; clear i; rename i' into i end;
  rewrite in_stream_fail, stream_fail; destruct (failbit i); [done|].

Lemma builder_parseLine_ok fuel b i r h :
  builder_parseLine fuel b (i, <[build b := r]> h) = placed (build b) h (parseLine fuel r i).
Proof.
  unfold builder_parseLine, parseLine. do 3 both_read i.
  erewrite in_memory_bind by apply line_calls_ok.
  rewrite stream_bind. unfold in_stream. destruct (skipTerminateCH fuel i) as [[e i']| | |]; [|done..]. done.
Qed.

Lemma builder_parseHead_loop_ok fuel n cur b i r h :
  builder_parseHead_loop fuel n cur b (i, <[build b := r]> h) = placed (build b) h (parseHead_loop fuel n cur r i).
Proof.
  revert cur i r. induction n as [|n IH]; intros cur i r; [done|]. cbn [builder_parseHead_loop parseHead_loop].
  both_read i. destruct (Nat.eqb _ 1); [done|]. destruct (find_char _ _) as [tok|]; [|done].
  rewrite !lift_bind. destruct (header_entry _ tok) as [[k v]| | |]; [|done..].
  erewrite in_memory_bind by exact (call_ok (SetHeader k v) b r h).
  rewrite in_stream_fail, stream_fail. destruct (failbit i); [done|]. apply IH.
Qed.

Lemma builder_parseBody_ok fuel b i r h :
  builder_parseBody fuel b (i, <[build b := r]> h) = placed (build b) h (parseBody fuel r i).
Proof.
  unfold builder_parseBody, parseBody. erewrite in_memory_bind by by rewrite lookup_insert_eq.
  rewrite !lift_bind. destruct (requestBodyLength r) as [len| | |]; [|done..]. destruct (len =? 0)%N; [done|].
  rewrite in_stream_bind, stream_bind. destruct (body_loop fuel len [] i) as [[[body|] i']| | |]; [|done..].
  by erewrite in_memory_bind by exact (call_ok (SetBody body) b r h).
Qed.

Lemma builder_steps_ok fuel b i h :
  builder_steps fuel b (i, <[build b := new_HttpRequest]> h) = placed (build b) h (getOneHttpRequest fuel i).
Proof.
  unfold builder_steps, getOneHttpRequest, mbind, SM_bind. rewrite builder_parseLine_ok.
  destruct (parseLine fuel new_HttpRequest i) as [[[e1 r1] i1]| | |]; [|done..]. cbn. case_decide; [|done].
  unfold builder_parseHead, parseHead. rewrite builder_parseHead_loop_ok.
  destruct (parseHead_loop fuel fuel [] r1 i1) as [[[e2 r2] i2]| | |]; [|done..]. cbn. case_decide; [|done].
  by rewrite builder_parseBody_ok.
Qed.
End analyser.

(** [getOneHttpRequest]: the error, and the pointer that its builder builds. *)
Definition builder_getOneHttpRequest {S} `{StreamBuf S} (fuel : nat) : SM (istream S * mem HttpRequest) (Error * nat) :=
  b ← in_memory new_HttpRequestBuilder;
  e ← builder_steps fuel b;
  mret (e, build b).

(** * Properties *)

(** Whatever calls are made on a new builder of requests, and whenever its
    object is asked for, it is one new object that has been changed by exactly
    those calls, in their order, and every other object is left alone. *)
Theorem request_builder_builds calls h :
  ∃ b h1 h2, new_HttpRequestBuilder h = Ret (b, h1) ∧ h !! build b = None ∧
    chain on_builder calls b h1 = Ret (b, h2) ∧
    h2 = <[build b := foldl (λ r c, on_request c r) new_HttpRequest calls]> h.
Proof.
  destruct (new_chain build on_request (on_builder (B:=HttpRequestBuilder)) mk_HttpRequestBuilder new_HttpRequest calls h)
    as (b & h1 & h2 & Hb & Hnew & Hc & Hh); [done|exact HttpRequestBuilder_ok|].
  exists b, h1, h2. split_and!; [done|by apply not_elem_of_dom|done|done].
Qed.

(** C33: the analyser, which changes the request it builds through a shared
    pointer, gives a pointer to a new object that holds exactly the request of
    the analyser that passes requests along, with the same error, or throws or
    hangs with it; the stream is read alike and no other object is changed. *)
Theorem analyser_through_builder {S} `{StreamBuf S} fuel (i : istream S) (h : mem HttpRequest) :
  ∃ p, h !! p = None ∧
    builder_getOneHttpRequest fuel (i, h)
    = '((e, r), i') ← getOneHttpRequest fuel i; Ret ((e, p), (i', <[p := r]> h)).
Proof.
  destruct (make_shared_new new_HttpRequest h) as (p & Hp & Hnew). exists p. split; [by apply not_elem_of_dom|].
  unfold builder_getOneHttpRequest. erewrite in_memory_bind by (unfold new_HttpRequestBuilder; by rewrite (SM_bind_Ret _ _ _ _ _ Hp)).
  pose proof (builder_steps_ok fuel (mk_HttpRequestBuilder p) i h) as Hs. cbn [build HttpRequestBuilder_IHttpReqeustBuilder HttpRequestBuilder_build __obj] in Hs.
  unfold mbind at 1, SM_bind at 1. rewrite Hs.
  by destruct (getOneHttpRequest fuel i) as [[[e r] i']| | |].
Qed.
