(* ===== verification/Router.v ===== *)
(** HttpUtils/Resource and HttpUtils/Router: network resources, the mapping from
    URIs and status codes to them, and the interface the response builder uses. *)

From S2P Require Export Error HttpConfig.

(** * Resources *)

Inductive ResourceType := STATIC | CGI | INVALID.

#[global] Instance ResourceType_eq_dec : EqDecision ResourceType.
Proof. solve_decision. Defined.

Record ValidResource := mk_ValidResource {
  __type : ResourceType;
  __path : bytes;
  __uri : bytes
}.

(** A pointer to a [GeneralResource]: an [InvalidResource] or a [ValidResource]. *)
Inductive GeneralResource :=
| InvalidResource
| Valid (v : ValidResource).

Definition getType (g : GeneralResource) : ResourceType :=
  match g with
  | InvalidResource => INVALID
  | Valid v => __type v
  end.

Definition getPath (v : ValidResource) : bytes := __path v.
Definition getURI (v : ValidResource) : bytes := __uri v.

Definition StaticResource (path uri : bytes) : ValidResource := mk_ValidResource STATIC path uri.
Definition CGIResource (path uri : bytes) : ValidResource := mk_ValidResource CGI path uri.

(** * The interface *)

(** [IRouter]: the resource of a URI, the error page of a status code, and the
    built-in page for a code without one. *)
Class IRouter (R : Type) := {
  route_uri : R → bytes → GeneralResource;
  route_code : R → N → GeneralResource;
  getDefaultErrorPage : R → N → bytes
}.

(** What a router promises to its client while it is well formed: it only ever
    names static resources or none. *)
Class IRouterOk (R : Type) `{IRouter R} := {
  router_wf : R → Prop;
  route_uri_static r u v : router_wf r → route_uri r u = Valid v → __type v = STATIC;
  route_code_static r c v : router_wf r → route_code r c = Valid v → __type v = STATIC
}.

(** * The implementation *)

Record Router := mk_Router {
  __mappingFilePath : bytes;
  __uriMapper : gmap bytes ValidResource;
  __errMapper : gmap N ValidResource
}.

Definition DEFAULT_MAPPING_PATH : bytes := $"web.xml".

Definition doLoad (path : bytes) (r : Router) : Error * Router :=
  (SERVER_OK,
   mk_Router (__mappingFilePath r)
     (<[$"/" := StaticResource ($"./StaticFiles/index.html") ($"/")]>
        (<[$"/hello" := StaticResource ($"./hello.html") ($"/hello")]> (__uriMapper r)))
     (<[500%N := StaticResource ($"./StaticFiles/500.html") ($"/500")]>
        (<[404%N := StaticResource ($"./StaticFiles/404.html") ($"/404")]> (__errMapper r)))).

Definition new_Router : Router := snd (doLoad DEFAULT_MAPPING_PATH (mk_Router [] ∅ ∅)).

(** Under the lock. *)
Definition loadFrom (path : bytes) (r : Router) : Error * Router :=
  let '(error, r1) := doLoad path r in
  if decide (error = SERVER_OK)
  then (error, mk_Router path (__uriMapper r1) (__errMapper r1))
  else (error, r1).

(** [operator[](statecode_t)] and [operator[](const uri_t&)], under the lock: a
    copy of the mapped resource. *)
Definition lookup_code (r : Router) (code : N) : GeneralResource :=
  match __errMapper r !! code with
  | Some v => Valid v
  | None => InvalidResource
  end.

Definition lookup_uri (r : Router) (uri : bytes) : GeneralResource :=
  match __uriMapper r !! uri with
  | Some v => Valid v
  | None => InvalidResource
  end.

Definition default_error_page (code : N) : bytes :=
  let status := mk_status code in
  let codeInfo := to_string code ++ $" " ++ getDetail status in
  $"<html><head><title>" ++ codeInfo
  ++ $"</title></head><body><h1>" ++ codeInfo
  ++ $"</h1></body></html>".

#[global] Instance Router_IRouter : IRouter Router := {
  route_uri := lookup_uri;
  route_code := lookup_code;
  getDefaultErrorPage _ := default_error_page
}.

(** Every mapped resource is static: holds of a new router, kept by loading. *)
Definition Router_wf (r : Router) : Prop :=
  map_Forall (λ _ v, __type v = STATIC) (__uriMapper r) ∧
  map_Forall (λ _ v, __type v = STATIC) (__errMapper r).

Lemma doLoad_wf path r : Router_wf r → Router_wf (snd (doLoad path r)).
Proof. intros [Hu He]. split; simpl; repeat apply map_Forall_insert_2; done. Qed.

Lemma new_Router_wf : Router_wf new_Router.
Proof. apply doLoad_wf. split; apply map_Forall_empty. Qed.

Lemma loadFrom_wf path r : Router_wf r → Router_wf (snd (loadFrom path r)).
Proof. intros Hr. apply (doLoad_wf path r Hr). Qed.

#[global, refine] Instance Router_IRouterOk : IRouterOk Router := { router_wf := Router_wf }.
Proof.
  - intros r u v [Hu _] H. simpl in H. unfold lookup_uri in H.
    destruct (__uriMapper r !! u) eqn:E; [|done]. injection H as <-. by apply (Hu _ _ E).
  - intros r c v [_ He] H. simpl in H. unfold lookup_code in H.
    destruct (__errMapper r !! c) eqn:E; [|done]. injection H as <-. by apply (He _ _ E).
Defined.

(** * Properties *)

(** Loading a mapping maps the built-in URIs and status codes and leaves
    every other entry of the router alone; a router that only named static
    resources still does. *)
Theorem router_load_spec path r u c :
  let r' := snd (loadFrom path r) in
  fst (loadFrom path r) = SERVER_OK ∧ __mappingFilePath r' = path ∧
  lookup_uri r' u =
    (if decide (u = $"/") then Valid (StaticResource ($"./StaticFiles/index.html") ($"/"))
     else if decide (u = $"/hello") then Valid (StaticResource ($"./hello.html") ($"/hello"))
     else lookup_uri r u) ∧
  lookup_code r' c =
    (if decide (c = 500%N) then Valid (StaticResource ($"./StaticFiles/500.html") ($"/500"))
     else if decide (c = 404%N) then Valid (StaticResource ($"./StaticFiles/404.html") ($"/404"))
     else lookup_code r c) ∧
  (Router_wf r → Router_wf r').
Proof.
  split_and!; [done|done| | |apply loadFrom_wf].
  - unfold lookup_uri. simpl. rewrite !lookup_insert.
    repeat case_decide; subst; done.
  - unfold lookup_code. simpl. rewrite !lookup_insert.
    repeat case_decide; subst; done.
Qed.
