(* ===== verification/Reader.v ===== *)
(** Seekable input streams over a finite content: the [std::istringstream] and
    [std::ifstream] a resource is read through, with [seekg], [tellg] and
    [readsome]. *)

From S2P Require Export Prelude.

Inductive reader_kind := StringReader | FileReader.

(** [r_fail] is [fail()]; none of the operations used sets [eofbit]. *)
Record reader := mk_reader {
  r_kind : reader_kind;
  r_data : bytes;
  r_pos : nat;
  r_fail : bool
}.

(** A new [std::istringstream] over a string. *)
Definition istringstream (s : bytes) : reader := mk_reader StringReader s 0 false.

Definition remaining (r : reader) : nat := length (r_data r) - r_pos r.

(** [in_avail()] of a file buffer is implementation-defined: what it has buffered,
    or else an estimate of what the file still holds. It is a parameter, known
    never to exceed what is left and to be positive while something is left. *)
Class FileAvail := file_avail : reader → nat.
Class FileAvailOk `{FileAvail} : Prop := {
  file_avail_le r : (file_avail r ≤ remaining r)%nat;
  file_avail_pos r : (0 < remaining r)%nat → (0 < file_avail r)%nat
}.

Section reader.
Context `{FileAvail}.

Definition reader_avail (r : reader) : nat :=
  match r_kind r with
  | StringReader => remaining r
  | FileReader => file_avail r
  end.

Definition set_pos (n : nat) (r : reader) : reader :=
  mk_reader (r_kind r) (r_data r) n (r_fail r).

(** [seekg(0, end)] and [seekg(0, beg)]: nothing on a failed stream. *)
Definition seekg_end (r : reader) : reader :=
  if r_fail r then r else set_pos (length (r_data r)) r.
Definition seekg_beg (r : reader) : reader :=
  if r_fail r then r else set_pos 0 r.

(** [tellg()]: -1 on a failed stream. *)
Definition tellg (r : reader) : Z := if r_fail r then -1 else Z.of_nat (r_pos r).

(** [readsome(buf, n)]: the characters stored, at most [n]; on a stream that is
    not good it sets [failbit] and stores nothing. *)
Definition read_some (n : nat) (r : reader) : bytes * reader :=
  if r_fail r then ([], r)
  else let k := Nat.min (reader_avail r) n in
       (take k (drop (r_pos r) (r_data r)), set_pos (r_pos r + k) r).

Definition reader_wf (r : reader) : Prop := r_fail r = false ∧ (r_pos r ≤ length (r_data r))%nat.

(** What is left to be read. *)
Definition rest_of (r : reader) : bytes := drop (r_pos r) (r_data r).

Lemma reader_avail_le `{!FileAvailOk} r : (reader_avail r ≤ remaining r)%nat.
Proof. unfold reader_avail. destruct (r_kind r); [done|]. apply file_avail_le. Qed.

Lemma reader_avail_pos `{!FileAvailOk} r : (0 < remaining r)%nat → (0 < reader_avail r)%nat.
Proof. unfold reader_avail. destruct (r_kind r); [done|]. apply file_avail_pos. Qed.

(** Reading takes a prefix of what is left, a non-empty one if it can. *)
Lemma read_some_spec `{!FileAvailOk} n r :
  reader_wf r →
  ∃ k, read_some n r = (take k (rest_of r), set_pos (r_pos r + k) r) ∧
       (k ≤ n)%nat ∧ (k ≤ length (rest_of r))%nat ∧
       (0 < n → 0 < length (rest_of r) → 0 < k)%nat ∧
       reader_wf (set_pos (r_pos r + k) r) ∧ rest_of (set_pos (r_pos r + k) r) = drop k (rest_of r).
Proof.
  intros [Hf Hp]. unfold read_some. rewrite Hf. exists (Nat.min (reader_avail r) n).
  pose proof (reader_avail_le r) as Hle. pose proof (reader_avail_pos r) as Hpos.
  unfold rest_of, remaining in *. rewrite length_drop. simpl.
  split_and!; [done|lia|lia|lia| |by rewrite drop_drop]. split; simpl; [done|lia].
Qed.

Lemma seek_measure r :
  reader_wf r → tellg (seekg_end r) = Z.of_nat (length (r_data r)) ∧
                seekg_beg (seekg_end r) = set_pos 0 r.
Proof. intros [Hf _]. unfold tellg, seekg_end, seekg_beg. by rewrite Hf; simpl; rewrite Hf. Qed.

Lemma seek_failed r : r_fail r = true → tellg (seekg_end r) = -1 ∧ seekg_beg (seekg_end r) = r.
Proof. intros Hf. unfold tellg, seekg_end, seekg_beg. by rewrite !Hf. Qed.
End reader.

(** A file stream that reports everything that is left. *)
Definition avail_all : FileAvail := remaining.

Lemma avail_all_ok : @FileAvailOk avail_all.
Proof. by split. Qed.
