(* ===== verification/Cache.v ===== *)
(** Cache/Cache.hpp: the cache interface.

    [cache_get] returns the cached value, or [None] when [get] returns false;
    [cache_put] returns whether [put] succeeded. [ICacheOk] is what a client may
    rely on: a cache only ever answers with a value that is [stored] under the
    key, looking up stores nothing new, and putting stores at most the given
    binding. A cache may forget, refuse or fail at any time. *)

From S2P Require Export Prelude.

Class ICache (C : Type) := {
  cache_get : bytes → SM C (option bytes);
  cache_put : bytes → bytes → SM C bool;
  validKey : bytes → bool;
  validVal : bytes → bool
}.

Class ICacheOk (C : Type) `{ICache C} := {
  cache_inv : C → Prop;
  stored : C → gmap bytes bytes;
  key_ok : bytes → Prop;
  cache_get_ok k c :
    cache_inv c → key_ok k →
    ∃ r c', cache_get k c = Ret (r, c') ∧ cache_inv c' ∧ stored c' = stored c ∧
            (∀ v, r = Some v → stored c !! k = Some v);
  cache_put_ok k v c :
    cache_inv c → key_ok k →
    ∃ b c', cache_put k v c = Ret (b, c') ∧ cache_inv c' ∧
            (stored c' = stored c ∨ stored c' = <[k := v]> (stored c)) ∧
            (b = true → stored c' !! k = Some v)
}.
