(* ===== verification/ResourceAccessor.v ===== *)
(** HttpUtils/ResourceAccessor: access to the content of a static resource,
    directly in the file system or through a cache. *)

From S2P Require Export Error Router Reader Cache.

(** The file system: opening a path for reading gives a stream positioned at its
    start, or fails. *)
Class FileSystem := fs_open : bytes → option reader.

(** [IResourceAccessor::access]: the reader and the error it sets, over a state
    of the accessor; [fuel] bounds its loop. *)
Class IResourceAccessor (A : Type) :=
  access : nat → ValidResource → SM A (option reader * Error).

(** * FileAccessor *)

Section FileAccessor.
Context `{FileSystem}.

Definition FileAccessor_access (sr : ValidResource) : option reader * Error :=
  match fs_open (getPath sr) with
  | Some r => (Some r, SERVER_OK)
  | None => (None, INVALID_FILE_PATH)
  end.

(** It has no state. *)
#[global] Instance FileAccessor_IResourceAccessor : IResourceAccessor () :=
  λ _ sr, mret (FileAccessor_access sr).
End FileAccessor.

(** * CachedResourceAccessor *)

Section CachedResourceAccessor.
Context `{FileSystem, FileAvail} {C : Type} `{ICache C}.

(** The loop that fills [resource] from the file: the bytes read, or [None]
    when the stream failed. *)
Fixpoint fill_loop (fuel rest : nat) (acc : bytes) (r : reader) : outcome (option (bytes * reader)) :=
  match rest with
  | O => Ret (Some (acc, r))
  | _ =>
      match fuel with
      | O => Spin
      | S f =>
          let '(d, r1) := read_some rest r in
          if r_fail r1 then Ret None
          else fill_loop f (rest - length d) (acc ++ d) r1
      end
  end.

(** After a miss, with a cache: measure the file, and if it may be cached read it
    whole. What it gives is the resource to [put], or else the reader and the
    error to return. *)
Definition load_resource (fuel : nat) (path : bytes) (in_ : reader) : outcome (bytes + option reader * Error) :=
  let filesize := tellg (seekg_end in_) in
  let in1 := seekg_beg (seekg_end in_) in
  if filesize <? 0 then Throw length_error
  else
    let n := Z.to_nat filesize in
    if validKey (C := C) path && validVal (C := C) (replicate n NUL) then
      r ← fill_loop fuel n [] in1;
      match r with
      | None => mret (inr (None, FILE_READ_ABORT))
      | Some (resource, _) => mret (inl resource)
      end
    else mret (inr (Some in1, SERVER_OK)).

(** The resource is [put] and returned as a string stream. *)
Definition fill_cache (fuel : nat) (path : bytes) (in_ : reader) (c : C)
  : outcome ((option reader * Error) * C) :=
  r ← load_resource fuel path in_;
  match r with
  | inr res => mret (res, c)
  | inl resource =>
      '(_, c') ← cache_put path resource c;
      mret ((Some (istringstream resource), SERVER_OK), c')
  end.

(** The state is the cache pointer, [None] for a null one, which the constructor
    is given. *)
Definition new_CachedResourceAccessor (cache : option C) : option C := cache.

Definition CachedResourceAccessor_access (fuel : nat) (sr : ValidResource)
  : SM (option C) (option reader * Error) := λ cache,
  let path := getPath sr in
  match cache with
  | None =>
      Ret (FileAccessor_access sr, None)
  | Some c =>
      '(hit, c1) ← cache_get path c;
      match hit with
      | Some resource => mret ((Some (istringstream resource), SERVER_OK), Some c1)
      | None =>
          match FileAccessor_access sr with
          | (Some in_, SERVER_OK) =>
              '(res, c2) ← fill_cache fuel path in_ c1;
              mret (res, Some c2)
          | res => Ret (res, Some c1)
          end
      end
  end.

#[global] Instance CachedResourceAccessor_IResourceAccessor : IResourceAccessor (option C) :=
  CachedResourceAccessor_access.
End CachedResourceAccessor.

(** * What accessing promises *)

(** Files open as good streams at their start; [file_content] is what they hold. *)
Class FileSystemOk `{FileSystem} : Prop :=
  fs_open_ok p r : fs_open p = Some r → r_fail r = false ∧ r_pos r = 0%nat.

Definition file_content `{FileSystem} (p : bytes) : option bytes := r_data <$> fs_open p.

(** The contract of an accessor over a file system that does not change: a
    resource whose path names a file is delivered in full, with SERVER_OK; another
    gives no reader and INVALID_FILE_PATH. [fuel] must cover the longest file. *)
Class IResourceAccessorOk (A : Type) `{FileSystem} `{IResourceAccessor A} := {
  accessor_inv : A → Prop;
  path_ok : bytes → Prop;
  access_ok fuel sr a :
    accessor_inv a → path_ok (getPath sr) →
    (∀ d, file_content (getPath sr) = Some d → length d ≤ fuel)%nat →
    ∃ res a', access fuel sr a = Ret (res, a') ∧ accessor_inv a' ∧
      match file_content (getPath sr) with
      | Some d => ∃ r, res = (Some r, SERVER_OK) ∧ r_data r = d ∧ r_pos r = 0%nat ∧ r_fail r = false
      | None => res = (None, INVALID_FILE_PATH)
      end
}.

Section FileAccessor_ok.
Context `{FileSystemOk}.

Lemma FileAccessor_spec sr :
  match file_content (getPath sr) with
  | Some d => ∃ r, FileAccessor_access sr = (Some r, SERVER_OK) ∧ r_data r = d ∧
                   r_pos r = 0%nat ∧ r_fail r = false
  | None => FileAccessor_access sr = (None, INVALID_FILE_PATH)
  end.
Proof.
  unfold file_content, FileAccessor_access. destruct (fs_open (getPath sr)) as [r|] eqn:E; simpl; [|done].
  destruct (fs_open_ok _ _ E). by exists r.
Qed.

#[global, refine] Instance FileAccessor_ok : IResourceAccessorOk () := {
  accessor_inv _ := True; path_ok _ := True
}.
Proof.
  intros fuel sr [] _ _ _. exists (FileAccessor_access sr), (). split_and!; [done|done|].
  apply FileAccessor_spec.
Defined.
End FileAccessor_ok.

Section CachedResourceAccessor_ok.
Context `{FileSystemOk, FileAvailOk} {C : Type} `{ICacheOk C}.

(** The loop reads all that is left of a good reader, in at most as many
    iterations as there are bytes. *)
Lemma fill_loop_reads fuel acc r :
  reader_wf r → (length (rest_of r) ≤ fuel)%nat →
  ∃ r', fill_loop fuel (length (rest_of r)) acc r = Ret (Some (acc ++ rest_of r, r')).
Proof.
  revert acc r. induction fuel as [|f IH]; intros acc r Hwf Hf;
    (destruct (length (rest_of r)) as [|n] eqn:Hlen;
     [exists r; destruct (rest_of r); [by rewrite app_nil_r|done]|]); [lia|].
  destruct (read_some_spec (S n) r Hwf) as (k & Hr & Hk1 & Hk2 & Hk3 & Hwf' & Hrest).
  simpl. rewrite Hr. rewrite (proj1 Hwf').
  rewrite length_take, Nat.min_l by lia.
  assert (length (rest_of (set_pos (r_pos r + k) r)) = S n - k)%nat as Hl'
    by (rewrite Hrest, length_drop; lia).
  destruct (IH (acc ++ take k (rest_of r)) (set_pos (r_pos r + k) r) Hwf' ltac:(lia)) as [r' Hr'].
  exists r'. rewrite Hl' in Hr'. replace (match k with 0 => S n | S l => n - l end)%nat with (S n - k)%nat by (destruct k; lia).
  rewrite Hr', Hrest, <- app_assoc, take_drop. done.
Qed.

(** Everything the cache could answer is what the file of that name holds. *)
Definition coherent (c : C) : Prop :=
  cache_inv c ∧ ∀ k v, key_ok k → stored c !! k = Some v → file_content k = Some v.

Definition accessor_coherent (cache : option C) : Prop :=
  match cache with None => True | Some c => coherent c end.

Lemma coherent_put k v c :
  coherent c → key_ok k → file_content k = Some v →
  ∃ b c', cache_put k v c = Ret (b, c') ∧ coherent c'.
Proof.
  intros [Hinv Hc] Hk Hfc. destruct (cache_put_ok k v c Hinv Hk) as (b & c' & Hp & Hinv' & Hs & _).
  exists b, c'. split; [done|]. split; [done|]. intros k' v' Hk' Hv'. destruct Hs as [Hs|Hs]; rewrite Hs in Hv'; [by apply Hc|].
  apply lookup_insert_Some in Hv' as [[<- <-]|[_ Hv']]; [done|by apply Hc].
Qed.

(** A file is either read whole, or handed on at its start. *)
Lemma load_resource_ok fuel path r :
  fs_open path = Some r → (length (r_data r) ≤ fuel)%nat →
  load_resource (C := C) fuel path r = Ret (inl (r_data r)) ∨
  load_resource (C := C) fuel path r = Ret (inr (Some (set_pos 0 r), SERVER_OK)) ∧ r_fail r = false.
Proof.
  intros Ho Hf. destruct (fs_open_ok _ _ Ho) as [Hfail Hpos]. assert (reader_wf r) as Hwf by (split; [done|lia]).
  destruct (seek_measure r Hwf) as [Ht Hb]. unfold load_resource. rewrite Ht, Hb, Nat2Z.id.
  destruct (Z.ltb_spec (Z.of_nat (length (r_data r))) 0); [lia|].
  destruct (validKey path && validVal _); [left|by right].
  destruct (fill_loop_reads fuel [] (set_pos 0 r)) as [r' Hl]; [by split; simpl; [|lia]|done|].
  change (rest_of (set_pos 0 r)) with (r_data r) in Hl. by rewrite Hl.
Qed.

Lemma fill_cache_ok fuel path r c d :
  coherent c → key_ok path → fs_open path = Some r → r_data r = d → (length d ≤ fuel)%nat →
  ∃ r' c', fill_cache fuel path r c = Ret ((Some r', SERVER_OK), c') ∧ coherent c' ∧
           r_data r' = d ∧ r_pos r' = 0%nat ∧ r_fail r' = false.
Proof.
  intros Hcoh Hk Ho <- Hf. unfold fill_cache.
  destruct (load_resource_ok fuel path r Ho Hf) as [->|[-> Hfail]]; rewrite ret_bind.
  - destruct (coherent_put path (r_data r) c) as (b & c' & -> & Hc'); [done|done| |].
    { unfold file_content. by rewrite Ho. }
    by exists (istringstream (r_data r)), c'.
  - exists (set_pos 0 r), c. by split_and!.
Qed.

Lemma CachedResourceAccessor_refines fuel sr cache :
  accessor_coherent cache → key_ok (getPath sr) →
  (∀ d, file_content (getPath sr) = Some d → length d ≤ fuel)%nat →
  ∃ res cache', CachedResourceAccessor_access fuel sr cache = Ret (res, cache') ∧
    accessor_coherent cache' ∧
    match file_content (getPath sr) with
    | Some d => ∃ r, res = (Some r, SERVER_OK) ∧ r_data r = d ∧ r_pos r = 0%nat ∧ r_fail r = false
    | None => res = (None, INVALID_FILE_PATH)
    end.
Proof.
  intros Hcoh Hk Hf. unfold CachedResourceAccessor_access. destruct cache as [c|].
  2: { exists (FileAccessor_access sr), None. split_and!; [done|done|]. apply FileAccessor_spec. }
  destruct Hcoh as [Hinv Hc].
  destruct (cache_get_ok (getPath sr) c Hinv Hk) as ([v|] & c1 & Hg & Hinv1 & Hs & Hv);
    rewrite Hg, ret_bind;
    assert (coherent c1) as Hcoh1 by (split; [done|by rewrite Hs]).
  - rewrite (Hc _ _ Hk (Hv v eq_refl)). eexists _, _. split_and!; [done|done|]. by exists (istringstream v).
  - pose proof (FileAccessor_spec sr) as Hspec. unfold file_content in *.
    destruct (fs_open (getPath sr)) as [r|] eqn:Ho; simpl in *.
    + destruct Hspec as (r0 & Hr0 & _). rewrite Hr0.
      unfold FileAccessor_access in Hr0. rewrite Ho in Hr0. injection Hr0 as <-.
      destruct (fill_cache_ok fuel (getPath sr) r c1 (r_data r) Hcoh1 Hk Ho eq_refl (Hf _ eq_refl))
        as (r' & c' & -> & Hcoh' & Hr'). eexists _, _. split_and!; [done|done|]. by exists r'.
    + rewrite Hspec. by exists (None, INVALID_FILE_PATH), (Some c1).
Qed.

#[global, refine] Instance CachedResourceAccessor_ok : IResourceAccessorOk (option C) := {
  accessor_inv := accessor_coherent; path_ok := key_ok
}.
Proof. intros fuel sr a. apply CachedResourceAccessor_refines. Defined.
End CachedResourceAccessor_ok.

(** * Properties *)

(** C18: over a file system that does not change, the cached accessor behaves as
    the plain one: the same error, and a good reader at the start of the same
    content, however the (lawful) cache hits, misses, forgets or refuses; its loop
    stops, and the cache stays coherent with the files. *)
Theorem cached_access_refines_file `{FileSystemOk, FileAvailOk} {C} `{ICacheOk C} fuel sr (cache : option C) :
  accessor_coherent cache → key_ok (getPath sr) →
  (∀ d, file_content (getPath sr) = Some d → length d ≤ fuel)%nat →
  ∃ o e cache', CachedResourceAccessor_access fuel sr cache = Ret ((o, e), cache') ∧
    accessor_coherent cache' ∧
    e = snd (FileAccessor_access sr) ∧
    match o, fst (FileAccessor_access sr) with
    | Some r, Some r0 => r_data r = r_data r0 ∧ r_pos r = r_pos r0 ∧ r_fail r = r_fail r0
    | None, None => True
    | _, _ => False
    end.
Proof.
  intros Hc Hk Hf. destruct (CachedResourceAccessor_refines fuel sr cache Hc Hk Hf) as ([o e] & cache' & Hrun & Hc' & Hres).
  exists o, e, cache'. split_and!; [done|done|..]; pose proof (FileAccessor_spec sr) as Hs;
    destruct (file_content (getPath sr)) as [d|].
  - destruct Hres as (r & [= -> ->] & _). by destruct Hs as (r0 & -> & _).
  - injection Hres as -> ->. by rewrite Hs.
  - destruct Hres as (r & [= -> ->] & Hr1 & Hr2 & Hr3), Hs as (r0 & -> & Hs1 & Hs2 & Hs3).
    simpl. by split_and!; congruence.
  - injection Hres as -> ->. by rewrite Hs.
Qed.
