(* ===== verification/HttpResponse.v ===== *)
(** HttpUtils/HttpResponse: the response object, the choice of a response for a
    request, and its serialisation to an output stream. *)

From S2P Require Export Error HttpConfig Streams Router Reader ResourceAccessor.
From S2P Require HttpRequest.

(** [__version] is not initialised by the constructor; [__body] is a pointer. *)
Record HttpResponse := mk_HttpResponse {
  __version : option HttpVersion;
  __status : HttpResponseStatus;
  __header : gmap bytes bytes;
  __body : option reader
}.

Definition new_HttpResponse : HttpResponse := mk_HttpResponse None default_status ∅ None.

Definition getHttpVersion (r : HttpResponse) : option HttpVersion := __version r.
Definition getResponseStatus (r : HttpResponse) : HttpResponseStatus := __status r.
Definition getHeader (r : HttpResponse) : gmap bytes bytes := __header r.
Definition getBody (r : HttpResponse) : option reader := __body r.

Definition setHttpVersion (v : HttpVersion) (r : HttpResponse) : HttpResponse :=
  mk_HttpResponse (Some v) (__status r) (__header r) (__body r).
Definition setResponseStatus (code : N) (r : HttpResponse) : HttpResponse :=
  if decide (statecode_t code = getCode (__status r)) then r
  else mk_HttpResponse (__version r) (mk_status code) (__header r) (__body r).
Definition setHeader (k v : bytes) (r : HttpResponse) : HttpResponse :=
  mk_HttpResponse (__version r) (__status r) (<[k := v]> (__header r)) (__body r).
Definition delHeader (k : bytes) (r : HttpResponse) : HttpResponse :=
  match __header r !! k with
  | Some _ => mk_HttpResponse (__version r) (__status r) (delete k (__header r)) (__body r)
  | None => r
  end.
Definition setBody (b : option reader) (r : HttpResponse) : HttpResponse :=
  mk_HttpResponse (__version r) (__status r) (__header r) b.

(** Reading a field through its getter is reading it. *)
Ltac open_getters :=
  unfold HttpRequest.getHttpVersion, HttpRequest.getRequestMethod, HttpRequest.getURI,
    getHttpVersion, getResponseStatus, getHeader, getBody.

(** * Choosing the response *)

(** [static_cast<StaticResource&>( *resource)]: undefined on an invalid resource. *)
Definition static_cast (g : GeneralResource) : outcome ValidResource :=
  match g with
  | Valid v => Ret v
  | InvalidResource => Undef
  end.

Section responsor.
Context {R : Type} `{IRouter R} {A : Type} `{IResourceAccessor A}.

(** The locals after the cases on version, method and resource: [version],
    [code], [err] and [staticBody], uninitialised ones being [None], and whether
    control goes straight to [buildObj]. *)
Definition select_body (fuel : nat) (req : HttpRequest.HttpRequest) (router : R)
  : SM A (HttpVersion * option N * option Error * option reader * bool) :=
  let version := HttpRequest.getHttpVersion req in
  let method := HttpRequest.getRequestMethod req in
  let resource := route_uri router (HttpRequest.getURI req) in
  if decide (version = UNKNOWN_HTTP_VERSION) then
    mret (HTTP_1_0, Some 505%N, None, None, false)
  else if decide (method = UNKNOWN_REQUEST_METHOD) then
    mret (version, Some 501%N, None, None, false)
  else
    match getType resource with
    | STATIC =>
        v ← sm_lift (static_cast resource);
        '(staticBody, err) ← access fuel v;
        match err, staticBody with
        | SERVER_OK, Some _ => mret (version, Some 200%N, Some err, staticBody, true)
        | _, _ => mret (version, Some 500%N, Some err, staticBody, false)
        end
    | CGI => mret (version, None, None, None, true)
    | INVALID => mret (version, Some 404%N, None, None, false)
    end.

(** The error page of [code]: the mapped one, else the built-in one. *)
Definition error_body (fuel : nat) (router : R) (code : N) (err : option Error) (staticBody : option reader)
  : SM A (option reader) :=
  let resource := route_code router code in
  '(err, staticBody) ←
    (if decide (getType resource ≠ INVALID) then
       v ← sm_lift (static_cast resource);
       '(b, e) ← access fuel v;
       mret (Some e, b)
     else mret (err, staticBody));
  match staticBody with
  | None => mret (Some (istringstream (getDefaultErrorPage router code)))
  | Some _ =>
      e ← sm_lift (deref err);
      if decide (e = SERVER_OK) then mret staticBody
      else mret (Some (istringstream (getDefaultErrorPage router code)))
  end.

Definition getResponseFromRequest (fuel : nat) (req : HttpRequest.HttpRequest) (router : R)
  : SM A HttpResponse :=
  '(version, code, err, staticBody, built) ← select_body fuel req router;
  staticBody ←
    (if built : bool then mret staticBody
     else c ← sm_lift (deref code); error_body fuel router c err staticBody);
  c ← sm_lift (deref code);
  mret (setBody staticBody (setResponseStatus c (setHttpVersion version new_HttpResponse))).
End responsor.

(** * Writing the response *)

(** The [BFSIZE] of HttpResponse.cc, the size of its static buffer. *)
Definition RES_BFSIZE : nat := 4096.

Definition CONTENT_LENGTH : bytes := $"Content-Length".

Section writer.
Context {Ob : Type} `{OStreamBuf Ob} `{MapOrder} `{FileAvail}.

Definition genResponseLine (os : ostream Ob) (res : HttpResponse) : outcome (Error * ostream Ob) :=
  v ← deref (getHttpVersion res);
  let os1 := owrite (serialize_version v ++ [ch_SP] ++ to_string (getCode (getResponseStatus res))
                     ++ [ch_SP] ++ getDetail (getResponseStatus res) ++ [ch_LF]) os in
  mret (if obad os1 then GEN_RESPONSE_LINE_FAILED else SERVER_OK, os1).

Fixpoint head_loop (l : list (bytes * bytes)) (os : ostream Ob) : Error * ostream Ob :=
  match l with
  | [] => (SERVER_OK, os)
  | (key, value) :: l' =>
      let os1 := owrite (key ++ $": " ++ value ++ [ch_LF]) os in
      if obad os1 then (GEN_RESPONSE_HEAD_FAILED, os1) else head_loop l' os1
  end.

Definition genResponseHead (os : ostream Ob) (res : HttpResponse) : Error * ostream Ob :=
  head_loop (map_order (getHeader res)) os.

(** The loop of [genResponseBody] over the bytes [rest] still to be sent, with
    the contents [buf] of the static buffer. *)
Fixpoint body_loop (fuel rest : nat) (error : Error) (os : ostream Ob) (body : reader) (buf : bytes)
  : outcome (Error * (ostream Ob * reader * bytes)) :=
  match rest with
  | O => Ret (error, (os, body, buf))
  | _ =>
      match fuel with
      | O => Spin
      | S f =>
          let cur := Nat.min rest RES_BFSIZE in
          let '(cur, body1, buf1) :=
            if r_fail body then (cur, body, buf)
            else let '(d, body1) := read_some cur body in
                 (length d, body1, d ++ drop (length d) buf) in
          let os1 := owrite (take cur buf1) os in
          let rest1 := (rest - cur)%nat in
          let '(error1, buf2) :=
            if (0 <? Z.of_nat rest1) && r_fail body1
            then (GEN_RESPONSE_BODY_FAILED, replicate RES_BFSIZE NUL)
            else (error, buf1) in
          if obad os1 then Ret (GEN_RESPONSE_BODY_FAILED, (os1, body1, buf2))
          else body_loop f rest1 error1 os1 body1 buf2
      end
  end.

Definition genResponseBody (fuel : nat) (os : ostream Ob) (res : HttpResponse) (buf : bytes) (len : nat)
  : outcome (Error * (ostream Ob * HttpResponse * bytes)) :=
  body ← deref (getBody res);
  '(error, (os1, body1, buf1)) ← body_loop fuel len SERVER_OK os (seekg_beg body) buf;
  mret (error, (os1, setBody (Some body1) res, buf1)).

(** [HttpResponsor::response]: the error, the stream, the response object (its
    headers and its body's position change) and the static buffer. *)
Definition response (fuel : nat) (os : ostream Ob) (res : HttpResponse) (buf : bytes)
  : outcome (Error * (ostream Ob * HttpResponse * bytes)) :=
  '(error, os1) ← genResponseLine os res;
  if negb (bool_decide (error = SERVER_OK)) || obad os1
  then mret (error, (oflush os1, res, buf)) else
  body ← deref (getBody res);
  let bodyLen := tellg (seekg_end body) in
  let res1 := setBody (Some (seekg_beg (seekg_end body))) res in
  if bodyLen =? -1 then mret (INVALID_CONTENT_LENGTH, (oflush os1, res1, buf)) else
  let res2 := setHeader CONTENT_LENGTH (to_string (Z.to_N bodyLen)) res1 in
  let '(error, os2) := genResponseHead os1 res2 in
  if negb (bool_decide (error = SERVER_OK)) || obad os2
  then mret (error, (oflush os2, res2, buf)) else
  let os3 := owrite [ch_LF] os2 in
  if obad os3 then mret (GEN_RESPONSE_BODY_FAILED, (oflush os3, res2, buf)) else
  '(error, (os4, res3, buf3)) ← genResponseBody fuel os3 res2 buf (Z.to_nat bodyLen);
  mret (error, (oflush os4, res3, buf3)).

(** [operator<<]: the error is dropped. *)
Definition put_response (fuel : nat) (os : ostream Ob) (res : HttpResponse) (buf : bytes)
  : outcome (ostream Ob * HttpResponse * bytes) :=
  '(_, out) ← response fuel os res buf; mret out.
End writer.

(** * The bytes of a response *)

Section wire.
Context `{MapOrder}.

Definition status_line (v : HttpVersion) (s : HttpResponseStatus) : bytes :=
  serialize_version v ++ [ch_SP] ++ to_string (getCode s) ++ [ch_SP] ++ getDetail s ++ [ch_LF].

Definition header_lines (l : list (bytes * bytes)) : bytes :=
  mjoin ((λ kv, kv.1 ++ $": " ++ kv.2 ++ [ch_LF]) <$> l).

(** What is sent for a response with version [v] and content [d]. *)
Definition wire_response (v : HttpVersion) (s : HttpResponseStatus) (h : gmap bytes bytes) (d : bytes) : bytes :=
  status_line v s
  ++ header_lines (map_order (<[CONTENT_LENGTH := to_string (N.of_nat (length d))]> h))
  ++ [ch_LF] ++ d.
End wire.

Section writer_spec.
Context {Ob : Type} `{OStreamBuf Ob} `{MapOrder} `{FileAvailOk}.

(** The header lines are one write; an error is a failed stream. *)
Lemma head_loop_spec l (os : ostream Ob) :
  obad os = false →
  head_loop l os = (if obad (owrite (header_lines l) os) then GEN_RESPONSE_HEAD_FAILED else SERVER_OK,
                    owrite (header_lines l) os).
Proof.
  revert os. induction l as [|[k v] l IH]; intros os Hb.
  - destruct os as [o b]. simpl in Hb. by subst b.
  - assert (header_lines ((k, v) :: l) = (k ++ $": " ++ v ++ [ch_LF]) ++ header_lines l) as -> by done.
    rewrite <- owrite_app. cbn [head_loop]. cbv zeta.
    set (os1 := owrite (k ++ _) os). destruct (obad os1) eqn:E; [|by apply IH].
    rewrite !(owrite_bad (header_lines l) os1) by done. by rewrite E.
Qed.

(** The body loop writes exactly what is left of the body, unless the stream
    fails, and then what is left is ignored by the stream anyway. *)
Lemma body_loop_spec fuel (os : ostream Ob) body buf :
  reader_wf body → obad os = false → (length (rest_of body) ≤ fuel)%nat →
  ∃ body' buf', r_data body' = r_data body ∧
    body_loop fuel (length (rest_of body)) SERVER_OK os body buf
    = Ret (if obad (owrite (rest_of body) os) then GEN_RESPONSE_BODY_FAILED else SERVER_OK,
           (owrite (rest_of body) os, body', buf')).
Proof.
  revert os body buf. induction fuel as [|f IH]; intros os body buf Hwf Hb Hf;
    (destruct (length (rest_of body)) as [|n] eqn:Hlen;
     [exists body, buf; destruct (rest_of body); [|done];
      unfold owrite; rewrite Hb; simpl; destruct os as [o b]; simpl in Hb; by subst b|]); [lia|].
  cbn [body_loop]. rewrite (proj1 Hwf).
  destruct (read_some_spec (Nat.min (S n) RES_BFSIZE) body Hwf) as (k & -> & Hk1 & Hk2 & Hk3 & Hwf' & Hrest).
  assert (0 < k)%nat as Hk by (apply Hk3; unfold RES_BFSIZE; lia).
  rewrite length_take, Nat.min_l by lia.
  rewrite take_app_le, take_take, Nat.min_id by (rewrite length_take; lia).
  rewrite (proj1 Hwf'), andb_false_r.
  set (body1 := set_pos (r_pos body + k) body) in *.
  assert (owrite (rest_of body) os = owrite (rest_of body1) (owrite (take k (rest_of body)) os)) as ->.
  { by rewrite owrite_app, Hrest, take_drop. }
  destruct (obad (owrite (take k (rest_of body)) os)) eqn:E.
  - rewrite !(owrite_bad (rest_of body1)) by done. rewrite E.
    by exists body1, (take k (rest_of body) ++ drop k buf).
  - assert (length (rest_of body1) = S n - k)%nat as Hl by (rewrite Hrest, length_drop; lia).
    destruct (IH (owrite (take k (rest_of body)) os) body1 (take k (rest_of body) ++ drop k buf) Hwf' E ltac:(lia))
      as (body' & buf' & Hd & Hrun).
    rewrite Hl in Hrun. rewrite Hrun. by exists body', buf'.
Qed.

(** Whatever the output stream does, [response] amounts to writing the wire
    form and flushing, and its error code says whether the writing (not the
    flush) succeeded. *)
Lemma response_spec fuel (os : ostream Ob) res buf v body :
  obad os = false → __version res = Some v → __body res = Some body → reader_wf body →
  (length (r_data body) ≤ fuel)%nat →
  let w := wire_response v (__status res) (__header res) (r_data body) in
  ∃ e res' buf', response fuel os res buf = Ret (e, (oflush (owrite w os), res', buf')) ∧
    (e = SERVER_OK ↔ obad (owrite w os) = false) ∧
    __header res' !! CONTENT_LENGTH = (if obad (owrite (status_line v (__status res)) os) then __header res !! CONTENT_LENGTH
                                       else Some (to_string (N.of_nat (length (r_data body))))).
Proof.
  intros Hb Hv Hbody Hwf Hf w. destruct (seek_measure body Hwf) as [Ht Hs].
  unfold response, genResponseLine. open_getters. rewrite Hv, deref_Some_bind.
  fold (status_line v (__status res)). subst w. unfold wire_response.
  set (h := <[CONTENT_LENGTH := to_string (N.of_nat (length (r_data body)))]> (__header res)).
  set (os1 := owrite (status_line v (__status res)) os). rewrite <- !owrite_app. fold os1.
  change (mret ?x) with (Ret x). rewrite ret_bind. destruct (obad os1) eqn:E1.
  { rewrite bool_decide_eq_false_2 by done. cbn [negb orb].
    rewrite !(owrite_bad (header_lines _) os1), !(owrite_bad [ch_LF] os1), !(owrite_bad (r_data body) os1) by done.
    rewrite E1. by eexists _, res, buf. }
  rewrite bool_decide_eq_true_2 by done. cbn [negb orb]. rewrite Hbody, deref_Some_bind.
  rewrite Ht, Hs. cbv zeta. destruct (Z.eqb_spec (Z.of_nat (length (r_data body))) (-1)); [lia|].
  replace (Z.to_N (Z.of_nat (length (r_data body)))) with (N.of_nat (length (r_data body))) by lia.
  unfold genResponseHead. open_getters. cbn [__header setHeader setBody]. fold h. rewrite head_loop_spec by done.
  set (os2 := owrite (header_lines (map_order h)) os1).
  destruct (obad os2) eqn:E2.
  { rewrite bool_decide_eq_false_2 by done. cbn [negb orb].
    rewrite !(owrite_bad [ch_LF] os2), !(owrite_bad (r_data body) os2) by done. rewrite E2.
    eexists _, _, buf. split_and!; [done|done|]. apply lookup_insert_eq. }
  rewrite bool_decide_eq_true_2 by done. cbn [negb orb]. set (os3 := owrite [ch_LF] os2).
  destruct (obad os3) eqn:E3.
  { rewrite !(owrite_bad (r_data body) os3) by done. rewrite E3.
    eexists _, _, buf. split_and!; [done|done|]. apply lookup_insert_eq. }
  unfold genResponseBody. open_getters. cbn [__body setHeader setBody]. rewrite deref_Some_bind, Nat2Z.id.
  assert (seekg_beg (set_pos 0 body) = set_pos 0 body) as ->.
  { unfold seekg_beg. cbn [r_fail set_pos]. by rewrite (proj1 Hwf). }
  destruct (body_loop_spec fuel os3 (set_pos 0 body) buf) as (body' & buf' & _ & Hrun);
    [split; [apply Hwf|simpl; lia]|done|done|].
  change (rest_of (set_pos 0 body)) with (r_data body) in Hrun. rewrite Hrun, !ret_bind.
  eexists _, _, buf'. split_and!; [done| |apply lookup_insert_eq].
  by destruct (obad (owrite (r_data body) os3)).
Qed.
End writer_spec.

(** * What a request is answered with *)

Section answer.
Context {R : Type} `{IRouterOk R} `{FileSystem}.

(** The content a resource stands for: that of the file it names, if any. *)
Definition resource_content (g : GeneralResource) : option bytes :=
  match g with
  | Valid v => file_content (getPath v)
  | InvalidResource => None
  end.

Definition understood (req : HttpRequest.HttpRequest) : Prop :=
  HttpRequest.__version req ≠ UNKNOWN_HTTP_VERSION ∧ HttpRequest.__method req ≠ UNKNOWN_REQUEST_METHOD.

Definition answer_version (req : HttpRequest.HttpRequest) : HttpVersion :=
  if decide (HttpRequest.__version req = UNKNOWN_HTTP_VERSION) then HTTP_1_0 else HttpRequest.__version req.

Definition answer_code (req : HttpRequest.HttpRequest) (router : R) : N :=
  if decide (HttpRequest.__version req = UNKNOWN_HTTP_VERSION) then 505
  else if decide (HttpRequest.__method req = UNKNOWN_REQUEST_METHOD) then 501
  else match route_uri router (HttpRequest.__uri req) with
       | InvalidResource => 404
       | g => match resource_content g with Some _ => 200 | None => 500 end
       end.

(** The page of an error code: the file mapped to it, else the built-in page. *)
Definition error_page (router : R) (code : N) : bytes :=
  default (getDefaultErrorPage router code) (resource_content (route_code router code)).

Definition answer_body (req : HttpRequest.HttpRequest) (router : R) : bytes :=
  if decide (answer_code req router = 200%N)
  then default [] (resource_content (route_uri router (HttpRequest.__uri req)))
  else error_page router (answer_code req router).

Definition answer_status (code : N) : HttpResponseStatus := mk_status code.

(** A new response given a code carries it with its reason phrase. *)
Lemma setResponseStatus_new v c :
  __status (setResponseStatus c (setHttpVersion v new_HttpResponse)) = mk_status c.
Proof.
  unfold setResponseStatus. cbn [__status setHttpVersion new_HttpResponse].
  case_decide as Hc; [|done]. unfold default_status in *. cbn [__status].
  unfold getCode, mk_status in *. simpl in Hc. rewrite Hc. done.
Qed.

Context {A : Type} `{!IResourceAccessor A} `{!IResourceAccessorOk A}.

(** The paths a router names are within the accessor's reach and fuel. *)
Definition reachable_files (fuel : nat) (router : R) : Prop :=
  ∀ v, (∃ u, route_uri router u = Valid v) ∨ (∃ c, route_code router c = Valid v) →
       path_ok (getPath v) ∧
       (∀ d, file_content (getPath v) = Some d → length d ≤ fuel)%nat.

Definition fresh_over (d : bytes) (b : option reader) : Prop :=
  ∃ r, b = Some r ∧ r_data r = d ∧ r_pos r = 0%nat ∧ r_fail r = false.

(** Reading a valid resource: its content and SERVER_OK, or nothing. *)
Lemma access_cases fuel router v a :
  reachable_files fuel router → accessor_inv a →
  (∃ u, route_uri router u = Valid v) ∨ (∃ c, route_code router c = Valid v) →
  ∃ a', accessor_inv a' ∧
    ((∃ d r, resource_content (Valid v) = Some d ∧ fresh_over d (Some r) ∧
             access fuel v a = Ret ((Some r, SERVER_OK), a')) ∨
     (resource_content (Valid v) = None ∧ access fuel v a = Ret ((None, INVALID_FILE_PATH), a'))).
Proof.
  intros Hreach Ha Hv. destruct (Hreach v Hv) as [Hp Hl].
  destruct (access_ok fuel v a Ha Hp Hl) as (res & a' & Hrun & Ha' & Hres).
  exists a'. split; [done|]. simpl. destruct (file_content (getPath v)) as [d|].
  - destruct Hres as (r & -> & Hr). left. exists d, r. split_and!; [done| |done]. by exists r.
  - subst res. by right.
Qed.

(** After a failed selection the body is the error page of the code. *)
Lemma error_body_spec fuel router code err a :
  router_wf router → reachable_files fuel router → accessor_inv a →
  ∃ b a', error_body fuel router code err None a = Ret (b, a') ∧ accessor_inv a' ∧
          fresh_over (error_page router code) b.
Proof.
  intros Hr Hreach Ha. unfold error_body, error_page.
  destruct (route_code router code) as [|v] eqn:Hc.
  - simpl. eexists _, a. split_and!; [done|done|]. by eexists.
  - simpl. rewrite (route_code_static router code v Hr Hc). rewrite decide_True by done.
    destruct (access_cases fuel router v a Hreach Ha) as (a' & Ha' & Hcases); [right; by exists code|].
    destruct Hcases as [(d & r & Hd & Hf & Hrun)|[Hd Hrun]]; simpl in Hd; rewrite Hd.
    + sm_compute. rewrite Hrun. exists (Some r), a'. by split_and!.
    + sm_compute. rewrite Hrun. eexists _, a'. split_and!; [done|done|]. by eexists.
Qed.

(** What selecting leaves for a request: the final response for a resource
    that can be read, else the code of an error and no body. *)
Lemma select_body_spec fuel req router a :
  router_wf router → reachable_files fuel router → accessor_inv a →
  ∃ err b built a', select_body fuel req router a
      = Ret ((answer_version req, Some (answer_code req router), err, b, built), a') ∧
    accessor_inv a' ∧
    (if built : bool then fresh_over (answer_body req router) b ∧ answer_code req router = 200%N
     else b = None ∧ answer_code req router ≠ 200%N).
Proof.
  intros Hr Hreach Ha. unfold select_body, answer_version, answer_body. unfold answer_code. open_getters.
  case_decide; [by exists None, None, false, a|]. case_decide; [by exists None, None, false, a|].
  set (u := HttpRequest.__uri req). destruct (route_uri router u) as [|v] eqn:Hu.
  - by exists None, None, false, a.
  - cbn [getType]. rewrite (route_uri_static router u v Hr Hu).
    destruct (access_cases fuel router v a Hreach Ha) as (a' & Ha' & Hcases); [left; by exists u|].
    destruct Hcases as [(d & r & Hd & Hf & Hrun)|[Hd Hrun]]; sm_compute; cbn [static_cast]; rewrite Hrun, Hd.
    + exists (Some SERVER_OK), (Some r), true, a'. by rewrite decide_True.
    + by exists (Some INVALID_FILE_PATH), None, false, a'.
Qed.

(** The response object that answers a request. *)
Definition answers (req : HttpRequest.HttpRequest) (router : R) (res : HttpResponse) : Prop :=
  __version res = Some (answer_version req) ∧
  __status res = mk_status (answer_code req router) ∧
  __header res = ∅ ∧
  fresh_over (answer_body req router) (__body res).

Lemma getResponseFromRequest_answers fuel req router a :
  router_wf router → reachable_files fuel router → accessor_inv a →
  ∃ res a', getResponseFromRequest fuel req router a = Ret (res, a') ∧ accessor_inv a' ∧
            answers req router res.
Proof.
  intros Hr Hreach Ha. unfold getResponseFromRequest.
  destruct (select_body_spec fuel req router a Hr Hreach Ha) as (err & b & built & a1 & Hs & Ha1 & Hb).
  rewrite (SM_bind_Ret _ _ _ _ _ Hs). destruct built.
  - destruct Hb as [Hb Hc]. rewrite Hc in *. sm_compute.
    eexists _, a1. split_and!; [done..|]. unfold answers. split_and!; [done| |done|done].
    cbn [__status setBody]. by rewrite Hc, setResponseStatus_new.
  - destruct Hb as [-> Hc].
    destruct (error_body_spec fuel router (answer_code req router) err a1 Hr Hreach Ha1) as (b & a2 & He & Ha2 & Hf).
    sm_compute. rewrite He. eexists _, a2. split_and!; [done..|].
    unfold answers. split_and!; [|cbn [__status setBody]; apply setResponseStatus_new| |].
    + unfold setResponseStatus. by case_decide.
    + unfold setResponseStatus. by case_decide.
    + unfold answer_body. by rewrite decide_False.
Qed.
End answer.

(** * Properties *)

(** C16: whatever the request, the responder answers it: it never reads an
    uninitialised variable or a null pointer nor fails to stop, provided the router
    and the accessor keep their contracts. An unknown version is answered 505 in
    HTTP/1.0, an unknown method 501, an unmapped URI 404, a mapped file that cannot
    be read 500 and one that can 200; the body is the file, or the page mapped to
    the error code, or the built-in page when that one cannot be read. *)
Theorem every_request_answered {R A} `{IRouterOk R} `{IResourceAccessorOk A} fuel req (router : R) (a : A) :
  router_wf router → reachable_files fuel router → accessor_inv a →
  ∃ res a', getResponseFromRequest fuel req router a = Ret (res, a') ∧ accessor_inv a' ∧
    __version res = Some (if decide (HttpRequest.__version req = UNKNOWN_HTTP_VERSION) then HTTP_1_0
                          else HttpRequest.__version req) ∧
    __status res = mk_status (answer_code req router) ∧
    fresh_over (answer_body req router) (__body res).
Proof.
  intros Hr Hf Ha. destruct (getResponseFromRequest_answers fuel req router a Hr Hf Ha)
    as (res & a' & ? & ? & ? & ? & ? & ?). by exists res, a'.
Qed.

(** A resource that is neither static nor invalid is answered with an
    uninitialised status code. *)
Theorem cgi_answer_undefined {R A} `{IRouter R} `{IResourceAccessor A} fuel req (router : R) (a : A) v :
  HttpRequest.__version req ≠ UNKNOWN_HTTP_VERSION → HttpRequest.__method req ≠ UNKNOWN_REQUEST_METHOD →
  route_uri router (HttpRequest.__uri req) = Valid v → __type v = CGI →
  getResponseFromRequest fuel req router a = Undef.
Proof.
  intros Hv Hm Hu Ht. unfold getResponseFromRequest, select_body. open_getters. rewrite Hu. cbn [getType]. rewrite Ht.
  by rewrite !decide_False.
Qed.

(** The bytes of the response to a request. *)
Definition answer_wire (v : HttpVersion) (code : N) (d : bytes) : bytes :=
  status_line v (mk_status code)
  ++ $"Content-Length: " ++ to_string (N.of_nat (length d)) ++ [ch_LF] ++ [ch_LF] ++ d.

Lemma wire_no_header `{MapOrderOk} v code d :
  wire_response v (mk_status code) ∅ d = answer_wire v code d.
Proof.
  unfold wire_response, answer_wire. f_equal.
  assert (map_order (<[CONTENT_LENGTH := to_string (N.of_nat (length d))]> ∅)
          = [(CONTENT_LENGTH, to_string (N.of_nat (length d)))]) as ->.
  { symmetry. apply Permutation_singleton_l. by rewrite map_order_perm, insert_empty, map_to_list_singleton. }
  unfold header_lines. rewrite fmap_cons. cbn [mjoin list_join fmap list_fmap fst snd].
  rewrite app_nil_r, <- !app_assoc. done.
Qed.

(** C17: answering a request over an output buffer that keeps its contract (the
    socket's does when each [send] takes everything or nothing): if the stream has not
    failed after the final flush then the device has received, after all that was
    written before, exactly the status line, the length of the body, an empty line
    and the body; and the error code is SERVER_OK. *)
Theorem response_delivered {R A Ob} `{IRouterOk R} `{IResourceAccessorOk A} `{OStreamBufOk Ob}
    `{MapOrderOk} `{FileAvailOk} fuel req (router : R) (a : A) (os : ostream Ob) buf :
  router_wf router → reachable_files fuel router → accessor_inv a →
  (length (answer_body req router) ≤ fuel)%nat → owf (obuf os) → obad os = false →
  ∃ res a' e os' res' buf',
    getResponseFromRequest fuel req router a = Ret (res, a') ∧
    response fuel os res buf = Ret (e, (os', res', buf')) ∧
    (obad os' = false →
     e = SERVER_OK ∧
     delivered (obuf os') = sunk (obuf os)
       ++ answer_wire (answer_version req) (answer_code req router) (answer_body req router)).
Proof.
  intros Hr Hf Ha Hl Hwf Hb. destruct (getResponseFromRequest_answers fuel req router a Hr Hf Ha)
    as (res & a' & Hrun & _ & Hv & Hs & Hh & (body & Hbody & Hdata & Hpos & Hfail)).
  rewrite <- Hdata in Hl |- *.
  destruct (response_spec fuel os res buf _ body Hb Hv Hbody) as (e & res' & buf' & Hres & He & _);
    [split; [done|lia]|done|].
  rewrite Hs, Hh, wire_no_header in Hres, He. eexists res, a', e, _, res', buf'. split_and!; [done|exact Hres|].
  set (w := answer_wire _ _ _) in *. intros Hok.
  destruct (oflush (owrite w os)) as [o b] eqn:E. simpl in Hok. subst b.
  destruct (owrite w os) as [o1 b1] eqn:E1. destruct b1; [by unfold oflush in E; simpl in E|].
  pose proof (owrite_ok w os) as Hw. rewrite E1 in Hw. destruct (Hw Hwf eq_refl) as (_ & Hwf1 & Hs1).
  pose proof (oflush_ok (mk_ostream o1 false)) as Hfl. rewrite E in Hfl.
  destruct (Hfl Hwf1 eq_refl) as (_ & _ & _ & Hd). split; [by apply He|].
  simpl in *. by rewrite Hd, Hs1.
Qed.

(** C35: writing a response always stops, and its error code tells exactly
    whether the stream accepted the whole response; it says nothing of the flush
    that follows. *)
Theorem response_error_code {Ob} `{OStreamBufOk Ob} `{MapOrder} `{FileAvailOk} fuel (os : ostream Ob) res buf v body :
  obad os = false → __version res = Some v → __body res = Some body → reader_wf body →
  (length (r_data body) ≤ fuel)%nat →
  ∃ e os' res' buf', response fuel os res buf = Ret (e, (os', res', buf')) ∧
    os' = oflush (owrite (wire_response v (__status res) (__header res) (r_data body)) os) ∧
    (e = SERVER_OK ↔
     obad (owrite (wire_response v (__status res) (__header res) (r_data body)) os) = false).
Proof.
  intros Hb Hv Hbody Hwf Hl. destruct (response_spec fuel os res buf v body Hb Hv Hbody Hwf Hl)
    as (e & res' & buf' & Hrun & He & _). by eexists e, _, res', buf'.
Qed.

(** A body that cannot be measured is found out too late: the status line
    is written and flushed, nothing follows it, and the error is
    INVALID_CONTENT_LENGTH. *)
Theorem unmeasurable_body {Ob} `{OStreamBufOk Ob} `{MapOrder} `{FileAvail} fuel (os : ostream Ob) res buf v body :
  __version res = Some v → __body res = Some body → r_fail body = true →
  obad (owrite (status_line v (__status res)) os) = false →
  ∃ res', response fuel os res buf
    = Ret (INVALID_CONTENT_LENGTH, (oflush (owrite (status_line v (__status res)) os), res', buf)).
Proof.
  intros Hv Hbody Hfail Hw. unfold response, genResponseLine. open_getters. rewrite Hv, deref_Some_bind.
  fold (status_line v (__status res)). change (mret ?x) with (Ret x). rewrite ret_bind, Hw.
  rewrite bool_decide_eq_true_2 by done. cbn [negb orb]. rewrite Hbody, deref_Some_bind.
  destruct (seek_failed body Hfail) as [-> ->]. by eexists.
Qed.
