(* ===== verification/HttpResponseBuilder.v ===== *)
(** HttpUtils/HttpResponse: the builder of responses, behind its interface. *)

From S2P Require Export Objects HttpResponse.

(** What the builder promises. *)
Class IHttpResponseBuilder (B : Type) := {
  build : B → nat;
  b_setHttpVersion : HttpVersion → B → SM (mem HttpResponse) B;
  b_setResponseStatus : N → B → SM (mem HttpResponse) B;
  b_setHeader : bytes → bytes → B → SM (mem HttpResponse) B;
  b_delHeader : bytes → B → SM (mem HttpResponse) B;
  b_setBody : option reader → B → SM (mem HttpResponse) B
}.

(** The calls as data, with what they do to a response. *)
Inductive response_call :=
| SetHttpVersion (v : HttpVersion)
| SetResponseStatus (code : N)
| SetHeader (k v : bytes)
| DelHeader (k : bytes)
| SetBody (b : option reader).

Definition on_builder {B} `{IHttpResponseBuilder B} (c : response_call) : B → SM (mem HttpResponse) B :=
  match c with
  | SetHttpVersion v => b_setHttpVersion v
  | SetResponseStatus code => b_setResponseStatus code
  | SetHeader k v => b_setHeader k v
  | DelHeader k => b_delHeader k
  | SetBody b => b_setBody b
  end.

Definition on_response (c : response_call) : HttpResponse → HttpResponse :=
  match c with
  | SetHttpVersion v => setHttpVersion v
  | SetResponseStatus code => setResponseStatus code
  | SetHeader k v => setHeader k v
  | DelHeader k => delHeader k
  | SetBody b => setBody b
  end.

(** The contract: every call changes the one object, and nothing else. *)
Class IHttpResponseBuilderOk (B : Type) `{IHttpResponseBuilder B} : Prop :=
  response_builder_fluent : fluent build on_response (on_builder (B:=B)).

(** * The implementation *)

Record HttpResponseBuilder := mk_HttpResponseBuilder { __obj : nat }.

Definition new_HttpResponseBuilder : SM (mem HttpResponse) HttpResponseBuilder :=
  p ← make_shared new_HttpResponse; mret (mk_HttpResponseBuilder p).

Definition HttpResponseBuilder_build (b : HttpResponseBuilder) : nat := __obj b.

Definition HttpResponseBuilder_setHttpVersion (v : HttpVersion) (b : HttpResponseBuilder)
  : SM (mem HttpResponse) HttpResponseBuilder := _ ← invoke (setHttpVersion v) (__obj b); mret b.
Definition HttpResponseBuilder_setResponseStatus (code : N) (b : HttpResponseBuilder)
  : SM (mem HttpResponse) HttpResponseBuilder := _ ← invoke (setResponseStatus code) (__obj b); mret b.
Definition HttpResponseBuilder_setHeader (k v : bytes) (b : HttpResponseBuilder)
  : SM (mem HttpResponse) HttpResponseBuilder := _ ← invoke (setHeader k v) (__obj b); mret b.
Definition HttpResponseBuilder_delHeader (k : bytes) (b : HttpResponseBuilder)
  : SM (mem HttpResponse) HttpResponseBuilder := _ ← invoke (delHeader k) (__obj b); mret b.
Definition HttpResponseBuilder_setBody (body : option reader) (b : HttpResponseBuilder)
  : SM (mem HttpResponse) HttpResponseBuilder := _ ← invoke (setBody body) (__obj b); mret b.

#[global] Instance HttpResponseBuilder_IHttpResponseBuilder : IHttpResponseBuilder HttpResponseBuilder := {
  build := HttpResponseBuilder_build;
  b_setHttpVersion := HttpResponseBuilder_setHttpVersion;
  b_setResponseStatus := HttpResponseBuilder_setResponseStatus;
  b_setHeader := HttpResponseBuilder_setHeader;
  b_delHeader := HttpResponseBuilder_delHeader;
  b_setBody := HttpResponseBuilder_setBody
}.

#[global] Instance HttpResponseBuilder_ok : IHttpResponseBuilderOk HttpResponseBuilder.
Proof. intros c b h x Hx; destruct c; exact (SM_bind_Ret _ _ _ _ _ (invoke_ok _ _ _ _ Hx)). Qed.

(** * Building the response to a request *)

(** The [buildObj] part of [getResponseFromRequest]: the pointer to the response. *)
Definition buildObj (version : HttpVersion) (code : N) (staticBody : option reader) : SM (mem HttpResponse) nat :=
  builder ← new_HttpResponseBuilder;
  builder' ← chain on_builder [SetHttpVersion version; SetResponseStatus code; SetBody staticBody] builder;
  mret (build builder').

(** It is a new object, which is the response that getResponseFromRequest of
    HttpResponse.v gives. *)
Lemma buildObj_ok version code staticBody h :
  ∃ p, h !! p = None ∧ buildObj version code staticBody h
    = Ret (p, <[p := setBody staticBody (setResponseStatus code (setHttpVersion version new_HttpResponse))]> h).
Proof.
  exact (new_built build on_response (on_builder (B:=HttpResponseBuilder)) mk_HttpResponseBuilder new_HttpResponse
           [SetHttpVersion version; SetResponseStatus code; SetBody staticBody] h (λ _, eq_refl) HttpResponseBuilder_ok).
Qed.
