(* ===== verification/SharedBuffer.v ===== *)
(** The static buffer of HttpResponse.cc, which all threads share: the loop of
    [genResponseBody] in steps, several of them over one buffer: what becomes of
    the bodies whatever the order of the steps, and when each stays its own.

    A step is a call on the body or on the output with the statements up to the
    next one; System.v, whose steps are whole handler calls, does not see what
    happens between them. *)

From S2P Require Export HttpResponse.

Section copiers.
Context {Ob : Type} `{OStreamBuf Ob} `{FileAvail}.

(** Where a thread is in the loop: before [readsome], before [write] (with the
    local [cur]), or after the loop. *)
Inductive phase := Fill | Write (cur : nat) | Done.

Record copier := mk_copier {
  c_phase : phase;
  c_rest : nat;
  c_error : Error;
  c_os : ostream Ob;
  c_body : reader
}.

Definition copy_step (c : copier) (buf : bytes) : option (copier * bytes) :=
  let '(mk_copier ph rest error os body) := c in
  match ph with
  | Done => None
  | Fill =>
      if Nat.eqb rest 0 then Some (mk_copier Done rest error os body, buf)
      else
        let cur := Nat.min rest RES_BFSIZE in
        if r_fail body then Some (mk_copier (Write cur) rest error os body, buf)
        else let '(d, body1) := read_some cur body in
             Some (mk_copier (Write (length d)) rest error os body1, d ++ drop (length d) buf)
  | Write cur =>
      let os1 := owrite (take cur buf) os in
      let rest1 := (rest - cur)%nat in
      let '(error1, buf2) :=
        if (0 <? Z.of_nat rest1) && r_fail body
        then (GEN_RESPONSE_BODY_FAILED, replicate RES_BFSIZE NUL)
        else (error, buf) in
      if obad os1 then Some (mk_copier Done rest1 GEN_RESPONSE_BODY_FAILED os1 body, buf2)
      else Some (mk_copier Fill rest1 error1 os1 body, buf2)
  end.

(** A thread alone with the buffer. *)
Definition alone (s s' : copier * bytes) : Prop := copy_step s.1 s.2 = Some s'.

(** The threads together, in any order. *)
Inductive shared : list copier * bytes → list copier * bytes → Prop :=
| shared_step i cs c c' buf buf' :
    cs !! i = Some c → copy_step c buf = Some (c', buf') → shared (cs, buf) (<[i := c']> cs, buf').

(** Alone, the steps are those of the loop. *)
Lemma alone_body_loop fuel rest error os body buf e os' body' buf' :
  body_loop fuel rest error os body buf = Ret (e, (os', body', buf')) →
  ∃ r, rtc alone (mk_copier Fill rest error os body, buf) (mk_copier Done r e os' body', buf').
Proof.
  revert rest error os body buf. induction fuel as [|f IH]; intros rest error os body buf.
  - destruct rest; [|done]. intros [= <- <- <- <-]. eexists. by eapply rtc_l, rtc_refl.
  - destruct rest as [|n]; [intros [= <- <- <- <-]; eexists; by eapply rtc_l, rtc_refl|].
    cbn [body_loop].
    assert (∃ cur body1 buf1,
      (if r_fail body then (Nat.min (S n) RES_BFSIZE, body, buf)
       else let '(d, body1) := read_some (Nat.min (S n) RES_BFSIZE) body in
            (length d, body1, d ++ drop (length d) buf)) = (cur, body1, buf1) ∧
      alone (mk_copier Fill (S n) error os body, buf) (mk_copier (Write cur) (S n) error os body1, buf1))
      as (cur & body1 & buf1 & -> & Hfill).
    { unfold alone. cbn [fst snd copy_step Nat.eqb]. destruct (r_fail body); [by eexists _, _, _|].
      destruct (read_some _ body) as [d body1]. by eexists _, _, _. }
    intros Hl. destruct (_ && _) eqn:Hb in Hl; destruct (obad (owrite (take cur buf1) os)) eqn:Ho.
    1, 3: injection Hl as <- <- <- <-; eexists; eapply rtc_l; [exact Hfill|];
          eapply rtc_once; unfold alone; cbn [fst snd copy_step]; by rewrite Hb, Ho.
    all: destruct (IH _ _ _ _ _ Hl) as [r Hr]; exists r; eapply rtc_l; [exact Hfill|];
          eapply rtc_l; [|exact Hr]; unfold alone; cbn [fst snd copy_step]; by rewrite Hb, Ho.
Qed.

(** Two steps of a thread whose body fits into the buffer, with another filling
    of the buffer in between. *)
Lemma fill_string rest error os d buf :
  rest = length d → (0 < length d ≤ RES_BFSIZE)%nat →
  copy_step (mk_copier Fill rest error os (istringstream d)) buf
  = Some (mk_copier (Write (length d)) rest error os (set_pos (length d) (istringstream d)),
          d ++ drop (length d) buf).
Proof.
  intros -> Hd. cbn [copy_step]. destruct (Nat.eqb_spec (length d) 0); [lia|]. simpl. unfold read_some, reader_avail, remaining.
  simpl. rewrite drop_0, Nat.sub_0_r, firstn_all2 by lia. by rewrite Nat.min_l by lia.
Qed.
End copiers.
Arguments copier : clear implicits.
Arguments phase : clear implicits.

(** * Any number of threads

    [begin_copy] is a thread that starts to write the body [r] to [os], the way
    [genResponseBody] starts its loop. *)
Section threads.
Context {Ob : Type} `{OStreamBuf Ob} `{FileAvail} `{!FileAvailOk}.
Implicit Types (t : ostream Ob * reader) (c : copier Ob).

Definition begin_copy t : copier Ob := mk_copier Fill (length (r_data t.2)) SERVER_OK t.1 (seekg_beg t.2).

(** What [response] has made sure of by then. *)
Definition may_copy t : Prop := obad t.1 = false ∧ reader_wf t.2.

(** What a thread has taken from its body and not written yet. *)
Definition pending c : nat := match c_phase c with Write cur => cur | _ => 0 end.

(** A thread that was started as [t]: it has written some [w] that is [good], and
    what it is about to write keeps that; the rest of its body is what it counts. *)
Definition copying (good : bytes → Prop) t (buf : bytes) c : Prop :=
  ∃ w, c_os c = owrite w t.1 ∧ good w ∧ (length w + c_rest c = length (r_data t.2))%nat ∧
    r_data (c_body c) = r_data t.2 ∧ reader_wf (c_body c) ∧ r_pos (c_body c) = (length w + pending c)%nat ∧
    match c_phase c with
    | Fill => obad (c_os c) = false ∧ c_error c = SERVER_OK
    | Write cur => good (w ++ take cur buf) ∧ (cur ≤ RES_BFSIZE)%nat ∧ c_error c = SERVER_OK ∧
                   (0 < c_rest c → 0 < cur)%nat
    | Done => (c_error c = SERVER_OK ↔ obad (c_os c) = false) ∧ (obad (c_os c) = false → c_rest c = 0%nat)
    end.

(** [good] allows for a thread going on with its own body. *)
Definition extends (good : bytes → Prop) (data : bytes) : Prop :=
  ∀ w k, good w → (length w ≤ length data)%nat → good (w ++ take k (drop (length w) data)).

Lemma begin_copying good t buf : may_copy t → good [] → copying good t buf (begin_copy t).
Proof.
  intros [Hos [Hf Hp]] Hg. exists []. unfold begin_copy, seekg_beg. rewrite Hf. simpl.
  split_and!; try done; [by unfold owrite; rewrite Hos; destruct t as [[? ?] ?]; simpl in *; subst|split; simpl; [done|lia]].
Qed.

(** A step of the thread itself: it fills the buffer from its own body, or leaves
    it alone. *)
Lemma copy_step_copying good t c buf c' buf' :
  extends good (r_data t.2) → length buf = RES_BFSIZE →
  copying good t buf c → copy_step c buf = Some (c', buf') →
  copying good t buf' c' ∧
  (buf' = buf ∨ ∃ n k, let d := take k (drop n (r_data t.2)) in (length d ≤ RES_BFSIZE)%nat ∧ buf' = d ++ drop (length d) buf).
Proof.
  intros Hext Hbuf (w & Hos & Hg & Hlen & Hdata & Hwf & Hpos & Hph) Hstep.
  destruct c as [ph rest error os body]. cbn [c_phase c_rest c_error c_os c_body pending] in *.
  destruct ph as [|cur|]; cbn [copy_step] in Hstep; [| |done].
  - destruct Hph as [Hob ->]. destruct (Nat.eqb_spec rest 0) as [->|Hne].
    { injection Hstep as <- <-. split; [|by left]. by exists w. }
    pose proof Hwf as [Hf Hle]. rewrite Hf in Hstep.
    destruct (read_some_spec (Nat.min rest RES_BFSIZE) body Hwf) as (k & Hrd & Hk1 & Hk2 & Hk3 & Hwf' & _).
    rewrite Hrd in Hstep. injection Hstep as <- <-. unfold rest_of in *. rewrite Hpos, Nat.add_0_r, Hdata in *.
    rewrite length_drop in Hk2, Hk3. set (d := take k (drop (length w) (r_data t.2))).
    assert (length d = k) as Hd by (unfold d; rewrite length_take, length_drop; lia).
    split; [|right; exists (length w), k; cbv zeta; fold d; rewrite Hd; split; [lia|done]].
    exists w. cbn [c_phase c_rest c_error c_os c_body pending]. rewrite Hd, take_app_length' by done.
    split_and!; try done; [by apply Hext; [|lia]|lia|intros Hr; apply Hk3; unfold RES_BFSIZE; lia].
  - destruct Hph as (Hg' & Hcur & -> & _). pose proof Hwf as [Hf Hle]. rewrite Hf, andb_false_r in Hstep.
    rewrite Hdata in Hle. cbn [pending c_phase] in Hpos.
    assert (length (take cur buf) = cur) as Hd by (rewrite length_take; lia).
    assert (buf' = buf) as -> by (destruct (obad _); congruence). split; [|by left].
    exists (w ++ take cur buf). rewrite <- owrite_app, <- Hos, length_app, Hd.
    destruct (obad (owrite (take cur buf) os)) eqn:E; injection Hstep as <-;
      cbn [c_phase c_rest c_error c_os c_body pending]; rewrite ?E; split_and!; try done; try lia.
Qed.

(** Steps of others matter only to a thread that is about to write. *)
Lemma copying_other good t buf buf' c :
  (∀ w cur, c_phase c = Write cur → good w → (cur ≤ RES_BFSIZE)%nat → good (w ++ take cur buf) → good (w ++ take cur buf')) →
  copying good t buf c → copying good t buf' c.
Proof.
  intros Hk (w & Hos & Hg & Hlen & Hdata & Hwf & Hpos & Hph). exists w. split_and!; try done.
  destruct (c_phase c) as [|cur|] eqn:E; [done| |done]. destruct Hph as (Hg' & Hcur & He & Hc).
  split_and!; [by apply Hk|done..].
Qed.

(** All threads, the [i]-th keeping what it writes [good i]. *)
Definition all_copying (good : ostream Ob * reader → bytes → Prop) (ts : list (ostream Ob * reader))
    (s : list (copier Ob) * bytes) : Prop :=
  length s.2 = RES_BFSIZE ∧ Forall2 (λ t c, copying (good t) t s.2 c) ts s.1.

Lemma start_copying good ts buf :
  Forall may_copy ts → length buf = RES_BFSIZE → (∀ t, good t []) → all_copying good ts (begin_copy <$> ts, buf).
Proof.
  intros Hts Hb Hg. split; [done|]. apply Forall2_fmap_r. induction Hts; constructor; [by apply begin_copying|done].
Qed.

(** A step of one thread keeps this, if what it does to the buffer does not
    disturb the others. *)
Lemma shared_copying good ts cs buf i c c' buf' :
  (∀ t, t ∈ ts → extends (good t) (r_data t.2)) →
  all_copying good ts (cs, buf) → cs !! i = Some c → copy_step c buf = Some (c', buf') →
  (∀ j t c2, j ≠ i → ts !! j = Some t → cs !! j = Some c2 → copying (good t) t buf c2 → copying (good t) t buf' c2) →
  all_copying good ts (<[i := c']> cs, buf').
Proof.
  intros Hext [Hbuf Hall] Hi Hstep Hoth. cbn [fst snd] in *.
  destruct (Forall2_lookup_r _ _ _ _ _ Hall Hi) as (t & Ht & Hc).
  destruct (copy_step_copying _ _ _ _ _ _ (Hext t (list_elem_of_lookup_2 _ _ _ Ht)) Hbuf Hc Hstep) as [Hc' Hb].
  split; cbn [fst snd].
  - destruct Hb as [->|(n & k & Hd & ->)]; [done|]. by rewrite length_overlay; [|rewrite Hbuf].
  - apply Forall2_same_length_lookup. rewrite length_insert. split; [by eapply Forall2_length|].
    intros j u c2 Hu [(<- & <- & _)|[Hne Hj]]%list_lookup_insert_Some.
    { rewrite Ht in Hu. injection Hu as <-. exact Hc'. }
    apply (Hoth j u c2); [congruence|done|done|exact (Forall2_lookup_lr _ _ _ _ _ _ Hall Hu Hj)].
Qed.

(** Whatever the order of steps: only bytes of the bodies and of the first
    contents of the buffer are written. *)
Section framing.
Context (P : ascii → Prop) (ts : list (ostream Ob * reader)).
Hypothesis HP : Forall (λ t, Forall P (r_data t.2)) ts.

Definition framed (s : list (copier Ob) * bytes) : Prop := Forall P s.2 ∧ all_copying (λ _, Forall P) ts s.

Lemma shared_framed s s' : framed s → shared s s' → framed s'.
Proof.
  intros Hf Hst. revert Hf. destruct Hst as [i cs c c' buf buf' Hi Hstep]. intros [Hb Hs]. cbn [fst snd] in *.
  assert (∀ t, t ∈ ts → extends (Forall P) (r_data t.2)) as Hext.
  { intros t Ht w k Hw _. apply Forall_app_2; [done|]. apply Forall_take, Forall_drop.
    by apply (proj1 (list.Forall_forall _ _) HP). }
  assert (Forall P buf') as Hb'.
  { destruct (Forall2_lookup_r _ _ _ _ _ (proj2 Hs) Hi) as (t & Ht & Hc). apply list_elem_of_lookup_2 in Ht.
    destruct (copy_step_copying _ _ _ _ _ _ (Hext t Ht) (proj1 Hs) Hc Hstep) as [_ [->|(n & k & _ & ->)]]; [done|].
    apply Forall_app_2; [|by apply Forall_drop]. apply Forall_take, Forall_drop.
    by apply (proj1 (list.Forall_forall _ _) HP). }
  split; [done|]. eapply shared_copying; [exact Hext|exact Hs|exact Hi|exact Hstep|].
  intros j t c2 _ _ _. apply copying_other. intros w cur _ Hw _ _. apply Forall_app_2; [done|by apply Forall_take].
Qed.
End framing.

(** A step that changes the buffer while no other thread is between filling it and
    writing from it, or a step that leaves it alone. *)
Inductive exclusive : list (copier Ob) * bytes → list (copier Ob) * bytes → Prop :=
| exclusive_step i cs c c' buf buf' :
    cs !! i = Some c → copy_step c buf = Some (c', buf') →
    (buf' = buf ∨ ∀ j c2 cur, j ≠ i → cs !! j = Some c2 → c_phase c2 ≠ Write cur) →
    exclusive (cs, buf) (<[i := c']> cs, buf').

Lemma exclusive_shared s s' : exclusive s s' → shared s s'.
Proof. intros Hst. destruct Hst as [i cs c c' buf buf' Hi Hstep _]. by eapply shared_step. Qed.

Lemma prefix_extends (data : bytes) : extends (λ w, w `prefix_of` data) data.
Proof.
  intros w k [v ->] _. rewrite drop_app_length. apply prefix_app. apply prefix_take.
Qed.

Lemma exclusive_exact ts s s' :
  all_copying (λ t w, w `prefix_of` r_data t.2) ts s → exclusive s s' → all_copying (λ t w, w `prefix_of` r_data t.2) ts s'.
Proof.
  intros Hs Hst. revert Hs. destruct Hst as [i cs c c' buf buf' Hi Hstep Hex]. intros Hs.
  eapply shared_copying; [intros t _; apply prefix_extends|exact Hs|exact Hi|exact Hstep|].
  intros j t c2 Hj _ Hc2. destruct Hex as [->|Hex]; [done|]. apply copying_other.
  intros w cur Hw. by destruct (Hex j c2 cur Hj Hc2).
Qed.

(** What is left to do: twice what a thread has to write, and its next step. *)
Definition copy_work (c : copier Ob) : nat :=
  match c_phase c with
  | Fill => 2 * c_rest c + 1
  | Write cur => 2 * (c_rest c - cur) + 2
  | Done => 0
  end.

Definition all_copied (s : list (copier Ob) * bytes) : Prop := Forall (λ c, c_phase c = Done) s.1.

#[global] Instance phase_eq_dec : EqDecision phase.
Proof. solve_decision. Defined.

#[global] Instance all_copied_dec s : Decision (all_copied s).
Proof. unfold all_copied. apply _. Defined.

Lemma copy_step_works good t c buf c' buf' :
  extends good (r_data t.2) → length buf = RES_BFSIZE →
  copying good t buf c → copy_step c buf = Some (c', buf') → (copy_work c' < copy_work c)%nat.
Proof.
  intros Hext Hbuf Hc Hstep. destruct (copy_step_copying _ _ _ _ _ _ Hext Hbuf Hc Hstep) as [(w & _ & _ & _ & _ & _ & _ & Hph) _].
  destruct Hc as (_ & _ & _ & _ & _ & [Hf _] & _). destruct c as [ph rest error os body]. cbn [c_body] in Hf.
  destruct ph as [|cur|]; cbn [copy_step] in Hstep; [| |done]; rewrite Hf in Hstep.
  - destruct (Nat.eqb_spec rest 0); [injection Hstep as <- <-; unfold copy_work; simpl; lia|].
    destruct (read_some _ body) as [d body1]. injection Hstep as <- <-. unfold copy_work. simpl in *. lia.
  - rewrite andb_false_r in Hstep. destruct (obad _); injection Hstep as <- <-; unfold copy_work; simpl; lia.
Qed.

Lemma copy_progress good t buf c : copying good t buf c → c_phase c ≠ Done → is_Some (copy_step c buf).
Proof.
  intros (_ & _ & _ & _ & _ & [Hf _] & _) Hd. destruct c as [[|cur|] rest error os body]; cbn [c_body c_phase copy_step] in *; [| |done];
    rewrite Hf; [destruct (Nat.eqb rest 0); [done|by destruct (read_some _ _)]|].
  rewrite andb_false_r. by destruct (obad _).
Qed.

(** What a thread that is done leaves. *)
Lemma copying_done good t buf c :
  copying good t buf c → c_phase c = Done →
  (c_error c = SERVER_OK ↔ obad (c_os c) = false) ∧
  ∃ w, c_os c = owrite w t.1 ∧ good w ∧ (c_error c = SERVER_OK → length w = length (r_data t.2)).
Proof.
  intros (w & Hos & Hg & Hlen & _ & _ & _ & Hph) Hd. rewrite Hd in Hph. destruct Hph as [He Hr].
  split; [done|]. exists w. split_and!; [done..|]. intros Ho. apply He, Hr in Ho. lia.
Qed.
End threads.

(** ** Theorems *)
Section theorems.
Context {Ob : Type} `{OStreamBuf Ob} `{FileAvail} `{!FileAvailOk}.
Implicit Types (ts : list (ostream Ob * reader)) (cs : list (copier Ob)).

(** C30: however the steps of any number of threads that write bodies through the
    shared buffer interleave, no thread writes more than its body is long, every
    byte it writes is one of the bodies or of what the buffer held before, and one
    that ends reports an error exactly when its output failed and has otherwise
    written as many bytes as it announced: the answers stay framed. *)
Theorem shared_bodies_framed ts buf cs buf' :
  Forall may_copy ts → length buf = RES_BFSIZE →
  reachable shared (begin_copy <$> ts, buf) (cs, buf') →
  ∀ i t c, ts !! i = Some t → cs !! i = Some c →
  ∃ w, c_os c = owrite w t.1 ∧ (length w ≤ length (r_data t.2))%nat ∧
    Forall (λ x, x ∈ buf ∨ ∃ u, u ∈ ts ∧ x ∈ r_data u.2) w ∧
    (c_phase c = Done →
      (c_error c = SERVER_OK ↔ obad (c_os c) = false) ∧
      (c_error c = SERVER_OK → length w = length (r_data t.2))).
Proof.
  intros Hts Hbuf Hr i t c Ht Hc. set (P x := x ∈ buf ∨ ∃ u, u ∈ ts ∧ x ∈ r_data u.2).
  assert (Forall (λ t, Forall P (r_data t.2)) ts) as HP.
  { apply list.Forall_forall. intros u Hu. apply list.Forall_forall. intros x Hx. right. by exists u. }
  assert (framed P ts (cs, buf')) as [_ [_ Hall]].
  { apply (reachable_invariant _ _ _ _ (shared_framed P ts HP)) in Hr; [done|].
    split; [apply list.Forall_forall; by left|by apply start_copying]. }
  pose proof (Forall2_lookup_lr _ _ _ _ _ _ Hall Ht Hc) as (w & Hos & Hg & Hlen & _ & _ & _ & Hph).
  exists w. split_and!; [done|lia|done|]. intros Hd. rewrite Hd in Hph. destruct Hph as [He Hrest].
  split; [done|]. intros Ho. apply He, Hrest in Ho. lia.
Qed.

(** C31: however the threads are scheduled, all of them come to the end of their
    bodies, and each has then written as many bytes as it announced unless its
    output failed. *)
Theorem shared_bodies_finish ts buf :
  Forall may_copy ts → length buf = RES_BFSIZE →
  inevitable shared (λ s, all_copied s ∧
      Forall2 (λ t c, ∃ w, c_os c = owrite w t.1 ∧ (obad (c_os c) = false → length w = length (r_data t.2))) ts s.1)
    (begin_copy <$> ts, buf).
Proof.
  intros Hts Hbuf. set (good := λ (_ : ostream Ob * reader), Forall (λ _ : ascii, True)).
  assert (∀ l, Forall (λ _ : ascii, True) l) as Htrue by (intros l; by induction l; constructor).
  assert (∀ s s', all_copying good ts s → shared s s' → all_copying good ts s') as Hstep.
  { intros s s' Hs Hst. eapply shared_framed; [|by split|exact Hst]. by apply list.Forall_forall. }
  assert (all_copying good ts (begin_copy <$> ts, buf)) as Hstart by (apply start_copying; [done|done|intros u; apply Htrue]).
  apply (inevitable_strengthen _ (all_copying good ts) all_copied); [done| |done|].
  - intros [cs b] [_ Hall] Hd. split; [done|]. apply Forall2_same_length_lookup.
    split; [by eapply Forall2_length|]. intros i t c Ht Hc.
    destruct (copying_done _ _ _ _ (Forall2_lookup_lr _ _ _ _ _ _ Hall Ht Hc) (Forall_lookup_1 _ _ _ _ Hd Hc))
      as (He & w & Hos & _ & Hlen).
    exists w. split; [done|]. intros Ho. by apply Hlen, He.
  - apply (inevitable_measure _ (all_copying good ts) _ (λ s, sum_list_with copy_work s.1)); [intros a; apply _| | |done].
    + intros s s' Hs Hst. split; [by eapply Hstep|]. revert Hs. destruct Hst as [i cs c c' b b' Hi Hc]. intros [Hb Hall].
      destruct (Forall2_lookup_r _ _ _ _ _ Hall Hi) as (t & _ & Hcp). destruct (list_focus _ _ _ Hi) as (rest & Hp & Hput).
      cbn [fst]. rewrite (Hput c'), Hp. simpl. apply (copy_step_works (good t) t) in Hc; [lia|intros w k _ _; apply Htrue|done|done].
    + intros [cs b] [_ Hall] Hd. unfold all_copied in Hd. apply not_Forall_Exists, list.Exists_exists in Hd; [|apply _].
      destruct Hd as (c & [i Hi]%list_elem_of_lookup_1 & Hne). destruct (Forall2_lookup_r _ _ _ _ _ Hall Hi) as (t & _ & Hcp).
      destruct (copy_progress _ _ _ _ Hcp Hne) as [[c' b'] Hst]. eexists. by eapply shared_step.
Qed.

(** C32: while no thread changes the buffer between the moment another fills it and
    the moment that one writes from it, each thread that ends has written exactly
    its own body, as it would have done alone. *)
Theorem exclusive_bodies_exact ts buf cs buf' :
  Forall may_copy ts → length buf = RES_BFSIZE →
  reachable exclusive (begin_copy <$> ts, buf) (cs, buf') →
  ∀ i t c, ts !! i = Some t → cs !! i = Some c → c_phase c = Done →
  c_os c = owrite (r_data t.2) t.1 ∧ (c_error c = SERVER_OK ↔ obad (owrite (r_data t.2) t.1) = false).
Proof.
  intros Hts Hbuf Hr i t c Ht Hc Hd.
  assert (all_copying (λ t w, w `prefix_of` r_data t.2) ts (cs, buf')) as [_ Hall].
  { apply (reachable_invariant _ _ _ _ (exclusive_exact ts)) in Hr; [done|].
    apply start_copying; [done..|]. intros u. apply prefix_nil. }
  destruct (copying_done _ _ _ _ (Forall2_lookup_lr _ _ _ _ _ _ Hall Ht Hc) Hd) as (He & w & Hos & [v Hv] & Hlen).
  assert (c_os c = owrite (r_data t.2) t.1) as Heq; [|by rewrite <- Heq].
  rewrite Hos, Hv, <- owrite_app. destruct (obad (c_os c)) eqn:Ho.
  - by rewrite (owrite_bad v) by (by rewrite <- Hos).
  - assert (v = []) as ->; [|by rewrite owrite_app, app_nil_r]. apply nil_length_inv.
    pose proof (f_equal length Hv) as Hl. rewrite length_app, Hlen in Hl by (by apply He). lia.
Qed.
End theorems.

(** The buffer is shared by the threads that answer requests, and nothing
    locks it: when two threads write bodies of equal length that fit into it,
    there is an order of their steps in which the first thread's client is sent
    the body meant for the second's, and neither gets an error. *)
Theorem shared_buffer_crosses_bodies {Ob} `{OStreamBuf Ob} `{FileAvail} (os1 os2 : ostream Ob) d1 d2 buf :
  length d1 = length d2 → (0 < length d1 ≤ RES_BFSIZE)%nat →
  obad (owrite d2 os1) = false → obad (owrite d2 os2) = false →
  ∃ c1 c2 buf',
    rtc shared ([mk_copier Fill (length d1) SERVER_OK os1 (istringstream d1);
                 mk_copier Fill (length d2) SERVER_OK os2 (istringstream d2)], buf) ([c1; c2], buf') ∧
    c_phase c1 = Done ∧ c_phase c2 = Done ∧ c_error c1 = SERVER_OK ∧ c_error c2 = SERVER_OK ∧
    c_os c1 = owrite d2 os1 ∧ c_os c2 = owrite d2 os2.
Proof.
  intros Hl Hd Ho1 Ho2. eexists _, _, _. split.
  - eapply rtc_l; [eapply (shared_step 0); [done|by apply fill_string]|]. cbn [insert list_insert].
    eapply rtc_l; [eapply (shared_step 1); [done|apply fill_string; [done|lia]]|]. cbn [insert list_insert].
    assert (take (length d1) (d2 ++ drop (length d2) (d1 ++ drop (length d1) buf)) = d2) as Ht1
      by (rewrite Hl; apply take_app_length).
    assert (take (length d2) (d2 ++ drop (length d2) (d1 ++ drop (length d1) buf)) = d2) as Ht2
      by apply take_app_length.
    eapply rtc_l; [eapply (shared_step 0); [done|]|].
    { cbn [copy_step]. rewrite Ht1, Nat.sub_diag, Ho1. reflexivity. }
    eapply rtc_l; [eapply (shared_step 1); [done|]|].
    { cbn [copy_step]. rewrite Ht2, Nat.sub_diag, Ho2. reflexivity. }
    eapply rtc_l; [eapply (shared_step 0); done|]. eapply rtc_l; [eapply (shared_step 1); done|]. apply rtc_refl.
  - by split_and!.
Qed.
