(* ===== verification/HttpExamples.v ===== *)
(** The theorems on streams, requests and responses at concrete inputs. *)

From S2P Require Export SharedBuffer.
From S2P Require SocketStream HttpRequest Analyser.

#[local] Instance list_order : MapOrder := map_to_list.
#[local] Instance list_order_ok : MapOrderOk.
Proof. by intros m. Qed.
#[local] Instance all_avail : FileAvail := avail_all.
#[local] Instance all_avail_ok : FileAvailOk := avail_all_ok.

(** An array of the size of a socket buffer. *)
Definition blank : bytes := replicate SocketStream.BFSIZE NUL.

(** * Streams *)

Section streams.
Import SocketStream.

(** A [send] that takes at most two bytes, and none from the fourth call on. *)
Definition send_two : SendOracle := λ k n, if Nat.leb 3 k then -1 else Z.of_nat (Nat.min 2 n).

Lemma send_two_ok : @SendOk send_two.
Proof. intros k n. unfold os_send, send_two. destruct (Nat.leb 3 k); lia. Qed.

(** The second flush, whose second [send] fails, after one of two bytes. *)
Lemma writer_memory_safe_witness :
  let b := obuf (run_ops (H:=send_two) [OWrite ($"hell"); OFlush; OWrite ($"world")]
                   (mk_ostream (mk_SocketStreamBuffer blank 7 []) false)) in
  ∃ ns, tx (snd (flush (H:=send_two) b)) = $"hehewo" ∧ prefixes ns ($"world") = $"wo" ∧
        (sum_list ns + pptr (snd (flush (H:=send_two) b)) = 5)%nat ∧ fst (flush (H:=send_two) b) = EOF.
Proof.
  assert (length blank = BFSIZE) as Hblank by compute_now.
  pose proof (@writer_memory_safe send_two send_two_ok blank 7 [OWrite ($"hell"); OFlush; OWrite ($"world")] Hblank) as Hw.
  cbv zeta in Hw |- *. set (b := obuf _) in *.
  assert (take (pptr b) (__buffer b) = $"world" ∧ tx b = $"hehe") as [Hbuf Htx] by (split; compute_now).
  rewrite Hbuf, Htx in Hw. assert (pptr b = 5%nat) as Hp by compute_now. rewrite Hp in Hw.
  assert (tx (snd (flush (H:=send_two) b)) = $"hehewo") as Htx' by compute_now.
  assert (fst (flush (H:=send_two) b) = EOF) as Hr by compute_now.
  destruct (flush b) as [r b']. cbn [fst snd] in *. destruct Hw as (_ & _ & _ & _ & ns & Hns & _ & Hsum & _).
  exists ns. split_and!; [done| |done|done]. rewrite Htx' in Hns. by apply (app_inv_head ($"hehe")) in Hns.
Defined.

Lemma short_send_repeats_prefix_witness :
  let os := run_ops (H:=send_one) [OWrite ("O"%char :: $"K!"); OFlush]
              (mk_ostream (mk_SocketStreamBuffer blank 7 []) false) in
  obad os = false ∧ tx (obuf os) = replicate 3 "O"%char.
Proof. apply (short_send_repeats_prefix blank 7 "O"%char ($"K!")); [compute_now|decide_now]. Defined.
End streams.

(** * Requests *)

Section requests.
Import SocketStream HttpRequest.

Definition demo_headers : gmap bytes bytes :=
  <[$"Host" := $"localhost"]> (<[$"Content-Length" := $"4"]> ∅).

Definition demo_request : HttpRequest :=
  mk_HttpRequest POST ($"/hello") HTTP_1_1 demo_headers ($"a b" ++ [ch_LF]).

Lemma demo_request_wf : wf_request demo_request.
Proof. split; [decide_now|split; [decide_now|compute_now]]. Qed.

Lemma request_roundtrip_socket_witness :
  ∃ b', getOneHttpRequest 200 (socket_with [wire_request demo_request] blank 7)
        = Ret ((SERVER_OK, demo_request), mk_istream b' false false).
Proof. apply (request_roundtrip_socket 200 blank 7 demo_request demo_request_wf); decide_now. Defined.

(** Its body is announced and in the buffer. *)
Lemma analyser_outcomes_witness :
  let s0 := mk_istream (mk_SocketStreamBuffer blank 7 [wire_request demo_request]) false false in
  let head := head_phase 200 s0 in
  (head = Throw out_of_range ∨ ∃ e r s, head = Ret ((e, r), s)) ∧
  Analyser.result (getOneHttpRequest 200 s0) =
    ('((e, r), s) ← head; if decide (e = SERVER_OK) then Analyser.body_outcome r s else Ret (e, r)).
Proof.
  apply Analyser.analyser_outcomes; [reflexivity|decide_now].
Defined.

Definition large_headers : list (bytes * bytes) := [($"Content-Length", $"5000")].

Lemma large_body_never_parsed_witness :
  getOneHttpRequest 200 (socket_with [wire_head POST ($"/") HTTP_1_1 large_headers ++ $"part"] blank 7) = Spin.
Proof.
  apply (large_body_never_parsed 200 blank 7 _ POST ($"/") HTTP_1_1 large_headers ($"part") ($"5000") 5000).
  all: first [decide_now|compute_now].
Defined.

Lemma header_ending_in_colon_throws_witness :
  getOneHttpRequest 200 (mk_istream ($"GET / HTTP/1.1" ++ crlf ++ $"Host:" ++ [ch_LF]) false false)
  = Throw out_of_range.
Proof.
  apply (header_ending_in_colon_throws 200 _ GET ($"/") HTTP_1_1 [] ($"Host") []).
  all: first [decide_now|compute_now].
Defined.

Definition signless_headers : list (bytes * bytes) := [($"Content-Length", $"many")].

Lemma bad_content_length_throws_witness :
  getOneHttpRequest 200 (mk_istream (wire_head POST ($"/") HTTP_1_1 signless_headers) false false)
  = Throw invalid_argument.
Proof.
  apply (bad_content_length_throws 200 _ POST ($"/") HTTP_1_1 signless_headers [] ($"many")).
  all: first [decide_now|compute_now].
Defined.

Lemma serialize_not_accepted_witness :
  ∃ b', getOneHttpRequest 200 (mk_istream (serialize demo_request) false false)
        = Ret ((PARSE_TERMINATE_CH_FAILED, mk_HttpRequest POST ($"/hello") HTTP_1_1 ∅ []),
               mk_istream b' false false).
Proof. apply (serialize_not_accepted 200 (serialize demo_request) demo_request); first [decide_now|compute_now]. Defined.

Definition bare_headers : gmap bytes bytes := {[$"Host" := $"localhost"]}.
Definition bare_request : HttpRequest := mk_HttpRequest GET ($"/") HTTP_1_0 bare_headers [].
Definition bare_wire : bytes := wire_request bare_request.

(** What is left of the string it is read from. *)
Lemma bare_string_run :
  getOneHttpRequest 200 (mk_istream bare_wire false false) = Ret ((SERVER_OK, bare_request), mk_istream [] false false).
Proof. compute_now. Qed.

(** The same bytes, received in pieces. *)
Lemma chunking_irrelevant_witness :
  ∃ s2, getOneHttpRequest 200 (socket_with [take 3 bare_wire; drop 3 bare_wire] blank 7) = Ret ((SERVER_OK, bare_request), s2)
        ∧ eofbit s2 = false ∧ failbit s2 = false.
Proof.
  apply (chunking_irrelevant 200 bare_wire (mk_SocketStreamBuffer blank 7 [take 3 bare_wire; drop 3 bare_wire])
           SERVER_OK bare_request (mk_istream [] false false)); [compute_now|exact bare_string_run|compute_now].
Defined.

(** A request line that ends early, and what is left of its stream. *)
Definition cut_stream : istream SocketStreamBuffer :=
  match getOneHttpRequest 200 (socket_with [$"GET /"] blank 7) with Ret (_, s) => s | _ => socket_with [] blank 7 end.

Lemma byte_255_ends_input_witness :
  ∃ s2, getOneHttpRequest 200 (socket_with ([$"GET /"] ++ (ch_FF :: $"ello HTTP/1.1") :: [crlf]) blank 7)
        = Ret ((PARSE_REQ_VERSION_FAILED, new_HttpRequest), s2)
        ∧ eofbit s2 = eofbit cut_stream ∧ failbit s2 = failbit cut_stream.
Proof.
  apply (byte_255_ends_input 200 blank 7 [$"GET /"] ($"ello HTTP/1.1") [crlf] PARSE_REQ_VERSION_FAILED new_HttpRequest cut_stream);
    compute_now.
Defined.
End requests.

(** * Responses *)

Section responses.
(** Two files. *)
#[local] Instance two_files : FileSystem := λ p,
  if decide (p = $"./StaticFiles/index.html") then Some (mk_reader FileReader ($"<p>home</p>") 0 false)
  else if decide (p = $"./StaticFiles/404.html") then Some (mk_reader FileReader ($"<p>lost</p>") 0 false)
  else None.

#[local] Instance two_files_ok : FileSystemOk.
Proof. intros p r. unfold fs_open, two_files. repeat case_decide; by intros [= <-]. Qed.

Lemma two_files_short p d : file_content p = Some d → (length d ≤ 100)%nat.
Proof. unfold file_content, fs_open, two_files. repeat case_decide; intros [= <-]; decide_now. Qed.

Lemma two_files_reachable : reachable_files (A:=()) 100 new_Router.
Proof. intros v _. split; [done|]. apply two_files_short. Qed.

Definition home_request : HttpRequest.HttpRequest := HttpRequest.mk_HttpRequest GET ($"/") HTTP_1_1 ∅ [].

Lemma home_answer :
  answer_code home_request new_Router = 200%N ∧ answer_body home_request new_Router = $"<p>home</p>".
Proof. split; compute_now. Qed.

Lemma every_request_answered_witness :
  ∃ res a', getResponseFromRequest 100 home_request new_Router () = Ret (res, a') ∧ True ∧
    __version res = Some HTTP_1_1 ∧ __status res = mk_status 200 ∧ fresh_over ($"<p>home</p>") (__body res).
Proof.
  destruct home_answer as [Hc Hb].
  pose proof (every_request_answered 100 home_request new_Router () new_Router_wf two_files_reachable I) as H.
  rewrite Hc, Hb in H. exact H.
Defined.

Lemma router_load_spec_witness :
  let r' := snd (loadFrom ($"web.xml") new_Router) in
  fst (loadFrom ($"web.xml") new_Router) = SERVER_OK ∧ __mappingFilePath r' = $"web.xml" ∧
  lookup_uri r' ($"/nothing") = lookup_uri new_Router ($"/nothing") ∧
  lookup_code r' 404 = Valid (StaticResource ($"./StaticFiles/404.html") ($"/404")) ∧
  (Router_wf new_Router → Router_wf r').
Proof. exact (router_load_spec ($"web.xml") new_Router ($"/nothing") 404). Defined.

(** A router that maps a URI to a CGI resource. *)
Definition cgi_router : Router :=
  mk_Router [] {[$"/run" := CGIResource ($"./run") ($"/run")]} ∅.

Lemma cgi_answer_undefined_witness :
  getResponseFromRequest 100 (HttpRequest.mk_HttpRequest GET ($"/run") HTTP_1_1 ∅ []) cgi_router () = Undef.
Proof.
  apply (cgi_answer_undefined 100 _ cgi_router () (CGIResource ($"./run") ($"/run"))); [done|done|compute_now|done].
Defined.

(** A socket whose first [send] takes everything; the others fail. *)
Definition send_once : SocketStream.SendOracle := λ k n, if Nat.eqb k 0 then Z.of_nat n else -1.

Lemma send_once_atomic : SocketStream.SendAtomic (H:=send_once).
Proof. intros [|k] n; unfold SocketStream.os_send, send_once; [by left|right]. simpl. lia. Qed.

#[local] Existing Instances send_once send_once_atomic.

(** The answer goes through a stream over it. *)
Lemma response_delivered_witness :
  ∃ res a' e os' res' buf',
    getResponseFromRequest 100 home_request new_Router () = Ret (res, a') ∧
    response 100 (SocketStream.new_SocketOutputStream (SocketStream.mk_SocketStreamBuffer blank 7 [])) res blank
      = Ret (e, (os', res', buf')) ∧
    (obad os' = false → e = SERVER_OK ∧
       SocketStream.tx (obuf os') = [] ++ answer_wire HTTP_1_1 200 ($"<p>home</p>")).
Proof.
  destruct home_answer as [Hc Hb].
  pose proof (response_delivered 100 home_request new_Router ()
                (SocketStream.new_SocketOutputStream (SocketStream.mk_SocketStreamBuffer blank 7 [])) blank
                new_Router_wf two_files_reachable I) as H.
  rewrite Hc, Hb in H. apply H; [decide_now| |done].
  split; [compute_now|decide_now].
Defined.

Definition gone : reader := istringstream ($"gone").
Definition gone_response : HttpResponse := mk_HttpResponse (Some HTTP_1_0) (mk_status 404) ∅ (Some gone).
Definition gone_wire : bytes := wire_response HTTP_1_0 (__status gone_response) (__header gone_response) (r_data gone).

Lemma response_error_code_witness :
  ∃ e os' res' buf',
    response 100 (mk_ostream [] false) gone_response blank = Ret (e, (os', res', buf')) ∧
    os' = oflush (owrite gone_wire (mk_ostream [] false)) ∧
    (e = SERVER_OK ↔ obad (owrite gone_wire (mk_ostream (O:=bytes) [] false)) = false).
Proof.
  assert (reader_wf gone) as Hwf by (split; [done|decide_now]).
  assert (length (r_data gone) ≤ 100)%nat as Hl by decide_now.
  exact (response_error_code 100 (mk_ostream (O:=bytes) [] false) gone_response blank HTTP_1_0 gone
           eq_refl eq_refl eq_refl Hwf Hl).
Defined.

Lemma shared_buffer_crosses_bodies_witness :
  ∃ c1 c2 buf',
    rtc shared ([mk_copier Fill 6 SERVER_OK (mk_ostream ($"1:") false) (istringstream ($"secret"));
                 mk_copier Fill 6 SERVER_OK (mk_ostream ($"2:") false) (istringstream ($"public"))], blank) ([c1; c2], buf') ∧
    c_phase c1 = Done ∧ c_phase c2 = Done ∧ c_error c1 = SERVER_OK ∧ c_error c2 = SERVER_OK ∧
    c_os c1 = owrite ($"public") (mk_ostream ($"1:") false) ∧ c_os c2 = owrite ($"public") (mk_ostream ($"2:") false).
Proof.
  apply (shared_buffer_crosses_bodies (mk_ostream (O:=bytes) ($"1:") false) (mk_ostream ($"2:") false)
           ($"secret") ($"public") blank); [done|split; decide_now|done|done].
Defined.

(** Two bodies through one buffer: in the order of the crossing, and one after the
    other. *)
Definition two_bodies : list (ostream bytes * reader) :=
  [(mk_ostream ($"1:") false, istringstream ($"secret")); (mk_ostream ($"2:") false, istringstream ($"public"))].
Definition copy_next (i : nat) (s : list (copier bytes) * bytes) : option (list (copier bytes) * bytes) :=
  c ← s.1 !! i; '(c', buf') ← copy_step c s.2; Some (<[i := c']> s.1, buf').
Definition bodies_after (l : list nat) : list (copier bytes) * bytes :=
  default ([], []) (schedule copy_next l (begin_copy <$> two_bodies, blank)).

Lemma two_bodies_may : Forall may_copy two_bodies.
Proof. repeat constructor; simpl; lia. Qed.

Lemma blank_size : length blank = RES_BFSIZE.
Proof. decide_now. Qed.

Lemma crossed_reachable : reachable shared (begin_copy <$> two_bodies, blank) (bodies_after [0; 1; 0; 1; 0; 1]%nat).
Proof.
  apply (schedule_reachable shared copy_next [0; 1; 0; 1; 0; 1]%nat _ (begin_copy <$> two_bodies, blank)); [|constructor|].
  - intros i [cs buf] s'. unfold copy_next. cbn [fst snd]. destruct (cs !! i) as [c|] eqn:Hi; [|done]. simpl.
    destruct (copy_step c buf) as [[c' buf']|] eqn:Hc; [|done]. intros [= <-]. by eapply shared_step.
  - compute_now.
Qed.

Lemma shared_bodies_framed_witness :
  let c := default (begin_copy (mk_ostream [] false, gone)) ((bodies_after [0; 1; 0; 1; 0; 1]%nat).1 !! 0%nat) in
  c_phase c = Done ∧ c_os c = mk_ostream ($"1:public") false ∧
  ∃ w, c_os c = owrite w (mk_ostream ($"1:") false) ∧ (length w ≤ length ($"secret"))%nat ∧
    Forall (λ x, x ∈ blank ∨ ∃ u, u ∈ two_bodies ∧ x ∈ r_data u.2) w ∧
    (c_phase c = Done →
      (c_error c = SERVER_OK ↔ obad (c_os c) = false) ∧
      (c_error c = SERVER_OK → length w = length ($"secret"))).
Proof.
  intros c. split; [vm_compute; reflexivity|]. split; [vm_compute; reflexivity|].
  apply (shared_bodies_framed two_bodies blank (bodies_after [0; 1; 0; 1; 0; 1]%nat).1
           (bodies_after [0; 1; 0; 1; 0; 1]%nat).2 two_bodies_may blank_size) with (i := 0%nat)
    (t := (mk_ostream ($"1:") false, istringstream ($"secret"))).
  - exact crossed_reachable.
  - reflexivity.
  - vm_compute. reflexivity.
Defined.

Lemma shared_bodies_finish_witness :
  inevitable shared (λ s, all_copied s ∧
      Forall2 (λ t c, ∃ w, c_os c = owrite w t.1 ∧ (obad (c_os c) = false → length w = length (r_data t.2))) two_bodies s.1)
    (begin_copy <$> two_bodies, blank).
Proof. exact (shared_bodies_finish two_bodies blank two_bodies_may blank_size). Defined.

(** A step taken only while no other thread is about to write. *)
Definition copy_in_turn (i : nat) (s : list (copier bytes) * bytes) : option (list (copier bytes) * bytes) :=
  if decide (Forall (λ p, p.1 = i ∨ c_phase p.2 = Fill ∨ c_phase p.2 = Done) (imap pair s.1)) then copy_next i s else None.

Lemma copy_in_turn_exclusive i s s' : copy_in_turn i s = Some s' → exclusive s s'.
Proof.
  unfold copy_in_turn, copy_next. destruct s as [cs buf]. cbn [fst snd]. destruct (decide _) as [Hall|]; [|done].
  destruct (cs !! i) as [c|] eqn:Hi; [|done]. simpl. destruct (copy_step c buf) as [[c' buf']|] eqn:Hc; [|done].
  intros [= <-]. eapply exclusive_step; [done..|]. right. intros j c2 cur Hj Hc2 Hph.
  assert ((j, c2) ∈ imap pair cs) as Hin.
  { apply (list_elem_of_lookup_2 _ j). by rewrite list_lookup_imap, Hc2. }
  destruct (proj1 (list.Forall_forall _ _) Hall _ Hin) as [?|[E|E]]; simpl in *; congruence.
Qed.

Lemma exclusive_bodies_exact_witness :
  let s := default ([], []) (schedule copy_in_turn [0; 0; 1; 1; 0; 1]%nat (begin_copy <$> two_bodies, blank)) in
  let c := default (begin_copy (mk_ostream [] false, gone)) (s.1 !! 1%nat) in
  c_phase c = Done ∧
  c_os c = owrite ($"public") (mk_ostream ($"2:") false) ∧
  (c_error c = SERVER_OK ↔ obad (owrite ($"public") (mk_ostream (O:=bytes) ($"2:") false)) = false).
Proof.
  intros s c. assert (c_phase c = Done) as Hd by compute_now. split; [exact Hd|].
  apply (exclusive_bodies_exact two_bodies blank s.1 s.2 two_bodies_may blank_size) with (i := 1%nat)
    (t := (mk_ostream ($"2:") false, istringstream ($"public"))); [|reflexivity|compute_now|exact Hd].
  apply (schedule_reachable exclusive copy_in_turn [0; 0; 1; 1; 0; 1]%nat _ (begin_copy <$> two_bodies, blank));
    [apply copy_in_turn_exclusive|constructor|compute_now].
Defined.

(** A cache that keeps everything. *)
#[local] Instance map_cache : ICache (gmap bytes bytes) := {
  cache_get k := λ m, Ret (m !! k, m);
  cache_put k v := λ m, Ret (true, <[k := v]> m);
  validKey _ := true;
  validVal _ := true
}.
#[local, refine] Instance map_cache_ok : ICacheOk (gmap bytes bytes) := {
  cache_inv _ := True; stored m := m; key_ok _ := True
}.
Proof.
  - intros k c _ _. by exists (c !! k), c.
  - intros k v c _ _. exists true, (<[k := v]> c). split_and!; [done|done|by right|]. intros _. apply lookup_insert_eq.
Defined.

Lemma cached_access_refines_file_witness :
  ∃ o e cache', CachedResourceAccessor_access 100 (StaticResource ($"./StaticFiles/index.html") ($"/")) (Some ∅)
      = Ret ((o, e), cache') ∧
    accessor_coherent cache' ∧ e = SERVER_OK ∧
    match o with
    | Some r => r_data r = $"<p>home</p>" ∧ r_pos r = 0%nat ∧ r_fail r = false
    | None => False
    end.
Proof.
  assert (FileAccessor_access (StaticResource ($"./StaticFiles/index.html") ($"/"))
          = (Some (mk_reader FileReader ($"<p>home</p>") 0 false), SERVER_OK)) as Hacc by compute_now.
  assert (accessor_coherent (Some (∅ : gmap bytes bytes))) as Hcoh.
  { split; [done|]. intros k v _. simpl. by rewrite lookup_empty. }
  pose proof (cached_access_refines_file 100 (StaticResource ($"./StaticFiles/index.html") ($"/")) (Some ∅) Hcoh I
                (two_files_short _)) as (o & e & cache' & Hrun & Hc & He & Ho).
  rewrite Hacc in He, Ho. exists o, e, cache'. split_and!; [exact Hrun|exact Hc|exact He|by destruct o].
Defined.
End responses.
