(* ===== verification/RedisPool.v ===== *)
(** Cache/RedisCache, the pool: connections shared under reference counts, its
    operations, and what every interleaving of its clients preserves.

    A connection is known by its address, 0 being the null pointer. The
    [std::map] from connections to counts is the list of its entries in key order;
    [unsigned] counts wrap at 2^32. *)

From S2P Require Export Error Prelude.
From Stdlib Require Export Sorted.

#[local] Open Scope N_scope.

(** * The ordered map *)

Abbreviation conn_ptr := N.
Abbreviation conn_ref_map_t := (list (conn_ptr * N)).

Definition null_conn : conn_ptr := 0.

Fixpoint find (k : conn_ptr) (m : conn_ref_map_t) : option N :=
  match m with
  | [] => None
  | (k', v) :: m' => if k =? k' then Some v else find k m'
  end.

(** [emplace(k, v)]: nothing when the key is there. *)
Fixpoint emplace (k : conn_ptr) (v : N) (m : conn_ref_map_t) : conn_ref_map_t :=
  match m with
  | [] => [(k, v)]
  | (k', v') :: m' =>
      if k <? k' then (k, v) :: m
      else if k =? k' then m
      else (k', v') :: emplace k v m'
  end.

(** [m[k] = f(m[k])], [m[k]] being created as 0 first when absent. *)
Fixpoint adjust (f : N → N) (k : conn_ptr) (m : conn_ref_map_t) : conn_ref_map_t :=
  match m with
  | [] => [(k, f 0)]
  | (k', v') :: m' =>
      if k <? k' then (k, f 0) :: m
      else if k =? k' then (k, f v') :: m'
      else (k', v') :: adjust f k m'
  end.

Definition sorted (m : conn_ref_map_t) : Prop := StronglySorted N.lt (m.*1).

Section map_lemmas.
Implicit Types (k : conn_ptr) (m : conn_ref_map_t).

Lemma find_above k m : Forall (N.lt k) (m.*1) → find k m = None.
Proof.
  induction m as [|[k' v'] m IH]; simpl; [done|].
  intros [Hlt Hm]%Forall_cons_1. destruct (N.eqb_spec k k'); [lia|]. by apply IH.
Qed.

Lemma sorted_cons_inv k v m : sorted ((k, v) :: m) → sorted m ∧ Forall (N.lt k) (m.*1).
Proof. intros H. by apply StronglySorted_inv in H. Qed.

Lemma find_elem k v m : sorted m → find k m = Some v ↔ (k, v) ∈ m.
Proof.
  induction m as [|[k' v'] m IH]; intros Hs; simpl; [set_solver|].
  apply sorted_cons_inv in Hs as [Hs Hf]. rewrite elem_of_cons.
  destruct (N.eqb_spec k k') as [->|Hne].
  - split; [intros [= ->]; by left|]. intros [[= ->]|Hin]; [done|].
    apply IH in Hin; [|done]. by rewrite find_above in Hin.
  - rewrite IH by done. split; [by right|]. by intros [[= <- _]|].
Qed.

Lemma emplace_keys k v m : Forall (λ k', k' = k ∨ k' ∈ m.*1) ((emplace k v m).*1).
Proof.
  rewrite list.Forall_forall. induction m as [|[k' v'] m IH]; intros x; simpl; [set_solver|].
  destruct (k <? k'), (k =? k'); cbn; rewrite ?elem_of_cons;
    specialize (IH x); tauto.
Qed.

Lemma adjust_keys f k m : Forall (λ k', k' = k ∨ k' ∈ m.*1) ((adjust f k m).*1).
Proof.
  rewrite list.Forall_forall. induction m as [|[k' v'] m IH]; intros x; simpl; [set_solver|].
  destruct (k <? k'), (N.eqb_spec k k'); subst; cbn; rewrite ?elem_of_cons;
    specialize (IH x); tauto.
Qed.

(** Two ways to grow a sorted list keep it sorted. *)
Lemma sorted_below k v m : sorted m → Forall (λ k', k < k') (m.*1) → sorted ((k, v) :: m).
Proof. intros Hs Hf. by constructor. Qed.

Lemma Forall_lt_trans k k' m : k < k' → Forall (N.lt k') (m.*1) → Forall (N.lt k) (m.*1).
Proof. intros Hk H. apply (list.Forall_impl _ _ _ H). intros x Hx. lia. Qed.

Lemma emplace_sorted k v m : sorted m → sorted (emplace k v m).
Proof.
  induction m as [|[k' v'] m IH]; intros Hs; simpl; [by repeat constructor|].
  pose proof (sorted_cons_inv _ _ _ Hs) as [Hm Hf].
  destruct (N.ltb_spec k k') as [Hlt|Hge].
  - apply sorted_below; [done|]. simpl. constructor; [done|by eapply Forall_lt_trans].
  - destruct (N.eqb_spec k k'); [done|]. apply sorted_below; [by apply IH|].
    pose proof (emplace_keys k v m) as Hk. rewrite list.Forall_forall in Hk, Hf |- *.
    intros x Hx. destruct (Hk x Hx) as [->|Hin]; [lia|by apply Hf].
Qed.

Lemma adjust_sorted f k m : sorted m → sorted (adjust f k m).
Proof.
  induction m as [|[k' v'] m IH]; intros Hs; simpl; [by repeat constructor|].
  pose proof (sorted_cons_inv _ _ _ Hs) as [Hm Hf].
  destruct (N.ltb_spec k k') as [Hlt|Hge].
  - apply sorted_below; [done|]. simpl. constructor; [done|by eapply Forall_lt_trans].
  - destruct (N.eqb_spec k k') as [->|]; [by apply sorted_below|]. apply sorted_below; [by apply IH|].
    pose proof (adjust_keys f k m) as Hk. rewrite list.Forall_forall in Hk, Hf |- *.
    intros x Hx. destruct (Hk x Hx) as [->|Hin]; [lia|by apply Hf].
Qed.

Lemma find_emplace k v k' m :
  sorted m → find k m = None → find k' (emplace k v m) = if k' =? k then Some v else find k' m.
Proof.
  induction m as [|[k0 v0] m IH]; intros Hs Hk; simpl in *; [done|].
  apply sorted_cons_inv in Hs as [Hs Hf]. destruct (N.eqb_spec k k0) as [|Hne]; [done|].
  destruct (N.ltb_spec k k0); [done|]. simpl. rewrite IH by done.
  destruct (N.eqb_spec k' k0), (N.eqb_spec k' k); subst; done.
Qed.

Lemma find_adjust f k k' m :
  sorted m → find k' (adjust f k m) = if k' =? k then Some (f (default 0 (find k m))) else find k' m.
Proof.
  induction m as [|[k0 v0] m IH]; intros Hs; simpl in *; [done|].
  apply sorted_cons_inv in Hs as [Hs Hf].
  destruct (N.ltb_spec k k0) as [Hlt|Hge].
  - destruct (N.eqb_spec k k0); [lia|]. simpl.
    rewrite (find_above k m) by (by eapply Forall_lt_trans). done.
  - destruct (N.eqb_spec k k0) as [->|Hne]; simpl; [by destruct (N.eqb_spec k' k0)|].
    rewrite IH by done. destruct (N.eqb_spec k' k0), (N.eqb_spec k' k); subst; done.
Qed.

Lemma length_emplace k v m : (length (emplace k v m) ≤ S (length m))%nat.
Proof. induction m as [|[k0 v0] m IH]; simpl; [done|]. destruct (k <? k0), (k =? k0); simpl; lia. Qed.

Lemma length_adjust_le f k m : (length (adjust f k m) ≤ S (length m))%nat.
Proof. induction m as [|[k0 v0] m IH]; simpl; [done|]. destruct (k <? k0), (k =? k0); simpl; lia. Qed.

Lemma length_adjust f k m v : sorted m → find k m = Some v → length (adjust f k m) = length m.
Proof.
  induction m as [|[k0 v0] m IH]; intros Hs; simpl; [done|].
  apply sorted_cons_inv in Hs as [Hs Hf].
  destruct (N.eqb_spec k k0) as [->|Hne].
  - by rewrite N.ltb_irrefl.
  - intros Hk. destruct (N.ltb_spec k k0); [|simpl; by rewrite IH].
    rewrite find_above in Hk; [done|]. by eapply Forall_lt_trans.
Qed.

Lemma adjust_adjust f g k m : adjust g k (adjust f k m) = adjust (λ x, g (f x)) k m.
Proof.
  induction m as [|[k0 v0] m IH]; simpl; [by rewrite N.ltb_irrefl, N.eqb_refl|].
  destruct (N.ltb_spec k k0); simpl; [by rewrite N.ltb_irrefl, N.eqb_refl|].
  destruct (N.eqb_spec k k0) as [->|]; simpl; [by rewrite N.ltb_irrefl, N.eqb_refl|].
  destruct (N.ltb_spec k k0); [lia|]. destruct (N.eqb_spec k k0); [lia|]. by rewrite IH.
Qed.

Lemma adjust_id f k m v : sorted m → find k m = Some v → f v = v → adjust f k m = m.
Proof.
  induction m as [|[k0 v0] m IH]; intros Hs; simpl; [done|].
  apply sorted_cons_inv in Hs as [Hs Hf]. destruct (N.eqb_spec k k0) as [->|Hne].
  - rewrite N.ltb_irrefl. by intros [= ->] ->.
  - intros Hk Hv. destruct (N.ltb_spec k k0); [|by rewrite IH].
    rewrite find_above in Hk; [done|]. by eapply Forall_lt_trans.
Qed.
End map_lemmas.

(** * The pool *)

Definition uint32 (n : N) : N := n mod 2 ^ 32.
Definition uint8 (n : N) : N := n mod 2 ^ 8.
Definition UINT_MAX : N := 2 ^ 32 - 1.

Record RedisConnectionPool := mk_pool {
  __conns : conn_ref_map_t;
  __maxConn : N;
  __maxRef : N
}.

Definition new_RedisConnectionPool (maxConn maxRef : N) : RedisConnectionPool :=
  mk_pool [] (uint8 maxConn) (uint32 maxRef).

Definition set_conns (m : conn_ref_map_t) (p : RedisConnectionPool) : RedisConnectionPool :=
  mk_pool m (__maxConn p) (__maxRef p).

Definition pushConnection (conn : conn_ptr) (p : RedisConnectionPool) : Error * RedisConnectionPool :=
  if conn =? null_conn then (REDIS_POOL_CONN_NULL, p)
  else if __maxConn p <=? N.of_nat (length (__conns p)) then (REDIS_POOL_MAXCONN, p)
  else match find conn (__conns p) with
       | Some _ => (REDIS_POOL_CONNEXIST, p)
       | None => (SERVER_OK, set_conns (emplace conn 0 (__conns p)) p)
       end.

Definition curConnNum (p : RedisConnectionPool) : N := uint8 (N.of_nat (length (__conns p))).

Definition clear (p : RedisConnectionPool) : Error * RedisConnectionPool := (SERVER_OK, set_conns [] p).

(** The loop of [getOneConnection]. *)
Fixpoint choose (m : conn_ref_map_t) (ret : conn_ptr) (minref : N) : conn_ptr * N :=
  match m with
  | [] => (ret, minref)
  | (conn, ref) :: m' => if ref <? minref then choose m' conn ref else choose m' ret minref
  end.

(** The connection returned may be null. *)
Definition getOneConnection (p : RedisConnectionPool) : conn_ptr * RedisConnectionPool :=
  let '(ret, minref) := choose (__conns p) null_conn (uint32 (__maxRef p + 1)) in
  if __maxRef p <=? minref then (null_conn, p)
  else (ret, set_conns (adjust (λ n, uint32 (n + 1)) ret (__conns p)) p).

Definition returnConnection (conn : conn_ptr) (p : RedisConnectionPool) : RedisConnectionPool :=
  if conn =? null_conn then p
  else match find conn (__conns p) with
       | Some n => if n =? 0 then p
                   else set_conns (adjust (λ n, uint32 (n + 2 ^ 32 - 1)) conn (__conns p)) p
       | None => p
       end.

(** The pool's own invariant: the map is ordered and has no null key, its size
    and its counts are within the limits. *)
Record pool_wf (p : RedisConnectionPool) : Prop := {
  wf_sorted : sorted (__conns p);
  wf_null : find null_conn (__conns p) = None;
  wf_size : N.of_nat (length (__conns p)) ≤ __maxConn p;
  wf_byte : __maxConn p < 2 ^ 8;
  wf_refs c n : find c (__conns p) = Some n → n ≤ __maxRef p;
  wf_maxref : __maxRef p < UINT_MAX
}.

Lemma uint32_small n : n < 2 ^ 32 → uint32 n = n.
Proof. intros H. by apply N.mod_small. Qed.

Lemma uint32_pred n : 0 < n → n < 2 ^ 32 → uint32 (n + 2 ^ 32 - 1) = n - 1.
Proof.
  intros H0 H. unfold uint32. replace (n + 2 ^ 32 - 1) with (n - 1 + 1 * 2 ^ 32) by lia.
  rewrite N.Div0.mod_add. apply N.mod_small. lia.
Qed.

Lemma new_pool_wf maxConn maxRef : maxRef < UINT_MAX → pool_wf (new_RedisConnectionPool maxConn maxRef).
Proof.
  intros H. split; simpl; [constructor|done|lia|by apply N.mod_lt|done|].
  rewrite uint32_small; [done|]. unfold UINT_MAX in H. lia.
Qed.

(** The loop finds the first entry of the least count below the bound, if any. *)
Lemma choose_spec m ret minref ret' minref' :
  sorted m → choose m ret minref = (ret', minref') →
  (∀ c n, find c m = Some n → minref' ≤ n) ∧
  ((ret' = ret ∧ minref' = minref) ∨ (find ret' m = Some minref' ∧ minref' < minref)).
Proof.
  revert ret minref. induction m as [|[c0 n0] m IH]; intros ret minref Hs; simpl.
  - intros [= <- <-]. split; [done|by left].
  - apply sorted_cons_inv in Hs as [Hs Hf]. destruct (N.ltb_spec n0 minref) as [Hlt|Hge]; intros Hc;
      destruct (IH _ _ Hs Hc) as [Hall Hor].
    + split.
      * intros c n. destruct (N.eqb_spec c c0); [intros [= ->]|apply Hall].
        destruct Hor as [[_ ->]|[_ ?]]; lia.
      * right. destruct Hor as [[-> ->]|[Hfd Hlt']]; [by rewrite N.eqb_refl|].
        destruct (N.eqb_spec ret' c0) as [->|]; [by rewrite find_above in Hfd|]. split; [done|lia].
    + split.
      * intros c n. destruct (N.eqb_spec c c0); [intros [= ->]|apply Hall].
        destruct Hor as [[_ ->]|[_ ?]]; lia.
      * destruct Hor as [?|[Hfd Hlt]]; [by left|right].
        destruct (N.eqb_spec ret' c0) as [->|]; [by rewrite find_above in Hfd|done].
Qed.

(** What [getOneConnection] does on a well-formed pool: either every connection
    is fully used, or it takes one of the least used and counts it. *)
Lemma getOneConnection_cases p c p' :
  pool_wf p → getOneConnection p = (c, p') →
  (c = null_conn ∧ p' = p ∧ ∀ c n, find c (__conns p) = Some n → n = __maxRef p) ∨
  (∃ n, c ≠ null_conn ∧ find c (__conns p) = Some n ∧ n < __maxRef p ∧
        (∀ c' n', find c' (__conns p) = Some n' → n ≤ n') ∧
        p' = set_conns (adjust (λ n, uint32 (n + 1)) c (__conns p)) p).
Proof.
  intros Hwf. unfold getOneConnection. pose proof (wf_maxref p Hwf) as Hmax. unfold UINT_MAX in Hmax.
  rewrite uint32_small by lia. destruct (choose _ _ _) as [ret minref] eqn:E.
  destruct (choose_spec _ _ _ _ _ (wf_sorted p Hwf) E) as [Hall Hor].
  destruct (N.leb_spec (__maxRef p) minref) as [Hle|Hlt]; intros [= <- <-].
  - left. split_and!; [done..|]. intros c n Hc. pose proof (Hall c n Hc). pose proof (wf_refs p Hwf c n Hc). lia.
  - right. destruct Hor as [[_ ->]|[Hfd _]]; [lia|]. exists minref. split_and!; try done.
    intros ->. by rewrite (wf_null p Hwf) in Hfd.
Qed.

Lemma pool_with_wf p m :
  pool_wf p → sorted m → find null_conn m = None → (N.of_nat (length m) ≤ __maxConn p) →
  (∀ c n, find c m = Some n → n ≤ __maxRef p) → pool_wf (set_conns m p).
Proof. intros [????? ?] ????. by split. Qed.

(** Changing the count of a connection of the pool. *)
Lemma adjust_wf p c n f :
  pool_wf p → find c (__conns p) = Some n → f n ≤ __maxRef p →
  pool_wf (set_conns (adjust f c (__conns p)) p).
Proof.
  intros Hwf Hc Hf. pose proof (wf_sorted p Hwf) as Hs. apply pool_with_wf; [done| | | |].
  - by apply adjust_sorted.
  - rewrite find_adjust by done. destruct (N.eqb_spec null_conn c) as [<-|]; [|apply wf_null, Hwf].
    by rewrite (wf_null p Hwf) in Hc.
  - rewrite (length_adjust f c _ n) by done. apply wf_size, Hwf.
  - intros c' n'. rewrite find_adjust by done. destruct (c' =? c); [|apply wf_refs, Hwf].
    rewrite Hc. simpl. by intros [= <-].
Qed.

Lemma pushConnection_wf c p : pool_wf p → pool_wf (snd (pushConnection c p)).
Proof.
  intros Hwf. unfold pushConnection. destruct (N.eqb_spec c null_conn); [done|].
  destruct (N.leb_spec (__maxConn p) (N.of_nat (length (__conns p)))) as [|Hsz]; [done|].
  destruct (find c (__conns p)) eqn:Hc; [done|]. simpl. pose proof (wf_sorted p Hwf) as Hs.
  apply pool_with_wf; [done| | | |].
  - by apply emplace_sorted.
  - rewrite find_emplace by done. destruct (N.eqb_spec null_conn c); [congruence|]. apply wf_null, Hwf.
  - pose proof (length_emplace c 0 (__conns p)). lia.
  - intros c' n'. rewrite find_emplace by done. destruct (c' =? c); [intros [= <-]; lia|apply wf_refs, Hwf].
Qed.

Lemma getOneConnection_wf p c p' : pool_wf p → getOneConnection p = (c, p') → pool_wf p'.
Proof.
  intros Hwf Hg. destruct (getOneConnection_cases p c p' Hwf Hg)
    as [(_ & -> & _)|(n & _ & Hc & Hlt & _ & ->)]; [done|].
  eapply adjust_wf; [done..|]. pose proof (wf_maxref p Hwf). unfold UINT_MAX in *.
  rewrite uint32_small; lia.
Qed.

Lemma returnConnection_wf c p : pool_wf p → pool_wf (returnConnection c p).
Proof.
  intros Hwf. unfold returnConnection. destruct (c =? null_conn); [done|].
  destruct (find c (__conns p)) as [n|] eqn:Hc; [|done]. destruct (N.eqb_spec n 0); [done|].
  eapply adjust_wf; [done..|]. pose proof (wf_refs p Hwf c n Hc). pose proof (wf_maxref p Hwf).
  unfold UINT_MAX in *. rewrite uint32_pred; lia.
Qed.

Lemma clear_wf p : pool_wf p → pool_wf (snd (clear p)).
Proof. intros Hwf. apply pool_with_wf; [done|constructor|done|simpl; lia|done]. Qed.

(** The count of a connection; 0 for one that is not in the pool. *)
Definition refs (p : RedisConnectionPool) (c : conn_ptr) : N := default 0 (find c (__conns p)).

Lemma refs_push c c' p : pool_wf p → refs (snd (pushConnection c p)) c' = refs p c'.
Proof.
  intros Hwf. unfold pushConnection. destruct (N.eqb_spec c null_conn); [done|].
  destruct (N.leb_spec (__maxConn p) (N.of_nat (length (__conns p)))) as [|Hsz]; [done|].
  destruct (find c (__conns p)) eqn:Hc; [done|]. unfold refs. simpl.
  rewrite find_emplace by (apply Hwf || done). destruct (N.eqb_spec c' c) as [->|]; [|done]. by rewrite Hc.
Qed.

Lemma refs_get p c p' c' :
  pool_wf p → getOneConnection p = (c, p') →
  refs p' c' = if (c' =? c) && negb (c =? null_conn) then refs p c' + 1 else refs p c'.
Proof.
  intros Hwf Hg. destruct (getOneConnection_cases p c p' Hwf Hg)
    as [(-> & -> & _)|(n & Hne & Hc & Hlt & _ & ->)]; [by rewrite andb_false_r|].
  rewrite (proj2 (N.eqb_neq c null_conn)) by done. rewrite andb_true_r. unfold refs. simpl.
  rewrite find_adjust by apply Hwf. destruct (N.eqb_spec c' c) as [->|]; [|done]. rewrite Hc. simpl.
  pose proof (wf_maxref p Hwf). unfold UINT_MAX in *. rewrite uint32_small; lia.
Qed.

Lemma refs_return c c' p :
  pool_wf p → refs (returnConnection c p) c' = if c' =? c then N.pred (refs p c') else refs p c'.
Proof.
  intros Hwf. unfold returnConnection. destruct (N.eqb_spec c null_conn) as [->|Hne].
  { destruct (N.eqb_spec c' null_conn) as [->|]; [|done]. unfold refs. by rewrite (wf_null p Hwf). }
  destruct (find c (__conns p)) as [n|] eqn:Hc.
  - destruct (N.eqb_spec n 0) as [->|Hn].
    + destruct (N.eqb_spec c' c) as [->|]; [|done]. unfold refs. by rewrite Hc.
    + unfold refs. simpl. rewrite find_adjust by apply Hwf.
      destruct (N.eqb_spec c' c) as [->|]; [|done]. rewrite Hc. simpl.
      pose proof (wf_maxref p Hwf). pose proof (wf_refs p Hwf c n Hc). unfold UINT_MAX in *.
      rewrite uint32_pred; lia.
  - destruct (N.eqb_spec c' c) as [->|]; [|done]. unfold refs. by rewrite Hc.
Qed.

(** * Clients of the pool

    Every operation holds the pool's lock from start to end, so what threads do
    with a pool is an interleaving of whole operations. [held] lists the
    connections that threads have got and not yet returned, one entry per time. *)

Record clients := mk_clients { pool : RedisConnectionPool; held : list conn_ptr }.

Inductive pool_step (clears : bool) : clients → clients → Prop :=
| step_push c s :
    pool_step clears s (mk_clients (snd (pushConnection c (pool s))) (held s))
| step_get s c p' :
    getOneConnection (pool s) = (c, p') →
    pool_step clears s (mk_clients p' (if c =? null_conn then held s else c :: held s))
| step_return s c held' :
    held s ≡ₚ c :: held' →
    pool_step clears s (mk_clients (returnConnection c (pool s)) held')
| step_clear s :
    clears = true → pool_step clears s (mk_clients (snd (clear (pool s))) (held s)).

Definition holders (c : conn_ptr) (l : list conn_ptr) : N := N.of_nat (count_occ N.eq_dec l c).

Lemma holders_cons c c' l : holders c (c' :: l) = if c =? c' then holders c l + 1 else holders c l.
Proof.
  unfold holders. simpl. destruct (N.eq_dec c' c), (N.eqb_spec c c'); subst; try done; lia.
Qed.

Lemma holders_perm c l l' : l ≡ₚ l' → holders c l = holders c l'.
Proof.
  intros Hp. unfold holders. f_equal. by apply (Permutation_count_occ N.eq_dec).
Qed.

(** The invariant: counts never exceed the holders, and match them while nobody
    clears the pool. *)
Definition clients_inv (clears : bool) (s : clients) : Prop :=
  pool_wf (pool s) ∧
  ∀ c, if clears then refs (pool s) c ≤ holders c (held s) else refs (pool s) c = holders c (held s).

Lemma pool_step_inv clears s s' : clients_inv clears s → pool_step clears s s' → clients_inv clears s'.
Proof.
  intros [Hwf Hr] Hst. destruct Hst as [c s|s c p' Hg|s c held' Hp|s Hcl]; simpl in *; split; simpl.
  - by apply pushConnection_wf.
  - intros c'. rewrite refs_push by done. apply Hr.
  - by eapply getOneConnection_wf.
  - intros c'. rewrite (refs_get _ _ _ c' Hwf Hg). specialize (Hr c').
    destruct (N.eqb_spec c null_conn); simpl; [rewrite andb_false_r; done|].
    rewrite andb_true_r, holders_cons. destruct clears, (c' =? c); lia.
  - by apply returnConnection_wf.
  - intros c'. rewrite refs_return by done. specialize (Hr c'). rewrite (holders_perm c' _ _ Hp), holders_cons in Hr.
    destruct clears, (c' =? c); lia.
  - by apply clear_wf.
  - intros c'. specialize (Hr c'). unfold refs. simpl. rewrite Hcl. lia.
Qed.

Lemma clients_init_inv clears maxConn maxRef :
  maxRef < UINT_MAX → clients_inv clears (mk_clients (new_RedisConnectionPool maxConn maxRef) []).
Proof. intros H. split; [by apply new_pool_wf|]. intros c. by destruct clears. Qed.

(** * Properties *)

(** C21: with a limit of references below UINT_MAX, in every interleaving of threads
    that push, get and return connections (without clearing), the count of each
    connection is the number of threads that hold it, and so at most [maxRef] threads
    ever share one; the pool never holds more than [maxConn] connections, nor a null
    one (which it does when the limit is UINT_MAX: [unlimited_pool_broken]). *)
Theorem pool_counts_holders maxConn maxRef s :
  maxRef < UINT_MAX →
  reachable (pool_step false) (mk_clients (new_RedisConnectionPool maxConn maxRef) []) s →
  (∀ c, refs (pool s) c = holders c (held s)) ∧
  (∀ c, holders c (held s) ≤ __maxRef (pool s)) ∧
  curConnNum (pool s) = N.of_nat (length (__conns (pool s))) ∧
  curConnNum (pool s) ≤ __maxConn (pool s) ∧
  find null_conn (__conns (pool s)) = None.
Proof.
  intros Hm Hs. assert (clients_inv false s) as [Hwf Hr].
  { eapply reachable_invariant; [apply pool_step_inv|by apply clients_init_inv|exact Hs]. }
  assert (curConnNum (pool s) = N.of_nat (length (__conns (pool s)))) as Hn.
  { pose proof (wf_size _ Hwf). pose proof (wf_byte _ Hwf). apply N.mod_small. lia. }
  split_and!; [done| |done|rewrite Hn; apply Hwf|apply Hwf].
  intros c. rewrite <- Hr. unfold refs. destruct (find c _) as [n|] eqn:E; simpl; [|lia].
  by apply (wf_refs _ Hwf c).
Qed.

(** With threads that also clear the pool the limits still hold, and no
    connection is counted more often than it is held. *)
Theorem pool_limits_with_clear maxConn maxRef s :
  maxRef < UINT_MAX →
  reachable (pool_step true) (mk_clients (new_RedisConnectionPool maxConn maxRef) []) s →
  (∀ c, refs (pool s) c ≤ holders c (held s)) ∧ (∀ c, refs (pool s) c ≤ __maxRef (pool s)) ∧
  N.of_nat (length (__conns (pool s))) ≤ __maxConn (pool s).
Proof.
  intros Hm Hs. assert (clients_inv true s) as [Hwf Hr].
  { eapply reachable_invariant; [apply pool_step_inv|by apply clients_init_inv|exact Hs]. }
  split_and!; [done| |apply Hwf].
  intros c. unfold refs. destruct (find c _) as [n|] eqn:E; simpl; [|lia]. by apply (wf_refs _ Hwf c).
Qed.

(** C39: in a pool whose books are right and whose limit of references is below
    UINT_MAX, the connection handed out is one with room left and none is used less;
    its count grows by one and no other changes. None is handed out exactly when
    every connection is used [maxRef] times, and then the pool stays as it is. *)
Theorem getOneConnection_least_used p c p' :
  pool_wf p → getOneConnection p = (c, p') →
  pool_wf p' ∧
  (c = null_conn ↔ ∀ c' n, find c' (__conns p) = Some n → n = __maxRef p) ∧
  (c = null_conn → p' = p) ∧
  (c ≠ null_conn → refs p c < __maxRef p ∧ (∀ c' n, find c' (__conns p) = Some n → refs p c ≤ n) ∧
                   find c (__conns p') = Some (refs p c + 1)) ∧
  (∀ c', c' ≠ c → find c' (__conns p') = find c' (__conns p)).
Proof.
  intros Hwf Hg. split; [by eapply getOneConnection_wf|].
  destruct (getOneConnection_cases p c p' Hwf Hg)
    as [(-> & -> & Hall)|(n & Hne & Hc & Hlt & Hmin & ->)]; [by split_and!|].
  assert (refs p c = n) as Hrc by (unfold refs; by rewrite Hc). split_and!.
  - split; [done|]. intros Hall. specialize (Hall c n Hc). lia.
  - done.
  - intros _. rewrite Hrc. split_and!; [done|done|]. pose proof (wf_maxref p Hwf). unfold UINT_MAX in *.
    simpl. rewrite find_adjust, N.eqb_refl, Hc by apply Hwf. simpl. by rewrite uint32_small by lia.
  - intros c' Hc'. simpl. rewrite find_adjust by apply Hwf. by destruct (N.eqb_spec c' c).
Qed.

(** Getting a connection and returning it restores the pool exactly. *)
Lemma get_return_id p c p' :
  pool_wf p → getOneConnection p = (c, p') → returnConnection c p' = p.
Proof.
  intros Hwf Hg. destruct (getOneConnection_cases p c p' Hwf Hg)
    as [(-> & -> & _)|(n & Hne & Hc & Hlt & _ & ->)]; [done|].
  pose proof (wf_maxref p Hwf). unfold UINT_MAX in *. unfold returnConnection.
  rewrite (proj2 (N.eqb_neq _ _) Hne). simpl. rewrite find_adjust, N.eqb_refl, Hc by apply Hwf. simpl.
  rewrite uint32_small by lia. destruct (N.eqb_spec (n + 1) 0); [lia|]. unfold set_conns. simpl.
  rewrite adjust_adjust, (adjust_id _ _ _ n); [by destruct p|apply Hwf|done|].
  rewrite (uint32_small (n + 1)) by lia. rewrite uint32_pred; lia.
Qed.

(** A pool created with the largest [unsigned] as its limit is broken: the
    starting minimum wraps to 0, no connection is ever chosen, and the request
    puts a null entry into the map. *)
Theorem unlimited_pool_broken maxConn conns :
  let p := mk_pool conns maxConn UINT_MAX in
  sorted conns → find null_conn conns = None →
  getOneConnection p = (null_conn, set_conns (adjust (λ n, uint32 (n + 1)) null_conn conns) p) ∧
  find null_conn (__conns (snd (getOneConnection p))) = Some 1.
Proof.
  intros p Hs Hnull. assert (choose conns null_conn 0 = (null_conn, 0)) as Hc.
  { clear p Hs Hnull. induction conns as [|[c n] m IH]; simpl; [done|]. destruct (N.ltb_spec n 0); [lia|done]. }
  unfold getOneConnection. change (uint32 (__maxRef p + 1)) with 0. simpl. rewrite Hc. split; [done|].
  simpl. by rewrite find_adjust, Hnull.
Qed.
