(* ===== verification/RedisCache.v ===== *)
(** Cache/RedisCache: connections to a Redis server and the cache over a pool of
    them.

    The hiredis library, the server and the success of timed locking are a
    parameter, the class [Hiredis] over a world [W]; the cache's state is the
    pool, the connections by address and the world. *)

From S2P Require Export Error Cache RedisPool.

(** * The library *)

(** What the calls of [redisCommand] format: "AUTH %s", "GET %s", "SET %s %b". *)
Inductive redis_command :=
| AUTH (passwd : bytes)
| GET (key : bytes)
| SET (key val : bytes).

(** [redisReply] by its type; [str] and [integer] where the type has them. *)
Inductive redisReply :=
| REDIS_REPLY_STRING (str : bytes)
| REDIS_REPLY_INTEGER (integer : Z)
| REDIS_REPLY_STATUS (str : bytes)
| REDIS_REPLY_ERROR (str : bytes)
| REDIS_REPLY_NIL
| REDIS_REPLY_ARRAY.

(** [struct timeval], and the duration it stands for in microseconds. *)
Record timeval := mk_timeval { tv_sec : Z; tv_usec : Z }.
Definition timeval_us (t : timeval) : Z := tv_sec t * 1000000 + tv_usec t.

(** Contexts are known by their addresses. [try_lock_for conn ms] is the result
    of a timed wait for a connection's lock. *)
Class Hiredis (W : Type) := {
  redisConnectWithTimeout : bytes → N → timeval → W → option N * W;
  redis_err : N → W → bool;
  redisCommand : N → redis_command → W → option redisReply * W;
  redisSetTimeout : N → timeval → W → W;
  redisFree : N → W → W;
  try_lock_for : conn_ptr → Z → W → bool * W
}.

(** * Connections *)

(** [__locked] is whether a thread holds the connection's [timed_mutex]; [__pool]
    is a weak pointer that nothing reads. *)
Record RedisConnection := mk_conn {
  __ip : bytes;
  __port : N;
  __passwd : bytes;
  __context : option N;
  __pool : option N;
  __locked : bool;
  __lockTimeout : Z;
  __reqTimeout : Z
}.

Definition DEFAULT_REPLY_TIMEOUT : Z := 10000.

Definition new_RedisConnection : RedisConnection :=
  mk_conn [] 0 [] None None false 0 DEFAULT_REPLY_TIMEOUT.

Definition setIP (ip : bytes) (c : RedisConnection) : RedisConnection :=
  mk_conn ip (__port c) (__passwd c) (__context c) (__pool c) (__locked c) (__lockTimeout c) (__reqTimeout c).
Definition setPort (port : N) (c : RedisConnection) : RedisConnection :=
  mk_conn (__ip c) (port mod 2 ^ 16)%N (__passwd c) (__context c) (__pool c) (__locked c) (__lockTimeout c) (__reqTimeout c).
Definition setPasswd (pw : bytes) (c : RedisConnection) : RedisConnection :=
  mk_conn (__ip c) (__port c) pw (__context c) (__pool c) (__locked c) (__lockTimeout c) (__reqTimeout c).
Definition setLockTimeout (t : Z) (c : RedisConnection) : RedisConnection :=
  mk_conn (__ip c) (__port c) (__passwd c) (__context c) (__pool c) (__locked c) t (__reqTimeout c).
Definition setReqTimeout (t : Z) (c : RedisConnection) : RedisConnection :=
  mk_conn (__ip c) (__port c) (__passwd c) (__context c) (__pool c) (__locked c) (__lockTimeout c) t.
Definition setPool (p : option N) (c : RedisConnection) : RedisConnection :=
  mk_conn (__ip c) (__port c) (__passwd c) (__context c) p (__locked c) (__lockTimeout c) (__reqTimeout c).
Definition set_context (x : option N) (c : RedisConnection) : RedisConnection :=
  mk_conn (__ip c) (__port c) (__passwd c) x (__pool c) (__locked c) (__lockTimeout c) (__reqTimeout c).
Definition set_locked (b : bool) (c : RedisConnection) : RedisConnection :=
  mk_conn (__ip c) (__port c) (__passwd c) (__context c) (__pool c) b (__lockTimeout c) (__reqTimeout c).

(** [strcmp("OK", s) == 0] *)
Definition is_OK (s : bytes) : bool := bool_decide (c_str s = $"OK").

Section connection.
Context {W : Type} `{Hiredis W}.

(** Waiting for the connection's lock: [lock()] does not return while another
    holder keeps it, a timed wait may give up. *)
Definition acquire (self : conn_ptr) (c : RedisConnection) (w : W) : outcome (bool * RedisConnection * W) :=
  if __lockTimeout c =? 0 then
    if __locked c then Spin else Ret (true, set_locked true c, w)
  else
    let '(ok, w1) := try_lock_for self (__lockTimeout c) w in
    if ok && negb (__locked c) then Ret (true, set_locked true c, w1) else Ret (false, c, w1).

(** The timeout given to hiredis: the count of milliseconds in the field of
    the microseconds. *)
Definition req_timeval (c : RedisConnection) : timeval := mk_timeval 0 (__reqTimeout c).

(** [lock_guard]: taken without a timeout, released on every return. *)
Definition contextInit (c : RedisConnection) (w : W) : outcome (Error * RedisConnection * W) :=
  match __context c with
  | Some _ => Ret (REDIS_INIT_ALREADYDONE, c, w)
  | None =>
      if __locked c then Spin else
      let '(ctx, w1) := redisConnectWithTimeout (c_str (__ip c)) (__port c) (req_timeval c) w in
      let c1 := set_context ctx c in
      match ctx with
      | None => Ret (REDIS_CONN_TIMEOUT, c1, w1)
      | Some x =>
          if redis_err x w1 then Ret (REDIS_INIT_FAILED, c1, w1) else
          let '(error, w2) :=
            match __passwd c with
            | [] => (SERVER_OK, w1)
            | _ =>
                let '(reply, w2) := redisCommand x (AUTH (c_str (__passwd c))) w1 in
                match reply with
                | None => (REDIS_NULL_REPLY, w2)
                | Some (REDIS_REPLY_ERROR _) => (REDIS_PASSWD_WRONG, w2)
                | Some (REDIS_REPLY_STATUS s) =>
                    (if is_OK s then SERVER_OK else REDIS_PASSWD_WRONG, w2)
                | Some _ => (SERVER_OK, w2)
                end
            end in
          if decide (error = SERVER_OK)
          then Ret (SERVER_OK, c1, redisSetTimeout x (req_timeval c) w2)
          else Ret (error, c1, w2)
      end
  end.

(** [getKey]: the value [_retval] is set to, when it returns true. *)
Definition getKey (self : conn_ptr) (key : bytes) (c : RedisConnection) (w : W)
  : outcome (option bytes * RedisConnection * W) :=
  match __context c with
  | None => Ret (None, c, w)
  | Some x =>
      '(got, c1, w1) ← acquire self c w;
      if negb got then mret (None, c1, w1) else
      let '(reply, w2) := redisCommand x (GET (c_str key)) w1 in
      let ok := match reply with
                | Some (REDIS_REPLY_STRING s) => Some s
                | Some (REDIS_REPLY_INTEGER z) => Some (to_string_Z z)
                | _ => None
                end in
      mret (ok, set_locked false c1, w2)
  end.

Definition putKey (self : conn_ptr) (key val : bytes) (c : RedisConnection) (w : W)
  : outcome (bool * RedisConnection * W) :=
  match __context c with
  | None => Ret (false, c, w)
  | Some x =>
      '(got, c1, w1) ← acquire self c w;
      if negb got then mret (false, c1, w1) else
      let '(reply, w2) := redisCommand x (SET (c_str key) val) w1 in
      let ok := match reply with Some (REDIS_REPLY_STATUS s) => is_OK s | _ => false end in
      mret (ok, set_locked false c1, w2)
  end.

(** The destructor. *)
Definition destroy_connection (c : RedisConnection) (w : W) : W :=
  match __context c with Some x => redisFree x w | None => w end.
End connection.

(** * The cache *)

Record RedisCache (W : Type) := mk_cache {
  __connPool : RedisConnectionPool;
  heap : gmap N RedisConnection;
  world : W
}.
Arguments mk_cache {W} _ _ _.
Arguments __connPool {W} _.
Arguments heap {W} _.
Arguments world {W} _.

(** The constructor, over a pool of connections that live in [hp]. *)
Definition new_RedisCache {W} (pool : RedisConnectionPool) (hp : gmap N RedisConnection) (w : W) : RedisCache W :=
  mk_cache pool hp w.

Definition MAX_KEY_LEN : N := 2 ^ 20.
Definition MAX_VAL_LEN : N := 2 ^ 20.

Definition redis_validKey (key : bytes) : bool := (N.of_nat (length key) <? MAX_KEY_LEN)%N.
Definition redis_validVal (val : bytes) : bool := (N.of_nat (length val) <? MAX_VAL_LEN)%N.

Section cache.
Context {W : Type} `{Hiredis W}.

Definition redis_get (key : bytes) (s : RedisCache W) : outcome (option bytes * RedisCache W) :=
  if negb (redis_validKey key) then Ret (None, s) else
  let '(conn, p1) := getOneConnection (__connPool s) in
  if (conn =? null_conn)%N then Ret (None, mk_cache p1 (heap s) (world s)) else
  c ← deref (heap s !! conn);
  '(result, c1, w1) ← getKey conn key c (world s);
  mret (result, mk_cache (returnConnection conn p1) (<[conn := c1]> (heap s)) w1).

Definition redis_put (key val : bytes) (s : RedisCache W) : outcome (bool * RedisCache W) :=
  if negb (redis_validKey key) || negb (redis_validVal val) then Ret (false, s) else
  let '(conn, p1) := getOneConnection (__connPool s) in
  if (conn =? null_conn)%N then Ret (false, mk_cache p1 (heap s) (world s)) else
  c ← deref (heap s !! conn);
  '(result, c1, w1) ← putKey conn key val c (world s);
  mret (result, mk_cache (returnConnection conn p1) (<[conn := c1]> (heap s)) w1).
End cache.

(** * One request at a time leaves everything in place *)

Section restored.
Context {W : Type} `{Hiredis W}.

Lemma acquire_free self c w :
  __locked c = false →
  ∃ got w1, acquire self c w = Ret (got, set_locked got c, w1) ∧
            (w1 = w ∨ ∃ b, try_lock_for self (__lockTimeout c) w = (b, w1)).
Proof.
  intros Hl. assert (set_locked false c = c) as Hc by (destruct c; by simpl in *; subst).
  unfold acquire. rewrite Hl. destruct (__lockTimeout c =? 0); [exists true, w; by split; [|left]|].
  destruct (try_lock_for self (__lockTimeout c) w) as [b w1] eqn:E. simpl. rewrite andb_true_r.
  destruct b; [exists true, w1|exists false, w1; rewrite Hc]; (split; [done|right; by eexists]).
Qed.

Lemma set_locked_restore c : __locked c = false → set_locked false (set_locked true c) = c.
Proof. destruct c; simpl. by intros ->. Qed.

(** What a request gets to see: nothing sent (no context, or no lock), or the
    reply to its one command, in the world the wait left. *)
Lemma getKey_cases self key c w :
  __locked c = false →
  ∃ r w2, getKey self key c w = Ret (r, c, w2) ∧
    ((r = None ∧ (w2 = w ∨ ∃ b, try_lock_for self (__lockTimeout c) w = (b, w2))) ∨
     (∃ x w1 reply, (w1 = w ∨ ∃ b, try_lock_for self (__lockTimeout c) w = (b, w1)) ∧
        redisCommand x (GET (c_str key)) w1 = (reply, w2) ∧
        r = match reply with
            | Some (REDIS_REPLY_STRING s) => Some s
            | Some (REDIS_REPLY_INTEGER z) => Some (to_string_Z z)
            | _ => None
            end)).
Proof.
  intros Hl. unfold getKey. destruct (__context c) as [x|]; [|exists None, w; split; [done|left; by split; [|left]]].
  destruct (acquire_free self c w Hl) as (got & w1 & -> & Hw1). rewrite ret_bind.
  destruct got; simpl.
  - destruct (redisCommand x (GET (c_str key)) w1) as [reply w2] eqn:E. rewrite set_locked_restore by done.
    eexists _, w2. split; [done|]. right. by exists x, w1, reply.
  - exists None, w1. replace (set_locked false c) with c by (destruct c; by simpl in *; subst).
    split; [done|]. by left.
Qed.

Lemma putKey_cases self key val c w :
  __locked c = false →
  ∃ r w2, putKey self key val c w = Ret (r, c, w2) ∧
    ((r = false ∧ (w2 = w ∨ ∃ b, try_lock_for self (__lockTimeout c) w = (b, w2))) ∨
     (∃ x w1 reply, (w1 = w ∨ ∃ b, try_lock_for self (__lockTimeout c) w = (b, w1)) ∧
        redisCommand x (SET (c_str key) val) w1 = (reply, w2) ∧
        r = match reply with Some (REDIS_REPLY_STATUS s) => is_OK s | _ => false end)).
Proof.
  intros Hl. unfold putKey. destruct (__context c) as [x|]; [|exists false, w; split; [done|left; by split; [|left]]].
  destruct (acquire_free self c w Hl) as (got & w1 & -> & Hw1). rewrite ret_bind.
  destruct got; simpl.
  - destruct (redisCommand x (SET (c_str key) val) w1) as [reply w2] eqn:E. rewrite set_locked_restore by done.
    eexists _, w2. split; [done|]. right. by exists x, w1, reply.
  - exists false, w1. replace (set_locked false c) with c by (destruct c; by simpl in *; subst).
    split; [done|]. by left.
Qed.

(** The pool is well formed and its connections exist and are not locked. *)
Definition cache_wf (s : RedisCache W) : Prop :=
  pool_wf (__connPool s) ∧
  ∀ c n, find c (__conns (__connPool s)) = Some n →
         ∃ rc, heap s !! c = Some rc ∧ __locked rc = false.

Definition set_world (w : W) (s : RedisCache W) : RedisCache W := mk_cache (__connPool s) (heap s) w.

(** The connection a request uses, if any: it exists, is unlocked, and returning
    it leaves the pool as it was. *)
Lemma borrow s :
  cache_wf s →
  ∃ conn p1, getOneConnection (__connPool s) = (conn, p1) ∧ 
    ((conn = null_conn ∧ p1 = __connPool s) ∨
     (conn ≠ null_conn ∧ returnConnection conn p1 = __connPool s ∧
      ∃ rc, heap s !! conn = Some rc ∧ __locked rc = false)).
Proof.
  intros [Hp Hh]. destruct (getOneConnection (__connPool s)) as [conn p1] eqn:E. exists conn, p1.
  split; [done|]. pose proof (get_return_id _ _ _ Hp E) as Hret.
  destruct (getOneConnection_cases _ _ _ Hp E) as [(-> & -> & _)|(n & Hne & Hc & _)]; [by left|].
  right. split_and!; [done..|]. by eapply Hh.
Qed.

(** A request either sends nothing and changes at most the world by waiting for
    a lock, or is [getKey] on one connection; all but the world is restored. *)
Lemma redis_get_cases key s :
  cache_wf s →
  (redis_get key s = Ret (None, s)) ∨
  (∃ self rc r w2, __locked rc = false ∧ getKey self key rc (world s) = Ret (r, rc, w2) ∧
                   redis_get key s = Ret (r, set_world w2 s)).
Proof.
  intros Hwf. unfold redis_get. destruct (redis_validKey key); [|by left]. simpl.
  destruct (borrow s Hwf) as (conn & p1 & -> & Hc). destruct Hc as [[-> ->]|(Hne & Hret & rc & Hrc & Hl)].
  - left. by destruct s.
  - right. rewrite (proj2 (N.eqb_neq _ _) Hne), Hrc, deref_Some_bind.
    destruct (getKey_cases conn key rc (world s) Hl) as (r & w2 & Hg & _).
    exists conn, rc, r, w2. split_and!; [done..|]. rewrite Hg, ret_bind, Hret, insert_id by done. done.
Qed.

Lemma redis_put_cases key val s :
  cache_wf s →
  (redis_put key val s = Ret (false, s)) ∨
  (∃ self rc r w2, __locked rc = false ∧ putKey self key val rc (world s) = Ret (r, rc, w2) ∧
                   redis_put key val s = Ret (r, set_world w2 s)).
Proof.
  intros Hwf. unfold redis_put. destruct (redis_validKey key); [|by left].
  destruct (redis_validVal val); [|by left]. simpl.
  destruct (borrow s Hwf) as (conn & p1 & -> & Hc). destruct Hc as [[-> ->]|(Hne & Hret & rc & Hrc & Hl)].
  - left. by destruct s.
  - right. rewrite (proj2 (N.eqb_neq _ _) Hne), Hrc, deref_Some_bind.
    destruct (putKey_cases conn key val rc (world s) Hl) as (r & w2 & Hg & _).
    exists conn, rc, r, w2. split_and!; [done..|]. rewrite Hg, ret_bind, Hret, insert_id by done. done.
Qed.
End restored.

(** * What the cache promises over a server that keeps its own *)

(** [written]: for each key the last value a SET may have stored. The server
    answers a GET by a string only with that value, and never by an integer. *)
Class HiredisOk (W : Type) `{Hiredis W} := {
  w_inv : W → Prop;
  written : W → gmap bytes bytes;
  get_reply_ok x k w r w' :
    w_inv w → NUL ∉ k → redisCommand x (GET k) w = (r, w') →
    w_inv w' ∧ written w' = written w ∧
    match r with
    | Some (REDIS_REPLY_STRING v) => written w !! k = Some v
    | Some (REDIS_REPLY_INTEGER _) => False
    | _ => True
    end;
  set_reply_ok x k v w r w' :
    w_inv w → NUL ∉ k → redisCommand x (SET k v) w = (r, w') →
    w_inv w' ∧ (written w' = written w ∨ written w' = <[k := v]> (written w)) ∧
    (∀ s, r = Some (REDIS_REPLY_STATUS s) → is_OK s = true → written w' !! k = Some v);
  try_lock_ok self ms w b w' :
    w_inv w → try_lock_for self ms w = (b, w') → w_inv w' ∧ written w' = written w
}.

(** Waiting for a lock, or not waiting, changes nothing of the database. *)
Lemma waited_ok {W} `{HiredisOk W} self ms w :
  w_inv w → ∀ w', (w' = w ∨ ∃ b, try_lock_for self ms w = (b, w')) →
  w_inv w' ∧ written w' = written w.
Proof. intros Hw w' [->|[b Hb]]; [done|]. by apply (try_lock_ok _ _ _ _ _ Hw Hb). Qed.

#[global] Instance RedisCache_ICache {W} `{Hiredis W} : ICache (RedisCache W) := {
  cache_get := redis_get;
  cache_put := redis_put;
  validKey := redis_validKey;
  validVal := redis_validVal
}.

#[global, refine] Instance RedisCache_ICacheOk {W} `{HiredisOk W} : ICacheOk (RedisCache W) := {
  cache_inv s := cache_wf s ∧ w_inv (world s);
  stored s := written (world s);
  key_ok k := NUL ∉ k
}.
Proof.
  - intros k s [Hwf Hw] Hk. simpl.
    destruct (redis_get_cases k s Hwf) as [Hg|(self & rc & r & w2 & Hl & Hgk & Hg)].
    { exists None, s. by split_and!. }
    exists r, (set_world w2 s). split; [done|].
    destruct (getKey_cases self k rc (world s) Hl) as (r' & w2' & Hg' & Hc).
    rewrite Hgk in Hg'. injection Hg' as <- <-. simpl.
    pose proof (waited_ok self (__lockTimeout rc) (world s) Hw) as Htl.
    destruct Hc as [[-> Hw2]|(x & w1 & reply & Hw1 & Hcmd & ->)].
    + destruct (Htl w2 Hw2) as [? ?]. by split_and!.
    + destruct (Htl w1 Hw1) as [Hi1 Hwr1]. rewrite c_str_id in Hcmd by done.
      destruct (get_reply_ok _ _ _ _ _ Hi1 Hk Hcmd) as (? & Hwr2 & Hr). split_and!; [done|done|congruence|].
      intros v Hv. rewrite <- Hwr1. destruct reply as [[]|]; try done. by injection Hv as <-.
  - intros k v s [Hwf Hw] Hk. simpl.
    destruct (redis_put_cases k v s Hwf) as [Hg|(self & rc & r & w2 & Hl & Hgk & Hg)].
    { exists false, s. split_and!; [done..|by left|done]. }
    exists r, (set_world w2 s). split; [done|].
    destruct (putKey_cases self k v rc (world s) Hl) as (r' & w2' & Hg' & Hc).
    rewrite Hgk in Hg'. injection Hg' as <- <-. simpl.
    pose proof (waited_ok self (__lockTimeout rc) (world s) Hw) as Htl.
    destruct Hc as [[-> Hw2]|(x & w1 & reply & Hw1 & Hcmd & ->)].
    + destruct (Htl w2 Hw2) as [? ?]. split_and!; [done|done|by left|done].
    + destruct (Htl w1 Hw1) as [Hi1 Hwr1]. rewrite c_str_id in Hcmd by done.
      destruct (set_reply_ok _ _ _ _ _ _ Hi1 Hk Hcmd) as (? & Hwr2 & Hr). rewrite Hwr1 in Hwr2.
      split_and!; [done|done|done|]. destruct reply as [[]|]; try done. by apply Hr.
Defined.

(** * Properties *)

(** No request leaks: whatever the server and the locks do, [get] and [put]
    return, the connection they borrowed is back in the pool with its count
    restored and unlocked, and every connection is as it was. *)
Theorem redis_requests_restore {W} `{Hiredis W} key val s :
  cache_wf s →
  (∃ r w, redis_get key s = Ret (r, set_world w s)) ∧ (∃ b w, redis_put key val s = Ret (b, set_world w s)).
Proof.
  intros Hwf. assert (set_world (world s) s = s) as Hid by (by destruct s). split.
  - destruct (redis_get_cases key s Hwf) as [->|(self & rc & r & w & _ & _ & ->)]; [|by eexists _, _].
    exists None, (world s). by rewrite Hid.
  - destruct (redis_put_cases key val s Hwf) as [->|(self & rc & r & w & _ & _ & ->)]; [|by eexists _, _].
    exists false, (world s). by rewrite Hid.
Qed.

(** Round trip: after a successful [put] of a key without NUL, [get] answers
    with that value or with nothing. *)
Theorem redis_put_get {W} `{HiredisOk W} key val s s1 :
  cache_wf s → w_inv (world s) → NUL ∉ key →
  redis_put key val s = Ret (true, s1) →
  ∃ r s2, redis_get key s1 = Ret (r, s2) ∧ (r = None ∨ r = Some val).
Proof.
  intros Hwf Hw Hk Hp.
  destruct (cache_put_ok (C:=RedisCache W) key val s) as (b & s1' & Hp' & Hinv & _ & Hst); [done|done|].
  assert (b = true ∧ s1' = s1) as [-> ->] by (simpl in Hp'; split; congruence). specialize (Hst eq_refl).
  destruct (cache_get_ok (C:=RedisCache W) key s1) as (r & s2 & Hg & _ & _ & Hr); [done|done|].
  exists r, s2. split; [done|]. destruct r as [v|]; [right|by left].
  specialize (Hr v eq_refl). congruence.
Qed.

(** Keys are passed as C strings: two keys that agree up to their first NUL
    name the same entry, so one is answered with the value put for the other. *)
Theorem redis_nul_keys_collide {W} `{Hiredis W} key1 key2 val s :
  c_str key1 = c_str key2 → redis_validKey key1 = redis_validKey key2 →
  redis_get key1 s = redis_get key2 s ∧ redis_put key1 val s = redis_put key2 val s.
Proof.
  intros Hc Hv. unfold redis_get, redis_put, getKey, putKey. by rewrite Hc, Hv.
Qed.

(** C37: connecting: a second initialisation is refused; the first one succeeds
    when the server is reached, the context is healthy and the password, if there
    is one, is not refused. After any outcome but a missing context the connection
    keeps its context, so that it is used although its initialisation failed and
    cannot be initialised again. *)
Theorem contextInit_outcomes {W} `{Hiredis W} c w :
  __locked c = false →
  ∃ e c1 w1, contextInit c w = Ret (e, c1, w1) ∧
    match __context c with
    | Some _ => e = REDIS_INIT_ALREADYDONE ∧ c1 = c ∧ w1 = w
    | None =>
        let '(ctx, w0) := redisConnectWithTimeout (c_str (__ip c)) (__port c) (req_timeval c) w in
        c1 = set_context ctx c ∧
        match ctx with
        | None => e = REDIS_CONN_TIMEOUT
        | Some x =>
            (e = SERVER_OK ↔ redis_err x w0 = false ∧
               (__passwd c = [] ∨
                match fst (redisCommand x (AUTH (c_str (__passwd c))) w0) with
                | None | Some (REDIS_REPLY_ERROR _) => False
                | Some (REDIS_REPLY_STATUS s) => is_OK s = true
                | Some _ => True
                end)) ∧
            contextInit c1 w1 = Ret (REDIS_INIT_ALREADYDONE, c1, w1)
        end
    end.
Proof.
  intros Hl. unfold contextInit. destruct (__context c) as [x0|] eqn:Hc; [by eexists _, _, _|].
  rewrite Hl. destruct (redisConnectWithTimeout _ _ _ _) as [[x|] w0]; [|by eexists _, _, _].
  destruct (redis_err x w0); [eexists _, _, _; split_and!; [done|done| |done]; by split; [|intros [? _]]|].
  destruct (__passwd c) as [|a l].
  { simpl. eexists _, _, _. split_and!; [done|done| |done]. split; [|done]. intros _. split; [done|by left]. }
  destruct (redisCommand x (AUTH (c_str (a :: l))) w0) as [reply w2].
  destruct reply as [[]|]; simpl; try destruct (is_OK str) eqn:E; simpl;
    (eexists _, _, _; split_and!; [reflexivity|done| |done]); intuition congruence.
Qed.

(** A server that records, in microseconds, the timeouts it is given. *)
Definition recorder : Hiredis (list Z) := {|
  redisConnectWithTimeout _ _ t w := (Some 1%N, w ++ [timeval_us t]);
  redis_err _ _ := false;
  redisCommand _ _ w := (None, w);
  redisSetTimeout _ t w := w ++ [timeval_us t];
  redisFree _ w := w;
  try_lock_for _ _ w := (true, w)
|}.

(** The request timeout, a count of milliseconds, is given to hiredis as a
    count of microseconds, both when connecting and for replies: a thousandth of
    what was asked for. *)
Theorem request_timeout_in_microseconds ms :
  ∃ c, contextInit (H:=recorder) (setReqTimeout ms new_RedisConnection) [] = Ret (SERVER_OK, c, [ms; ms]).
Proof. by eexists. Qed.
