(* ===== verification/RedisConnectionBuilder.v ===== *)
(** Cache/RedisCache: the builder of connections, behind its interface. *)

From S2P Require Export Objects RedisCache.

(** What the builder promises. *)
Class IRedisConnectionBuilder (B : Type) := {
  build : B → nat;
  b_setIP : bytes → B → SM (mem RedisConnection) B;
  b_setPort : N → B → SM (mem RedisConnection) B;
  b_setPasswd : bytes → B → SM (mem RedisConnection) B;
  b_setLockTimeout : Z → B → SM (mem RedisConnection) B;
  b_setReqTimeout : Z → B → SM (mem RedisConnection) B;
  b_setPool : option N → B → SM (mem RedisConnection) B
}.

(** The calls as data, with what they do to a connection. *)
Inductive connection_call :=
| SetIP (ip : bytes)
| SetPort (port : N)
| SetPasswd (pw : bytes)
| SetLockTimeout (t : Z)
| SetReqTimeout (t : Z)
| SetPool (p : option N).

Definition on_builder {B} `{IRedisConnectionBuilder B} (c : connection_call) : B → SM (mem RedisConnection) B :=
  match c with
  | SetIP ip => b_setIP ip
  | SetPort port => b_setPort port
  | SetPasswd pw => b_setPasswd pw
  | SetLockTimeout t => b_setLockTimeout t
  | SetReqTimeout t => b_setReqTimeout t
  | SetPool p => b_setPool p
  end.

Definition on_connection (c : connection_call) : RedisConnection → RedisConnection :=
  match c with
  | SetIP ip => setIP ip
  | SetPort port => setPort port
  | SetPasswd pw => setPasswd pw
  | SetLockTimeout t => setLockTimeout t
  | SetReqTimeout t => setReqTimeout t
  | SetPool p => setPool p
  end.

(** The contract: every call changes the one object, and nothing else. *)
Class IRedisConnectionBuilderOk (B : Type) `{IRedisConnectionBuilder B} : Prop :=
  connection_builder_fluent : fluent build on_connection (on_builder (B:=B)).

(** * The implementation *)

Record RedisConnectionBuilder := mk_RedisConnectionBuilder { __obj : nat }.

Definition new_RedisConnectionBuilder : SM (mem RedisConnection) RedisConnectionBuilder :=
  p ← make_shared new_RedisConnection; mret (mk_RedisConnectionBuilder p).

Definition RedisConnectionBuilder_build (b : RedisConnectionBuilder) : nat := __obj b.

Definition RedisConnectionBuilder_setIP (ip : bytes) (b : RedisConnectionBuilder)
  : SM (mem RedisConnection) RedisConnectionBuilder := _ ← invoke (setIP ip) (__obj b); mret b.
Definition RedisConnectionBuilder_setPort (port : N) (b : RedisConnectionBuilder)
  : SM (mem RedisConnection) RedisConnectionBuilder := _ ← invoke (setPort port) (__obj b); mret b.
Definition RedisConnectionBuilder_setPasswd (pw : bytes) (b : RedisConnectionBuilder)
  : SM (mem RedisConnection) RedisConnectionBuilder := _ ← invoke (setPasswd pw) (__obj b); mret b.
Definition RedisConnectionBuilder_setLockTimeout (t : Z) (b : RedisConnectionBuilder)
  : SM (mem RedisConnection) RedisConnectionBuilder := _ ← invoke (setLockTimeout t) (__obj b); mret b.
Definition RedisConnectionBuilder_setReqTimeout (t : Z) (b : RedisConnectionBuilder)
  : SM (mem RedisConnection) RedisConnectionBuilder := _ ← invoke (setReqTimeout t) (__obj b); mret b.
Definition RedisConnectionBuilder_setPool (p : option N) (b : RedisConnectionBuilder)
  : SM (mem RedisConnection) RedisConnectionBuilder := _ ← invoke (setPool p) (__obj b); mret b.

#[global] Instance RedisConnectionBuilder_IRedisConnectionBuilder : IRedisConnectionBuilder RedisConnectionBuilder := {
  build := RedisConnectionBuilder_build;
  b_setIP := RedisConnectionBuilder_setIP;
  b_setPort := RedisConnectionBuilder_setPort;
  b_setPasswd := RedisConnectionBuilder_setPasswd;
  b_setLockTimeout := RedisConnectionBuilder_setLockTimeout;
  b_setReqTimeout := RedisConnectionBuilder_setReqTimeout;
  b_setPool := RedisConnectionBuilder_setPool
}.

#[global] Instance RedisConnectionBuilder_ok : IRedisConnectionBuilderOk RedisConnectionBuilder.
Proof. intros c b h x Hx; destruct c; exact (SM_bind_Ret _ _ _ _ _ (invoke_ok _ _ _ _ Hx)). Qed.
