(* ===== verification/RedisThreads.v ===== *)
(** Cache/RedisCache, several threads: the requests of the I/O workers on one cache,
    in steps between which the threads interleave.

    A request takes a connection from the pool, waits for the connection's lock,
    sends its command and reads the reply, releases the lock and gives the
    connection back. The pool's operations are atomic under the pool's lock, and a
    command with its reply is one call of hiredis. *)

From S2P Require Export RedisCache.

(** * Requests in steps *)

Inductive request := Get (key : bytes) | Put (key val : bytes).

(** What [get] and [put] return. *)
Inductive answer := Found (r : option bytes) | Stored (b : bool).

(** The answer when nothing was sent. *)
Definition refusal (q : request) : answer :=
  match q with Get _ => Found None | Put _ _ => Stored false end.

Definition valid (q : request) : bool :=
  match q with
  | Get key => redis_validKey key
  | Put key val => redis_validKey key && redis_validVal val
  end.

Definition command (q : request) : redis_command :=
  match q with
  | Get key => GET (c_str key)
  | Put key val => SET (c_str key) val
  end.

Definition read_reply (q : request) (reply : option redisReply) : answer :=
  match q with
  | Get _ => Found (match reply with
                    | Some (REDIS_REPLY_STRING s) => Some s
                    | Some (REDIS_REPLY_INTEGER z) => Some (to_string_Z z)
                    | _ => None
                    end)
  | Put _ _ => Stored (match reply with Some (REDIS_REPLY_STATUS s) => is_OK s | _ => false end)
  end.

(** Where a thread is: before its request, with a connection, with the lock of the
    connection (whose context it has read), with the reply, without the lock, at
    the end. *)
Inductive thread :=
| Ready (q : request)
| Borrowed (q : request) (conn : conn_ptr)
| Locked (q : request) (conn : conn_ptr) (context : N)
| Replied (q : request) (conn : conn_ptr) (a : answer)
| Unlocked (q : request) (conn : conn_ptr) (a : answer)
| Finished (q : request) (a : answer).

Section threads.
Context {W : Type} `{Hiredis W}.

Definition set_pool (p : RedisConnectionPool) (s : RedisCache W) : RedisCache W := mk_cache p (heap s) (world s).
Definition set_conn (conn : conn_ptr) (c : RedisConnection) (s : RedisCache W) : RedisCache W :=
  mk_cache (__connPool s) (<[conn := c]> (heap s)) (world s).

(** The next step of a thread; [Spin] while it is blocked on a lock. A timed wait
    ends in one step, at any later time: with the lock, or without it. *)
Definition advance (t : thread) (s : RedisCache W) : outcome (thread * RedisCache W) :=
  match t with
  | Ready q =>
      if negb (valid q) then Ret (Finished q (refusal q), s) else
      let '(conn, p1) := getOneConnection (__connPool s) in
      Ret (if (conn =? null_conn)%N then Finished q (refusal q) else Borrowed q conn, set_pool p1 s)
  | Borrowed q conn =>
      c ← deref (heap s !! conn);
      match __context c with
      | None => mret (Unlocked q conn (refusal q), s)
      | Some x =>
          '(got, c1, w1) ← acquire conn c (world s);
          mret (if got : bool then Locked q conn x else Unlocked q conn (refusal q),
                set_world w1 (set_conn conn c1 s))
      end
  | Locked q conn x =>
      let '(reply, w1) := redisCommand x (command q) (world s) in
      Ret (Replied q conn (read_reply q reply), set_world w1 s)
  | Replied q conn a =>
      c ← deref (heap s !! conn);
      mret (Unlocked q conn a, set_conn conn (set_locked false c) s)
  | Unlocked q conn a => Ret (Finished q a, set_pool (returnConnection conn (__connPool s)) s)
  | Finished q a => Ret (Finished q a, s)
  end.

Definition finished (t : thread) : bool := match t with Finished _ _ => true | _ => false end.

(** A thread on its own. *)
Fixpoint run_alone (n : nat) (t : thread) (s : RedisCache W) : outcome (thread * RedisCache W) :=
  match n with
  | O => Ret (t, s)
  | S n' => '(t1, s1) ← advance t s; run_alone n' t1 s1
  end.

(** The commands sent so far, by which thread, with what came of them. *)
Record redis_sys := mk_redis_sys {
  cache : RedisCache W;
  threads : list thread;
  history : list (nat * request * answer)
}.

Definition event (i : nat) (t : thread) (t' : thread) : list (nat * request * answer) :=
  match t, t' with
  | Locked q _ _, Replied _ _ a => [(i, q, a)]
  | _, _ => []
  end.

Inductive redis_step : redis_sys → redis_sys → Prop :=
| redis_advance i t t' c' s :
    threads s !! i = Some t → finished t = false → advance t (cache s) = Ret (t', c') →
    redis_step s (mk_redis_sys c' (<[i := t']> (threads s)) (history s ++ event i t t')).
End threads.
Arguments redis_sys : clear implicits.

(** * What every interleaving keeps *)

Definition held_by (t : thread) : option conn_ptr :=
  match t with
  | Borrowed _ c | Locked _ c _ | Replied _ c _ | Unlocked _ c _ => Some c
  | _ => None
  end.

Definition locked_by (t : thread) : option conn_ptr :=
  match t with Locked _ c _ | Replied _ c _ => Some c | _ => None end.

Definition context_of (t : thread) : option (conn_ptr * N) :=
  match t with Locked _ c x => Some (c, x) | _ => None end.

(** The steps a thread still has to make. *)
Definition steps_left (t : thread) : nat :=
  match t with
  | Ready _ => 5 | Borrowed _ _ => 4 | Locked _ _ _ => 3 | Replied _ _ _ => 2 | Unlocked _ _ _ => 1
  | Finished _ _ => 0
  end.

Definition lock_count (b : bool) : N := if b then 1%N else 0%N.

Section invariant.
Context {W : Type} `{Hiredis W}.
Abbreviation sys := (redis_sys W).

(** Counts are the threads that have the connection; the connections of the pool
    exist; a lock is taken when, and only when, one thread has it. *)
Record redis_inv (s : sys) : Prop := {
  ri_pool : pool_wf (__connPool (cache s));
  ri_refs c : refs (__connPool (cache s)) c = holders c (omap held_by (threads s));
  ri_heap c : is_Some (find c (__conns (__connPool (cache s)))) → is_Some (heap (cache s) !! c);
  ri_locks c rc : heap (cache s) !! c = Some rc →
    holders c (omap locked_by (threads s)) = lock_count (__locked rc);
  ri_context t c x : t ∈ threads s → context_of t = Some (c, x) →
    ∃ rc, heap (cache s) !! c = Some rc ∧ __context rc = Some x
}.

(** Both lists for a thread in front of others. *)
Lemma held_cons c t ts :
  holders c (omap held_by (t :: ts)) =
  (if decide (held_by t = Some c) then holders c (omap held_by ts) + 1 else holders c (omap held_by ts))%N.
Proof.
  cbn [omap list_omap]. destruct (held_by t) as [c'|]; [|by rewrite decide_False].
  rewrite holders_cons. destruct (N.eqb_spec c c') as [->|Hne]; [by rewrite decide_True|].
  by rewrite decide_False by congruence.
Qed.

Lemma locked_cons c t ts :
  holders c (omap locked_by (t :: ts)) =
  (if decide (locked_by t = Some c) then holders c (omap locked_by ts) + 1 else holders c (omap locked_by ts))%N.
Proof.
  cbn [omap list_omap]. destruct (locked_by t) as [c'|]; [|by rewrite decide_False].
  rewrite holders_cons. destruct (N.eqb_spec c c') as [->|Hne]; [by rewrite decide_True|].
  by rewrite decide_False by congruence.
Qed.

(** A connection some thread has is in the pool, so it exists. *)
Lemma held_exists t c s : redis_inv s → t ∈ threads s → held_by t = Some c → is_Some (heap (cache s) !! c).
Proof.
  intros Hs Ht Hc. apply (ri_heap _ Hs). pose proof (ri_refs _ Hs c) as Hr.
  apply elem_of_Permutation in Ht as [ts Hp]. rewrite (holders_perm c _ (omap held_by (t :: ts))) in Hr by by rewrite Hp.
  rewrite held_cons, decide_True in Hr by done. unfold refs in Hr.
  destruct (find c _); [by eexists|]. simpl in Hr. lia.
Qed.

(** The invariant after a step of one thread, by what the step did. *)
Lemma redis_inv_focus i t t' c' h s :
  redis_inv s → threads s !! i = Some t →
  pool_wf (__connPool c') →
  (∀ c, is_Some (find c (__conns (__connPool c'))) → is_Some (heap c' !! c)) →
  (∀ c, refs (__connPool c') c + lock_count (bool_decide (held_by t = Some c)) =
        refs (__connPool (cache s)) c + lock_count (bool_decide (held_by t' = Some c)))%N →
  (∀ c rc', heap c' !! c = Some rc' → ∃ rc, heap (cache s) !! c = Some rc ∧ __context rc' = __context rc ∧
     lock_count (__locked rc') + lock_count (bool_decide (locked_by t = Some c)) =
     lock_count (__locked rc) + lock_count (bool_decide (locked_by t' = Some c)))%N →
  dom (heap c') = dom (heap (cache s)) →
  (∀ c x, context_of t' = Some (c, x) → ∃ rc, heap c' !! c = Some rc ∧ __context rc = Some x) →
  redis_inv (mk_redis_sys c' (<[i := t']> (threads s)) h).
Proof.
  intros Hs Hi Hwf Hex Hrefs Hheap Hdom Hctx. destruct (list_focus _ _ _ Hi) as (ts & Hp & Hput).
  split; cbn [cache threads]; [done| |done| |].
  - intros c. specialize (Hrefs c). rewrite (ri_refs _ Hs c) in Hrefs.
    rewrite (holders_perm c _ (omap held_by (t :: ts))) in Hrefs by by rewrite Hp.
    rewrite (holders_perm c _ (omap held_by (t' :: ts))) by by rewrite Hput.
    rewrite held_cons in *. unfold lock_count in Hrefs. repeat case_bool_decide; repeat case_decide; lia || congruence.
  - intros c rc' Hc. destruct (Hheap _ _ Hc) as (rc & Hrc & _ & Hl). pose proof (ri_locks _ Hs _ _ Hrc) as Hlk.
    rewrite (holders_perm c _ (omap locked_by (t :: ts))) in Hlk by by rewrite Hp.
    rewrite (holders_perm c _ (omap locked_by (t' :: ts))) by by rewrite Hput.
    rewrite locked_cons in *. unfold lock_count in *. repeat case_bool_decide; repeat case_decide; try congruence;
      destruct (__locked rc), (__locked rc'); lia.
  - intros t0 c x Ht0 Hcx. rewrite Hput in Ht0. apply elem_of_cons in Ht0 as [->|Ht0]; [by apply Hctx|].
    destruct (ri_context _ Hs t0 c x) as (rc & Hrc & Hx); [rewrite Hp; by right|done|].
    assert (is_Some (heap c' !! c)) as [rc' Hrc'] by (apply elem_of_dom; rewrite Hdom; by apply elem_of_dom_2 in Hrc).
    exists rc'. split; [done|]. destruct (Hheap _ _ Hrc') as (rc0 & Hrc0 & -> & _). congruence.
Qed.

(** A step that leaves the connections alone. *)
Lemma redis_inv_pool i t t' p w h s :
  redis_inv s → threads s !! i = Some t →
  pool_wf p →
  (∀ c, is_Some (find c (__conns p)) → is_Some (find c (__conns (__connPool (cache s))))) →
  (∀ c, refs p c + lock_count (bool_decide (held_by t = Some c)) =
        refs (__connPool (cache s)) c + lock_count (bool_decide (held_by t' = Some c)))%N →
  locked_by t' = locked_by t → context_of t' = None →
  redis_inv (mk_redis_sys (mk_cache p (heap (cache s)) w) (<[i := t']> (threads s)) h).
Proof.
  intros Hs Hi Hwf Hex Hrefs Hl Hx. apply (redis_inv_focus i t t' (mk_cache p (heap (cache s)) w) h s Hs Hi Hwf); cbn [heap __connPool].
  - intros c Hc. by apply (ri_heap _ Hs), Hex.
  - done.
  - intros c rc Hc. exists rc. by rewrite Hl.
  - done.
  - intros c x. by rewrite Hx.
Qed.

(** A thread that has nothing may be replaced by another that has nothing. *)
Lemma redis_inv_idle i t t' h s :
  redis_inv s → threads s !! i = Some t → held_by t = None → held_by t' = None →
  redis_inv (mk_redis_sys (cache s) (<[i := t']> (threads s)) h).
Proof.
  intros Hs Hi Ht Ht'. assert (locked_by t = None) by (by destruct t). assert (locked_by t' = None ∧ context_of t' = None) as [Hl Hx] by (by destruct t').
  assert (cache s = mk_cache (__connPool (cache s)) (heap (cache s)) (world (cache s))) as -> by by destruct (cache s).
  apply (redis_inv_pool i t); [done|done|apply Hs|done| |congruence|done]. intros c. by rewrite Ht, Ht'.
Qed.

(** A step that changes whether one connection is locked. *)
Lemma redis_inv_conn i t t' conn rc rc' w h s :
  redis_inv s → threads s !! i = Some t → heap (cache s) !! conn = Some rc →
  held_by t' = held_by t → __context rc' = __context rc →
  (∀ c, c ≠ conn → locked_by t' = Some c ↔ locked_by t = Some c) →
  (lock_count (__locked rc') + lock_count (bool_decide (locked_by t = Some conn)) =
   lock_count (__locked rc) + lock_count (bool_decide (locked_by t' = Some conn)))%N →
  (∀ c x, context_of t' = Some (c, x) → c = conn ∧ __context rc = Some x) →
  redis_inv (mk_redis_sys (mk_cache (__connPool (cache s)) (<[conn := rc']> (heap (cache s))) w) (<[i := t']> (threads s)) h).
Proof.
  intros Hs Hi Hrc Hh Hcx Hoth Hl Hx. apply (redis_inv_focus i t t' (mk_cache (__connPool (cache s)) (<[conn := rc']> (heap (cache s))) w) h s Hs Hi (ri_pool _ Hs));
    cbn [heap __connPool].
  - intros c Hc. apply lookup_insert_is_Some. destruct (decide (conn = c)); [by left|right; split; [done|]].
    by apply (ri_heap _ Hs).
  - intros c. by rewrite Hh.
  - intros c rc0 [[<- <-]|[Hne Hc]]%lookup_insert_Some; [by exists rc|]. exists rc0. split_and!; [done..|].
    do 2 f_equal. apply bool_decide_ext. symmetry. by apply Hoth.
  - apply dom_insert_lookup_L. by eexists.
  - intros c x Hc. destruct (Hx _ _ Hc) as [-> Hrx]. exists rc'. rewrite lookup_insert_eq. split; [done|congruence].
Qed.

Lemma getOneConnection_keys p c p' c' :
  pool_wf p → getOneConnection p = (c, p') → is_Some (find c' (__conns p')) → is_Some (find c' (__conns p)).
Proof.
  intros Hwf Hg. destruct (getOneConnection_cases _ _ _ Hwf Hg) as [(_ & -> & _)|(n & _ & Hc & _ & _ & ->)]; [done|].
  simpl. rewrite find_adjust by apply Hwf. destruct (N.eqb_spec c' c) as [->|]; [by rewrite Hc|done].
Qed.

Lemma returnConnection_keys p c c' :
  pool_wf p → is_Some (find c' (__conns (returnConnection c p))) → is_Some (find c' (__conns p)).
Proof.
  intros Hwf. unfold returnConnection. destruct (c =? null_conn)%N; [done|].
  destruct (find c (__conns p)) as [n|] eqn:Hc; [|done]. destruct (n =? 0)%N; [done|].
  simpl. rewrite find_adjust by apply Hwf. destruct (N.eqb_spec c' c) as [->|]; [by rewrite Hc|done].
Qed.

Lemma acquire_cases self rc (w : W) :
  acquire self rc w = Spin ∧ __locked rc = true ∧ __lockTimeout rc = 0 ∨
  (∃ w1, acquire self rc w = Ret (true, set_locked true rc, w1) ∧ __locked rc = false) ∨
  ∃ w1, acquire self rc w = Ret (false, rc, w1).
Proof.
  unfold acquire. destruct (Z.eqb_spec (__lockTimeout rc) 0) as [Ht|Ht]; destruct (__locked rc) eqn:Hl.
  - by left.
  - right; left. by eexists.
  - destruct (try_lock_for _ _ _) as [b w1]. rewrite andb_false_r. right; right. by eexists.
  - destruct (try_lock_for _ _ _) as [[] w1]; right; [left|right]; by eexists.
Qed.

(** A thread that takes a connection out of the pool, or finds none. *)
Lemma borrow_inv i q conn p1 h s :
  redis_inv s → threads s !! i = Some (Ready q) → getOneConnection (__connPool (cache s)) = (conn, p1) →
  redis_inv (mk_redis_sys (set_pool p1 (cache s))
    (<[i := if (conn =? null_conn)%N then Finished q (refusal q) else Borrowed q conn]> (threads s)) h).
Proof.
  intros Hs Hi Hg. pose proof (ri_pool _ Hs) as Hwf.
  apply (redis_inv_pool i (Ready q)); [done|done|by eapply getOneConnection_wf| | | |].
  - intros c. by apply (getOneConnection_keys _ _ _ _ Hwf Hg).
  - intros c. rewrite (refs_get _ _ _ c Hwf Hg). destruct (N.eqb_spec conn null_conn) as [->|Hne]; cbn [negb held_by].
    + rewrite andb_false_r. done.
    + rewrite andb_true_r, (bool_decide_false (None = Some c)) by done. unfold lock_count.
       destruct (N.eqb_spec c conn) as [->|]; [rewrite bool_decide_true by done|rewrite bool_decide_false by congruence]; lia.
  - by destruct (conn =? null_conn)%N.
  - by destruct (conn =? null_conn)%N.
Qed.

(** A thread that gives its connection back. *)
Lemma give_back_inv i q conn a h s :
  redis_inv s → threads s !! i = Some (Unlocked q conn a) →
  redis_inv (mk_redis_sys (set_pool (returnConnection conn (__connPool (cache s))) (cache s))
    (<[i := Finished q a]> (threads s)) h).
Proof.
  intros Hs Hi. pose proof (ri_pool _ Hs) as Hwf.
  apply (redis_inv_pool i (Unlocked q conn a)); [done|done|by apply returnConnection_wf| | |done|done].
  - intros c. by apply returnConnection_keys.
  - intros c. rewrite refs_return by done. cbn [held_by]. pose proof (ri_refs _ Hs c) as Hr. unfold lock_count.
    rewrite (bool_decide_false (None = Some c)) by done.
    destruct (N.eqb_spec c conn) as [->|Hne]; [|rewrite bool_decide_false by congruence; lia].
    destruct (list_focus _ _ _ Hi) as (ts & Hp & _).
    rewrite (holders_perm conn _ (omap held_by (Unlocked q conn a :: ts))) in Hr by by rewrite Hp.
    rewrite held_cons, decide_True in Hr by done. rewrite bool_decide_true by done. lia.
Qed.

Lemma advance_inv i t t' c' h s :
  redis_inv s → threads s !! i = Some t → advance t (cache s) = Ret (t', c') →
  redis_inv (mk_redis_sys c' (<[i := t']> (threads s)) h).
Proof.
  intros Hs Hi Ha. pose proof (list_elem_of_lookup_2 _ _ _ Hi) as Hin.
  pose proof (ri_pool _ Hs) as Hwf.
  assert (cache s = mk_cache (__connPool (cache s)) (heap (cache s)) (world (cache s)))
    as Hcs by by destruct (cache s).
  destruct t as [q|q conn|q conn x|q conn a|q conn a|q a]; cbn [advance] in Ha.
  - destruct (valid q); cbn [negb] in Ha.
    + destruct (getOneConnection _) as [conn p1] eqn:Hg. injection Ha as <- <-. by apply borrow_inv.
    + injection Ha as <- <-. rewrite Hcs. by apply (redis_inv_pool i (Ready q)).
  - destruct (held_exists _ conn _ Hs Hin eq_refl) as [rc Hrc]. rewrite Hrc, deref_Some_bind in Ha.
    destruct (__context rc) as [x|] eqn:Hx; cycle 1.
    { injection Ha as <- <-. rewrite Hcs. by apply (redis_inv_pool i (Borrowed q conn)). }
    destruct (acquire_cases conn rc (world (cache s))) as [(Hq & _)|[(w1 & Hq & Hl)|(w1 & Hq)]]; rewrite Hq in Ha;
      [done|..]; injection Ha as <- <-.
    + apply (redis_inv_conn i (Borrowed q conn) _ _ rc); [done|done|done|done|done| | |].
      * intros c Hne. simpl. split; congruence.
      * simpl. by rewrite Hl, bool_decide_true.
      * simpl. intros c x' [= <- <-]. by split.
    + apply (redis_inv_conn i (Borrowed q conn) _ _ rc); [done..|]. intros c x'. done.
  - destruct (redisCommand _ _ _) as [reply w1]. injection Ha as <- <-.
    by apply (redis_inv_pool i (Locked q conn x)).
  - destruct (held_exists _ conn _ Hs Hin eq_refl) as [rc Hrc]. rewrite Hrc, deref_Some_bind in Ha. injection Ha as <- <-.
    apply (redis_inv_conn i (Replied q conn a) _ _ rc); [done|done|done|done|done| | |by intros ??].
    + intros c Hne. simpl. split; congruence.
    + simpl. pose proof (ri_locks _ Hs _ _ Hrc) as Hl. destruct (list_focus _ _ _ Hi) as (ts & Hp & _).
      rewrite (holders_perm conn _ (omap locked_by (Replied q conn a :: ts))) in Hl by by rewrite Hp.
      rewrite locked_cons, decide_True in Hl by done. rewrite bool_decide_true by done.
      destruct (__locked rc); unfold lock_count in *; [done|lia].
  - injection Ha as <- <-. by apply give_back_inv.
  - injection Ha as <- <-. rewrite Hcs. by apply (redis_inv_pool i (Finished q a)).
Qed.

Lemma redis_step_inv s s' : redis_inv s → redis_step s s' → redis_inv s'.
Proof. intros Hs Hst. destruct Hst as [i t t' c' s Hi _ Ha]. exact (advance_inv i t t' c' _ s Hs Hi Ha). Qed.
End invariant.

(** * No thread waits for ever *)

Section progress.
Context {W : Type} `{Hiredis W}.
Abbreviation sys := (redis_sys W).

(** A step is defined, or the thread waits for a lock that another one has. *)
Lemma advance_defined i t s :
  redis_inv s → threads s !! i = Some t →
  (∃ t' c', advance t (cache s) = Ret (t', c')) ∨
  (advance t (cache s) = Spin ∧ ∃ q conn, t = Borrowed q conn ∧
     ∃ u, u ∈ threads s ∧ locked_by u = Some conn).
Proof.
  intros Hs Hi. pose proof (list_elem_of_lookup_2 _ _ _ Hi) as Hin.
  destruct t as [q|q conn|q conn x|q conn a|q conn a|q a]; cbn [advance]; try (left; by eexists _, _).
  - left. destruct (negb (valid q)); [by eexists _, _|]. destruct (getOneConnection _). by eexists _, _.
  - destruct (held_exists _ conn _ Hs Hin eq_refl) as [rc Hrc]. rewrite Hrc, deref_Some_bind.
    destruct (__context rc); [|left; by eexists _, _].
    destruct (acquire_cases conn rc (world (cache s))) as [(-> & Hl & _)|[(w1 & -> & _)|(w1 & ->)]];
      [|left; by eexists _, _..].
    right. split; [done|]. exists q, conn. split; [done|]. pose proof (ri_locks _ Hs _ _ Hrc) as Hc. rewrite Hl in Hc.
    assert (conn ∈ omap locked_by (threads s)) as (u & Hu & Hlu)%list_elem_of_omap; [|by exists u].
    apply list_elem_of_In, (count_occ_In N.eq_dec). unfold holders in Hc. simpl in Hc. lia.
  - left. destruct (redisCommand _ _ _). by eexists _, _.
  - left. destruct (held_exists _ conn _ Hs Hin eq_refl) as [rc ->]. rewrite deref_Some_bind. by eexists _, _.
Qed.

Definition all_finished (s : sys) : Prop := Forall (λ t, finished t = true) (threads s).

#[global] Instance all_finished_dec s : Decision (all_finished s).
Proof. unfold all_finished. apply _. Defined.

(** While a thread is unfinished, some thread can make a step: the one that has
    the lock if that one waits. *)
Lemma redis_progress s : redis_inv s → ¬ all_finished s → ∃ s', redis_step s s'.
Proof.
  intros Hs Hn. apply not_Forall_Exists in Hn; [|apply _]. apply Exists_exists in Hn as (t & Hin & Hf).
  assert (∀ i u, threads s !! i = Some u → finished u = false → locked_by u ≠ None → ∃ s', redis_step s s') as Hlocked.
  { intros i u Hi Hu Hl. destruct (advance_defined i u s Hs Hi) as [(t' & c' & Ha)|(_ & q & conn & -> & _)]; [|done].
    eexists. by eapply redis_advance. }
  apply list_elem_of_In, list_elem_of_lookup in Hin as [i Hi]. apply not_true_iff_false in Hf.
  destruct (advance_defined i t s Hs Hi) as [(t' & c' & Ha)|(_ & q & conn & _ & u & Hu & Hlu)].
  - eexists. by eapply redis_advance.
  - apply list_elem_of_lookup in Hu as [j Hj]. apply (Hlocked j u Hj); [by destruct u|by rewrite Hlu].
Qed.

Definition work (s : sys) : nat := sum_list_with steps_left (threads s).

Lemma advance_works t t' (c c' : RedisCache W) : finished t = false → advance t c = Ret (t', c') → (steps_left t' < steps_left t)%nat.
Proof.
  destruct t as [q|q conn|q conn x|q conn a|q conn a|q a]; cbn [advance]; [intros _..|done].
  - destruct (negb _); [intros [= <- <-]; simpl; lia|]. destruct (getOneConnection _) as [cn p1]. intros [= <- <-].
    destruct (cn =? null_conn)%N; simpl; lia.
  - destruct (heap c !! conn) as [rc|]; [|done]. rewrite deref_Some_bind. destruct (__context rc) as [x|].
    + destruct (acquire _ _ _) as [[[got c1] w1]| | |]; try done. intros [= <- <-]. destruct got; simpl; lia.
    + intros [= <- <-]. simpl. lia.
  - destruct (redisCommand _ _ _). intros [= <- <-]. simpl. lia.
  - destruct (heap c !! conn) as [rc|]; [|done]. intros [= <- <-]. simpl. lia.
  - intros [= <- <-]. simpl. lia.
Qed.

Lemma redis_step_works s s' : redis_step s s' → (work s' < work s)%nat.
Proof.
  intros [i t t' c' s0 Hi Hf Ha]. destruct (list_focus _ _ _ Hi) as (ts & Hp & Hput). unfold work. cbn [threads].
  rewrite (Hput t'), Hp. simpl. pose proof (advance_works _ _ _ _ Hf Ha). lia.
Qed.
End progress.

(** * Alone, the steps are the operations of the cache *)

Section alone.
Context {W : Type} `{Hiredis W}.

Lemma returning_alone q conn a (p1 : RedisConnectionPool) hp (w : W) :
  run_alone 1 (Unlocked q conn a) (mk_cache p1 hp w) =
  Ret (Finished q a, mk_cache (returnConnection conn p1) hp w).
Proof. done. Qed.

Lemma run_alone_finished n q a (s : RedisCache W) : run_alone n (Finished q a) s = Ret (Finished q a, s).
Proof. induction n as [|n IH]; [done|]. cbn [run_alone advance]. by rewrite ret_bind. Qed.

(** From the connection on, a request is the common part of [getKey] and [putKey]
    followed by the return of the connection. *)
Lemma run_borrowed q conn rc p1 hp (w : W) :
  hp !! conn = Some rc →
  run_alone 4 (Borrowed q conn) (mk_cache p1 hp w) =
  match __context rc with
  | None => Ret (Finished q (refusal q), mk_cache (returnConnection conn p1) (<[conn := rc]> hp) w)
  | Some x =>
      '(got, c1, w1) ← acquire conn rc w;
      if negb got then Ret (Finished q (refusal q), mk_cache (returnConnection conn p1) (<[conn := c1]> hp) w1)
      else let '(reply, w2) := redisCommand x (command q) w1 in
           Ret (Finished q (read_reply q reply),
                mk_cache (returnConnection conn p1) (<[conn := set_locked false c1]> hp) w2)
  end.
Proof.
  intros Hrc. cbn [run_alone advance heap world]. rewrite Hrc, deref_Some_bind.
  destruct (__context rc) as [x|]; [|by rewrite insert_id].
  destruct (acquire conn rc w) as [[[got c1] w1]| | |]; try done. rewrite !ret_bind.
  destruct got; cbn [negb advance set_world set_conn world heap __connPool].
  - destruct (redisCommand x (command q) w1) as [reply w2]. rewrite ret_bind.
    cbn [advance set_world set_conn world heap __connPool]. rewrite lookup_insert_eq, deref_Some_bind.
    rewrite ret_bind. cbn [advance set_conn set_pool world heap __connPool]. rewrite ret_bind.
    unfold set_pool, set_conn, set_world. cbn [world heap __connPool]. by rewrite insert_insert_eq.
  - done.
Qed.

Lemma run_ready q (s : RedisCache W) :
  run_alone 5 (Ready q) s =
  if negb (valid q) then Ret (Finished q (refusal q), s) else
  let '(conn, p1) := getOneConnection (__connPool s) in
  if (conn =? null_conn)%N then Ret (Finished q (refusal q), set_pool p1 s)
  else run_alone 4 (Borrowed q conn) (set_pool p1 s).
Proof.
  change (run_alone 5 (Ready q) s) with ('(t1, s1) ← advance (Ready q) s; run_alone 4 t1 s1). cbn [advance].
  destruct (negb (valid q)); [by rewrite ret_bind, run_alone_finished|].
  destruct (getOneConnection (__connPool s)) as [conn p1]. rewrite ret_bind.
  destruct (conn =? null_conn)%N; [by rewrite run_alone_finished|done].
Qed.
End alone.

(** * The order of the commands is an order of the requests *)

Section history.
Context {W : Type} `{HiredisOk W}.
Abbreviation sys := (redis_sys W).

(** A cache that may forget or refuse, one request at a time. *)
Inductive cache_spec : gmap bytes bytes → request → answer → gmap bytes bytes → Prop :=
| spec_miss m k : cache_spec m (Get k) (Found None) m
| spec_hit m k v : m !! k = Some v → cache_spec m (Get k) (Found (Some v)) m
| spec_put m k v b : cache_spec m (Put k v) (Stored b) (<[k := v]> m)
| spec_refused m k v : cache_spec m (Put k v) (Stored false) m.

Lemma spec_contents m q a m' : cache_spec m q a m' → m' = m ∨ ∃ k v, q = Put k v ∧ m' = <[k := v]> m.
Proof. intros []; [by left..|right; by eexists _, _|by left]. Qed.

Inductive legal (m : gmap bytes bytes) : list (nat * request * answer) → gmap bytes bytes → Prop :=
| legal_nil : legal m [] m
| legal_snoc h m1 i q a m2 : legal m h m1 → cache_spec m1 q a m2 → legal m (h ++ [(i, q, a)]) m2.

Definition key_of (q : request) : bytes := match q with Get k | Put k _ => k end.

Definition request_of (t : thread) : request :=
  match t with
  | Ready q | Borrowed q _ | Locked q _ _ | Replied q _ _ | Unlocked q _ _ | Finished q _ => q
  end.

(** The commands of one thread. *)
Definition sent_by (i : nat) (h : list (nat * request * answer)) : list (nat * request * answer) :=
  filter (λ e, e.1.1 = i) h.

(** What a thread has sent, by where it is: once its request and its answer, or
    nothing, and then it was or will be refused. *)
Definition sent_ok (i : nat) (t : thread) (h : list (nat * request * answer)) : Prop :=
  match t with
  | Ready _ | Borrowed _ _ | Locked _ _ _ => sent_by i h = []
  | Replied q _ a => sent_by i h = [(i, q, a)]
  | Unlocked q _ a | Finished q a => sent_by i h = [(i, q, a)] ∨ (sent_by i h = [] ∧ a = refusal q)
  end.

Record history_inv (m0 : gmap bytes bytes) (reqs : list request) (s : sys) : Prop := {
  hi_world : w_inv (world (cache s));
  hi_legal : legal m0 (history s) (written (world (cache s)));
  hi_requests : request_of <$> threads s = reqs;
  hi_sent i t : threads s !! i = Some t → sent_ok i t (history s)
}.

(** One command is one step of the specification. *)
Lemma command_spec q x (w w' : W) reply :
  w_inv w → NUL ∉ key_of q → redisCommand x (command q) w = (reply, w') →
  w_inv w' ∧ cache_spec (written w) q (read_reply q reply) (written w').
Proof.
  intros Hw Hk Hc. destruct q as [k|k v]; simpl in *; rewrite c_str_id in Hc by done.
  - destruct (get_reply_ok _ _ _ _ _ Hw Hk Hc) as (? & -> & Hr). split; [done|].
    destruct reply as [[]|]; try done; try apply spec_miss. by apply spec_hit.
  - destruct (set_reply_ok _ _ _ _ _ _ Hw Hk Hc) as (? & Hwr & Hr). split; [done|].
    set (b := match reply with Some (REDIS_REPLY_STATUS s) => is_OK s | _ => false end).
    destruct Hwr as [Hwr| ->]; [|apply spec_put]. destruct b eqn:Hb.
    + assert (written w' !! k = Some v) as Hl.
      { subst b. destruct reply as [[]|]; try discriminate. by eapply Hr. }
      rewrite Hwr in Hl |- *. rewrite <- (insert_id (written w) k v) at 2 by done. apply spec_put.
    + rewrite Hwr. apply spec_refused.
Qed.

Lemma sent_by_app i h1 h2 : sent_by i (h1 ++ h2) = sent_by i h1 ++ sent_by i h2.
Proof.
  unfold sent_by. induction h1 as [|e h1 IH]; [done|]. cbn [app]. rewrite !filter_cons. by case_decide; rewrite IH.
Qed.

Lemma sent_by_one i j q a : sent_by i [(j, q, a)] = if decide (j = i) then [(j, q, a)] else [].
Proof. unfold sent_by. rewrite filter_cons. simpl. case_decide; done. Qed.

(** The answer a thread has, if any. *)
Definition answer_of (t : thread) : option answer :=
  match t with Replied _ _ a | Unlocked _ _ a | Finished _ a => Some a | _ => None end.

(** What a step does to the server: a command is one step of the specification,
    which gives the thread its answer; any other step leaves the contents alone,
    and the thread keeps its answer or is refused. *)
Lemma advance_effect i t t' (c c' : RedisCache W) :
  w_inv (world c) → NUL ∉ key_of (request_of t) → advance t c = Ret (t', c') →
  w_inv (world c') ∧ request_of t' = request_of t ∧
  ((∃ a, event i t t' = [(i, request_of t, a)] ∧ answer_of t' = Some a ∧
         cache_spec (written (world c)) (request_of t) a (written (world c'))) ∨
   event i t t' = [] ∧ written (world c') = written (world c) ∧
     (answer_of t' = answer_of t ∨ answer_of t = None ∧ answer_of t' = Some (refusal (request_of t)))).
Proof.
  intros Hw Hk. destruct t as [q|q conn|q conn x|q conn a|q conn a|q a]; cbn [advance].
  - destruct (negb (valid q)); [intros [= <- <-]; split_and!; [done..|by right; split_and!; [..|right]]|].
    destruct (getOneConnection _) as [conn p1]. intros [= <- <-].
    destruct (conn =? null_conn)%N; (split_and!; [done..|right; split_and!; [done..|]]); [by right|by left].
  - destruct (heap c !! conn) as [rc|]; [|done]. rewrite deref_Some_bind. destruct (__context rc) as [x|].
    + destruct (acquire conn rc (world c)) as [[[got c1] w1]| | |] eqn:Hq; try done. rewrite ret_bind. intros [= <- <-].
      assert (w_inv w1 ∧ written w1 = written (world c)) as [Hw1 Hwr1].
      { unfold acquire in Hq. destruct (_ =? 0); [destruct (__locked rc); [done|injection Hq as <- <- <-; done]|].
        destruct (try_lock_for _ _ _) as [b w2] eqn:Ht. destruct (try_lock_ok _ _ _ _ _ Hw Ht).
        destruct (b && negb (__locked rc)); by injection Hq as <- <- <-. }
      destruct got; (split_and!; [done..|right; split_and!; [done..|]]); [by left|by right].
    + intros [= <- <-]. split_and!; [done..|right]. split_and!; [done..|by right].
  - destruct (redisCommand _ _ _) as [reply w1] eqn:Hc. intros [= <- <-].
    destruct (command_spec _ _ _ _ _ Hw Hk Hc) as [Hw1 Hspec]. split_and!; [done..|left].
    by exists (read_reply q reply).
  - destruct (heap c !! conn) as [rc|]; [|done]. rewrite deref_Some_bind. intros [= <- <-].
    split_and!; [done..|right]. split_and!; [done..|by left].
  - intros [= <- <-]. split_and!; [done..|right]. split_and!; [done..|by left].
  - intros [= <- <-]. split_and!; [done..|right]. split_and!; [done..|by left].
Qed.

(** The commands of a thread, after one of its steps. *)
Lemma sent_ok_advance i t t' (c c' : RedisCache W) h :
  finished t = false → advance t c = Ret (t', c') → sent_ok i t h → sent_ok i t' (h ++ event i t t').
Proof.
  intros Hf Ha Hok. destruct t as [q|q conn|q conn x|q conn a|q conn a|q a]; cbn [advance] in Ha; [..|done];
    cbn [event]; rewrite ?app_nil_r.
  - destruct (negb (valid q)); [injection Ha as <- <-; by right|].
    destruct (getOneConnection _) as [conn p1]. injection Ha as <- <-. destruct (conn =? null_conn)%N; [by right|done].
  - destruct (heap c !! conn) as [rc|]; [|done]. rewrite deref_Some_bind in Ha.
    destruct (__context rc) as [x|]; [|injection Ha as <- <-; by right].
    destruct (acquire _ _ _) as [[[[] c1] w1]| | |]; try done; injection Ha as <- <-; [done|by right].
  - destruct (redisCommand _ _ _) as [reply w1]. injection Ha as <- <-. cbn [sent_ok] in *.
    by rewrite sent_by_app, Hok, sent_by_one, decide_True.
  - destruct (heap c !! conn) as [rc|]; [|done]. rewrite deref_Some_bind in Ha. injection Ha as <- <-. by left.
  - by injection Ha as <- <-.
Qed.

(** ... and after a step of another. *)
Lemma sent_ok_other i j u t t' h : j ≠ i → sent_ok j u h → sent_ok j u (h ++ event i t t').
Proof.
  intros Hne. assert (sent_by j (h ++ event i t t') = sent_by j h) as E.
  { rewrite sent_by_app. destruct t, t'; cbn [event]; rewrite ?app_nil_r; try done.
    by rewrite sent_by_one, decide_False, app_nil_r. }
  destruct u; cbn [sent_ok]; by rewrite E.
Qed.

Lemma history_step m0 reqs s s' :
  Forall (λ q, NUL ∉ key_of q) reqs → history_inv m0 reqs s → redis_step s s' → history_inv m0 reqs s'.
Proof.
  intros Hkeys [Hw Hl Hr Hse] Hst. destruct Hst as [i t t' c' s Hi Hf Ha].
  assert (NUL ∉ key_of (request_of t)) as Hk.
  { rewrite list.Forall_forall in Hkeys. apply Hkeys. rewrite <- Hr. apply list_elem_of_fmap.
    exists t. split; [done|by eapply list_elem_of_lookup_2]. }
  destruct (advance_effect i t t' _ _ Hw Hk Ha) as (Hw1 & Hq & Hor). split; cbn [cache threads history]; [done| | |].
  - destruct Hor as [(a & -> & _ & Hsp)|(-> & -> & _)]; [by eapply legal_snoc|by rewrite app_nil_r].
  - rewrite list_fmap_insert. rewrite list_insert_id; [done|]. by rewrite list_lookup_fmap, Hi, Hq.
  - intros j u [(<- & <- & _)|[Hne Hj]]%list_lookup_insert_Some; [by eapply sent_ok_advance, Hse|].
    by apply sent_ok_other, Hse.
Qed.
End history.

(** * Properties *)

Section properties.
Context {W : Type} `{Hiredis W}.

(** A cache no request is using: no connection counted or locked. *)
Definition idle_cache (c : RedisCache W) : Prop :=
  pool_wf (__connPool c) ∧
  (∀ conn n, find conn (__conns (__connPool c)) = Some n → n = 0%N ∧ is_Some (heap c !! conn)) ∧
  ∀ conn rc, heap c !! conn = Some rc → __locked rc = false.

Definition starting (reqs : list request) (c : RedisCache W) : redis_sys W := mk_redis_sys c (Ready <$> reqs) [].

Lemma omap_none {A B} (f : A → option B) l : Forall (λ x, f x = None) l → omap f l = [].
Proof. induction 1 as [|x l Hx _ IH]; [done|]. cbn [omap list_omap]. by rewrite Hx. Qed.

Lemma omap_starting {B} (f : thread → option B) reqs : (∀ q, f (Ready q) = None) → omap f (Ready <$> reqs) = [].
Proof. intros Hf. apply omap_none, Forall_fmap, list.Forall_forall. intros q _. apply Hf. Qed.

Lemma starting_inv reqs c : idle_cache c → redis_inv (starting reqs c).
Proof.
  intros (Hwf & Hp & Hl). split; cbn [cache threads starting]; [done|..].
  - intros conn. rewrite omap_starting by done. unfold refs. destruct (find conn _) as [n|] eqn:Hf; [|done].
    by destruct (Hp _ _ Hf) as [-> _].
  - intros conn [n Hf]. by apply (Hp _ _ Hf).
  - intros conn rc Hrc. rewrite omap_starting by done. by rewrite (Hl _ _ Hrc).
  - intros t conn x Ht. apply list_elem_of_fmap in Ht as (q & -> & _). done.
Qed.

Lemma reachable_inv reqs c s : idle_cache c → reachable redis_step (starting reqs c) s → redis_inv s.
Proof. intros Hc. eapply reachable_invariant; [apply redis_step_inv|by apply starting_inv]. Qed.

(** When every thread has finished nothing is in use. *)
Lemma finished_idle s : redis_inv s → all_finished s → idle_cache (cache s).
Proof.
  intros Hs Hf. assert (∀ (f : thread → option conn_ptr), (∀ q a, f (Finished q a) = None) → omap f (threads s) = []) as Hnil.
  { intros f Hfn. apply omap_none. apply (list.Forall_impl _ _ _ Hf). by intros []. }
  split; [apply Hs|]. split.
  - intros conn n Hn. split; [|apply (ri_heap _ Hs); by eexists].
    pose proof (ri_refs _ Hs conn) as Hr. rewrite Hnil in Hr by done. unfold refs in Hr. by rewrite Hn in Hr.
  - intros conn rc Hrc. pose proof (ri_locks _ Hs _ _ Hrc) as Hl. rewrite Hnil in Hl by done.
    by destruct (__locked rc).
Qed.

(** C12: in every interleaving of requests on one cache, a connection is locked
    exactly while one thread is between taking and releasing its lock, and never
    two at once, so that commands and replies on it are not mixed; its count is
    the number of threads that have it, within the limit; no thread ever uses a
    missing connection. *)
Theorem redis_mutual_exclusion reqs c s :
  idle_cache c → reachable redis_step (starting reqs c) s →
  (∀ i j t u conn, threads s !! i = Some t → threads s !! j = Some u →
     locked_by t = Some conn → locked_by u = Some conn → i = j) ∧
  (∀ conn rc, heap (cache s) !! conn = Some rc →
     __locked rc = true ↔ ∃ t, t ∈ threads s ∧ locked_by t = Some conn) ∧
  (∀ conn, refs (__connPool (cache s)) conn = holders conn (omap held_by (threads s)) ∧
           (refs (__connPool (cache s)) conn ≤ __maxRef (__connPool (cache s)))%N) ∧
  (∀ i t, threads s !! i = Some t → advance t (cache s) ≠ Undef).
Proof.
  intros Hc Hr. pose proof (reachable_inv _ _ _ Hc Hr) as Hs.
  assert (∀ conn rc, heap (cache s) !! conn = Some rc → (holders conn (omap locked_by (threads s)) ≤ 1)%N) as Hone.
  { intros conn rc Hrc. rewrite (ri_locks _ Hs _ _ Hrc). by destruct (__locked rc). }
  split_and!.
  - intros i j t u conn Hi Hj Ht Hu. destruct (decide (i = j)) as [|Hne]; [done|exfalso].
    destruct (held_exists t conn s Hs (list_elem_of_lookup_2 _ _ _ Hi)) as [rc Hrc]; [by destruct t|].
    specialize (Hone conn rc Hrc). destruct (list_focus _ _ _ Hi) as (ts & Hp & _).
    assert (u ∈ ts) as Hin.
    { rewrite (delete_Permutation _ _ _ Hi) in Hp. apply Permutation_cons_inv in Hp. rewrite <- Hp.
      apply list_elem_of_lookup. destruct (decide (j < i)%nat).
      - exists j. by rewrite list_lookup_delete_lt.
      - exists (j - 1)%nat. rewrite list_lookup_delete_ge by lia. by replace (S (j - 1)) with j by lia. }
    apply elem_of_Permutation in Hin as [ts' Hp'].
    rewrite (holders_perm conn _ (omap locked_by (t :: u :: ts'))) in Hone by by rewrite Hp, Hp'.
    rewrite !locked_cons, !decide_True in Hone by done. lia.
  - intros conn rc Hrc. pose proof (ri_locks _ Hs _ _ Hrc) as Hl. split.
    + intros Hlk. rewrite Hlk in Hl.
      assert (conn ∈ omap locked_by (threads s)) as (t & Ht & Hlt)%list_elem_of_omap; [|by exists t].
      apply list_elem_of_In, (count_occ_In N.eq_dec). unfold holders in Hl. simpl in Hl. lia.
    + intros (t & Ht & Hlt). apply elem_of_Permutation in Ht as [ts Hp].
      rewrite (holders_perm conn _ (omap locked_by (t :: ts))), locked_cons, decide_True in Hl by first [done|by rewrite Hp].
      destruct (__locked rc); [done|simpl in Hl; lia].
  - intros conn. split; [apply Hs|]. unfold refs. destruct (find conn _) as [n|] eqn:Hf; simpl; [|lia].
    by apply (wf_refs _ (ri_pool _ Hs) conn).
  - intros i t Hi. by destruct (advance_defined i t s Hs Hi) as [(t' & c' & ->)|(-> & _)].
Qed.

(** C10: however the threads are scheduled, all requests come to an end: no
    execution goes on for ever or stops with a thread waiting for a lock, and at
    its end every connection is back in the pool and unlocked. *)
Theorem redis_requests_finish reqs c :
  idle_cache c → inevitable redis_step (λ s, all_finished s ∧ idle_cache (cache s)) (starting reqs c).
Proof.
  intros Hc. apply (inevitable_strengthen _ redis_inv all_finished).
  - apply redis_step_inv.
  - intros s Hs Hf. split; [done|by apply finished_idle].
  - by apply starting_inv.
  - apply (inevitable_measure _ redis_inv _ work); [apply _| |apply redis_progress|by apply starting_inv].
    intros s s' Hs Hst. split; [by eapply redis_step_inv|by apply redis_step_works].
Qed.

(** A request that no other interrupts does in its five steps exactly what
    [get] and [put] do. *)
Theorem request_alone key val (s : RedisCache W) :
  run_alone 5 (Ready (Get key)) s =
    ('(r, s') ← redis_get key s; mret (Finished (Get key) (Found r), s')) ∧
  run_alone 5 (Ready (Put key val)) s =
    ('(b, s') ← redis_put key val s; mret (Finished (Put key val) (Stored b), s')).
Proof.
  split; rewrite run_ready; cbn [valid].
  - unfold redis_get. destruct (redis_validKey key); cbn [negb]; [|done].
    destruct (getOneConnection (__connPool s)) as [conn p1]. destruct (conn =? null_conn)%N; [done|].
    unfold set_pool. destruct (heap s !! conn) as [rc|] eqn:Hrc; [|cbn [run_alone advance heap]; by rewrite Hrc].
    rewrite (run_borrowed _ _ rc) by done. rewrite deref_Some_bind. unfold getKey.
    destruct (__context rc) as [x|]; [|done]. destruct (acquire conn rc (world s)) as [[[got c1] w1]| | |]; try done.
    rewrite !ret_bind. destruct got; cbn [negb]; [|done]. by destruct (redisCommand _ _ _).
  - unfold redis_put. rewrite negb_andb. destruct (negb (redis_validKey key) || negb (redis_validVal val)); [done|].
    destruct (getOneConnection (__connPool s)) as [conn p1]. destruct (conn =? null_conn)%N; [done|].
    unfold set_pool. destruct (heap s !! conn) as [rc|] eqn:Hrc; [|cbn [run_alone advance heap]; by rewrite Hrc].
    rewrite (run_borrowed _ _ rc) by done. rewrite deref_Some_bind. unfold putKey.
    destruct (__context rc) as [x|]; [|done]. destruct (acquire conn rc (world s)) as [[[got c1] w1]| | |]; try done.
    rewrite !ret_bind. destruct got; cbn [negb]; [|done]. by destruct (redisCommand _ _ _).
Qed.

(** C8: concurrent requests, for keys without a NUL character, behave as if made
    one at a time: over a server that keeps what it is sent, the answers given are
    those of a cache that serves the requests one after the other, in the order of
    their commands, from the first contents to the last; each finished request is in
    that order once with the answer it was given, or it sent nothing and was refused. *)
Theorem concurrent_cache_linearizable `{!HiredisOk W} reqs c s :
  w_inv (world c) → Forall (λ q, NUL ∉ key_of q) reqs →
  reachable redis_step (starting reqs c) s →
  legal (written (world c)) (history s) (written (world (cache s))) ∧
  ∀ i q a, threads s !! i = Some (Finished q a) →
    reqs !! i = Some q ∧
    (sent_by i (history s) = [(i, q, a)] ∨ (sent_by i (history s) = [] ∧ a = refusal q)).
Proof.
  intros Hw Hk Hr.
  assert (history_inv (written (world c)) reqs s) as Hs.
  { apply (reachable_invariant redis_step (history_inv (written (world c)) reqs) (starting reqs c)); [| |exact Hr].
    - intros s1 s2 H1 Hst. by eapply history_step.
    - split; cbn [cache threads history starting]; [done|apply legal_nil| |].
      + rewrite <- list_fmap_compose. apply list_fmap_id.
      + intros i t Hi. apply list_lookup_fmap_Some in Hi as (q & -> & _). done. }
  split; [apply Hs|]. intros i q a Hi. split; [|exact (hi_sent _ _ _ Hs _ _ Hi)].
  rewrite <- (hi_requests _ _ _ Hs), list_lookup_fmap, Hi. done.
Qed.
End properties.
