(* ===== verification/AccessThreads.v ===== *)
(** HttpUtils/ResourceAccessor over Cache/RedisCache, several threads: the I/O
    workers share one cached accessor, and through it one Redis cache.

    An access looks the path up in the cache, on a miss reads the file, and puts
    what it read into the cache. The requests it makes of the cache are the threads
    of RedisThreads.v, so that accesses interleave at every lock, command and reply;
    what is between them touches only variables of the access and the files. *)

From S2P Require Export ResourceAccessor RedisThreads.

(** Where an access is: in [__cache->get], after a miss, in [__cache->put], or at
    its end, with what it returns. *)
Inductive caller :=
| Looking (sr : ValidResource) (t : thread)
| Missed (sr : ValidResource)
| Filling (sr : ValidResource) (resource : bytes) (t : thread)
| Accessed (sr : ValidResource) (res : option reader * Error).

Section callers.
Context {W : Type} `{Hiredis W} `{FileSystem} `{FileAvail}.

Definition start_access (sr : ValidResource) : caller := Looking sr (Ready (Get (getPath sr))).

(** The next step of an access; [Spin] while it is blocked on a lock. *)
Definition next_access (fuel : nat) (c : caller) (s : RedisCache W) : outcome (caller * RedisCache W) :=
  match c with
  | Looking sr t =>
      if finished t then
        match answer_of t with
        | Some (Found (Some resource)) => Ret (Accessed sr (Some (istringstream resource), SERVER_OK), s)
        | _ => Ret (Missed sr, s)
        end
      else '(t', s') ← advance t s; mret (Looking sr t', s')
  | Missed sr =>
      match FileAccessor_access sr with
      | (Some in_, SERVER_OK) =>
          r ← load_resource (C := RedisCache W) fuel (getPath sr) in_;
          mret (match r with
                | inl resource => Filling sr resource (Ready (Put (getPath sr) resource))
                | inr res => Accessed sr res
                end, s)
      | res => Ret (Accessed sr res, s)
      end
  | Filling sr resource t =>
      if finished t then Ret (Accessed sr (Some (istringstream resource), SERVER_OK), s)
      else '(t', s') ← advance t s; mret (Filling sr resource t', s')
  | Accessed sr res => Ret (c, s)
  end.

Definition accessed (c : caller) : bool := match c with Accessed _ _ => true | _ => false end.

(** An access on its own. *)
Definition access_alone (fuel : nat) (x y : caller * RedisCache W) : Prop := next_access fuel x.1 x.2 = Ret y.

(** All of them. *)
Record access_sys := mk_access_sys { shared_cache : RedisCache W; callers : list caller }.

Inductive access_step (fuel : nat) : access_sys → access_sys → Prop :=
| access_advance i c c' s' s :
    callers s !! i = Some c → accessed c = false → next_access fuel c (shared_cache s) = Ret (c', s') →
    access_step fuel s (mk_access_sys s' (<[i := c']> (callers s))).

Definition starting_accesses (srs : list ValidResource) (s : RedisCache W) : access_sys :=
  mk_access_sys s (start_access <$> srs).

(** ** Alone, the steps are the function *)

Lemma request_runs fuel (wrap : thread → caller) n t s q a s' :
  (∀ t s, next_access fuel (wrap t) s = if finished t then next_access fuel (wrap t) s
          else '(t', s') ← advance t s; mret (wrap t', s')) →
  run_alone n t s = Ret (Finished q a, s') →
  rtc (access_alone fuel) (wrap t, s) (wrap (Finished q a), s').
Proof.
  intros Hw. revert t s. induction n as [|n IH]; intros t s; cbn [run_alone]; [by intros [= -> ->]|].
  destruct (finished t) eqn:Hf.
  - destruct t; try done. cbn [advance]. rewrite ret_bind, run_alone_finished. by intros [= <- <- <-].
  - destruct (advance t s) as [[t1 s1]| | |] eqn:Ha; try done. rewrite ret_bind. intros Hr.
    eapply rtc_l; [|exact (IH _ _ Hr)]. unfold access_alone. cbn [fst snd]. by rewrite Hw, Hf, Ha.
Qed.

Lemma looking_runs fuel sr n t s q a s' :
  run_alone n t s = Ret (Finished q a, s') →
  rtc (access_alone fuel) (Looking sr t, s) (Looking sr (Finished q a), s').
Proof. apply request_runs. intros t0 s0. by destruct (finished t0) eqn:E; [|cbn [next_access]; rewrite E]. Qed.

Lemma filling_runs fuel sr d n t s q a s' :
  run_alone n t s = Ret (Finished q a, s') →
  rtc (access_alone fuel) (Filling sr d t, s) (Filling sr d (Finished q a), s').
Proof. apply (request_runs fuel (Filling sr d)). intros t0 s0. by destruct (finished t0) eqn:E; [|cbn [next_access]; rewrite E]. Qed.
End callers.
Arguments access_sys : clear implicits.

(** * What every interleaving keeps *)

Section invariant.
Context {W : Type} `{HiredisOk W} `{FileSystemOk} `{FileAvailOk} (fuel : nat).
Abbreviation sys := (access_sys W).

(** The request a caller is making, or has made. *)
Definition request_thread (c : caller) : thread :=
  match c with
  | Looking _ t | Filling _ _ t => t
  | Missed sr | Accessed sr _ => Finished (Get (getPath sr)) (Found None)
  end.

Definition redis_view (s : sys) : redis_sys W := mk_redis_sys (shared_cache s) (request_thread <$> callers s) [].

Definition resource_of (c : caller) : ValidResource :=
  match c with Looking sr _ | Missed sr | Filling sr _ _ | Accessed sr _ => sr end.

(** The server holds nothing but the contents of files under their paths. *)
Definition files_agree (w : W) : Prop := ∀ k v, NUL ∉ k → written w !! k = Some v → file_content k = Some v.

(** What an access has to return. *)
Definition delivered (sr : ValidResource) (res : option reader * Error) : Prop :=
  match file_content (getPath sr) with
  | Some d => ∃ r, res = (Some r, SERVER_OK) ∧ r_data r = d ∧ r_pos r = 0%nat ∧ r_fail r = false
  | None => res = (None, INVALID_FILE_PATH)
  end.

(** A path Redis can carry, to a file that is not too long for the fuel. *)
Definition accessible (sr : ValidResource) : Prop :=
  (NUL ∉ getPath sr) ∧ ∀ d, file_content (getPath sr) = Some d → (length d ≤ fuel)%nat.

Definition caller_ok (c : caller) : Prop :=
  accessible (resource_of c) ∧
  match c with
  | Looking sr t =>
      request_of t = Get (getPath sr) ∧
      ∀ v, answer_of t = Some (Found (Some v)) → file_content (getPath sr) = Some v
  | Missed _ => True
  | Filling sr d t => request_of t = Put (getPath sr) d ∧ file_content (getPath sr) = Some d
  | Accessed sr res => delivered sr res
  end.

Record access_inv (srs : list ValidResource) (s : sys) : Prop := {
  ai_redis : redis_inv (redis_view s);
  ai_world : w_inv (world (shared_cache s));
  ai_files : files_agree (world (shared_cache s));
  ai_callers i c : callers s !! i = Some c → caller_ok c;
  ai_resources : resource_of <$> callers s = srs
}.

(** One caller moves on: what is left to show. *)
Lemma access_inv_put srs i c c' s' s :
  access_inv srs s → callers s !! i = Some c →
  redis_inv (mk_redis_sys s' (<[i := request_thread c']> (request_thread <$> callers s)) []) →
  w_inv (world s') → files_agree (world s') → resource_of c' = resource_of c → caller_ok c' →
  access_inv srs (mk_access_sys s' (<[i := c']> (callers s))).
Proof.
  intros [_ _ _ Hc Hr] Hi Hinv Hw Hf Hsr Hok. split; cbn [shared_cache callers]; [|done|done| |].
  - unfold redis_view. cbn [shared_cache callers]. by rewrite list_fmap_insert.
  - intros j u [(<- & <- & _)|[_ Hj]]%list_lookup_insert_Some; [done|by eapply Hc].
  - rewrite list_fmap_insert, Hsr, list_insert_id; [done|]. by rewrite list_lookup_fmap, Hi.
Qed.

(** A step of the caller alone, between its requests. *)
Lemma access_inv_local srs i c c' s :
  access_inv srs s → callers s !! i = Some c →
  held_by (request_thread c) = None → held_by (request_thread c') = None →
  resource_of c' = resource_of c → caller_ok c' →
  access_inv srs (mk_access_sys (shared_cache s) (<[i := c']> (callers s))).
Proof.
  intros Hs Hi Hh Hh' Hsr Hok. apply (access_inv_put srs i c); [done..| |apply Hs|apply Hs|done|done].
  apply (redis_inv_idle i (request_thread c) _ [] (redis_view s)); [apply Hs| |done|done].
  cbn [redis_view threads]. by rewrite list_lookup_fmap, Hi.
Qed.

(** A step of its request. *)
Lemma access_inv_request srs i c t t' c' s' s :
  access_inv srs s → callers s !! i = Some c → request_thread c = t → request_thread c' = t' →
  NUL ∉ key_of (request_of t) → advance t (shared_cache s) = Ret (t', s') →
  files_agree (world s') → resource_of c' = resource_of c → caller_ok c' →
  access_inv srs (mk_access_sys s' (<[i := c']> (callers s))).
Proof.
  intros Hs Hi <- <- Hk Ha Hf Hsr Hok. apply (access_inv_put srs i c); [done..| | |done|done|done].
  - apply (advance_inv i (request_thread c) _ _ [] (redis_view s)); [apply Hs| |done].
    cbn [redis_view threads]. by rewrite list_lookup_fmap, Hi.
  - by destruct (advance_effect i _ _ _ _ (ai_world _ _ Hs) Hk Ha) as (? & _).
Qed.

Lemma held_finished t : finished t = true → held_by t = None.
Proof. by destruct t. Qed.

(** After a miss: the file is handed on, or goes into the cache. *)
Lemma missed_step sr (s : RedisCache W) :
  accessible sr →
  ∃ c', next_access fuel (Missed sr) s = Ret (c', s) ∧ resource_of c' = sr ∧ caller_ok c' ∧
        held_by (request_thread c') = None.
Proof.
  intros Hsr. pose proof (FileAccessor_spec sr) as Hspec. cbn [next_access]. pose proof Hsr as [_ Hlen].
  destruct (file_content (getPath sr)) as [d|] eqn:Hd.
  - destruct Hspec as (r & Hr & Hrd & _). rewrite Hr.
    assert (fs_open (getPath sr) = Some r) as Ho.
    { unfold FileAccessor_access in Hr. destruct (fs_open _); [by injection Hr as ->|done]. }
    destruct (load_resource_ok (C := RedisCache W) fuel (getPath sr) r Ho) as [->|[-> Hf]];
      [rewrite Hrd; by apply Hlen|..]; rewrite ret_bind; eexists; (split_and!; [done|done| |done]);
      (split; [exact Hsr|]).
    + split; [by rewrite Hrd|]. by rewrite Hd, Hrd.
    + unfold delivered. rewrite Hd. by exists (set_pos 0 r).
  - rewrite Hspec. eexists. split_and!; [done|done| |done]. split; [exact Hsr|].
    unfold delivered. by rewrite Hd.
Qed.

Lemma access_step_inv srs s s' : access_inv srs s → access_step fuel s s' → access_inv srs s'.
Proof.
  intros Hs Hst. destruct Hst as [i c c' s' s Hi Hacc Ha]. destruct (ai_callers _ _ Hs _ _ Hi) as [Hsr Hc].
  destruct c as [sr t|sr|sr d t|sr res]; cbn [next_access] in Ha; [..|done].
  - destruct Hc as [Hq Hans]. destruct (finished t) eqn:Hf.
    + assert (Ret (match answer_of t with
               | Some (Found (Some resource)) => Accessed sr (Some (istringstream resource), SERVER_OK)
               | _ => Missed sr
               end, shared_cache s) = Ret (c', s')) as [= <- <-] by (by repeat case_match).
      apply (access_inv_local srs i (Looking sr t)); [done|done|by apply held_finished|..].
      * by repeat case_match.
      * by repeat case_match.
      * destruct (answer_of t) as [[[v|]|]|]; try done. split; [done|]. cbn. unfold delivered.
        rewrite (Hans v eq_refl). by exists (istringstream v).
    + destruct (advance t (shared_cache s)) as [[t' s1]| | |] eqn:Hadv; try done. injection Ha as <- <-.
      assert (NUL ∉ key_of (request_of t)) as Hk by (rewrite Hq; apply Hsr).
      destruct (advance_effect i _ _ _ _ (ai_world _ _ Hs) Hk Hadv) as (Hw & Hq' & Hor).
      pose proof (ai_files _ _ Hs) as Hfa. rewrite Hq in Hor.
      apply (access_inv_request srs i (Looking sr t) t t'); [done..| |done|]; cycle 1.
      * split; [done|]. split; [congruence|]. intros v Hv. destruct Hor as [(a & _ & Ha & Hsp)|(_ & _ & [Ha|[_ Ha]])].
        -- rewrite Hv in Ha. injection Ha as <-. inversion Hsp; subst. apply Hfa; [apply Hsr|done].
        -- apply Hans. congruence.
        -- rewrite Hv in Ha. done.
      * intros k v Hk' Hv. apply Hfa; [done|]. destruct Hor as [(a & _ & _ & Hsp)|(_ & Hwr & _)]; [|by rewrite <- Hwr].
        by destruct (spec_contents _ _ _ _ Hsp) as [<-|(? & ? & [=] & _)].
  - destruct (missed_step sr (shared_cache s) Hsr) as (c1 & Hn & Hsr1 & Hok1 & Hh). cbn [next_access] in Hn.
    rewrite Hn in Ha. injection Ha as <- <-. by apply (access_inv_local srs i (Missed sr)).
  - destruct Hc as [Hq Hd]. destruct (finished t) eqn:Hf.
    + injection Ha as <- <-. apply (access_inv_local srs i (Filling sr d t)); [done|done|by apply held_finished|done|done|].
      split; [done|]. cbn. unfold delivered. rewrite Hd. by exists (istringstream d).
    + destruct (advance t (shared_cache s)) as [[t' s1]| | |] eqn:Hadv; try done. injection Ha as <- <-.
      assert (NUL ∉ key_of (request_of t)) as Hk by (rewrite Hq; apply Hsr).
      destruct (advance_effect i _ _ _ _ (ai_world _ _ Hs) Hk Hadv) as (Hw & Hq' & Hor).
      pose proof (ai_files _ _ Hs) as Hfa. rewrite Hq in Hor.
      apply (access_inv_request srs i (Filling sr d t) t t'); [done..| |done|]; cycle 1.
      * split; [done|]. split; [congruence|done].
      * intros k v Hk' Hv. destruct Hor as [(a & _ & _ & Hsp)|(_ & Hwr & _)]; [|rewrite Hwr in Hv; by apply Hfa].
        destruct (spec_contents _ _ _ _ Hsp) as [E|(k0 & v0 & [= <- <-] & E)]; rewrite E in Hv; [by apply Hfa|].
        apply lookup_insert_Some in Hv as [[<- <-]|[_ Hv]]; [done|by apply Hfa].
Qed.

Lemma starting_access_inv srs (s : RedisCache W) :
  idle_cache s → w_inv (world s) → files_agree (world s) → Forall accessible srs →
  access_inv srs (starting_accesses srs s).
Proof.
  intros Hidle Hw Hf Hsr. split; cbn [starting_accesses shared_cache callers]; [|done|done| |].
  - unfold redis_view, starting_accesses. cbn [shared_cache callers]. rewrite <- list_fmap_compose.
    pose proof (starting_inv ((λ sr, Get (getPath sr)) <$> srs) s Hidle) as Hs. unfold starting in Hs.
    by rewrite <- list_fmap_compose in Hs.
  - intros i c Hi. apply list_lookup_fmap_Some in Hi as (sr & -> & Hi). split; [|by split].
    by eapply Forall_lookup_1 in Hsr.
  - rewrite <- list_fmap_compose. apply list_fmap_id.
Qed.

(** A step is defined, or the access waits for the lock of a connection. *)
Lemma next_access_defined srs i c s :
  access_inv srs s → callers s !! i = Some c →
  (∃ c' s', next_access fuel c (shared_cache s) = Ret (c', s')) ∨
  next_access fuel c (shared_cache s) = Spin ∧ finished (request_thread c) = false.
Proof.
  intros Hs Hi. assert (threads (redis_view s) !! i = Some (request_thread c)) as Hv
    by (cbn [redis_view threads]; by rewrite list_lookup_fmap, Hi).
  pose proof (advance_defined i _ _ (ai_redis _ _ Hs) Hv) as Hd. cbn [redis_view cache] in Hd.
  destruct c as [sr t|sr|sr d t|sr res]; cbn [next_access request_thread] in *; [..|left; by eexists _, _].
  - destruct (finished t); [left; repeat case_match; by eexists _, _|].
    destruct Hd as [(t' & c' & ->)|[-> _]]; [left; by eexists _, _|by right].
  - left. destruct (missed_step sr (shared_cache s) (proj1 (ai_callers _ _ Hs _ _ Hi))) as (c' & Hn & _).
    by exists c', (shared_cache s).
  - destruct (finished t); [left; by eexists _, _|].
    destruct Hd as [(t' & c' & ->)|[-> _]]; [left; by eexists _, _|by right].
Qed.

Definition all_accessed (s : sys) : Prop := Forall (λ c, accessed c = true) (callers s).

#[global] Instance all_accessed_dec s : Decision (all_accessed s).
Proof. unfold all_accessed. apply _. Defined.

(** While an access has not returned, some access can make a step. *)
Lemma access_progress srs s : access_inv srs s → ¬ all_accessed s → ∃ s', access_step fuel s s'.
Proof.
  intros Hs Hn. destruct (decide (all_finished (redis_view s))) as [Hf|Hf].
  - apply not_Forall_Exists in Hn; [|apply _]. apply Exists_exists in Hn as (c & Hin & Hc).
    apply list_elem_of_In, list_elem_of_lookup in Hin as [i Hi]. apply not_true_iff_false in Hc.
    destruct (next_access_defined srs i c s Hs Hi) as [(c' & s' & Ha)|[_ Hu]]; [eexists; by eapply access_advance|].
    assert (finished (request_thread c) = true); [|congruence].
    unfold all_finished in Hf. rewrite list.Forall_forall in Hf. apply Hf.
    apply list_elem_of_fmap. exists c. split; [done|by eapply list_elem_of_lookup_2].
  - destruct (redis_progress _ (ai_redis _ _ Hs) Hf) as [v Hst]. inversion Hst as [i t t' c' v0 Hi Ht Ha]; subst.
    cbn [redis_view threads cache] in Hi, Ha. apply list_lookup_fmap_Some in Hi as (c & -> & Hi).
    destruct c as [sr t|sr|sr d t|sr res]; cbn [request_thread] in *; try done;
      eexists; eapply (access_advance fuel i); [exact Hi|done| |exact Hi|done|]; cbn [next_access]; by rewrite Ht, Ha.
Qed.

(** The steps an access still has to make. *)
Definition access_left (c : caller) : nat :=
  match c with
  | Looking _ t => 8 + steps_left t
  | Missed _ => 7
  | Filling _ _ t => 1 + steps_left t
  | Accessed _ _ => 0
  end.

Definition access_work (s : sys) : nat := sum_list_with access_left (callers s).

Lemma access_step_works s s' : access_step fuel s s' → (access_work s' < access_work s)%nat.
Proof.
  intros [i c c' s1 s0 Hi Hacc Ha]. destruct (list_focus _ _ _ Hi) as (cs & Hp & Hput). unfold access_work. cbn [callers].
  rewrite (Hput c'), Hp. simpl. assert (access_left c' < access_left c)%nat; [|lia].
  destruct c as [sr t|sr|sr d t|sr res]; cbn [next_access] in Ha; [..|done].
  - destruct (finished t) eqn:Hf; [by repeat case_match; injection Ha as <- <-; simpl; lia|].
    destruct (advance t (shared_cache s0)) as [[t' s2]| | |] eqn:Hadv; try done. injection Ha as <- <-.
    pose proof (advance_works _ _ _ _ Hf Hadv). simpl. lia.
  - destruct (FileAccessor_access sr) as [[r|] e]; [|injection Ha as <- <-; simpl; lia].
    destruct e; try (injection Ha as <- <-; simpl; lia).
    destruct (load_resource _ _ _) as [[d|res]| | |]; try done; injection Ha as <- <-; simpl; lia.
  - destruct (finished t) eqn:Hf; [injection Ha as <- <-; simpl; lia|].
    destruct (advance t (shared_cache s0)) as [[t' s2]| | |] eqn:Hadv; try done. injection Ha as <- <-.
    pose proof (advance_works _ _ _ _ Hf Hadv). simpl. lia.
Qed.
End invariant.

(** * Properties *)

Section properties.
Context {W : Type} `{Hiredis W} `{FileSystem} `{FileAvail}.

(** An access that no other interrupts is [access]. *)
Theorem access_alone_is_access fuel sr (s s' : RedisCache W) res :
  CachedResourceAccessor_access fuel sr (Some s) = Ret (res, Some s') →
  rtc (access_alone fuel) (start_access sr, s) (Accessed sr res, s').
Proof.
  unfold CachedResourceAccessor_access, start_access. destruct (request_alone (getPath sr) [] s) as [Hget _].
  change (cache_get (getPath sr) s) with (redis_get (getPath sr) s).
  destruct (redis_get (getPath sr) s) as [[hit s1]| | |]; try done. rewrite ret_bind in *.
  intros Hr. etrans; [exact (looking_runs _ _ _ _ _ _ _ _ Hget)|].
  destruct hit as [v|]; [injection Hr as <- <-; by eapply rtc_once|].
  eapply rtc_l; [done|]. destruct (FileAccessor_access sr) as [[in_|] e] eqn:Hfa.
  2: { injection Hr as <- <-. apply rtc_once. unfold access_alone. cbn. by rewrite Hfa. }
  destruct (decide (e = SERVER_OK)) as [->|Hne]; cycle 1.
  { assert (Ret ((Some in_, e), Some s1) = Ret (res, Some s')) as [= <- <-] by (by destruct e).
    apply rtc_once. unfold access_alone. cbn. rewrite Hfa. by destruct e. }
  unfold fill_cache in Hr. destruct (load_resource fuel (getPath sr) in_) as [[d|res1]| | |] eqn:Hl; try done; rewrite ret_bind in Hr.
  - eapply (rtc_l _ _ (Filling sr d (Ready (Put (getPath sr) d)), s1)); [unfold access_alone; cbn; by rewrite Hfa, Hl|].
    destruct (request_alone (getPath sr) d s1) as [_ Hput].
    change (cache_put (getPath sr) d s1) with (redis_put (getPath sr) d s1) in Hr.
    destruct (redis_put (getPath sr) d s1) as [[b s2]| | |]; try done. rewrite ret_bind in *. injection Hr as <- <-.
    etrans; [exact (filling_runs _ _ _ _ _ _ _ _ _ Hput)|]. by apply rtc_once.
  - injection Hr as <- <-. apply rtc_once. unfold access_alone. cbn. by rewrite Hfa, Hl.
Qed.
End properties.

Section shared.
Context {W : Type} `{HiredisOk W} `{FileSystemOk} `{FileAvailOk} (fuel : nat) (srs : list ValidResource) (s0 : RedisCache W)
  (Hidle : idle_cache s0) (Hworld : w_inv (world s0)) (Hfiles : files_agree (world s0)) (Hsrs : Forall (accessible fuel) srs).

(** C9: threads that share a cached accessor over files that do not change get
    what the files hold: in every interleaving, each access that has returned gave
    a reader at the start of the content of its file, or the error of the plain
    accessor; the database keeps agreeing with the files, whatever is forgotten,
    refused or put twice; and no access throws or uses what is not there. *)
Theorem concurrent_access_refines_file s :
  reachable (access_step fuel) (starting_accesses srs s0) s →
  (∀ i sr res, callers s !! i = Some (Accessed sr res) → srs !! i = Some sr ∧ delivered sr res) ∧
  files_agree (world (shared_cache s)) ∧
  (∀ i c, callers s !! i = Some c → ∀ e, next_access fuel c (shared_cache s) ≠ Undef ∧ next_access fuel c (shared_cache s) ≠ Throw e).
Proof.
  intros Hr. assert (access_inv fuel srs s) as Hs
    by (eapply reachable_invariant; [apply access_step_inv|by apply starting_access_inv|exact Hr]).
  split_and!; [|apply Hs|].
  - intros i sr res Hi. split; [|apply (ai_callers _ _ _ Hs _ _ Hi)].
    rewrite <- (ai_resources _ _ _ Hs), list_lookup_fmap, Hi. done.
  - intros i c Hi e. by destruct (next_access_defined fuel srs i c s Hs Hi) as [(c' & s' & ->)|[-> _]].
Qed.

(** C11: however the threads are scheduled, all accesses return: none waits for
    ever for a lock or for the others, and in the end no connection is in use. *)
Theorem concurrent_accesses_finish :
  inevitable (access_step fuel) (λ s, all_accessed s ∧ idle_cache (shared_cache s)) (starting_accesses srs s0).
Proof.
  apply (inevitable_strengthen _ (access_inv fuel srs) all_accessed).
  - intros a b. apply access_step_inv.
  - intros s Hs Hall. split; [done|]. apply (finished_idle (redis_view s)); [apply Hs|].
    apply Forall_fmap. apply (list.Forall_impl _ _ _ Hall). by intros [].
  - by apply starting_access_inv.
  - apply (inevitable_measure _ (access_inv fuel srs) _ access_work); [apply _| |apply access_progress|by apply starting_access_inv].
    intros s s' Hs Hst. split; [by eapply access_step_inv|by eapply access_step_works].
Qed.
End shared.
