(* ===== verification/RedisExamples.v ===== *)
(** A Redis server that keeps what it is sent, and the theorems on the pool and
    the cache at concrete inputs over it. *)

From S2P Require Export RedisCache RedisThreads.

(** * A lawful server *)

#[global] Instance map_server : Hiredis (gmap bytes bytes) := {
  redisConnectWithTimeout _ _ _ w := (Some 1%N, w);
  redis_err _ _ := false;
  redisCommand _ cmd w :=
    match cmd with
    | AUTH pw => (Some (if decide (pw = $"panda") then REDIS_REPLY_STATUS ($"OK") else REDIS_REPLY_ERROR ($"ERR")), w)
    | GET k => (match w !! k with Some v => Some (REDIS_REPLY_STRING v) | None => Some REDIS_REPLY_NIL end, w)
    | SET k v => (Some (REDIS_REPLY_STATUS ($"OK")), <[k := v]> w)
    end;
  redisSetTimeout _ _ w := w;
  redisFree _ w := w;
  try_lock_for _ _ w := (true, w)
}.

#[global, refine] Instance map_server_ok : HiredisOk (gmap bytes bytes) := {
  w_inv _ := True; written w := w
}.
Proof.
  - intros x k w r w' _ _. simpl. destruct (w !! k) eqn:E; intros [= <- <-]; by split_and!.
  - intros x k v w r w' _ _. simpl. intros [= <- <-]. split_and!; [done|by right|].
    intros s _ _. apply lookup_insert_eq.
  - by intros self ms w b w' _ [= _ <-].
Defined.

(** * The pool *)

Definition pool_of (l : conn_ref_map_t) : RedisConnectionPool := mk_pool l 8 2.

Ltac sort_pool := unfold sorted; cbn; repeat first [done | apply SSorted_nil | apply SSorted_cons | constructor].

Ltac wf_pool :=
  split; simpl;
  [ sort_pool | done | done | done
  | intros c n; repeat case_match; by intros [= <-]
  | done ].

(** Two threads share a connection that a third has pushed. *)
Definition shared_clients : clients := mk_clients (pool_of [(7, 2)]%N) [7; 7]%N.

Lemma shared_clients_reachable :
  reachable (pool_step false) (mk_clients (new_RedisConnectionPool 8 2) []) shared_clients.
Proof.
  eapply reach_step; [eapply reach_step; [eapply reach_step; [apply reach_refl|]|]|].
  - exact (step_push false 7%N (mk_clients (new_RedisConnectionPool 8 2) [])).
  - exact (step_get false (mk_clients (pool_of [(7, 0)]%N) []) 7%N (pool_of [(7, 1)]%N) eq_refl).
  - exact (step_get false (mk_clients (pool_of [(7, 1)]%N) [7%N]) 7%N (pool_of [(7, 2)]%N) eq_refl).
Qed.

Lemma pool_counts_holders_witness :
  (∀ c, refs (pool shared_clients) c = holders c (held shared_clients)) ∧
  (∀ c, holders c (held shared_clients) ≤ 2)%N ∧
  curConnNum (pool shared_clients) = 1%N ∧
  (curConnNum (pool shared_clients) ≤ 8)%N ∧
  find null_conn (__conns (pool shared_clients)) = None.
Proof. apply (pool_counts_holders 8 2 shared_clients); [done|exact shared_clients_reachable]. Defined.

Lemma getOneConnection_least_used_witness :
  pool_wf (pool_of [(7, 2); (9, 1)]%N) ∧
  (9%N = null_conn ↔ ∀ c' n, find c' [(7, 2); (9, 0)]%N = Some n → n = 2%N) ∧
  (9%N = null_conn → pool_of [(7, 2); (9, 1)]%N = pool_of [(7, 2); (9, 0)]%N) ∧
  (9%N ≠ null_conn → (refs (pool_of [(7, 2); (9, 0)]%N) 9 < 2)%N ∧
     (∀ c' n, find c' [(7, 2); (9, 0)]%N = Some n → refs (pool_of [(7, 2); (9, 0)]%N) 9 ≤ n)%N ∧
     find 9%N [(7, 2); (9, 1)]%N = Some (refs (pool_of [(7, 2); (9, 0)]%N) 9 + 1)%N) ∧
  (∀ c', c' ≠ 9%N → find c' [(7, 2); (9, 1)]%N = find c' [(7, 2); (9, 0)]%N).
Proof.
  apply (getOneConnection_least_used (pool_of [(7, 2); (9, 0)]%N) 9 (pool_of [(7, 2); (9, 1)]%N)); [wf_pool|reflexivity].
Defined.

Lemma unlimited_pool_broken_witness :
  let p := mk_pool [(7, 0)]%N 8 UINT_MAX in
  getOneConnection p = (null_conn, set_conns (adjust (λ n, uint32 (n + 1)) null_conn [(7, 0)]%N) p) ∧
  find null_conn (__conns (snd (getOneConnection p))) = Some 1%N.
Proof. apply (unlimited_pool_broken 8 [(7, 0)]%N); [sort_pool|reflexivity]. Defined.

(** * The cache *)

Definition linked : RedisConnection := set_context (Some 1%N) new_RedisConnection.

Definition demo_cache : RedisCache (gmap bytes bytes) :=
  mk_cache (pool_of [(7, 0)]%N) {[7%N := linked]} ∅.

Lemma demo_cache_wf : cache_wf demo_cache.
Proof.
  split; [simpl; wf_pool|]. intros c n. simpl. destruct (N.eqb_spec c 7) as [->|]; [|done].
  intros _. exists linked. by rewrite lookup_singleton_eq.
Qed.

Definition stored_cache : RedisCache (gmap bytes bytes) := set_world {[$"./a.html" := $"<p>a</p>"]} demo_cache.

Lemma redis_requests_restore_witness :
  (∃ r w, redis_get ($"./a.html") demo_cache = Ret (r, set_world w demo_cache)) ∧
  (∃ b w, redis_put ($"./a.html") ($"<p>a</p>") demo_cache = Ret (b, set_world w demo_cache)).
Proof. apply (redis_requests_restore ($"./a.html") ($"<p>a</p>") demo_cache demo_cache_wf). Defined.

Lemma redis_put_get_witness :
  ∃ r s2, redis_get ($"./a.html") stored_cache = Ret (r, s2) ∧ (r = None ∨ r = Some ($"<p>a</p>")).
Proof.
  apply (redis_put_get ($"./a.html") ($"<p>a</p>") demo_cache stored_cache demo_cache_wf);
    [exact I|apply (bool_decide_unpack _); vm_compute; exact I|vm_compute; reflexivity].
Defined.

Lemma redis_nul_keys_collide_witness :
  redis_get ($"a" ++ NUL :: $"b") demo_cache = redis_get ($"a" ++ NUL :: $"c") demo_cache ∧
  redis_put ($"a" ++ NUL :: $"b") ($"1") demo_cache = redis_put ($"a" ++ NUL :: $"c") ($"1") demo_cache.
Proof. apply (redis_nul_keys_collide ($"a" ++ NUL :: $"b") ($"a" ++ NUL :: $"c") ($"1") demo_cache); vm_compute; reflexivity. Defined.

(** A connection with the wrong password, refused by the server above. *)
Definition stranger : RedisConnection := setPasswd ($"bear") new_RedisConnection.

Lemma contextInit_outcomes_witness :
  ∃ e c1 w1, contextInit stranger (∅ : gmap bytes bytes) = Ret (e, c1, w1) ∧ c1 = set_context (Some 1%N) stranger ∧
    (e = SERVER_OK ↔ false = false ∧ ($"bear" = [] ∨ False)) ∧
    contextInit c1 w1 = Ret (REDIS_INIT_ALREADYDONE, c1, w1).
Proof. exact (contextInit_outcomes stranger ∅ eq_refl). Defined.

(** * Threads *)

Definition redis_turn (i : nat) (s : redis_sys (gmap bytes bytes)) : option (redis_sys (gmap bytes bytes)) :=
  t ← threads s !! i;
  if finished t then None
  else match advance t (cache s) with
       | Ret (t', c') => Some (mk_redis_sys c' (<[i := t']> (threads s)) (history s ++ event i t t'))
       | _ => None
       end.

Lemma redis_turn_step i s s' : redis_turn i s = Some s' → redis_step s s'.
Proof.
  unfold redis_turn. destruct (threads s !! i) as [t|] eqn:Hi; [|done]. simpl. destruct (finished t) eqn:Hf; [done|].
  destruct (advance t (cache s)) as [[t' c']| | |] eqn:Ha; try done. intros [= <-]. by eapply redis_advance.
Qed.

Definition two_requests : list request := [Put ($"./a.html") ($"<p>a</p>"); Get ($"./a.html")].

Lemma demo_cache_idle : idle_cache demo_cache.
Proof.
  split; [simpl; wf_pool|]. split.
  - intros conn n. simpl. destruct (N.eqb_spec conn 7) as [->|]; [|done]. intros [= <-].
    split; [done|]. exists linked. by rewrite lookup_singleton_eq.
  - intros conn rc. simpl. intros [_ <-]%lookup_singleton_Some. done.
Qed.

(** Both threads share the only connection; the second one waits for its lock
    while the first one is at its command. *)
Definition contended : redis_sys (gmap bytes bytes) :=
  default (starting two_requests demo_cache) (schedule redis_turn [0; 1; 0; 0]%nat (starting two_requests demo_cache)).
Definition both_done : redis_sys (gmap bytes bytes) :=
  default contended (schedule redis_turn [0; 1; 1; 0; 1; 1]%nat contended).

Lemma contended_reachable : reachable redis_step (starting two_requests demo_cache) contended.
Proof. apply (schedule_reachable _ redis_turn [0; 1; 0; 0]%nat _ (starting two_requests demo_cache)); [exact redis_turn_step|apply reach_refl|vm_compute; reflexivity]. Qed.

Lemma both_done_reachable : reachable redis_step (starting two_requests demo_cache) both_done.
Proof.
  apply (schedule_reachable _ redis_turn [0; 1; 1; 0; 1; 1]%nat _ contended); [exact redis_turn_step|exact contended_reachable|vm_compute; reflexivity].
Qed.

Lemma redis_mutual_exclusion_witness :
  (∀ i j t u conn, threads contended !! i = Some t → threads contended !! j = Some u →
     locked_by t = Some conn → locked_by u = Some conn → i = j) ∧
  (∀ conn rc, heap (cache contended) !! conn = Some rc →
     __locked rc = true ↔ ∃ t, t ∈ threads contended ∧ locked_by t = Some conn) ∧
  (∀ conn, refs (__connPool (cache contended)) conn = holders conn (omap held_by (threads contended)) ∧
           (refs (__connPool (cache contended)) conn ≤ __maxRef (__connPool (cache contended)))%N) ∧
  (∀ i t, threads contended !! i = Some t → advance t (cache contended) ≠ Undef).
Proof. exact (redis_mutual_exclusion two_requests demo_cache contended demo_cache_idle contended_reachable). Defined.

Lemma redis_requests_finish_witness :
  inevitable redis_step (λ s, all_finished s ∧ idle_cache (cache s)) (starting two_requests demo_cache).
Proof. exact (redis_requests_finish two_requests demo_cache demo_cache_idle). Defined.

Lemma concurrent_cache_linearizable_witness :
  legal (written (world demo_cache)) (history both_done) (written (world (cache both_done))) ∧
  ∀ i q a, threads both_done !! i = Some (Finished q a) →
    two_requests !! i = Some q ∧
    (sent_by i (history both_done) = [(i, q, a)] ∨ (sent_by i (history both_done) = [] ∧ a = refusal q)).
Proof.
  apply (concurrent_cache_linearizable two_requests demo_cache both_done); [exact I| |exact both_done_reachable].
  apply (bool_decide_unpack _). vm_compute. exact I.
Defined.

(** The second thread was answered with what the first one had put. *)
Example both_done_answers :
  threads both_done = [Finished (Put ($"./a.html") ($"<p>a</p>")) (Stored true);
                       Finished (Get ($"./a.html")) (Found (Some ($"<p>a</p>")))].
Proof. vm_compute. reflexivity. Qed.
