(* ===== verification/AccessExamples.v ===== *)
(** The theorems on concurrent accesses at concrete inputs: two workers that access
    one page through the Redis server of RedisExamples.v, over the files of
    HttpExamples.v. *)

From S2P Require Export AccessThreads RedisExamples.
From S2P Require HttpExamples.

#[local] Existing Instances HttpExamples.all_avail HttpExamples.two_files.
#[local] Existing Instances HttpExamples.all_avail_ok HttpExamples.two_files_ok.

Definition home : ValidResource := StaticResource ($"./StaticFiles/index.html") ($"/").
Definition nowhere : ValidResource := StaticResource ($"./StaticFiles/none.html") ($"/none").
Definition home_page : bytes := $"<p>home</p>".

(** A schedule of accesses. *)
Definition access_turn (i : nat) (s : access_sys (gmap bytes bytes)) : option (access_sys (gmap bytes bytes)) :=
  c ← callers s !! i;
  if accessed c then None
  else match next_access 100 c (shared_cache s) with
       | Ret (c', s') => Some (mk_access_sys s' (<[i := c']> (callers s)))
       | _ => None
       end.

Lemma access_turn_step i s s' : access_turn i s = Some s' → access_step 100 s s'.
Proof.
  unfold access_turn. destruct (callers s !! i) as [c|] eqn:Hi; [|done]. simpl. destruct (accessed c) eqn:Hf; [done|].
  destruct (next_access 100 c (shared_cache s)) as [[c' s1]| | |] eqn:Ha; try done. intros [= <-]. by eapply access_advance.
Qed.

Definition three_accesses : access_sys (gmap bytes bytes) := starting_accesses [home; home; nowhere] demo_cache.

(** The first two both miss and both put the page; then the third looks for a file
    that does not exist. *)
Definition turns : list nat :=
  [0; 1; 0; 0; 0; 0; 0; 1; 1; 1; 1; 1; 1; 0; 0; 1; 0; 0; 0; 0; 0; 1; 1; 1; 1; 1; 2; 2; 2; 2; 2; 2; 2]%nat.

Definition all_returned : access_sys (gmap bytes bytes) :=
  default three_accesses (schedule access_turn turns three_accesses).

Lemma all_returned_reachable : reachable (access_step 100) three_accesses all_returned.
Proof.
  apply (schedule_reachable _ access_turn turns _ three_accesses); [exact access_turn_step|apply reach_refl|].
  vm_compute. reflexivity.
Qed.

Example all_returned_results :
  callers all_returned =
  [Accessed home (Some (istringstream home_page), SERVER_OK);
   Accessed home (Some (istringstream home_page), SERVER_OK);
   Accessed nowhere (None, INVALID_FILE_PATH)].
Proof. vm_compute. reflexivity. Qed.

Lemma nothing_stored : files_agree (world demo_cache).
Proof. intros k v _. simpl. by rewrite lookup_empty. Qed.

Lemma three_accessible : Forall (accessible 100) [home; home; nowhere].
Proof.
  assert (∀ sr, bool_decide (NUL ∉ getPath sr) = true → accessible 100 sr) as Hsr.
  { intros sr Hn. split; [exact (bool_decide_eq_true_1 _ Hn)|]. intros d. apply HttpExamples.two_files_short. }
  repeat apply Forall_cons_2; [..|apply Forall_nil_2]; apply Hsr; vm_compute; reflexivity.
Qed.

Lemma concurrent_access_refines_file_witness :
  (∀ i sr res, callers all_returned !! i = Some (Accessed sr res) →
     [home; home; nowhere] !! i = Some sr ∧ delivered sr res) ∧
  files_agree (world (shared_cache all_returned)) ∧
  (∀ i c, callers all_returned !! i = Some c → ∀ e,
     next_access 100 c (shared_cache all_returned) ≠ Undef ∧ next_access 100 c (shared_cache all_returned) ≠ Throw e).
Proof.
  exact (concurrent_access_refines_file 100 [home; home; nowhere] demo_cache demo_cache_idle I nothing_stored three_accessible
           all_returned all_returned_reachable).
Defined.

Lemma concurrent_accesses_finish_witness :
  inevitable (access_step 100) (λ s, all_accessed s ∧ idle_cache (shared_cache s)) three_accesses.
Proof.
  exact (concurrent_accesses_finish 100 [home; home; nowhere] demo_cache demo_cache_idle I nothing_stored three_accessible).
Defined.

Lemma access_alone_is_access_witness :
  rtc (access_alone 100) (start_access home, demo_cache)
    (Accessed home (Some (istringstream home_page), SERVER_OK),
     set_world {[getPath home := home_page]} demo_cache).
Proof. apply (access_alone_is_access 100 home demo_cache). vm_compute. reflexivity. Defined.
