(* ===== verification/Buffer.v ===== *)
(** Log/Buffer.hpp: a buffer of fixed capacity with a write position. *)

From S2P Require Export Prelude.

Section Buffer.
Context {T : Type}.

(** [__cur] is the offset of the write position from the start. *)
Record Buffer := mk_Buffer { chBuffer : list T; cur : nat }.

Definition DEFAULT_BFSIZE : nat := 4096.

(** The elements are value-initialised, with [d]. *)
Definition new_Buffer (d : T) (size : nat) : Buffer := mk_Buffer (replicate size d) 0.

Definition capacity (b : Buffer) : nat := length (chBuffer b).
Definition buf_length (b : Buffer) : nat := cur b.
Definition empty (b : Buffer) : bool := Nat.eqb (cur b) 0.
Definition clear (b : Buffer) : Buffer := mk_Buffer (chBuffer b) 0.
Definition rest (b : Buffer) : nat := capacity b - buf_length b.
Definition setLength (len : nat) (b : Buffer) : Buffer :=
  mk_Buffer (chBuffer b) (if Nat.leb len (capacity b) then len else capacity b).

(** The loop of [append]: [*__cur = *_begin] while there is input and room. *)
Fixpoint append (input : list T) (b : Buffer) : nat * Buffer :=
  match input with
  | [] => (0%nat, b)
  | x :: input' =>
      if Nat.ltb (cur b) (capacity b) then
        let '(total, b') := append input' (mk_Buffer (<[cur b := x]> (chBuffer b)) (S (cur b))) in
        (S total, b')
      else (0%nat, b)
  end.

(** What has been buffered: [begin()] to [cur()]. *)
Definition contents (b : Buffer) : list T := take (cur b) (chBuffer b).

Definition buffer_wf (b : Buffer) : Prop := (cur b ≤ capacity b)%nat.

Lemma length_contents b : buffer_wf b → length (contents b) = buf_length b.
Proof. intros H. unfold contents. rewrite length_take. unfold buffer_wf, capacity, buf_length in *. lia. Qed.

(** [append] takes as much of its input as there is room for, and says how much. *)
Lemma append_ok input b total b' :
  buffer_wf b → append input b = (total, b') →
  buffer_wf b' ∧ capacity b' = capacity b ∧ total = Nat.min (length input) (rest b) ∧
  contents b' = contents b ++ take total input.
Proof.
  revert b total b'. induction input as [|x input IH]; intros b total b' Hwf; cbn [append length].
  - intros [= <- <-]. by rewrite app_nil_r.
  - unfold rest, buf_length. destruct (Nat.ltb_spec (cur b) (capacity b)) as [Hlt|Hge].
    + destruct (append input _) as [t b1] eqn:E. intros [= <- <-].
      apply IH in E as (Hwf1 & Hc & Ht & Hcont);
        [|unfold buffer_wf, capacity; simpl; rewrite length_insert; unfold capacity in Hlt; lia].
      assert (capacity (mk_Buffer (<[cur b:=x]> (chBuffer b)) (S (cur b))) = capacity b) as Hcap
        by (unfold capacity; simpl; by rewrite length_insert).
      rewrite Hcap in Hc. unfold rest, buf_length in Ht. rewrite Hcap in Ht. simpl in Ht.
      split_and!; [done|done|lia|]. rewrite Hcont. unfold contents. simpl.
      rewrite (take_S_r _ _ x) by (apply list_lookup_insert_eq; unfold capacity in Hlt; lia).
      rewrite take_insert_ge by done. by rewrite <- app_assoc.
    + intros [= <- <-]. split_and!; [done|done|lia|by rewrite app_nil_r].
Qed.

Lemma new_Buffer_wf d size : buffer_wf (new_Buffer d size) ∧ contents (new_Buffer d size) = [].
Proof. split; [unfold buffer_wf; simpl; lia|done]. Qed.

Lemma setLength_wf len b : buffer_wf (setLength len b) ∧ capacity (setLength len b) = capacity b.
Proof.
  split; [|done]. unfold buffer_wf, setLength, capacity. simpl.
  destruct (Nat.leb_spec len (length (chBuffer b))); lia.
Qed.
End Buffer.
Arguments Buffer : clear implicits.
