(* ===== verification/AsyncLogger.v ===== *)
(** Log/AsyncLogger: buffers handed over by the threads that log, and the logger
    thread that writes them to the log file.

    The state is that of the singleton, with the contents of the log files as the
    file system keeps them. Opening a file, how much of what it is given the stream
    holds back, and how much the file takes are parameters, per attempt. A path is
    that of a file only the logger writes ("/dev/null" keeps nothing). Two ghost
    fields record the bytes accepted by [append] ([logged]) and each transfer to a
    file with its path ([writes]); [log_files] relates the second to [files]. *)

From S2P Require Export Error Buffer.

Abbreviation ch_buff_t := (Buffer ascii).
Abbreviation buffs_t := (list ch_buff_t).

(** The [k]-th attempt to open a path; of [n] bytes in the stream, how many the
    [k]-th write leaves in its buffer; how many of [n] the [k]-th transfer stores;
    and, when it does not store them all, how many of those left are dropped. *)
Class LogFS := {
  can_open : nat → bytes → bool;
  holds_back : nat → nat → nat;
  accepts : nat → nat → nat;
  drops : nat → nat → nat
}.

(** The [std::ofstream]: the path of its open file, [fail()], and what its buffer
    holds that the file has not. *)
Record ofstream := mk_out { o_file : option bytes; o_fail : bool; o_buf : bytes }.

Record AsyncLogger := mk_logger {
  __overflow : N;
  __secondTimeout : N;
  __current : buffs_t;
  __alternate : buffs_t;
  __loggerLocal : buffs_t;
  __out : ofstream;
  __logFile : bytes;
  __running : bool;
  files : gmap bytes bytes;
  nopen : nat;
  nwrite : nat;
  logged : bytes;
  writes : list (bytes * bytes)
}.

Definition DEFAULT_OVERFLOW : N := 2.
Definition DEFAULT_TIMEOUT : N := 10.

(** After the constructor, which starts the logger thread. *)
Definition new_AsyncLogger (fs : gmap bytes bytes) : AsyncLogger :=
  mk_logger DEFAULT_OVERFLOW DEFAULT_TIMEOUT [] [] [] (mk_out None false []) [] true fs 0 0 [] [].

Definition set_buffers (cu al lo : buffs_t) (s : AsyncLogger) : AsyncLogger :=
  mk_logger (__overflow s) (__secondTimeout s) cu al lo (__out s) (__logFile s) (__running s)
            (files s) (nopen s) (nwrite s) (logged s) (writes s).
Definition set_out (o : ofstream) (fs : gmap bytes bytes) (no nw : nat) (wr : list (bytes * bytes)) (s : AsyncLogger) : AsyncLogger :=
  mk_logger (__overflow s) (__secondTimeout s) (__current s) (__alternate s) (__loggerLocal s)
            o (__logFile s) (__running s) fs no nw (logged s) wr.
Definition set_logged (l : bytes) (s : AsyncLogger) : AsyncLogger :=
  mk_logger (__overflow s) (__secondTimeout s) (__current s) (__alternate s) (__loggerLocal s)
            (__out s) (__logFile s) (__running s) (files s) (nopen s) (nwrite s) l (writes s).

Definition stop (s : AsyncLogger) : AsyncLogger :=
  mk_logger (__overflow s) (__secondTimeout s) (__current s) (__alternate s) (__loggerLocal s)
            (__out s) (__logFile s) false (files s) (nopen s) (nwrite s) (logged s) (writes s).
Definition isRunning (s : AsyncLogger) : bool := __running s.
Definition is_open (s : AsyncLogger) : bool := bool_decide (is_Some (o_file (__out s))).
Definition logFileOn (s : AsyncLogger) : bool := is_open s.
Definition getLogFile (s : AsyncLogger) : bytes := __logFile s.

Definition setTimeoutSecond (n : N) (s : AsyncLogger) : bool * AsyncLogger :=
  if (n =? 0)%N then (false, s)
  else (true, mk_logger (__overflow s) n (__current s) (__alternate s) (__loggerLocal s) (__out s)
                        (__logFile s) (__running s) (files s) (nopen s) (nwrite s) (logged s) (writes s)).
Definition setOverflowSize (n : N) (s : AsyncLogger) : bool * AsyncLogger :=
  if (n =? 0)%N then (false, s)
  else (true, mk_logger n (__secondTimeout s) (__current s) (__alternate s) (__loggerLocal s) (__out s)
                        (__logFile s) (__running s) (files s) (nopen s) (nwrite s) (logged s) (writes s)).

(** * Producers *)

(** [__current.back()] of an empty vector is undefined. *)
Definition currentAvailable4 (b : ch_buff_t) (s : AsyncLogger) : outcome bool :=
  if (N.of_nat (length (__current s)) <? __overflow s)%N then Ret true
  else back ← deref (list.last (__current s)); mret (Nat.leb (buf_length b) (rest back)).

Fixpoint update_last {A} (f : A → A) (l : list A) : list A :=
  match l with
  | [] => []
  | [x] => [f x]
  | x :: l' => x :: update_last f l'
  end.

Definition append2Current (b : ch_buff_t) (s : AsyncLogger) : AsyncLogger :=
  let push := set_buffers (__current s ++ [b]) (__alternate s) (__loggerLocal s) s in
  match list.last (__current s) with
  | None => push
  | Some back =>
      if Nat.ltb (rest back) (buf_length b) then push
      else set_buffers (update_last (λ back, snd (Buffer.append (contents b) back)) (__current s))
                       (__alternate s) (__loggerLocal s) s
  end.

(** [append], under the buffers' lock once the logger is seen running. *)
Definition append (b : ch_buff_t) (s : AsyncLogger) : outcome (Error * AsyncLogger) :=
  if negb (isRunning s) then Ret (LOG_THREAD_STOPPED, s) else
  available ← currentAvailable4 b s;
  let s1 := if available : bool then s
            else set_buffers [] (__alternate s ++ __current s) (__loggerLocal s) s in
  mret (SERVER_OK, set_logged (logged s1 ++ contents b) (append2Current b s1)).

(** * The log file *)

Section logfile.
Context `{LogFS}.

(** The contents of a file; one that does not exist has none. *)
Definition file_at (p : bytes) (fs : gmap bytes bytes) : bytes := default [] (fs !! p).

(** The stream gives its file all but [held] of what is in its buffer and [d], of
    which the file may store a part only: whether the transfer failed. *)
Definition transfer (p : bytes) (held : nat) (d : bytes) (s : AsyncLogger) : bool * AsyncLogger :=
  let all := o_buf (__out s) ++ d in
  let m := (length all - held)%nat in
  let n := Nat.min m (accepts (nwrite s) m) in
  let bad := Nat.ltb n m in
  let left := drop (n + if bad then drops (nwrite s) (length all - n) else 0) all in
  (bad, set_out (mk_out (Some p) (o_fail (__out s) || bad) left)
                (<[p := file_at p (files s) ++ take n all]> (files s))
                (nopen s) (S (nwrite s)) (writes s ++ [(p, take n all)]) s).

Definition set_stream (o : ofstream) (s : AsyncLogger) : AsyncLogger :=
  set_out o (files s) (nopen s) (nwrite s) (writes s) s.

(** [__out.write(d).fail()]. *)
Definition out_write (d : bytes) (s : AsyncLogger) : bool * AsyncLogger :=
  match o_file (__out s), o_fail (__out s) with
  | Some p, false => transfer p (holds_back (nwrite s) (length (o_buf (__out s) ++ d))) d s
  | f, _ => (true, set_stream (mk_out f true (o_buf (__out s))) s)
  end.

(** [__out.flush()] of a stream that has failed does nothing. *)
Definition out_flush (s : AsyncLogger) : AsyncLogger :=
  match o_file (__out s), o_fail (__out s) with
  | Some p, false => snd (transfer p 0 [] s)
  | _, _ => s
  end.

(** [__out.close()] gives the file what is left, whether or not the stream has
    failed; closing no file is a failure. *)
Definition out_close (s : AsyncLogger) : AsyncLogger :=
  match o_file (__out s) with
  | Some p => let s1 := snd (transfer p 0 [] s) in set_stream (mk_out None (o_fail (__out s1)) []) s1
  | None => set_stream (mk_out None true []) s
  end.

(** [setLogFile], under the (recursive) file lock: the path is not kept. *)
Definition setLogFile (path : bytes) (s : AsyncLogger) : Error * AsyncLogger :=
  let s1 := if is_open s then out_close (out_flush s) else s in
  if can_open (nopen s1) path
  then (SERVER_OK, set_out (mk_out (Some path) false [])
                           (<[path := file_at path (files s1)]> (files s1))
                           (S (nopen s1)) (nwrite s1) (writes s1) s1)
  else (LOGFILE_OPEN_FAILED, set_out (mk_out None true []) (files s1) (S (nopen s1)) (nwrite s1) (writes s1) s1).

Fixpoint flush_loop (bs : buffs_t) (error : Error) (s : AsyncLogger) : Error * AsyncLogger :=
  match bs with
  | [] => (error, s)
  | b :: bs' =>
      let '(bad, s1) := out_write (contents b) s in
      if bad then flush_loop bs' LOGFILE_WRITE_FAILE (snd (setLogFile (getLogFile s1) s1))
      else flush_loop bs' error s1
  end.

(** The result is that of the writes: [__out.flush()] is not looked at. *)
Definition flush2LogFile (bs : buffs_t) (s : AsyncLogger) : Error * AsyncLogger :=
  if negb (is_open s) then (LOGFILE_OPEN_FAILED, s)
  else let '(error, s1) := flush_loop bs SERVER_OK s in (error, out_flush s1).

(** * The logger thread *)

(** An iteration of [run], up to the release of the buffers' lock: [timeout] is
    what the wait returned. *)
Definition run_take (timeout : bool) (s : AsyncLogger) : AsyncLogger :=
  let '(al, lo) := match __alternate s with
                   | [] => (__alternate s, __loggerLocal s)
                   | _ => (__loggerLocal s, __alternate s)
                   end in
  if timeout then set_buffers [] al (lo ++ __current s) s
  else set_buffers (__current s) al lo s.

(** The rest of the iteration, under the lock of the file. *)
Definition run_flush (s : AsyncLogger) : AsyncLogger :=
  let s1 := snd (flush2LogFile (__loggerLocal s) s) in
  set_buffers (__current s1) (__alternate s1) [] s1.

(** The destructor, under both locks. *)
Definition destroy (s : AsyncLogger) : AsyncLogger :=
  let s0 := if isRunning s then stop s else s in
  let s1 := snd (flush2LogFile (__loggerLocal s0) s0) in
  let s2 := snd (flush2LogFile (__alternate s1) s1) in
  let s3 := snd (flush2LogFile (__current s2) s2) in
  out_close (out_flush (set_buffers [] [] [] s3)).

(** * The system

    Each operation is atomic under its locks. The logger thread is about to test
    whether it goes on ([Looking]), waiting on its condition ([Waiting]), between
    the two halves of an iteration ([Flushing]), or done ([Ended]). *)
Inductive logger_stage := Looking | Waiting | Flushing | Ended.

Record log_sys := mk_sys { lg : AsyncLogger; stage : logger_stage }.

(** A stop while the logger thread waits is seen only after one more iteration. *)
Inductive log_step : log_sys → log_sys → Prop :=
| step_append b s e lg' :
    buffer_wf b → append b (lg s) = Ret (e, lg') → log_step s (mk_sys lg' (stage s))
| step_look s :
    stage s = Looking → isRunning (lg s) = true → log_step s (mk_sys (lg s) Waiting)
| step_take timeout s :
    stage s = Waiting → log_step s (mk_sys (run_take timeout (lg s)) Flushing)
| step_flush s :
    stage s = Flushing → log_step s (mk_sys (run_flush (lg s)) Looking)
| step_end s :
    stage s = Looking → isRunning (lg s) = false → log_step s (mk_sys (stop (lg s)) Ended)
| step_setLogFile path s : log_step s (mk_sys (snd (setLogFile path (lg s))) (stage s))
| step_setTimeout n s : log_step s (mk_sys (snd (setTimeoutSecond n (lg s))) (stage s))
| step_setOverflow n s : log_step s (mk_sys (snd (setOverflowSize n (lg s))) (stage s))
| step_stop s : log_step s (mk_sys (stop (lg s)) (stage s)).
End logfile.

(** * What the buffers hold *)

(** The bytes of a list of buffers, in order. *)
Definition bytes_of (bs : buffs_t) : bytes := concat (contents <$> bs).

(** The bytes in the buffers, in order, and all those accepted that no file has
    yet: what the stream holds comes first. *)
Definition queued (s : AsyncLogger) : bytes :=
  bytes_of (__loggerLocal s) ++ bytes_of (__alternate s) ++ bytes_of (__current s).
Definition pending (s : AsyncLogger) : bytes := o_buf (__out s) ++ queued s.

Definition buffers_wf (s : AsyncLogger) : Prop :=
  Forall buffer_wf (__loggerLocal s) ∧ Forall buffer_wf (__alternate s) ∧ Forall buffer_wf (__current s).

Lemma bytes_of_app l1 l2 : bytes_of (l1 ++ l2) = bytes_of l1 ++ bytes_of l2.
Proof. unfold bytes_of. by rewrite fmap_app, concat_app. Qed.

Lemma bytes_of_snoc l b : bytes_of (l ++ [b]) = bytes_of l ++ contents b.
Proof. rewrite bytes_of_app. unfold bytes_of. simpl. by rewrite app_nil_r. Qed.

Lemma update_last_snoc {A} (f : A → A) l x : update_last f (l ++ [x]) = l ++ [f x].
Proof.
  induction l as [|y l IH]; [done|]. cbn [app update_last]. rewrite IH. by destruct l.
Qed.

Lemma length_update_last {A} (f : A → A) l : length (update_last f l) = length l.
Proof. induction l as [|x [|y l] IH]; [done|done|]. cbn [update_last length] in *. by rewrite IH. Qed.

(** Appending to the current buffers adds the bytes at the end, whichever way. *)
Lemma append2Current_ok b s :
  buffer_wf b → buffers_wf s →
  let s' := append2Current b s in
  buffers_wf s' ∧ pending s' = pending s ++ contents b ∧
  (∃ cu, s' = set_buffers cu (__alternate s) (__loggerLocal s) s) ∧
  (length (__current s') ≤ S (length (__current s)))%nat ∧
  (∀ back, list.last (__current s) = Some back → buf_length b ≤ rest back →
           length (__current s') = length (__current s))%nat.
Proof.
  intros Hb (Hl & Ha & Hc). unfold append2Current.
  assert (buffers_wf (set_buffers (__current s ++ [b]) (__alternate s) (__loggerLocal s) s) ∧
          pending (set_buffers (__current s ++ [b]) (__alternate s) (__loggerLocal s) s) = pending s ++ contents b)
    as [Hpw Hpp].
  { split; [split_and!; simpl; [done|done|apply Forall_app; by split; [|constructor]]|].
    unfold pending, queued. simpl. by rewrite bytes_of_snoc, !app_assoc. }
  destruct (list.last (__current s)) as [back|] eqn:Hlast.
  2: { split_and!; [done|done|by eexists|simpl; rewrite length_app; simpl; lia|done]. }
  destruct (Nat.ltb_spec (rest back) (buf_length b)) as [Hlt|Hge].
  { split_and!; [done|done|by eexists|simpl; rewrite length_app; simpl; lia|intros back' [= <-]; lia]. }
  apply last_Some in Hlast as [l' Hcur]. simpl.
  destruct (Buffer.append (contents b) back) as [t back1] eqn:E.
  rewrite Hcur in Hc. apply Forall_app in Hc as [Hc1 [Hc2 _]%Forall_cons_1].
  destruct (append_ok _ _ _ _ Hc2 E) as (Hwf1 & _ & Ht & Hcont).
  rewrite length_contents, Nat.min_l in Ht by done. subst t.
  rewrite take_ge in Hcont by (by rewrite length_contents).
  assert (update_last (λ back, snd (Buffer.append (contents b) back)) (__current s) = l' ++ [back1]) as Hu.
  { rewrite Hcur, update_last_snoc. by rewrite E. }
  rewrite Hu. split_and!.
  - split_and!; simpl; [done|done|]. apply Forall_app. split; [done|by constructor].
  - unfold pending, queued. simpl. rewrite Hcur, !bytes_of_snoc, Hcont, !app_assoc. done.
  - by eexists.
  - rewrite Hcur, !length_app. simpl. lia.
  - intros ? _ _. by rewrite Hcur, !length_app.
Qed.

Lemma moved_current s :
  buffers_wf s → let s1 := set_buffers [] (__alternate s ++ __current s) (__loggerLocal s) s in
  buffers_wf s1 ∧ pending s1 = pending s.
Proof.
  intros (Hl & Ha & Hc). split; [split_and!; simpl; [done|by apply Forall_app|constructor]|].
  unfold pending, queued. simpl. rewrite bytes_of_app. unfold bytes_of at 4. simpl. by rewrite app_nil_r, app_assoc.
Qed.

(** A running logger with a positive overflow size takes every buffer, and never
    looks at the last of no buffers. *)
Lemma append_spec b s :
  buffer_wf b → buffers_wf s → (0 < __overflow s)%N → isRunning s = true →
  ∃ s', append b s = Ret (SERVER_OK, s') ∧ buffers_wf s' ∧
    pending s' = pending s ++ contents b ∧ logged s' = logged s ++ contents b ∧
    (writes s' = writes s ∧ files s' = files s) ∧ __overflow s' = __overflow s ∧ __running s' = __running s ∧
    (__loggerLocal s' = __loggerLocal s) ∧ __logFile s' = __logFile s ∧ __out s' = __out s ∧
    ((N.of_nat (length (__current s)) ≤ __overflow s)%N → (N.of_nat (length (__current s')) ≤ __overflow s)%N).
Proof.
  intros Hb Hs Ho Hr. unfold append. rewrite Hr. cbn [negb]. unfold currentAvailable4.
  destruct (N.ltb_spec (N.of_nat (length (__current s))) (__overflow s)) as [Hlt|Hge].
  - rewrite ret_bind. destruct (append2Current_ok b s Hb Hs) as (Hw & Hp & (cu & Hcu) & Hlen & _).
    eexists. split; [done|]. rewrite Hcu in *. simpl in *. split_and!; try done. intros _. lia.
  - destruct (list.last (__current s)) as [back|] eqn:Hlast.
    2: { apply last_None in Hlast. rewrite Hlast in Hge. simpl in Hge. lia. }
    rewrite deref_Some_bind, ret_bind. destruct (Nat.leb_spec (buf_length b) (rest back)) as [Hfit|Hno].
    + destruct (append2Current_ok b s Hb Hs) as (Hw & Hp & (cu & Hcu) & _ & Hlen).
      specialize (Hlen back Hlast Hfit). eexists. split; [done|]. rewrite Hcu in *. simpl in *.
      split_and!; try done. by rewrite Hlen.
    + destruct (moved_current s Hs) as [Hs1 Hp1]. set (s1 := set_buffers [] _ _ _) in *.
      destruct (append2Current_ok b s1 Hb Hs1) as (Hw & Hp & (cu & Hcu) & Hlen & _).
      eexists. split; [done|]. rewrite Hp1 in Hp. rewrite Hcu in *. simpl in *. split_and!; try done. lia.
Qed.

(** * What reaches the files *)

(** All that was transferred, to one file and to any, in order. *)
Definition bytes_to (p : bytes) (segs : list (bytes * bytes)) : bytes :=
  concat (snd <$> filter (λ x, x.1 = p) segs).
Definition all_bytes (segs : list (bytes * bytes)) : bytes := concat (snd <$> segs).
Definition written (s : AsyncLogger) : bytes := all_bytes (writes s).

(** Each file holds what it held before, followed by what was transferred to it. *)
Definition log_files (fs : gmap bytes bytes) (segs : list (bytes * bytes)) (fs' : gmap bytes bytes) : Prop :=
  ∀ p, file_at p fs' = file_at p fs ++ bytes_to p segs.

Lemma all_bytes_app l1 l2 : all_bytes (l1 ++ l2) = all_bytes l1 ++ all_bytes l2.
Proof. unfold all_bytes. by rewrite fmap_app, concat_app. Qed.

Lemma bytes_to_app p l1 l2 : bytes_to p (l1 ++ l2) = bytes_to p l1 ++ bytes_to p l2.
Proof. unfold bytes_to. by rewrite list.filter_app, fmap_app, concat_app. Qed.

Lemma bytes_to_cons p q d l : bytes_to p ((q, d) :: l) = (if decide (q = p) then d else []) ++ bytes_to p l.
Proof. unfold bytes_to. rewrite filter_cons. simpl. by case_decide. Qed.

Lemma log_files_nil fs : log_files fs [] fs.
Proof. intros p. unfold bytes_to. simpl. by rewrite app_nil_r. Qed.

Lemma log_files_trans fs1 fs2 fs3 l1 l2 :
  log_files fs1 l1 fs2 → log_files fs2 l2 fs3 → log_files fs1 (l1 ++ l2) fs3.
Proof. intros H1 H2 p. by rewrite H2, H1, bytes_to_app, app_assoc. Qed.

Lemma file_at_insert p q d fs : file_at q (<[p := d]> fs) = if decide (p = q) then d else file_at q fs.
Proof. unfold file_at. case_decide as Hpq; [subst; by rewrite lookup_insert_eq|by rewrite lookup_insert_ne]. Qed.

Lemma log_files_insert fs p d : log_files fs [(p, d)] (<[p := file_at p fs ++ d]> fs).
Proof.
  intros q. rewrite file_at_insert, bytes_to_cons. case_decide; subst; by rewrite ?app_nil_r.
Qed.

Lemma log_files_touch fs p : log_files fs [] (<[p := file_at p fs]> fs).
Proof. intros q. rewrite file_at_insert. unfold bytes_to. simpl. rewrite app_nil_r. by case_decide; subst. Qed.

(** When one file only has changed, it has all that was transferred. *)
Lemma one_file fs segs fs' p :
  log_files fs segs fs' → (∀ q, q ≠ p → file_at q fs' = file_at q fs) → file_at p fs' = file_at p fs ++ all_bytes segs.
Proof.
  intros Hf Hother. rewrite Hf. f_equal.
  assert (∀ q, q ≠ p → bytes_to q segs = []) as Hnil.
  { intros q Hq. specialize (Hf q). rewrite (Hother q Hq) in Hf. apply (app_inv_head (file_at q fs)). by rewrite app_nil_r. }
  clear Hf Hother. induction segs as [|[q d] segs IH]; [done|].
  change (all_bytes ((q, d) :: segs)) with (d ++ all_bytes segs). rewrite bytes_to_cons, <- IH.
  - case_decide as Hqp; [done|]. specialize (Hnil q Hqp). rewrite bytes_to_cons, decide_True in Hnil by done.
    by apply app_eq_nil in Hnil as [-> _].
  - intros r Hr. specialize (Hnil r Hr). rewrite bytes_to_cons in Hnil. by apply app_eq_nil in Hnil as [_ ?].
Qed.

#[export] Instance sublist_app_proper {A} : Proper (sublist ==> sublist ==> sublist) (@app A).
Proof. intros l1 l1' H1 l2 l2' H2. by apply sublist_app. Qed.

Section flushing.
Context `{LogFS}.

(** The stream was given [d], and [s'] differs from [s] only in the stream and the
    files: what the files got and what the stream still holds is, as [R] has it,
    what the stream held followed by [d]. *)
Definition moved (R : relation bytes) (d : bytes) (s s' : AsyncLogger) : Prop :=
  ∃ o fs no nw segs, s' = set_out o fs no nw (writes s ++ segs) s ∧ log_files (files s) segs fs ∧
    R (all_bytes segs ++ o_buf o) (o_buf (__out s) ++ d).

Section moving.
Context (R : relation bytes) `{!PreOrder R, !Proper (R ==> R ==> R) (@app ascii)}.

Lemma moved_nil s : moved R [] s s.
Proof.
  exists (__out s), (files s), (nopen s), (nwrite s), []. rewrite !app_nil_r.
  split_and!; [by destruct s|apply log_files_nil|done].
Qed.

Lemma moved_trans d1 d2 s1 s2 s3 : moved R d1 s1 s2 → moved R d2 s2 s3 → moved R (d1 ++ d2) s1 s3.
Proof.
  intros (o & fs & no & nw & l1 & -> & Hf1 & H1) (o' & fs' & no' & nw' & l2 & -> & Hf2 & H2).
  exists o', fs', no', nw', (l1 ++ l2). cbn [writes files __out set_out] in *. split_and!.
  - unfold set_out. simpl. by rewrite app_assoc.
  - by eapply log_files_trans.
  - rewrite all_bytes_app, <- app_assoc, H2, !app_assoc, H1. done.
Qed.

(** What the files have and what is pending, before and after. *)
Lemma moved_order d s s' rest1 rest2 :
  moved R d s s' → R rest2 rest1 →
  R (written s' ++ o_buf (__out s') ++ rest2) (written s ++ o_buf (__out s) ++ d ++ rest1).
Proof.
  intros (o & fs & no & nw & segs & -> & _ & Hr) Hrest. unfold written. cbn [writes __out set_out].
  rewrite all_bytes_app, <- (app_assoc (all_bytes (writes s))), (app_assoc (all_bytes segs)), Hr, Hrest, <- app_assoc. done.
Qed.
End moving.

Lemma transfer_moved p held d s : moved sublist d s (snd (transfer p held d s)).
Proof.
  unfold transfer. eexists _, _, _, _, _. split_and!; [done|apply log_files_insert|].
  unfold all_bytes. cbn [snd o_buf fmap list_fmap concat]. rewrite app_nil_r. set (n := Nat.min _ _). set (all := _ ++ d).
  rewrite <- drop_drop. etrans; [apply sublist_app; [done|apply sublist_drop]|by rewrite take_drop].
Qed.

(** Changing no more than the stream's state. *)
Lemma set_stream_moved o s : o_buf o `sublist_of` o_buf (__out s) → moved sublist [] s (set_stream o s).
Proof.
  intros Ho. exists o, (files s), (nopen s), (nwrite s), []. rewrite !app_nil_r.
  split_and!; [done|apply log_files_nil|done].
Qed.

Lemma out_flush_moved s : moved sublist [] s (out_flush s).
Proof.
  unfold out_flush. destruct (o_file (__out s)) as [p|], (o_fail (__out s));
    (apply transfer_moved || apply moved_nil; apply _).
Qed.

Lemma out_close_moved s : moved sublist [] s (out_close s).
Proof.
  unfold out_close. destruct (o_file (__out s)) as [p|]; [|apply set_stream_moved, sublist_nil_l].
  change [] with ([] ++ [] : bytes). eapply (moved_trans _); [apply transfer_moved|].
  apply set_stream_moved, sublist_nil_l.
Qed.

Lemma setLogFile_moved p s : moved sublist [] s (snd (setLogFile p s)).
Proof.
  unfold setLogFile. set (s1 := if is_open s then _ else _).
  assert (moved sublist [] s s1) as H1.
  { unfold s1. destruct (is_open s); [|apply moved_nil; apply _].
    change [] with ([] ++ [] : bytes). eapply (moved_trans _); [apply out_flush_moved|apply out_close_moved]. }
  clearbody s1. change [] with ([] ++ [] : bytes). eapply (moved_trans _); [done|].
  destruct (can_open _ _); (eexists _, _, _, _, []; rewrite !app_nil_r; split_and!;
    [by destruct s1|apply log_files_touch || apply log_files_nil|apply sublist_nil_l]).
Qed.

Lemma out_write_moved d s : moved sublist d s (snd (out_write d s)).
Proof.
  unfold out_write. destruct (o_file (__out s)) as [p|] eqn:Hp, (o_fail (__out s)); try apply transfer_moved;
    (eexists _, _, _, _, []; rewrite !app_nil_r; split_and!; [done|apply log_files_nil|by apply (sublist_inserts_r d (o_buf (__out s)) (o_buf (__out s)))]).
Qed.

Lemma flush_loop_moved bs e s : moved sublist (bytes_of bs) s (snd (flush_loop bs e s)).
Proof.
  revert e s. induction bs as [|b bs IH]; intros e s; simpl; [apply moved_nil; apply _|].
  pose proof (out_write_moved (contents b) s) as Hw. destruct (out_write (contents b) s) as [[] s1]; cbn [snd] in Hw.
  - change (bytes_of (b :: bs)) with (contents b ++ [] ++ bytes_of bs). eapply (moved_trans _); [done|].
    eapply (moved_trans _); [apply setLogFile_moved|apply IH].
  - eapply (moved_trans _); [done|apply IH].
Qed.

Lemma flush_moved bs s : moved sublist (bytes_of bs) s (snd (flush2LogFile bs s)).
Proof.
  unfold flush2LogFile. destruct (is_open s); cbn [negb].
  - pose proof (flush_loop_moved bs SERVER_OK s) as Hl. destruct (flush_loop _ _ _) as [e s1]. cbn [snd] in *.
    rewrite <- (app_nil_r (bytes_of bs)). eapply (moved_trans _); [done|apply out_flush_moved].
  - exists (__out s), (files s), (nopen s), (nwrite s), []. rewrite !app_nil_r. split_and!; [by destruct s|apply log_files_nil|by apply (sublist_inserts_r (bytes_of bs) (o_buf (__out s)) (o_buf (__out s)))].
Qed.

(** Writing neither stops the logger nor hands anything over. *)
Lemma moved_keeps R d s s' : moved R d s s' → __running s' = __running s ∧ logged s' = logged s.
Proof. by intros (o & fs & no & nw & segs & -> & _). Qed.

Lemma moved_queued R d s s' : moved R d s s' → queued s' = queued s.
Proof. by intros (o & fs & no & nw & segs & -> & _). Qed.

(** A file that can be opened and takes everything, however much of it the stream
    holds back until it is flushed. *)
Class LogFSReliable : Prop := {
  open_succeeds k p : can_open k p = true;
  accepts_all k n : (n ≤ accepts k n)%nat
}.

(** An open stream that has not failed, and one that holds nothing back besides. *)
Definition stream_good (s : AsyncLogger) : Prop := ∃ p b, __out s = mk_out (Some p) false b.
Definition file_good (s : AsyncLogger) : Prop := ∃ p, __out s = mk_out (Some p) false [].

Section reliable.
Context `{!LogFSReliable}.

Lemma transfer_all p held d s :
  o_fail (__out s) = false → ∃ s1, transfer p held d s = (false, s1) ∧ moved eq d s s1 ∧
    __out s1 = mk_out (Some p) false (drop (length (o_buf (__out s) ++ d) - held) (o_buf (__out s) ++ d)).
Proof.
  intros Hf. unfold transfer. set (all := _ ++ d). set (m := (_ - held)%nat).
  pose proof (accepts_all (nwrite s) m) as Ha. rewrite Nat.min_l, Nat.ltb_irrefl, Hf, Nat.add_0_r by done.
  eexists. split_and!; [done| |done]. eexists _, _, _, _, _. split_and!; [done|apply log_files_insert|].
  unfold all_bytes. cbn [snd o_buf fmap list_fmap concat]. rewrite app_nil_r. apply take_drop.
Qed.

Lemma out_write_all d s :
  stream_good s → ∃ s1, out_write d s = (false, s1) ∧ moved eq d s s1 ∧ stream_good s1.
Proof.
  intros (p & b & Hp). unfold out_write. rewrite Hp. cbn [o_file o_fail].
  edestruct (transfer_all p) as (s1 & -> & Hm & Ho); [by rewrite Hp|]. exists s1. split_and!; [done..|by eexists _, _].
Qed.

Lemma out_flush_all s : stream_good s → moved eq [] s (out_flush s) ∧ file_good (out_flush s).
Proof.
  intros (p & b & Hp). unfold out_flush. rewrite Hp. cbn [o_file o_fail].
  edestruct (transfer_all p 0 []) as (s1 & -> & Hm & Ho); [by rewrite Hp|]. split; [done|]. exists p.
  cbn [snd]. rewrite Ho, Nat.sub_0_r, drop_all. done.
Qed.

Lemma out_close_all s : file_good s → moved eq [] s (out_close s) ∧ o_buf (__out (out_close s)) = [].
Proof.
  intros (p & Hp). unfold out_close. rewrite Hp. cbn [o_file].
  edestruct (transfer_all p 0 []) as (s1 & -> & Hm & Ho); [by rewrite Hp|]. split; [|done].
  apply (moved_trans eq [] [] s s1 _ Hm).
  cbn [snd]. exists (mk_out None (o_fail (__out s1)) []), (files s1), (nopen s1), (nwrite s1), [].
  rewrite Ho, !app_nil_r, Nat.sub_0_r, drop_all. split_and!; [done|apply log_files_nil|done].
Qed.

Lemma is_open_good s : stream_good s → is_open s = true.
Proof. intros (p & b & Hp). unfold is_open. rewrite Hp. apply bool_decide_true. by eexists. Qed.

Lemma file_stream_good s : file_good s → stream_good s.
Proof. intros [p Hp]. by exists p, []. Qed.

Lemma setLogFile_all p s : file_good s → moved eq [] s (snd (setLogFile p s)) ∧ file_good (snd (setLogFile p s)).
Proof.
  intros Hg. unfold setLogFile. rewrite is_open_good, open_succeeds by by apply file_stream_good.
  split; [|by exists p]. cbn [snd].
  destruct (out_flush_all s (file_stream_good s Hg)) as [Hm1 Hg1]. destruct (out_close_all _ Hg1) as [Hm2 Hb].
  apply (moved_trans eq [] [] _ _ _ (moved_trans eq [] [] _ _ _ Hm1 Hm2)).
  eexists _, _, _, _, []. rewrite !app_nil_r. split_and!; [done|apply log_files_touch|by rewrite Hb].
Qed.

Lemma flush_whole bs s :
  stream_good s → ∃ s1, flush2LogFile bs s = (SERVER_OK, s1) ∧ moved eq (bytes_of bs) s s1 ∧ file_good s1.
Proof.
  intros Hg. unfold flush2LogFile. rewrite is_open_good by done. cbn [negb].
  assert (∃ s1, flush_loop bs SERVER_OK s = (SERVER_OK, s1) ∧ moved eq (bytes_of bs) s s1 ∧ stream_good s1)
    as (s1 & -> & Hm & Hg1).
  { revert s Hg. induction bs as [|b bs IH]; intros s Hg; cbn [flush_loop]; [exists s; split_and!; [done|apply moved_nil; apply _|done]|].
    destruct (out_write_all (contents b) s Hg) as (s1 & -> & Hw & Hg1).
    destruct (IH s1 Hg1) as (s2 & -> & Hw2 & Hg2). exists s2. split_and!; [done| |done].
    by eapply (moved_trans _ (contents b)). }
  destruct (out_flush_all s1 Hg1) as [Hm2 Hg2]. eexists. split_and!; [done| |done].
  rewrite <- (app_nil_r (bytes_of bs)). by eapply (moved_trans _).
Qed.
End reliable.

(** * The invariant of the system *)

Record log_inv (fs : gmap bytes bytes) (s : log_sys) : Prop := {
  inv_wf : buffers_wf (lg s);
  inv_overflow : (0 < __overflow (lg s))%N;
  inv_local : stage s ≠ Flushing → __loggerLocal (lg s) = [];
  inv_order : (written (lg s) ++ pending (lg s)) `sublist_of` logged (lg s);
  inv_path : __logFile (lg s) = [];
  inv_files : log_files fs (writes (lg s)) (files (lg s))
}.

Lemma run_take_ok timeout s :
  buffers_wf s → __loggerLocal s = [] →
  buffers_wf (run_take timeout s) ∧ queued (run_take timeout s) = queued s ∧
  ∃ cu al lo, run_take timeout s = set_buffers cu al lo s.
Proof.
  intros (Hl & Ha & Hc) Hlo. unfold run_take, buffers_wf, queued. rewrite Hlo.
  assert (∀ l, bytes_of (l ++ __current s) = bytes_of l ++ bytes_of (__current s)) as Happ
    by (intros l; apply bytes_of_app).
  assert (Forall buffer_wf (__alternate s ++ __current s)) as Hac by by apply Forall_app.
  destruct (__alternate s) as [|a al] eqn:Hal, timeout; simpl;
    (split_and!; [done || constructor..| |by eexists _, _, _]); try done.
  - by rewrite app_nil_r.
  - change (a :: al ++ __current s) with ((a :: al) ++ __current s). rewrite Happ. unfold bytes_of at 3 4. simpl.
    by rewrite !app_nil_r.
Qed.

(** Flushing the logger's own buffers leaves the others. *)
Lemma run_flush_moved R s :
  moved R (bytes_of (__loggerLocal s)) s (snd (flush2LogFile (__loggerLocal s) s)) →
  moved R (bytes_of (__loggerLocal s)) s (set_buffers (__current s) (__alternate s) (__loggerLocal s) (run_flush s)) ∧
  queued (run_flush s) = bytes_of (__alternate s) ++ bytes_of (__current s) ∧
  (buffers_wf s → buffers_wf (run_flush s)) ∧ logged (run_flush s) = logged s ∧ __overflow (run_flush s) = __overflow s ∧
  __logFile (run_flush s) = __logFile s ∧ __loggerLocal (run_flush s) = [] ∧ __running (run_flush s) = __running s.
Proof.
  intros (o & fs & no & nw & segs & Hs & Hf & Hr). unfold run_flush. rewrite Hs.
  split; [by exists o, fs, no, nw, segs|]. split_and!; try done.
  intros (_ & Ha & Hc). split_and!; simpl; [constructor|done|done].
Qed.

(** What a flush writes and what it leaves are what was pending. *)
Lemma run_flush_order R s :
  PreOrder R → Proper (R ==> R ==> R) (@app ascii) →
  moved R (bytes_of (__loggerLocal s)) s (snd (flush2LogFile (__loggerLocal s) s)) →
  R (written (run_flush s) ++ pending (run_flush s)) (written s ++ pending s).
Proof.
  intros HR Happ Hm. destruct (run_flush_moved R s Hm) as (Hm' & Hq & _).
  unfold pending at 1. rewrite Hq. unfold pending, queued.
  apply (moved_order R _ _ _ (bytes_of (__alternate s) ++ bytes_of (__current s)) (bytes_of (__alternate s) ++ bytes_of (__current s))) in Hm'; [|done].
  exact Hm'.
Qed.

Lemma moved_files R fs d s s' : moved R d s s' → log_files fs (writes s) (files s) → log_files fs (writes s') (files s').
Proof. intros (o & fs' & no & nw & segs & -> & Hf & _) Hfs. by eapply log_files_trans. Qed.

Lemma log_step_inv fs s s' : log_inv fs s → log_step s s' → log_inv fs s'.
Proof.
  intros [Hwf Hov Hlo Hord Hpath Hfs] Hst.
  destruct Hst as [b s e lg' Hb Happ|s Hst Hrun|timeout s Hst|s Hst|s Hst Hrun|p s|n s|n s|s].
  - destruct (isRunning (lg s)) eqn:Hr.
    + destruct (append_spec b (lg s) Hb Hwf Hov Hr) as
        (s1 & Happ' & Hwf' & Hp & Hlg & [Hwr Hfl] & Ho & _ & Hll & Hlf & _). rewrite Happ in Happ'. injection Happ' as -> ->.
      split; cbn [lg stage]; rewrite ?Hp, ?Hlg, ?Hwr, ?Ho, ?Hll, ?Hlf, ?Hfl; try done.
      unfold written. rewrite Hwr, app_assoc. by apply sublist_app.
    + unfold append in Happ. rewrite Hr in Happ. injection Happ as <- <-. by split.
  - split; try done. intros _. apply Hlo. by rewrite Hst.
  - assert (__loggerLocal (lg s) = []) as Hl by (apply Hlo; by rewrite Hst).
    destruct (run_take_ok timeout (lg s) Hwf Hl) as (Hwf' & Hp & (cu & al & lo & Hs)).
    split; cbn [lg stage]; [done|by rewrite Hs|done| |by rewrite Hs..].
    unfold pending. rewrite Hp. by rewrite Hs.
  - pose proof (flush_moved (__loggerLocal (lg s)) (lg s)) as Hm.
    destruct (run_flush_moved _ _ Hm) as (Hm' & _ & Hwf' & Hlg & Ho & Hlf & Hll & _).
    split; cbn [lg stage]; rewrite ?Hlg, ?Ho, ?Hlf; try done; [by apply Hwf'| |].
    + etrans; [|exact Hord]. by apply (run_flush_order sublist); [apply _..|].
    + by apply (moved_files _ fs) in Hm'.
  - split; try done. intros _. apply Hlo. by rewrite Hst.
  - pose proof (setLogFile_moved p (lg s)) as Hm. pose proof (moved_files _ fs _ _ _ Hm Hfs) as Hfs'.
    assert (written (snd (setLogFile p (lg s))) ++ pending (snd (setLogFile p (lg s))) `sublist_of` written (lg s) ++ pending (lg s)) as Hle.
    { unfold pending. rewrite (moved_queued _ _ _ _ Hm). by apply (moved_order sublist _ _ _ (queued (lg s)) (queued (lg s)) Hm). }
    destruct Hm as (o & fs' & no & nw & segs & Hs & _). split; cbn [lg stage];
      [rewrite Hs; exact Hwf|rewrite Hs; exact Hov|rewrite Hs; exact Hlo|by etrans; [|rewrite Hs]|rewrite Hs; exact Hpath|done].
  - unfold setTimeoutSecond. destruct (n =? 0)%N; by split.
  - unfold setOverflowSize. destruct (N.eqb_spec n 0); [by split|]. split; simpl; try done. lia.
  - by split.
Qed.

Lemma log_inv_init fs : log_inv fs (mk_sys (new_AsyncLogger fs) Looking).
Proof. split; simpl; try done; (apply log_files_nil || by split_and!; constructor). Qed.

Lemma reachable_log_inv fs s : reachable log_step (mk_sys (new_AsyncLogger fs) Looking) s → log_inv fs s.
Proof. intros Hs. eapply reachable_invariant; [apply log_step_inv|apply log_inv_init|exact Hs]. Qed.

(** With a file that takes everything nothing is lost. *)
Definition log_complete (fs : gmap bytes bytes) (s : log_sys) : Prop :=
  log_inv fs s ∧ file_good (lg s) ∧ written (lg s) ++ pending (lg s) = logged (lg s).

Section complete.
Context `{!LogFSReliable}.

Lemma run_flush_whole s :
  file_good s → moved eq (bytes_of (__loggerLocal s)) s (snd (flush2LogFile (__loggerLocal s) s)) ∧
    file_good (run_flush s).
Proof.
  intros Hg. unfold run_flush. destruct (flush_whole (__loggerLocal s) s) as (s1 & -> & Hm & p & Hp); [by apply file_stream_good|].
  split; [done|by exists p].
Qed.

Lemma log_step_complete fs s s' : log_complete fs s → log_step s s' → log_complete fs s'.
Proof.
  intros (Hinv & Hg & Heq) Hst. split; [by eapply log_step_inv|]. destruct Hinv as [Hwf Hov Hlo _ _ _].
  destruct Hst as [b s e lg' Hb Happ|s Hst Hrun|timeout s Hst|s Hst|s Hst Hrun|p s|n s|n s|s]; cbn [lg stage]; try done.
  - destruct (isRunning (lg s)) eqn:Hr.
    + destruct (append_spec b (lg s) Hb Hwf Hov Hr) as
        (s1 & Happ' & _ & Hp & Hlg & [Hwr _] & _ & _ & _ & _ & Hout & _). rewrite Happ in Happ'. injection Happ' as -> ->.
      split; [destruct Hg as [p Hg]; exists p; by rewrite Hout|]. unfold written in *. by rewrite Hp, Hlg, Hwr, <- Heq, app_assoc.
    + unfold append in Happ. rewrite Hr in Happ. by injection Happ as <- <-.
  - assert (__loggerLocal (lg s) = []) as Hl by (apply Hlo; by rewrite Hst).
    destruct (run_take_ok timeout (lg s) Hwf Hl) as (_ & Hp & (cu & al & lo & Hs)).
    unfold pending. rewrite Hp. by rewrite Hs.
  - destruct (run_flush_whole (lg s) Hg) as [Hm Hg']. split; [done|].
    rewrite (run_flush_order eq (lg s)); [|apply _..|done]. rewrite Heq. by destruct (run_flush_moved _ _ Hm) as (_ & _ & _ & -> & _).
  - destruct (setLogFile_all p (lg s) Hg) as [Hm Hg']. split; [done|].
    pose proof (moved_order eq _ _ _ (queued (lg s)) (queued (lg s)) Hm eq_refl) as Hq.
    unfold pending. rewrite (moved_queued _ _ _ _ Hm). destruct (moved_keeps _ _ _ _ Hm) as [_ ->]. by rewrite <- Heq.
  - unfold setTimeoutSecond. by destruct (n =? 0)%N.
  - unfold setOverflowSize. by destruct (n =? 0)%N.
Qed.

Lemma reachable_log_complete fs path s :
  reachable log_step (mk_sys (snd (setLogFile path (new_AsyncLogger fs))) Looking) s → log_complete fs s.
Proof.
  intros Hs. eapply reachable_invariant; [apply log_step_complete| |exact Hs]. split.
  - eapply log_step_inv; [apply (log_inv_init fs)|apply (step_setLogFile path (mk_sys _ Looking))].
  - unfold setLogFile. cbn. rewrite open_succeeds. split; [by eexists|done].
Qed.

(** The destructor writes all that is pending. *)
Lemma destroy_all fs s :
  file_good s → log_files fs (writes s) (files s) →
  written (destroy s) = written s ++ pending s ∧ pending (destroy s) = [] ∧
  log_files fs (writes (destroy s)) (files (destroy s)).
Proof.
  intros Hg Hfs. unfold destroy. set (s0 := if isRunning s then _ else _).
  assert (file_good s0 ∧ log_files fs (writes s0) (files s0) ∧ written s0 = written s ∧ pending s0 = pending s)
    as (Hg0 & Hf0 & <- & <-) by (unfold s0; by destruct (isRunning s)).
  clearbody s0. clear s Hg Hfs. rename s0 into s.
  destruct (flush_whole (__loggerLocal s) s) as (s1 & -> & Hm1 & Hg1); [by apply file_stream_good|]. cbn [snd].
  assert (__alternate s1 = __alternate s ∧ __current s1 = __current s) as [-> Hc1]
    by by destruct Hm1 as (? & ? & ? & ? & ? & -> & _).
  destruct (flush_whole (__alternate s) s1) as (s2 & -> & Hm2 & Hg2); [by apply file_stream_good|]. cbn [snd].
  assert (__current s2 = __current s) as -> by (rewrite <- Hc1; by destruct Hm2 as (? & ? & ? & ? & ? & -> & _)).
  destruct (flush_whole (__current s) s2) as (s3 & -> & Hm3 & Hg3); [by apply file_stream_good|]. cbn [snd].
  assert (moved eq (queued s) s s3) as Hm by (unfold queued; repeat (eapply (moved_trans _); [done|]); done).
  clear s1 s2 Hc1 Hm1 Hm2 Hm3 Hg1 Hg2.
  assert (file_good (set_buffers [] [] [] s3)) as Hg4 by exact Hg3.
  destruct (out_flush_all _ (file_stream_good _ Hg4)) as [Hm5 Hg5]. destruct (out_close_all _ Hg5) as [Hm6 Hb6].
  pose proof (moved_trans eq [] [] _ _ _ Hm5 Hm6) as Hm7. set (s7 := out_close _) in *.
  assert (queued s7 = []) as Hq by by destruct Hm7 as (? & ? & ? & ? & ? & -> & _).
  pose proof (moved_order eq _ _ _ [] [] Hm eq_refl) as H1. pose proof (moved_order eq _ _ _ [] [] Hm7 eq_refl) as H2.
  unfold pending. rewrite Hb6, Hq in *. rewrite ?app_nil_r in *. split_and!; [|done|].
  - rewrite H2, <- H1. done.
  - apply (moved_files _ _ _ _ _ Hm7). exact (moved_files _ _ _ _ _ Hm Hf0).
Qed.
End complete.
End flushing.

(** * Properties *)

(** C22: in every interleaving of threads that log, the logger thread and threads
    that change its settings, handing over a buffer never looks at the last of no
    buffers; and each log file holds what it held before, followed by what was
    transferred to it, where all the transfers, followed by what is still buffered,
    are a subsequence of what was handed over: in that order, with nothing doubled. *)
Theorem log_order_kept `{LogFS} fs s :
  reachable log_step (mk_sys (new_AsyncLogger fs) Looking) s →
  (∃ segs, log_files fs segs (files (lg s)) ∧ (all_bytes segs ++ pending (lg s)) `sublist_of` logged (lg s)) ∧
  ∀ b, buffer_wf b → ∃ e s', append b (lg s) = Ret (e, s') ∧ (e = SERVER_OK ↔ isRunning (lg s) = true).
Proof.
  intros Hs. destruct (reachable_log_inv fs s Hs) as [Hwf Hov _ Hord _ Hfs]. split; [by exists (writes (lg s))|]. intros b Hb.
  destruct (isRunning (lg s)) eqn:Hr.
  - destruct (append_spec b (lg s) Hb Hwf Hov Hr) as (s' & Ha & _). by exists SERVER_OK, s'.
  - unfold append. rewrite Hr. by exists LOG_THREAD_STOPPED, (lg s).
Qed.

(** C23: while a log file can be opened and takes every write, nothing handed over
    is lost: the files hold what they held before followed by what was transferred
    to them, and the transfers followed by what is buffered are what was handed
    over, in order; the destructor leaves all of it in the files, whatever the
    logger thread was doing, so at the end of the one file that was written to
    when there is one only. *)
Theorem log_complete_when_reliable `{LogFS} `{!LogFSReliable} fs path s :
  reachable log_step (mk_sys (snd (setLogFile path (new_AsyncLogger fs))) Looking) s →
  (∃ segs, log_files fs segs (files (lg s)) ∧ all_bytes segs ++ pending (lg s) = logged (lg s)) ∧
  let s' := destroy (lg s) in
  (∃ segs, log_files fs segs (files s') ∧ all_bytes segs = logged (lg s)) ∧ pending s' = [] ∧
  ∀ p, (∀ q, q ≠ p → file_at q (files s') = file_at q fs) → file_at p (files s') = file_at p fs ++ logged (lg s).
Proof.
  intros Hs. assert (log_complete fs s) as ([_ _ _ _ _ Hfs] & Hg & Heq) by (by eapply reachable_log_complete).
  split; [by exists (writes (lg s))|]. destruct (destroy_all fs (lg s) Hg Hfs) as (Hw & Hp & Hf).
  rewrite Heq in Hw. split_and!; [by exists (writes (destroy (lg s)))|done|].
  intros p Hother. rewrite <- Hw. by apply one_file.
Qed.

(** An iteration of the logger thread that wakes on its timeout empties all
    the buffers into such a file. *)
Theorem timeout_flushes_everything `{LogFS} `{!LogFSReliable} fs path s :
  reachable log_step (mk_sys (snd (setLogFile path (new_AsyncLogger fs))) Looking) s →
  stage s = Waiting →
  let s' := run_flush (run_take true (lg s)) in
  (∃ segs, log_files fs segs (files s') ∧ all_bytes segs = logged (lg s)) ∧ pending s' = [].
Proof.
  intros Hs Hst. assert (log_complete fs s) as Hc by (by eapply reachable_log_complete).
  destruct (log_step_complete fs _ _ Hc (step_take true s Hst)) as (Hinv' & Hg' & Heq'). cbn [lg] in *.
  destruct (log_step_complete fs _ _ (conj Hinv' (conj Hg' Heq')) (step_flush (mk_sys _ Flushing) eq_refl)) as ([_ _ _ _ _ Hf] & [p Hg] & Heq).
  cbn [lg] in *. assert (pending (run_flush (run_take true (lg s))) = []) as Hnil.
  { unfold pending. rewrite Hg. destruct (run_flush_moved _ _ (flush_moved (__loggerLocal (run_take true (lg s))) (run_take true (lg s)))) as (_ & -> & _).
    assert (__loggerLocal (lg s) = []) as Hl by (apply (inv_local fs); [apply Hc|by rewrite Hst]).
    unfold run_take. rewrite Hl. by destruct (__alternate (lg s)). }
  split; [|done]. exists (writes (run_flush (run_take true (lg s)))). split; [done|].
  rewrite Hnil, app_nil_r in Heq. unfold written in Heq. rewrite Heq.
  destruct (run_flush_moved _ _ (flush_moved (__loggerLocal (run_take true (lg s))) (run_take true (lg s)))) as (_ & _ & _ & -> & _).
  unfold run_take. by destruct (__alternate (lg s)).
Qed.

(** The path of the log file is never kept, so when a write fails the file
    is closed and "" opened in its place: unless that can be opened, all that is
    handed over from then on is dropped by the logger thread. *)
Theorem write_failure_ends_logging `{LogFS} fs s b bs :
  reachable log_step (mk_sys (new_AsyncLogger fs) Looking) s →
  (∀ k, can_open k [] = false) →
  is_open (lg s) = true → __loggerLocal (lg s) = b :: bs → fst (out_write (contents b) (lg s)) = true →
  is_open (run_flush (lg s)) = false ∧
  ∀ s1, is_open s1 = false → files (run_flush s1) = files s1 ∧ __loggerLocal (run_flush s1) = [].
Proof.
  intros Hs Hno Hop Hl Hbad. destruct (reachable_log_inv fs s Hs) as [_ _ _ _ Hpath _].
  assert (∀ s, is_open s = false → out_flush s = s) as Hfl.
  { intros s2. unfold is_open, out_flush. by destruct (o_file (__out s2)). }
  assert (∀ s, __logFile s = [] → is_open (snd (setLogFile (getLogFile s) s)) = false) as Hre.
  { intros s2 Hp2. unfold getLogFile. rewrite Hp2. unfold setLogFile. by rewrite Hno. }
  assert (∀ bs e s, __logFile s = [] → is_open s = false → is_open (snd (flush_loop bs e s)) = false) as Hclosed.
  { clear - Hno Hre. induction bs as [|b bs IH]; intros e s Hpath Hc; simpl; [done|].
    destruct (out_write (contents b) s) as [bad s1] eqn:E. unfold out_write, is_open in *.
    destruct (__out s) as [[q|] f b0]; [done|]. injection E as <- <-. apply IH; [|by apply Hre].
    by destruct (setLogFile_moved (getLogFile (set_stream (mk_out None true b0) s)) (set_stream (mk_out None true b0) s)) as (? & ? & ? & ? & ? & -> & _). }
  split; [|intros s1 Hc; unfold run_flush, flush2LogFile; by rewrite Hc].
  unfold run_flush, flush2LogFile. rewrite Hop. cbn [negb]. rewrite Hl. cbn [flush_loop].
  pose proof (out_write_moved (contents b) (lg s)) as Hm. destruct (out_write (contents b) (lg s)) as [bad s1]. cbn [fst snd] in *. subst bad.
  assert (__logFile s1 = []) as Hp1 by (rewrite <- Hpath; by destruct Hm as (? & ? & ? & ? & ? & -> & _)).
  destruct (flush_loop bs _ _) as [e s2] eqn:E.
  assert (is_open s2 = false) as H2.
  { change s2 with (snd (e, s2)). rewrite <- E. apply Hclosed; [|by apply Hre].
    destruct (setLogFile_moved (getLogFile s1) s1) as (? & ? & ? & ? & ? & -> & _). done. }
  cbn [snd]. by rewrite Hfl.
Qed.
