(* ===== verification/LogLiveness.v ===== *)
(** Log/AsyncLogger over infinite executions: what is handed over is written.

    An execution is a sequence of states, each after a step of some thread or
    after none. *)

From S2P Require Export AsyncLogger.

Section liveness.
Context `{LogFS}.

Definition execution (ex : nat → log_sys) : Prop :=
  ∀ n, log_step (ex n) (ex (S n)) ∨ ex (S n) = ex n.

(** The logger thread is never starved for good: again and again its wait ends,
    on a timeout, and it takes the buffers. *)
Definition logger_fair (ex : nat → log_sys) : Prop :=
  ∀ n, ∃ m, (n ≤ m)%nat ∧ stage (ex m) = Waiting ∧ ex (S m) = mk_sys (run_take true (lg (ex m))) Flushing.

Lemma execution_invariant (I : log_sys → Prop) ex k :
  (∀ s s', I s → log_step s s' → I s') → execution ex → I (ex k) → ∀ n, (k ≤ n)%nat → I (ex n).
Proof.
  intros Hstep Hex Hk n Hn. induction Hn as [|n Hn IH]; [done|].
  destruct (Hex n) as [Hs| ->]; [by eapply Hstep|done].
Qed.

(** What was handed over, and what was transferred, stays so. *)
Lemma log_grows fs s s' :
  log_inv fs s → log_step s s' →
  logged (lg s) `prefix_of` logged (lg s') ∧ written (lg s) `prefix_of` written (lg s').
Proof.
  assert (∀ R d s s', moved R d s s' → logged s `prefix_of` logged s' ∧ written s `prefix_of` written s') as Hm.
  { intros R d s1 s2 (o & fs' & no & nw & segs & -> & _). split; [done|]. unfold written. cbn [writes set_out].
    rewrite all_bytes_app. by apply prefix_app_r. }
  intros Hinv Hst. destruct Hst as [b s e lg' Hb Ha|s Hst Hr|timeout s Hst|s Hst|s Hst Hr|p s|n s|n s|s]; cbn [lg]; try done.
  - destruct Hinv as [Hwf Hov _ _ _ _]. destruct (isRunning (lg s)) eqn:Hr.
    + destruct (append_spec b (lg s) Hb Hwf Hov Hr) as (s1 & Ha' & _ & _ & Hlg & [Hwr _] & _).
      rewrite Ha in Ha'. injection Ha' as -> ->. unfold written. rewrite Hlg, Hwr. by split; [apply prefix_app_r|].
    + unfold append in Ha. rewrite Hr in Ha. by injection Ha as <- <-.
  - assert (__loggerLocal (lg s) = []) as Hl by (apply (inv_local fs); [done|by rewrite Hst]).
    by destruct (run_take_ok timeout (lg s) (inv_wf _ _ Hinv) Hl) as (_ & _ & (cu & al & lo & ->)).
  - destruct (run_flush_moved _ _ (flush_moved (__loggerLocal (lg s)) (lg s))) as (Hf & _). apply Hm in Hf. exact Hf.
  - exact (Hm _ _ _ _ (setLogFile_moved p (lg s))).
  - unfold setTimeoutSecond. by destruct (n =? 0)%N.
  - unfold setOverflowSize. by destruct (n =? 0)%N.
Qed.

(** Bytes the logger thread has taken, or written, get no further from the file. *)
Definition taken_over (l : bytes) (s : log_sys) : Prop :=
  l `prefix_of` written (lg s) ++ bytes_of (__loggerLocal (lg s)).

Lemma run_flush_written `{!LogFSReliable} s :
  file_good s → written (run_flush s) = written s ++ bytes_of (__loggerLocal s).
Proof.
  intros Hg. destruct (run_flush_whole s Hg) as [Hm [p Hp]].
  destruct (run_flush_moved _ _ Hm) as (Hm' & _).
  pose proof (moved_order eq _ _ _ [] [] Hm' eq_refl) as Ho. destruct Hg as [q Hq]. cbn [__out set_buffers] in Ho.
  rewrite Hp, Hq, !app_nil_r in Ho. exact Ho.
Qed.

Lemma taken_over_kept `{!LogFSReliable} fs l s s' :
  log_complete fs s → taken_over l s → log_step s s' → taken_over l s'.
Proof.
  intros (Hinv & Hg & _) Hl Hst. pose proof (log_grows _ _ _ Hinv Hst) as [_ Hw]. unfold taken_over in *.
  assert (stage s ≠ Flushing → l `prefix_of` written (lg s')) as Hgrow.
  { intros Hne. rewrite (inv_local _ _ Hinv Hne) in Hl. cbn in Hl. rewrite app_nil_r in Hl. by etrans. }
  destruct Hst as [b s e lg' Hb Ha|s Hst Hr|timeout s Hst|s Hst|s Hst Hr|p s|n s|n s|s]; cbn [lg] in *; try done.
  - destruct Hinv as [Hwf Hov _ _ _ _]. destruct (isRunning (lg s)) eqn:Hr.
    + destruct (append_spec b (lg s) Hb Hwf Hov Hr) as (s1 & Ha' & _ & _ & _ & [Hwr _] & _ & _ & Hlo & _).
      rewrite Ha in Ha'. injection Ha' as -> ->. unfold written in *. by rewrite Hwr, Hlo.
    + unfold append in Ha. rewrite Hr in Ha. by injection Ha as <- <-.
  - apply prefix_app_r, Hgrow. by rewrite Hst.
  - rewrite run_flush_written by done. by apply prefix_app_r.
  - destruct (setLogFile_all p (lg s) Hg) as [Hm [q Hq]].
    pose proof (moved_order eq _ _ _ [] [] Hm eq_refl) as Ho. destruct Hg as [q' Hq'].
    rewrite Hq, Hq', !app_nil_r in Ho. rewrite Ho.
    destruct Hm as (o & fs' & no & nw & segs & -> & _). done.
  - unfold setTimeoutSecond. by destruct (n =? 0)%N.
  - unfold setOverflowSize. by destruct (n =? 0)%N.
Qed.

(** After a timeout the logger thread has all that was handed over. *)
Lemma timeout_takes_all fs s :
  log_complete fs s → stage s = Waiting → taken_over (logged (lg s)) (mk_sys (run_take true (lg s)) Flushing).
Proof.
  intros (Hinv & [p Hg] & Heq) Hst. unfold taken_over. cbn [lg].
  assert (__loggerLocal (lg s) = []) as Hlo by (apply (inv_local fs); [done|by rewrite Hst]).
  unfold run_take. rewrite Hlo, <- Heq. unfold pending, queued. rewrite Hlo, Hg. cbn [o_buf].
  destruct (__alternate (lg s)) as [|a al]; cbn -[bytes_of]; [done|].
  assert (bytes_of (a :: al ++ __current (lg s)) = bytes_of (a :: al) ++ bytes_of (__current (lg s))) as ->
    by apply (bytes_of_app (a :: al)).
  done.
Qed.
End liveness.

(** * Properties *)

(** C13: liveness: in every infinite execution in which the logger thread goes on
    waking on its timeout, with log files that can be opened and take every write,
    all that was handed over at any time is, from some later time on, in the files:
    they hold what they held before followed by what was transferred to them, and
    the transfers start with what was handed over, in order. When one file only has
    been written to, it is in that one, behind what the file held. *)
Theorem logged_is_written `{LogFS} `{!LogFSReliable} fs path ex :
  ex 0%nat = mk_sys (snd (setLogFile path (new_AsyncLogger fs))) Looking →
  execution ex → logger_fair ex →
  ∀ n, ∃ m, (n ≤ m)%nat ∧ ∀ k, (m ≤ k)%nat →
    (∃ segs, log_files fs segs (files (lg (ex k))) ∧ logged (lg (ex n)) `prefix_of` all_bytes segs) ∧
    ∀ p, (∀ q, q ≠ p → file_at q (files (lg (ex k))) = file_at q fs) →
         file_at p fs ++ logged (lg (ex n)) `prefix_of` file_at p (files (lg (ex k))).
Proof.
  intros Hstart Hex Hfair n.
  assert (∀ k, log_complete fs (ex k)) as Hc.
  { intros k. apply (execution_invariant (log_complete fs) ex 0); [apply log_step_complete|done| |lia].
    rewrite Hstart. by eapply reachable_log_complete, reach_refl. }
  destruct (Hfair n) as (m & Hm & Hst & Hnext). destruct (Hfair (S m)) as (m2 & Hm2 & Hst2 & _).
  exists m2. split; [lia|].
  assert (logged (lg (ex n)) `prefix_of` logged (lg (ex m))) as Hgrow.
  { apply (execution_invariant (λ s, log_complete fs s ∧ logged (lg (ex n)) `prefix_of` logged (lg s)) ex n); [|done|by split|done].
    intros s s' [Hs Hp] Hst'. split; [by eapply log_step_complete|]. etrans; [done|]. eapply log_grows; [apply Hs|done]. }
  assert (taken_over (logged (lg (ex m))) (ex m2)) as Ht.
  { apply (execution_invariant (λ s, log_complete fs s ∧ taken_over (logged (lg (ex m))) s) ex (S m)); [|done| |done].
    - intros s s' [Hs Hp] Hst'. split; [by eapply log_step_complete|by eapply taken_over_kept].
    - split; [done|]. rewrite Hnext. by apply (timeout_takes_all fs). }
  unfold taken_over in Ht. destruct (Hc m2) as (Hinv & _ & _).
  rewrite (inv_local _ _ Hinv) in Ht by by rewrite Hst2. cbn in Ht. rewrite app_nil_r in Ht.
  intros k Hk. assert (logged (lg (ex n)) `prefix_of` written (lg (ex k))) as Hw.
  { apply (execution_invariant (λ s, log_complete fs s ∧ logged (lg (ex n)) `prefix_of` written (lg s)) ex m2); [|done| |done].
    - intros s s' [Hs Hp] Hst'. split; [by eapply log_step_complete|]. etrans; [done|]. eapply log_grows; [apply Hs|done].
    - split; [done|]. by repeat (etrans; [eassumption|]). }
  destruct (Hc k) as ([_ _ _ _ _ Hf] & _ & _). split; [by exists (writes (lg (ex k)))|].
  intros p Hother. rewrite (one_file _ _ _ _ Hf Hother). by apply prefix_app.
Qed.
