(* ===== verification/Logger.v ===== *)
(** Log/LogStream and Log/Logger: a log message is collected in one buffer, between
    a begin tag and an end tag, and handed to the asynchronous logger when its
    stream is destroyed. *)

From S2P Require Export Streams AsyncLogger.

(** * LogStream *)

(** The [Buffer] and the put pointer; the put area is all of it but one byte. *)
Record LogStreamBuffer := mk_lsb { ls_buffer : ch_buff_t; ls_pptr : nat }.

Definition new_LogStreamBuffer : LogStreamBuffer := mk_lsb (new_Buffer NUL DEFAULT_BFSIZE) 0.

Definition ls_epptr (b : LogStreamBuffer) : nat := capacity (ls_buffer b) - 1.

(** [*pptr() = c; pbump(1)] *)
Definition ls_store (c : ascii) (b : LogStreamBuffer) : LogStreamBuffer :=
  mk_lsb (mk_Buffer (<[ls_pptr b := c]> (chBuffer (ls_buffer b))) (cur (ls_buffer b))) (S (ls_pptr b)).

(** [overflow] stores the character and reports the end all the same. *)
Definition ls_overflow (c : Z) (b : LogStreamBuffer) : Z * LogStreamBuffer :=
  (EOF, if c =? EOF then b else ls_store (to_char_type c) b).

Definition ls_sputc (c : ascii) (b : LogStreamBuffer) : bool * LogStreamBuffer :=
  if Nat.ltb (ls_pptr b) (ls_epptr b) then (true, ls_store c b)
  else let '(r, b1) := ls_overflow (to_int_type c) b in (negb (r =? EOF), b1).

(** [sync] is not overridden: it does nothing and succeeds. *)
#[global] Instance lsb_OStreamBuf : OStreamBuf LogStreamBuffer := {
  sputc := ls_sputc;
  pubsync b := (true, b)
}.

(** The destructor: the length of the buffer is set and it is handed over, the
    result of [append] being ignored. *)
Definition destroy_LogStreamBuffer (b : LogStreamBuffer) (s : AsyncLogger) : outcome AsyncLogger :=
  '(_, s') ← append (setLength (ls_pptr b) (ls_buffer b)) s;
  mret s'.

(** A stream over a new buffer. *)
Definition LogStream : Type := ostream LogStreamBuffer.
Definition new_LogStream (b : LogStreamBuffer) : LogStream := mk_ostream b false.

(** * Logger *)

(** [std::endl] *)
Definition endl {Ob : Type} `{OStreamBuf Ob} (os : ostream Ob) : ostream Ob := oflush (owrite [ch_LF] os).

Record Logger (Ob : Type) := mk_Logger { __file : bytes; __line : Z; __pStream : ostream Ob }.
Arguments mk_Logger {Ob} _ _ _.
Arguments __file {Ob} _.
Arguments __line {Ob} _.
Arguments __pStream {Ob} _.

Section Logger.
Context {Ob : Type} `{OStreamBuf Ob}.

Definition getLogStream (l : Logger Ob) : ostream Ob := __pStream l.

(** What a member function or a client does to the stream. *)
Definition on_stream (f : ostream Ob → ostream Ob) (l : Logger Ob) : Logger Ob :=
  mk_Logger (__file l) (__line l) (f (__pStream l)).

(** The time is the string of [asctime], if there is one. *)
Definition logCurrentTime (now : option bytes) : Logger Ob → Logger Ob :=
  on_stream match now with
  | Some timestr => owrite ($"[" ++ take (length timestr - 1) timestr ++ $"]")
  | None => owrite ($"[??]")
  end.

Definition logBeginTag (now : option bytes) (l : Logger Ob) : Logger Ob :=
  let l1 := logCurrentTime now l in
  on_stream (λ os, endl (owrite ($" Logged by: " ++ __file l1 ++ $": " ++ to_string_Z (__line l1) ++ $".") os)) l1.

Definition logEndTag (now : option bytes) (l : Logger Ob) : Logger Ob :=
  on_stream (λ os, endl (owrite ($" Logged end.") os)) (logCurrentTime now l).

(** The constructor and the destructor, which leaves the stream to whoever shares
    it. *)
Definition new_Logger (now : option bytes) (file : bytes) (line : Z) (os : ostream Ob) : Logger Ob :=
  logBeginTag now (mk_Logger file line os).

Definition destroy_Logger (now : option bytes) (l : Logger Ob) : ostream Ob := getLogStream (logEndTag now l).
End Logger.

(** [LOG2DIARY << msg]: a temporary logger over a new stream; the destructor of
    the logger writes the end tag, that of the stream's buffer hands it over. *)
Definition LOG2DIARY (t0 t1 : option bytes) (file : bytes) (line : Z) (msg : bytes) (s : AsyncLogger)
  : outcome AsyncLogger :=
  let l := new_Logger t0 file line (new_LogStream new_LogStreamBuffer) in
  let l1 := on_stream (owrite msg) l in
  destroy_LogStreamBuffer (obuf (destroy_Logger t1 l1)) s.

(** * What a log stream keeps of what is written to it *)

(** A stream that has been given [s] in all. *)
Definition ls_holds (s : bytes) (os : ostream LogStreamBuffer) : Prop :=
  length (chBuffer (ls_buffer (obuf os))) = DEFAULT_BFSIZE ∧
  ls_pptr (obuf os) = length (take DEFAULT_BFSIZE s) ∧
  take (ls_pptr (obuf os)) (chBuffer (ls_buffer (obuf os))) = take DEFAULT_BFSIZE s ∧
  obad os = bool_decide (DEFAULT_BFSIZE ≤ length s)%nat.

Lemma ls_store_char s b c :
  length (chBuffer (ls_buffer b)) = DEFAULT_BFSIZE → (length s < DEFAULT_BFSIZE)%nat →
  ls_pptr b = length s → take (ls_pptr b) (chBuffer (ls_buffer b)) = s →
  length (chBuffer (ls_buffer (ls_store c b))) = DEFAULT_BFSIZE ∧
  ls_pptr (ls_store c b) = length (s ++ [c]) ∧
  take (ls_pptr (ls_store c b)) (chBuffer (ls_buffer (ls_store c b))) = s ++ [c].
Proof.
  intros Hl Hs Hp Ht. simpl. rewrite length_insert, length_app. simpl. split_and!; [done|lia|].
  rewrite (take_S_r _ _ c) by (apply list_lookup_insert_eq; lia).
  by rewrite take_insert_ge, Ht.
Qed.

(** One character: kept if there is room, though the last one that fits is
    reported as refused. *)
Lemma ls_sputc_holds s b c :
  ls_holds s (mk_ostream b false) → ls_holds (s ++ [c]) (mk_ostream (snd (ls_sputc c b)) (negb (fst (ls_sputc c b)))).
Proof.
  intros (Hl & Hp & Ht & Hb). cbn [obuf obad] in *. symmetry in Hb. apply bool_decide_eq_false in Hb.
  rewrite (take_ge s) in Hp, Ht by lia.
  destruct (ls_store_char s b c Hl ltac:(lia) Hp Ht) as (Hl' & Hp' & Ht').
  assert (length (s ++ [c]) = S (length s)) as Hlen by (rewrite length_app; simpl; lia).
  unfold ls_sputc, ls_epptr, capacity. rewrite Hl. unfold ls_overflow.
  rewrite (proj2 (Z.eqb_neq _ _) (to_int_not_EOF c)), (char_int_to_char c _ (or_introl eq_refl)).
  assert (ls_holds (s ++ [c]) (mk_ostream (ls_store c b) (bool_decide (DEFAULT_BFSIZE ≤ length (s ++ [c]))%nat))) as Hh.
  { unfold ls_holds. cbn [obuf obad]. rewrite take_ge by lia. by split_and!. }
  destruct (Nat.ltb_spec (ls_pptr b) (DEFAULT_BFSIZE - 1)); simpl.
  - rewrite bool_decide_false in Hh by lia. done.
  - rewrite bool_decide_true in Hh by lia. done.
Qed.

Lemma owrite_holds t s os : ls_holds s os → ls_holds (s ++ t) (owrite t os).
Proof.
  unfold owrite. destruct os as [b bad]. simpl. destruct bad.
  - intros (Hl & Hp & Ht & Hb). cbn [obuf obad] in *. symmetry in Hb. apply bool_decide_eq_true in Hb.
    unfold ls_holds. cbn [obuf obad]. rewrite length_app, take_app_le by lia.
    split_and!; [done..|]. symmetry. apply bool_decide_eq_true. lia.
  - revert s b. induction t as [|c t IH]; intros s b Hh; simpl; [by rewrite app_nil_r|].
    pose proof (ls_sputc_holds s b c Hh) as Hc. destruct (ls_sputc c b) as [[] b1]; cbn [fst snd negb] in Hc.
    + assert (s ++ c :: t = (s ++ [c]) ++ t) as -> by by rewrite <- app_assoc. by apply IH.
    + destruct Hc as (Hl & Hp & Ht & Hb). cbn [obuf obad] in *. symmetry in Hb. apply bool_decide_eq_true in Hb.
      assert (s ++ c :: t = (s ++ [c]) ++ t) as -> by by rewrite <- app_assoc.
      unfold ls_holds. cbn [obuf obad]. rewrite (length_app (s ++ [c])), take_app_le by lia.
      split_and!; [done..|]. symmetry. apply bool_decide_eq_true. lia.
Qed.

Lemma oflush_holds s os : ls_holds s os → ls_holds s (oflush os).
Proof. unfold oflush. destruct os as [b []]; done. Qed.

Definition time_tag (now : option bytes) : bytes :=
  match now with
  | Some timestr => $"[" ++ take (length timestr - 1) timestr ++ $"]"
  | None => $"[??]"
  end.

(** A whole log entry. *)
Definition entry (t0 t1 : option bytes) (file : bytes) (line : Z) (msg : bytes) : bytes :=
  time_tag t0 ++ ($" Logged by: " ++ file ++ $": " ++ to_string_Z line ++ $".") ++ [ch_LF]
  ++ msg ++ time_tag t1 ++ $" Logged end." ++ [ch_LF].

Lemma new_holds : ls_holds [] (mk_ostream new_LogStreamBuffer false).
Proof. split_and!; vm_compute; reflexivity. Qed.

Lemma endl_holds s os : ls_holds s os → ls_holds (s ++ [ch_LF]) (endl os).
Proof. intros H. by apply oflush_holds, owrite_holds. Qed.

Lemma logCurrentTime_holds now s l :
  ls_holds s (getLogStream l) → ls_holds (s ++ time_tag now) (getLogStream (logCurrentTime now l)).
Proof. destruct now; apply owrite_holds. Qed.

Lemma logBeginTag_holds now s l :
  ls_holds s (getLogStream l) →
  ls_holds (((s ++ time_tag now) ++ ($" Logged by: " ++ __file l ++ $": " ++ to_string_Z (__line l) ++ $".")) ++ [ch_LF])
           (getLogStream (logBeginTag now l)).
Proof. intros Hl. by apply endl_holds, owrite_holds, logCurrentTime_holds. Qed.

Lemma logEndTag_holds now s l :
  ls_holds s (getLogStream l) →
  ls_holds (((s ++ time_tag now) ++ $" Logged end.") ++ [ch_LF]) (getLogStream (logEndTag now l)).
Proof. intros Hl. by apply endl_holds, owrite_holds, logCurrentTime_holds. Qed.

Lemma entry_holds t0 t1 file line msg :
  ls_holds (entry t0 t1 file line msg)
    (destroy_Logger t1 (on_stream (owrite msg) (new_Logger t0 file line (new_LogStream new_LogStreamBuffer)))).
Proof.
  pose proof (logEndTag_holds t1 _ (on_stream _ _)
    (owrite_holds msg _ _ (logBeginTag_holds t0 _ (mk_Logger file line (new_LogStream new_LogStreamBuffer)) new_holds))) as Hh.
  rewrite app_nil_l, <- !(app_assoc (_ ++ _)), <- !(app_assoc (time_tag t0)) in Hh.
  unfold entry, destroy_Logger, new_Logger. by rewrite <- !app_assoc in *.
Qed.

(** A log statement appends one buffer, which holds the start of the entry. *)
Lemma LOG2DIARY_append t0 t1 file line msg s :
  ∃ b, buffer_wf b ∧ contents b = take 4096 (entry t0 t1 file line msg) ∧
    LOG2DIARY t0 t1 file line msg s = ('(_, s') ← append b s; mret s').
Proof.
  unfold LOG2DIARY, destroy_LogStreamBuffer.
  pose proof (entry_holds t0 t1 file line msg) as (Hl & Hp & Ht & _).
  set (b := obuf (destroy_Logger _ _)) in *. exists (setLength (ls_pptr b) (ls_buffer b)).
  split_and!; [apply setLength_wf| |done]. unfold contents, setLength, capacity. cbn [cur chBuffer]. rewrite Hl.
  rewrite (proj2 (Nat.leb_le _ _)); [done|]. rewrite Hp, length_take. lia.
Qed.

(** * Properties *)

(** C36: one log statement hands over exactly one buffer: the entry from its begin
    tag to its end tag, cut after 4096 bytes; the logger, when it is running, keeps
    it behind all it had, and no file is touched. *)
Theorem log_statement_appends t0 t1 file line msg s :
  buffers_wf s → (0 < __overflow s)%N → isRunning s = true →
  ∃ s', LOG2DIARY t0 t1 file line msg s = Ret s' ∧ buffers_wf s' ∧
    pending s' = pending s ++ take 4096 (entry t0 t1 file line msg) ∧
    logged s' = logged s ++ take 4096 (entry t0 t1 file line msg) ∧
    written s' = written s ∧ files s' = files s.
Proof.
  intros Hs Ho Hr. destruct (LOG2DIARY_append t0 t1 file line msg s) as (b & Hb & Hc & ->).
  destruct (append_spec b s) as (s' & -> & Hwf & Hpe & Hlo & [Hwr Hfi] & _); [done..|].
  exists s'. unfold written. rewrite ret_bind, Hpe, Hlo, Hc, Hwr, Hfi. by split_and!.
Qed.
