(* ===== verification/LogExamples.v ===== *)
(** File systems for the log, and the theorems on logging at concrete inputs. *)

From S2P Require Export Logger LogLiveness.

(** One that opens every path and takes every write, from a stream that holds back
    what it can until it is flushed; and one that takes no write and does not open "". *)
Definition reliable_fs : LogFS :=
  {| can_open _ _ := true; holds_back _ n := n; accepts _ n := n; drops _ _ := 0%nat |}.

Definition full_fs : LogFS :=
  {| can_open _ p := negb (bool_decide (p = [])); holds_back _ _ := 0%nat; accepts _ _ := 0%nat; drops _ n := n |}.

Definition full_buffer (d : bytes) : ch_buff_t := mk_Buffer d (length d).

Lemma full_buffer_wf d : buffer_wf (full_buffer d).
Proof. unfold buffer_wf, full_buffer, capacity. done. Qed.

Definition hello : ch_buff_t := full_buffer ($"hello").
Definition world : ch_buff_t := full_buffer ($"world").

Section runs.
Context `{LogFS}.

Definition appended (b : ch_buff_t) (s : AsyncLogger) : AsyncLogger :=
  match append b s with Ret (_, s') => s' | _ => s end.

Definition opened : AsyncLogger := snd (setLogFile ($"web.log") (new_AsyncLogger ∅)).

(** Two buffers handed over, the first of them taken by the logger thread. *)
Definition taken : AsyncLogger := run_take true (appended hello opened).
Definition busy : log_sys := mk_sys (appended world taken) Flushing.

Lemma step_appended b s st :
  buffer_wf b → (∃ e, append b s = Ret (e, appended b s)) → log_step (mk_sys s st) (mk_sys (appended b s) st).
Proof. intros Hb [e He]. exact (step_append b (mk_sys s st) e _ Hb He). Qed.

Lemma taken_reachable : reachable log_step (mk_sys opened Looking) (mk_sys taken Flushing).
Proof.
  unfold taken, opened, setLogFile.
  eapply reach_step; [eapply reach_step; [eapply reach_step; [apply reach_refl|]|]|].
  - apply (step_appended hello); [apply full_buffer_wf|]. destruct (can_open _ _); by eexists.
  - refine (step_look (mk_sys _ Looking) eq_refl _). destruct (can_open _ _); reflexivity.
  - exact (step_take true (mk_sys _ Waiting) eq_refl).
Qed.

Lemma busy_reachable : reachable log_step (mk_sys opened Looking) busy.
Proof.
  eapply reach_step; [apply taken_reachable|]. apply step_appended; [apply full_buffer_wf|].
  unfold taken, opened, setLogFile. destruct (can_open _ _); by eexists.
Qed.

Lemma opened_reachable : reachable log_step (mk_sys (new_AsyncLogger ∅) Looking) (mk_sys opened Looking).
Proof. eapply reach_step; [apply reach_refl|]. exact (step_setLogFile _ (mk_sys (new_AsyncLogger ∅) Looking)). Qed.
End runs.

Lemma log_order_kept_witness :
  (∃ segs, log_files ∅ segs (files (lg (busy (H:=full_fs)))) ∧
           (all_bytes segs ++ pending (lg (busy (H:=full_fs)))) `sublist_of` $"helloworld") ∧
  ∀ b, buffer_wf b → ∃ e s', append b (lg (busy (H:=full_fs))) = Ret (e, s') ∧ (e = SERVER_OK ↔ true = true).
Proof.
  exact (log_order_kept (H:=full_fs) ∅ (busy (H:=full_fs)) (reachable_trans _ _ _ _ (opened_reachable (H:=full_fs)) busy_reachable)).
Defined.

Lemma reliable_fs_ok : LogFSReliable (H:=reliable_fs).
Proof. by split. Qed.

(** The destructor leaves both buffers in the file. *)
Lemma log_complete_when_reliable_witness :
  file_at ($"web.log") (files (destroy (H:=reliable_fs) (lg (busy (H:=reliable_fs))))) = $"helloworld".
Proof.
  destruct (log_complete_when_reliable (H:=reliable_fs) (H0:=reliable_fs_ok) ∅ ($"web.log") (busy (H:=reliable_fs)) busy_reachable)
    as (_ & _ & _ & Hone).
  apply (Hone ($"web.log")). intros q Hq. assert (files (destroy (H:=reliable_fs) (lg (busy (H:=reliable_fs)))) = {[ $"web.log" := $"helloworld" ]}) as ->
    by (vm_compute; reflexivity).
  unfold file_at. by rewrite lookup_singleton_ne, lookup_empty.
Defined.

(** The logger thread is about to write, to a file that takes nothing. *)
Lemma write_failure_ends_logging_witness :
  is_open (run_flush (H:=full_fs) (taken (H:=full_fs))) = false ∧
  ∀ s1, is_open s1 = false →
    files (run_flush (H:=full_fs) s1) = files s1 ∧ __loggerLocal (run_flush (H:=full_fs) s1) = [].
Proof.
  apply (write_failure_ends_logging (H:=full_fs) ∅ (mk_sys (taken (H:=full_fs)) Flushing) hello []); [|done|done|done|done].
  eapply reachable_trans; [apply opened_reachable|apply taken_reachable].
Defined.

Lemma log_statement_appends_witness :
  ∃ s', LOG2DIARY (Some ($"now" ++ [ch_LF])) None ($"main.cc") 12 ($"ready" ++ [ch_LF]) (new_AsyncLogger ∅) = Ret s' ∧
    buffers_wf s' ∧
    pending s' = [] ++ take 4096 (entry (Some ($"now" ++ [ch_LF])) None ($"main.cc") 12 ($"ready" ++ [ch_LF])) ∧
    logged s' = [] ++ take 4096 (entry (Some ($"now" ++ [ch_LF])) None ($"main.cc") 12 ($"ready" ++ [ch_LF])) ∧
    written s' = [] ∧ files s' = ∅.
Proof.
  apply (log_statement_appends (Some ($"now" ++ [ch_LF])) None ($"main.cc") 12 ($"ready" ++ [ch_LF]) (new_AsyncLogger ∅));
    [by split_and!; constructor|done|done].
Defined.

(** * A logger thread on its own, for ever

    It wakes on its timeout, writes what it took, and so on; a buffer is handed over
    at the start. *)

Definition logger_turn `{LogFS} (s : log_sys) : log_sys :=
  match stage s with
  | Looking => mk_sys (lg s) Waiting
  | Waiting => mk_sys (run_take true (lg s)) Flushing
  | _ => mk_sys (run_flush (lg s)) Looking
  end.

Fixpoint turns `{LogFS} (n : nat) : log_sys :=
  match n with
  | O => mk_sys opened Looking
  | S n' => match n' with O => mk_sys (appended hello opened) Looking | _ => logger_turn (turns n') end
  end.

#[local] Existing Instances reliable_fs reliable_fs_ok.

Lemma turns_step n : turns (S (S n)) = logger_turn (turns (S n)).
Proof. done. Qed.

Lemma turns_stage n : stage (turns (S n)) = match (n mod 3)%nat with 0%nat => Looking | 1%nat => Waiting | _ => Flushing end.
Proof.
  induction n as [|n IH]; [done|]. rewrite turns_step. unfold logger_turn. rewrite IH.
  pose proof (Nat.mod_upper_bound n 3 ltac:(lia)).
  assert (S n mod 3 = (n mod 3 + 1) mod 3)%nat as -> by (rewrite Nat.Div0.add_mod_idemp_l; f_equal; lia).
  destruct (n mod 3)%nat as [|[|[|]]]; [done..|lia].
Qed.

Lemma turns_running n : isRunning (lg (turns n)) = true.
Proof.
  destruct n as [|n]; [done|]. induction n as [|n IH]; [done|]. rewrite turns_step. unfold logger_turn.
  assert (∀ s, isRunning s = true → isRunning (run_flush s) = true) as Hf.
  { intros s Hs. destruct (flush_moved (__loggerLocal s) s) as (o & fs & no & nw & segs & E & _). unfold run_flush. by rewrite E. }
  destruct (stage _); cbn [lg]; [done| |by apply Hf|by apply Hf]. unfold run_take. by destruct (__alternate _).
Qed.

Lemma turns_execution : execution turns.
Proof.
  intros [|n]; left.
  - apply step_appended; [apply full_buffer_wf|by eexists].
  - rewrite turns_step. unfold logger_turn. destruct (stage (turns (S n))) eqn:Hf.
    + apply step_look; [done|apply turns_running].
    + by apply step_take.
    + by apply step_flush.
    + rewrite turns_stage in Hf. by destruct (n mod 3)%nat as [|[|]].
Qed.

Lemma turns_fair : logger_fair turns.
Proof.
  intros n. exists (S (3 * n + 1)). assert (stage (turns (S (3 * n + 1))) = Waiting) as Hst.
  { rewrite turns_stage. replace ((3 * n + 1) mod 3)%nat with 1%nat; [done|].
    rewrite Nat.add_comm, Nat.mul_comm, Nat.Div0.mod_add. done. }
  split_and!; [lia|done|]. rewrite turns_step. unfold logger_turn. by rewrite Hst.
Qed.

(** What has been handed over after the first step is in the file from some later
    time on. *)
Lemma logged_is_written_witness :
  ∃ m, (1 ≤ m)%nat ∧ ∀ k, (m ≤ k)%nat →
    (∃ segs, log_files ∅ segs (files (lg (turns k))) ∧ logged (lg (turns 1)) `prefix_of` all_bytes segs) ∧
    ∀ p, (∀ q, q ≠ p → file_at q (files (lg (turns k))) = file_at q ∅) →
         file_at p ∅ ++ logged (lg (turns 1)) `prefix_of` file_at p (files (lg (turns k))).
Proof. exact (logged_is_written ∅ ($"web.log") turns eq_refl turns_execution turns_fair 1%nat). Defined.
