(* ===== verification/Kernel.v ===== *)
(** The system calls the reactor makes, as a parameter, and what their manual
    pages promise.

    [K] is the state of the operating system. A call that may return -1 returns an
    option or a boolean. *)

From S2P Require Export Prelude.

Inductive ctl_op := EPOLL_CTL_ADD | EPOLL_CTL_DEL | EPOLL_CTL_MOD.

Definition EPOLLIN : N := 1.
Definition EPOLLET : N := 2 ^ 31.
Definition O_NONBLOCK : N := 2 ^ 11.

Class Kernel (K : Type) := {
  sys_close : Z → K → K;
  epoll_create1 : K → option Z * K;
  epoll_ctl : Z → ctl_op → Z → N → K → bool * K;
  epoll_wait : Z → nat → Z → K → option (list (Z * N)) * K;
  sys_accept : Z → K → option Z * K;
  fcntl_getfl : Z → K → option N * K;
  fcntl_setfl : Z → N → K → K;
  sys_socket : K → option Z * K;
  sys_bind : Z → N → N → K → bool * K;
  sys_listen : Z → N → K → bool * K;
  (** What is to be received on a socket, one item per [recv], up to the first
      that returns 0 or -1; and the results of its sends. *)
  sock_incoming : Z → K → list bytes;
  sock_send : Z → K → nat → nat → Z
}.

(** [fds] are the open descriptors of the reactor: those that these calls have
    opened, or that were there before, and none of them has closed. What the log and
    the Redis client open, use and close on their own, the log file and the sockets
    to the Redis server, is not among them: those are in the state of the logger and
    in the world of the client library. [interest ep] are the descriptors registered
    with an epoll instance, with their events. *)
Class KernelOk (K : Type) `{Kernel K} := {
  fds : K → gset Z;
  interest : Z → K → gmap Z N;
  interest_open ep fd ev k : interest ep k !! fd = Some ev → fd ∈ fds k;
  close_ok fd k :
    fds (sys_close fd k) = fds k ∖ {[fd]} ∧
    ∀ ep, interest ep (sys_close fd k) = delete fd (interest ep k);
  ctl_add_ok ep fd ev k r k' :
    epoll_ctl ep EPOLL_CTL_ADD fd ev k = (r, k') →
    fds k' = fds k ∧ (∀ ep', ep' ≠ ep → interest ep' k' = interest ep' k) ∧
    if r then interest ep k !! fd = None ∧ interest ep k' = <[fd := ev]> (interest ep k)
    else interest ep k' = interest ep k;
  ctl_del_ok ep fd ev k r k' :
    epoll_ctl ep EPOLL_CTL_DEL fd ev k = (r, k') →
    fds k' = fds k ∧ (∀ ep', ep' ≠ ep → interest ep' k' = interest ep' k) ∧
    (r = true ↔ is_Some (interest ep k !! fd)) ∧
    interest ep k' = delete fd (interest ep k);
  ctl_mod_ok ep fd ev k r k' :
    epoll_ctl ep EPOLL_CTL_MOD fd ev k = (r, k') →
    fds k' = fds k ∧ (∀ ep', ep' ≠ ep → interest ep' k' = interest ep' k) ∧
    if r then is_Some (interest ep k !! fd) ∧ interest ep k' = <[fd := ev]> (interest ep k)
    else interest ep k' = interest ep k;
  wait_ok ep max timeout k r k' :
    epoll_wait ep max timeout k = (r, k') →
    fds k' = fds k ∧ (∀ ep', interest ep' k' = interest ep' k) ∧
    ∀ l, r = Some l → (length l ≤ max)%nat ∧ Forall (λ x, is_Some (interest ep k !! x.1)) l;
  accept_ok fd k r k' :
    sys_accept fd k = (r, k') →
    (∀ ep, interest ep k' = interest ep k) ∧
    match r with
    | Some c => (c ∉ fds k) ∧ (0 ≤ c) ∧ (fds k' = {[c]} ∪ fds k)
    | None => fds k' = fds k
    end;
  getfl_ok fd k r k' :
    fcntl_getfl fd k = (r, k') → fds k' = fds k ∧ ∀ ep, interest ep k' = interest ep k;
  setfl_ok fd fl k :
    fds (fcntl_setfl fd fl k) = fds k ∧ ∀ ep, interest ep (fcntl_setfl fd fl k) = interest ep k;
  create_ok k r k' :
    epoll_create1 k = (r, k') →
    match r with
    | Some ep => (ep ∉ fds k) ∧ (0 ≤ ep) ∧ (fds k' = {[ep]} ∪ fds k) ∧ (interest ep k' = ∅) ∧
                 (∀ ep', ep' ≠ ep → interest ep' k' = interest ep' k)
    | None => fds k' = fds k ∧ (∀ ep, interest ep k' = interest ep k)
    end;
  socket_ok k r k' :
    sys_socket k = (r, k') →
    (∀ ep, interest ep k' = interest ep k) ∧
    match r with
    | Some c => (c ∉ fds k) ∧ (0 ≤ c) ∧ (fds k' = {[c]} ∪ fds k)
    | None => fds k' = fds k
    end;
  bind_ok fd a p k r k' :
    sys_bind fd a p k = (r, k') → fds k' = fds k ∧ (∀ ep, interest ep k' = interest ep k);
  listen_ok fd n k r k' :
    sys_listen fd n k = (r, k') → fds k' = fds k ∧ (∀ ep, interest ep k' = interest ep k)
}.
