(* ===== verification/SimKernel.v ===== *)
(** A small operating system that keeps the promises of [KernelOk]: the reactor's
    theorems are about something. *)

From S2P Require Export Kernel.

(** Open descriptors; what each epoll instance has registered (with registrations
    of descriptors that are no longer open); the descriptor to create next; the
    clients that wait to be accepted; what is ready; what connections receive;
    whether registering and binding work. *)
Record sim_os := mk_sim_os {
  k_open : gset Z;
  k_reg : gmap Z (gmap Z N);
  k_next : Z;
  k_backlog : list Z;
  k_ready : list (Z * N);
  k_in : gmap Z (list bytes);
  k_can_add : bool;
  k_can_bind : bool
}.

Definition regs (ep : Z) (k : sim_os) : gmap Z N := default ∅ (k_reg k !! ep).
Definition sim_interest (ep : Z) (k : sim_os) : gmap Z N := filter (λ x, x.1 ∈ k_open k) (regs ep k).

Definition set_open (o : gset Z) (k : sim_os) : sim_os :=
  mk_sim_os o (k_reg k) (k_next k) (k_backlog k) (k_ready k) (k_in k) (k_can_add k) (k_can_bind k).
Definition set_regs (ep : Z) (m : gmap Z N) (k : sim_os) : sim_os :=
  mk_sim_os (k_open k) (<[ep := m]> (k_reg k)) (k_next k) (k_backlog k) (k_ready k) (k_in k) (k_can_add k) (k_can_bind k).
Definition set_next (n : Z) (k : sim_os) : sim_os :=
  mk_sim_os (k_open k) (k_reg k) n (k_backlog k) (k_ready k) (k_in k) (k_can_add k) (k_can_bind k).
Definition set_backlog (l : list Z) (k : sim_os) : sim_os :=
  mk_sim_os (k_open k) (k_reg k) (k_next k) l (k_ready k) (k_in k) (k_can_add k) (k_can_bind k).

(** Opening a descriptor forgets what was registered for its number. *)
Definition open_fd (c : Z) (k : sim_os) : sim_os :=
  mk_sim_os ({[c]} ∪ k_open k) (delete c <$> k_reg k) (k_next k) (k_backlog k) (k_ready k) (k_in k)
         (k_can_add k) (k_can_bind k).

Definition can_open_fd (c : Z) (k : sim_os) : bool := bool_decide (c ∉ k_open k) && (0 <=? c).

Definition new_fd (k : sim_os) : option Z * sim_os :=
  if can_open_fd (k_next k) k then (Some (k_next k), set_next (k_next k + 1) (open_fd (k_next k) k)) else (None, k).

#[global] Instance sim_kernel : Kernel sim_os := {
  sys_close fd k := set_open (k_open k ∖ {[fd]}) k;
  epoll_create1 k :=
    match new_fd k with
    | (Some ep, k1) => (Some ep, set_regs ep ∅ k1)
    | (None, k1) => (None, k1)
    end;
  epoll_ctl ep op fd ev k :=
    match op, sim_interest ep k !! fd with
    | EPOLL_CTL_ADD, None =>
        if k_can_add k && bool_decide (fd ∈ k_open k) then (true, set_regs ep (<[fd := ev]> (regs ep k)) k)
        else (false, k)
    | EPOLL_CTL_MOD, Some _ => (true, set_regs ep (<[fd := ev]> (regs ep k)) k)
    | EPOLL_CTL_DEL, Some _ => (true, set_regs ep (delete fd (regs ep k)) k)
    | _, _ => (false, k)
    end;
  epoll_wait ep max _ k := (Some (take max (filter (λ x, is_Some (sim_interest ep k !! x.1)) (k_ready k))), k);
  sys_accept _ k :=
    match k_backlog k with
    | c :: l => if can_open_fd c k then (Some c, set_backlog l (open_fd c k)) else (None, k)
    | [] => (None, k)
    end;
  fcntl_getfl _ k := (Some 2%N, k);
  fcntl_setfl _ _ k := k;
  sys_socket := new_fd;
  sys_bind _ _ _ k := (k_can_bind k, k);
  sys_listen _ _ k := (true, k);
  sock_incoming fd k := default [] (k_in k !! fd);
  sock_send _ _ _ n := Z.of_nat n
}.

(** * Its laws *)

Lemma regs_set ep m ep' k : regs ep' (set_regs ep m k) = if decide (ep = ep') then m else regs ep' k.
Proof. unfold regs. simpl. rewrite lookup_insert. by case_decide. Qed.

Lemma interest_set_other ep m ep' k : ep' ≠ ep → sim_interest ep' (set_regs ep m k) = sim_interest ep' k.
Proof. intros Hne. unfold sim_interest. by rewrite regs_set, decide_False. Qed.

Lemma interest_set ep m k : sim_interest ep (set_regs ep m k) = filter (λ x, x.1 ∈ k_open k) m.
Proof. unfold sim_interest. by rewrite regs_set, decide_True. Qed.

Lemma interest_close fd ep k : sim_interest ep (set_open (k_open k ∖ {[fd]}) k) = delete fd (sim_interest ep k).
Proof.
  unfold sim_interest. simpl. apply map_eq. intros c. destruct (decide (c = fd)) as [->|Hne].
  - rewrite lookup_delete_eq. apply map_lookup_filter_None. right. simpl. set_solver.
  - rewrite lookup_delete_ne by done. apply option_eq. intros v. rewrite !map_lookup_filter_Some. simpl. set_solver.
Qed.

Lemma interest_open_fd c ep k : c ∉ k_open k → sim_interest ep (open_fd c k) = sim_interest ep k.
Proof.
  intros Hc. unfold sim_interest, regs. simpl. rewrite lookup_fmap. apply map_eq. intros d. apply option_eq. intros v.
  rewrite !map_lookup_filter_Some. simpl. destruct (k_reg k !! ep) as [m|]; simpl; [|by rewrite lookup_empty; naive_solver].
  destruct (decide (d = c)) as [->|Hne].
  - rewrite lookup_delete_eq. split; [by intros [? _]|]. by intros [_ ?].
  - rewrite lookup_delete_ne by done. set_solver.
Qed.

Lemma can_open_fd_true c k : can_open_fd c k = true → (c ∉ k_open k) ∧ 0 ≤ c.
Proof. unfold can_open_fd. intros [H1%bool_decide_eq_true H2%Z.leb_le]%andb_prop. done. Qed.

Lemma new_fd_ok k r k' :
  new_fd k = (r, k') →
  (∀ ep, sim_interest ep k' = sim_interest ep k) ∧
  match r with
  | Some c => (c ∉ k_open k) ∧ (0 ≤ c) ∧ (k_open k' = {[c]} ∪ k_open k)
  | None => k_open k' = k_open k
  end.
Proof.
  unfold new_fd. destruct (can_open_fd _ k) eqn:E; intros [= <- <-]; [|done].
  apply can_open_fd_true in E as [Hn Hp]. split; [|done]. intros ep. by apply (interest_open_fd _ ep k).
Qed.

#[global, refine] Instance sim_kernel_ok : KernelOk sim_os := { fds := k_open; interest := sim_interest }.
Proof.
  - intros ep fd ev k Hl. by apply map_lookup_filter_Some in Hl as [_ ?].
  - intros fd k. split; [done|]. intros ep. apply interest_close.
  - intros ep fd ev k r k'. simpl. destruct (sim_interest ep k !! fd) as [v|] eqn:E; [by intros [= <- <-]|].
    destruct (k_can_add k && bool_decide (fd ∈ k_open k)) eqn:Eb; intros [= <- <-]; [|done].
    apply andb_prop in Eb as [_ Ho%bool_decide_eq_true].
    split_and!; [done|by intros ep' Hne; apply interest_set_other|done|].
    rewrite interest_set. by rewrite map_filter_insert_True.
  - intros ep fd ev k r k'. simpl. destruct (sim_interest ep k !! fd) as [v|] eqn:E; intros [= <- <-].
    + split_and!; [done|by intros ep' Hne; apply interest_set_other|done|].
      rewrite interest_set. by rewrite map_filter_delete.
    + split_and!; [done|done|by split; [|intros [? ?]]|by rewrite delete_id].
  - intros ep fd ev k r k'. simpl. destruct (sim_interest ep k !! fd) as [v|] eqn:E; intros [= <- <-]; [|done].
    split_and!; [done|by intros ep' Hne; apply interest_set_other|done|].
    rewrite interest_set. apply map_lookup_filter_Some in E as [_ Ho]. by rewrite map_filter_insert_True.
  - intros ep max t k r k'. simpl. intros [= <- <-]. split_and!; [done|done|]. intros l [= <-].
    split; [rewrite length_take; lia|]. apply Forall_take, list.Forall_forall.
    by intros x [? _]%list_elem_of_filter.
  - intros fd k r k'. simpl. destruct (k_backlog k) as [|c l]; [by intros [= <- <-]|].
    destruct (can_open_fd c k) eqn:E; intros [= <- <-]; [|done].
    apply can_open_fd_true in E as [Hn Hp]. split; [|done]. intros ep. by apply (interest_open_fd _ ep k).
  - by intros fd k r k' [= <- <-].
  - done.
  - intros k r k'. simpl. destruct (new_fd k) as [[ep|] k1] eqn:E; intros [= <- <-];
      destruct (new_fd_ok _ _ _ E) as [Hi Hr]; [|by split].
    destruct Hr as (Hn & Hp & Ho). split_and!; [done|done|done| |].
    + rewrite interest_set. apply map_filter_empty.
    + intros ep' Hne. by rewrite interest_set_other.
  - intros k r k'. apply new_fd_ok.
  - by intros fd a p k r k' [= _ <-].
  - by intros fd n k r k' [= _ <-].
Defined.
