(* ===== verification/Epoll.v ===== *)
(** Event and Epoll: the events, shared by counted pointers, whose destructor
    closes their descriptor; and the event poller, the map from descriptors to
    events over an epoll instance of the kernel. *)

From S2P Require Export Error Kernel.

(** * Events *)

Record Event := mk_Event {
  __fd : Z;
  __ev : N;
  __rev : N;
  __lastev : N;
  __worker : option nat
}.

Definition new_Event (fd : Z) (event : N) : Event := mk_Event fd event 0 0 None.

Definition getFD (e : Event) : Z := __fd e.
Definition getEvent (e : Event) : N := __ev e.
Definition getResponseEvent (e : Event) : N := __rev e.
Definition getLastEvent (e : Event) : N := __lastev e.
Definition getWorker (e : Event) : option nat := __worker e.
Definition setEvent (ev : N) (e : Event) : Event := mk_Event (__fd e) ev (__rev e) (__lastev e) (__worker e).
Definition setResponseEvent (rev : N) (e : Event) : Event := mk_Event (__fd e) (__ev e) rev (__lastev e) (__worker e).
Definition setLastEvent (lev : N) (e : Event) : Event := mk_Event (__fd e) (__ev e) (__rev e) lev (__worker e).
Definition setWorker (w : option nat) (e : Event) : Event := mk_Event (__fd e) (__ev e) (__rev e) (__lastev e) w.

(** * Shared pointers to events

    The store holds the kernel and the live events by address with the number
    of [shared_ptr]s to each. *)

Abbreviation eptr := nat.

Record store (K : Type) := mk_store { kernel : K; evs : gmap eptr (Event * nat) }.
Arguments mk_store {K} _ _.
Arguments kernel {K} _.
Arguments evs {K} _.

Section events.
Context {K : Type} `{Kernel K}.

Definition set_kernel (k : K) (s : store K) : store K := mk_store k (evs s).

Definition get_event (e : eptr) (s : store K) : outcome Event :=
  '(ev, _) ← deref (evs s !! e); mret ev.

(** Calling a member function that changes the event. *)
Definition update_event (f : Event → Event) (e : eptr) (s : store K) : store K :=
  mk_store (kernel s) (alter (λ x, (f x.1, x.2)) e (evs s)).

(** [std::make_shared<Event>(fd, ev)]: one pointer to a new event. *)
Definition make_event (fd : Z) (ev : N) (s : store K) : eptr * store K :=
  let e := fresh (dom (evs s)) in
  (e, mk_store (kernel s) (<[e := (new_Event fd ev, 1%nat)]> (evs s))).

(** Copying a pointer, and destroying one; the last one destroys the event,
    which closes its descriptor. *)
Definition share (e : eptr) (s : store K) : store K :=
  mk_store (kernel s) (alter (λ x, (x.1, S x.2)) e (evs s)).

Definition release (e : eptr) (s : store K) : store K :=
  match evs s !! e with
  | Some (ev, n) =>
      if Nat.leb n 1 then mk_store (sys_close (getFD ev) (kernel s)) (delete e (evs s))
      else mk_store (kernel s) (<[e := (ev, n - 1)%nat]> (evs s))
  | None => s
  end.
End events.

(** * Epoll *)

Record Epoll := mk_Epoll {
  __epfd : Z;
  __maxFDS : nat;
  __events : gmap Z eptr
}.

Section Epoll.
Context {K : Type} `{Kernel K}.

Definition validEpollFD (p : Epoll) : bool := 3 <=? __epfd p.

(** The constructor. *)
Definition make_Epoll (maxFDS : nat) (k : K) : Error * Epoll * K :=
  let '(r, k1) := epoll_create1 k in
  match r with
  | None => (INVALID_EPOLL_FD, mk_Epoll (-1) maxFDS ∅, k1)
  | Some fd => (SERVER_OK, mk_Epoll fd maxFDS ∅, k1)
  end.

Definition maxFDS (p : Epoll) : nat := __maxFDS p.
Definition activeFDS (p : Epoll) : nat := size (__events p).

Definition set_events (m : gmap Z eptr) (p : Epoll) : Epoll := mk_Epoll (__epfd p) (__maxFDS p) m.

(** Assigning to the slot of the map releases the pointer that was there. *)
Definition release_old (old : option eptr) (s : store K) : store K :=
  match old with Some e => release e s | None => s end.

Definition epollAddEvent (e : eptr) (p : Epoll) (s : store K) : outcome (Error * Epoll * store K) :=
  ev ← get_event e s;
  let fd := getFD ev in
  if Nat.leb (maxFDS p) (activeFDS p) then mret (MAX_EVENT_NUM, p, s)
  else if negb (validEpollFD p) then mret (INVALID_EPOLL_FD, p, s)
  else
    let '(ok, k1) := epoll_ctl (__epfd p) EPOLL_CTL_ADD fd (getEvent ev) (kernel s) in
    let s1 := set_kernel k1 s in
    if ok : bool then
      mret (SERVER_OK, set_events (<[fd := e]> (__events p)) p,
            release_old (__events p !! fd) (share e s1))
    else mret (EPOLL_EVENT_ADD_FAILED, p, s1).

Definition epollDelEvent (e : eptr) (p : Epoll) (s : store K) : outcome (Error * Epoll * store K) :=
  ev ← get_event e s;
  let fd := getFD ev in
  if negb (validEpollFD p) then mret (INVALID_EPOLL_FD, p, s)
  else
    let '(ok, k1) := epoll_ctl (__epfd p) EPOLL_CTL_DEL fd (getEvent ev) (kernel s) in
    let s1 := set_kernel k1 s in
    if ok : bool then
      mret (SERVER_OK, set_events (delete fd (__events p)) p, release_old (__events p !! fd) s1)
    else mret (EPOLL_EVENT_DEL_FAILED, p, s1).

Definition epollModEvent (e : eptr) (p : Epoll) (s : store K) : outcome (Error * Epoll * store K) :=
  ev ← get_event e s;
  if negb (validEpollFD p) then mret (INVALID_EPOLL_FD, p, s)
  else
    let '(ok, k1) := epoll_ctl (__epfd p) EPOLL_CTL_MOD (getFD ev) (getEvent ev) (kernel s) in
    mret (if ok : bool then SERVER_OK else EPOLL_EVENT_MOD_FAILED, p, set_kernel k1 s).

(** The loop over the accepted events: the pointers returned are new copies. *)
Fixpoint collect (l : list (Z * N)) (p : Epoll) (s : store K) : list eptr * store K :=
  match l with
  | [] => ([], s)
  | (fd, events) :: l' =>
      match __events p !! fd with
      | None => collect l' p s
      | Some cur =>
          let '(ret, s1) := collect l' p (share cur (update_event (setResponseEvent events) cur s)) in
          (cur :: ret, s1)
      end
  end.

Definition epollWait (timeout : Z) (p : Epoll) (s : store K) : list eptr * Error * store K :=
  if negb (validEpollFD p) then ([], INVALID_EPOLL_FD, s)
  else
    let '(r, k1) := epoll_wait (__epfd p) (maxFDS p) timeout (kernel s) in
    let s1 := set_kernel k1 s in
    match r with
    | None => ([], EPOLL_WAIT_FAILED, s1)
    | Some l => let '(ret, s2) := collect l p s1 in (ret, SERVER_OK, s2)
    end.

(** The destructor: the epoll descriptor is closed, then the map cleared. *)
Definition destroy_Epoll (p : Epoll) (s : store K) : store K :=
  fold_right release (set_kernel (sys_close (__epfd p) (kernel s)) s) (map_to_list (__events p)).*2.
End Epoll.

(** * Ownership of events

    [owners] lists every [shared_ptr] to an event, one entry each. The store is
    well formed when counts are the number of owners, and live events have
    distinct descriptors, all open: each is closed once, by its event. *)

Section ownership.
Context {K : Type} `{KernelOk K}.

Definition refs (e : eptr) (s : store K) : nat := from_option snd 0%nat (evs s !! e).
Definition copies (e : eptr) (l : list eptr) : nat := count_occ Nat.eq_dec l e.

Record store_wf (owners : list eptr) (s : store K) : Prop := {
  wf_refs e : refs e s = copies e owners;
  wf_live e x : evs s !! e = Some x → (0 < x.2)%nat;
  wf_open e x : evs s !! e = Some x → getFD x.1 ∈ fds (kernel s);
  wf_fds e1 e2 x1 x2 :
    evs s !! e1 = Some x1 → evs s !! e2 = Some x2 → getFD x1.1 = getFD x2.1 → e1 = e2
}.

Lemma copies_cons e e' l : copies e (e' :: l) = if decide (e = e') then S (copies e l) else copies e l.
Proof. unfold copies. simpl. destruct (Nat.eq_dec e' e); case_decide; congruence. Qed.

Lemma copies_perm e l l' : l ≡ₚ l' → copies e l = copies e l'.
Proof. intros Hp. by apply (Permutation_count_occ Nat.eq_dec). Qed.

Lemma copies_elem e l : (0 < copies e l)%nat ↔ e ∈ l.
Proof. unfold copies. rewrite list_elem_of_In. symmetry. apply count_occ_In. Qed.

Lemma store_wf_perm l l' s : l ≡ₚ l' → store_wf l s → store_wf l' s.
Proof. intros Hp [????]. split; [|done..]. intros e. rewrite <- (copies_perm e _ _ Hp). done. Qed.

#[global] Instance store_wf_proper : Proper ((≡ₚ) ==> eq ==> iff) store_wf.
Proof. intros l l' Hp s _ <-. split; by apply store_wf_perm. Qed.

Lemma owner_live e l s : store_wf l s → e ∈ l → is_Some (evs s !! e).
Proof.
  intros Hwf He%copies_elem. rewrite <- (wf_refs _ _ Hwf) in He. unfold refs in He.
  destruct (evs s !! e); [by eexists|simpl in He; lia].
Qed.

Lemma live_owner e x l s : store_wf l s → evs s !! e = Some x → e ∈ l.
Proof.
  intros Hwf He. apply copies_elem. rewrite <- (wf_refs _ _ Hwf). unfold refs. rewrite He. simpl.
  by apply (wf_live _ _ Hwf e).
Qed.

Lemma share_wf e l s : is_Some (evs s !! e) → store_wf l s → store_wf (e :: l) (share e s).
Proof.
  intros [x He] Hwf. assert (∀ e', evs (share e s) !! e' = if decide (e = e') then Some (x.1, S x.2) else evs s !! e') as Hl.
  { intros e'. simpl. case_decide; [subst; by rewrite lookup_alter_eq, He|by rewrite lookup_alter_ne]. }
  split.
  - intros e'. pose proof (wf_refs _ _ Hwf e') as Hr. unfold refs in *. rewrite Hl, copies_cons.
    case_decide; subst.
    + rewrite decide_True by done. rewrite He in Hr. simpl in *. lia.
    + by rewrite decide_False.
  - intros e' y. rewrite Hl. case_decide; [intros [= <-]; simpl; lia|apply (wf_live _ _ Hwf)].
  - intros e' y. rewrite Hl. case_decide; [intros [= <-]; simpl; subst|]; by eapply (wf_open _ _ Hwf).
  - intros e1 e2 x1 x2. rewrite !Hl. case_decide; case_decide; subst; try done;
      (intros Hx1 Hx2; try injection Hx1 as <-; try injection Hx2 as <-; simpl; intros; by eapply (wf_fds _ _ Hwf)).
Qed.

Lemma update_wf f e l s :
  (∀ ev, getFD (f ev) = getFD ev) → store_wf l s → store_wf l (update_event f e s).
Proof.
  intros Hf Hwf.
  assert (∀ e' y, evs (update_event f e s) !! e' = Some y →
                  ∃ x, evs s !! e' = Some x ∧ y.2 = x.2 ∧ getFD y.1 = getFD x.1) as Hl.
  { intros e' y. simpl. destruct (decide (e = e')) as [->|]; [|rewrite lookup_alter_ne by done; by eauto].
    rewrite lookup_alter_eq. destruct (evs s !! e') as [x|]; [|done]. intros [= <-]. exists x. split_and!; [done|done|apply Hf]. }
  split.
  - intros e'. rewrite <- (wf_refs _ _ Hwf). unfold refs. simpl.
    destruct (decide (e = e')) as [->|]; [|by rewrite lookup_alter_ne].
    rewrite lookup_alter_eq. by destruct (evs s !! e').
  - intros e' y (x & Hx & -> & _)%Hl. exact (wf_live _ _ Hwf _ _ Hx).
  - intros e' y (x & Hx & _ & ->)%Hl. exact (wf_open _ _ Hwf _ _ Hx).
  - intros e1 e2 y1 y2 (x1 & Hx1 & _ & ->)%Hl (x2 & Hx2 & _ & ->)%Hl. exact (wf_fds _ _ Hwf _ _ _ _ Hx1 Hx2).
Qed.

Lemma set_kernel_wf k l s : fds k = fds (kernel s) → store_wf l s → store_wf l (set_kernel k s).
Proof. intros Hk [??? ?]. split; [done..| |done]. simpl. by rewrite Hk. Qed.

(** A new event for an open descriptor that no event has. *)
Lemma make_event_wf fd ev l s e s' :
  fd ∈ fds (kernel s) → (∀ e x, evs s !! e = Some x → getFD x.1 ≠ fd) → store_wf l s →
  make_event fd ev s = (e, s') →
  store_wf (e :: l) s' ∧ kernel s' = kernel s ∧
  evs s' = <[e := (new_Event fd ev, 1%nat)]> (evs s) ∧ evs s !! e = None.
Proof.
  intros Hfd Hnew Hwf [= He <-]. assert (evs s !! e = None) as Hnone.
  { apply not_elem_of_dom. rewrite <- He. apply is_fresh. }
  rewrite He. split_and!; [|done..]. split; cbn [kernel evs].
  - intros e'. pose proof (wf_refs _ _ Hwf e') as Hr. unfold refs in *. cbn [evs]. rewrite copies_cons.
    case_decide; subst; [|by rewrite lookup_insert_ne].
    rewrite lookup_insert_eq. simpl. rewrite Hnone in Hr. simpl in Hr. lia.
  - intros e' x [[<- <-]|[_ Hx]]%lookup_insert_Some; [simpl; lia|by apply (wf_live _ _ Hwf e')].
  - intros e' x [[<- <-]|[_ Hx]]%lookup_insert_Some; [done|by apply (wf_open _ _ Hwf e')].
  - intros e1 e2 x1 x2 [[<- <-]|[_ Hx1]]%lookup_insert_Some [[<- <-]|[_ Hx2]]%lookup_insert_Some; simpl; intros Heq.
    + done.
    + by destruct (Hnew _ _ Hx2).
    + by destruct (Hnew _ _ Hx1).
    + by eapply (wf_fds _ _ Hwf).
Qed.

(** Giving up a pointer: the event lives on, or its descriptor is closed. *)
Lemma release_cases e l s :
  store_wf (e :: l) s →
  ∃ x, evs s !! e = Some x ∧
    (((e ∈ l) ∧ release e s = mk_store (kernel s) (<[e := (x.1, x.2 - 1)%nat]> (evs s))) ∨
     ((e ∉ l) ∧ release e s = mk_store (sys_close (getFD x.1) (kernel s)) (delete e (evs s)))).
Proof.
  intros Hwf. destruct (owner_live e _ _ Hwf) as [x Hx]; [by left|]. exists x. split; [done|].
  pose proof (wf_refs _ _ Hwf e) as Hr. unfold refs in Hr. rewrite Hx, copies_cons, decide_True in Hr by done.
  simpl in Hr. unfold release. rewrite Hx. destruct x as [ev n]. simpl in *. subst n.
  destruct (Nat.leb_spec (S (copies e l)) 1) as [Hle|Hgt].
  - right. split; [|done]. rewrite <- copies_elem. lia.
  - left. split; [|done]. rewrite <- copies_elem. lia.
Qed.

Lemma release_wf e l s : store_wf (e :: l) s → store_wf l (release e s).
Proof.
  intros Hwf. destruct (release_cases e l s Hwf) as (x & Hx & Hc).
  assert (∀ e', refs e' s = if decide (e' = e) then S (copies e' l) else copies e' l) as Hr.
  { intros e'. by rewrite (wf_refs _ _ Hwf), copies_cons. }
  destruct Hc as [[Hin ->]|[Hnin ->]]; split; cbn [kernel evs].
  - intros e'. specialize (Hr e'). unfold refs in *. simpl. case_decide; subst.
    + rewrite lookup_insert_eq. rewrite Hx in Hr. simpl in *. lia.
    + by rewrite lookup_insert_ne.
  - intros e' y [[<- <-]|[_ Hy]]%lookup_insert_Some; [|by apply (wf_live _ _ Hwf e')].
    specialize (Hr e). unfold refs in Hr. rewrite Hx, decide_True in Hr by done. simpl in *.
    apply copies_elem in Hin. lia.
  - intros e' y [[<- <-]|[_ Hy]]%lookup_insert_Some; [by apply (wf_open _ _ Hwf _ _ Hx)|by apply (wf_open _ _ Hwf e')].
  - intros e1 e2 x1 x2 [[<- <-]|[_ H1']]%lookup_insert_Some [[<- <-]|[_ H2']]%lookup_insert_Some; simpl; intros Heq;
      [done|by eapply (wf_fds _ _ Hwf)..].
  - intros e'. specialize (Hr e'). unfold refs in *. simpl. case_decide; subst.
    + rewrite lookup_delete_eq. simpl. assert (¬ (0 < copies e l)%nat) by (by rewrite copies_elem). lia.
    + by rewrite lookup_delete_ne.
  - intros e' y [_ Hy]%lookup_delete_Some. by apply (wf_live _ _ Hwf e').
  - intros e' y [Hne Hy]%lookup_delete_Some. destruct (close_ok (getFD x.1) (kernel s)) as [-> _].
    apply elem_of_difference. split; [by apply (wf_open _ _ Hwf e')|].
    intros Heq%elem_of_singleton. apply Hne. by eapply (wf_fds _ _ Hwf).
  - intros e1 e2 x1 x2 [_ H1']%lookup_delete_Some [_ H2']%lookup_delete_Some. by eapply (wf_fds _ _ Hwf).
Qed.

(** Releasing a pointer creates no event and changes no descriptor. *)
Lemma release_same_fd f e y (s : store K) :
  evs (release f s) !! e = Some y → ∃ x, evs s !! e = Some x ∧ getFD y.1 = getFD x.1.
Proof.
  unfold release. destruct (evs s !! f) as [[ev0 n0]|] eqn:E; [|by eexists].
  destruct (Nat.leb n0 1); simpl.
  - intros [_ Hy]%lookup_delete_Some. by eexists.
  - intros [[<- <-]|[_ Hy]]%lookup_insert_Some; by eexists.
Qed.

(** * What an event poller keeps *)

Definition map_refs (p : Epoll) : list eptr := (map_to_list (__events p)).*2.

(** For the poller of worker [i]: the map agrees with the interest set of the
    kernel, each entry being a live event for its descriptor that knows its
    worker, and its size is within the limit. *)
Record epoll_wf (i : nat) (p : Epoll) (s : store K) : Prop := {
  wf_map fd e :
    __events p !! fd = Some e → ∃ x, evs s !! e = Some x ∧ getFD x.1 = fd ∧ getWorker x.1 = Some i;
  wf_interest : dom (__events p) = dom (interest (__epfd p) (kernel s));
  wf_max : (size (__events p) ≤ __maxFDS p)%nat
}.

Lemma elem_map_refs e p : e ∈ map_refs p ↔ ∃ fd, __events p !! fd = Some e.
Proof.
  unfold map_refs. rewrite list_elem_of_fmap. split.
  - intros ([fd e'] & -> & Hin%elem_of_map_to_list). by exists fd.
  - intros [fd Hfd%elem_of_map_to_list]. by exists (fd, e).
Qed.

Lemma map_refs_insert fd e p :
  __events p !! fd = None → map_refs (set_events (<[fd := e]> (__events p)) p) ≡ₚ e :: map_refs p.
Proof. intros Hn. unfold map_refs. simpl. by rewrite map_to_list_insert. Qed.

Lemma map_refs_delete fd e p :
  __events p !! fd = Some e → map_refs p ≡ₚ e :: map_refs (set_events (delete fd (__events p)) p).
Proof. intros Hs. unfold map_refs. simpl. by rewrite <- (map_to_list_delete _ _ _ Hs). Qed.

(** Another poller sees nothing of what [p]'s calls do: its events stay. *)
Definition others_kept (p : Epoll) (o : list eptr) (s s' : store K) : Prop :=
  ∀ j q, __epfd q ≠ __epfd p → map_refs q ⊆ o → epoll_wf j q s → epoll_wf j q s'.

Lemma epoll_wf_set_kernel k i q s :
  interest (__epfd q) k = interest (__epfd q) (kernel s) → epoll_wf i q s → epoll_wf i q (set_kernel k s).
Proof. intros Hk [???]. split; [done| |done]. simpl. by rewrite Hk. Qed.

Lemma epoll_wf_share e i q s : epoll_wf i q s → epoll_wf i q (share e s).
Proof.
  intros [Hm Hi Hx]. split; [|done|done]. intros fd e' (x & Hx' & Hfd & Hw)%Hm. simpl.
  destruct (decide (e = e')) as [->|]; [|rewrite lookup_alter_ne by done; by exists x].
  rewrite lookup_alter_eq, Hx'. by exists (x.1, S x.2).
Qed.

Lemma epoll_wf_update f e i q s :
  (∀ ev, getFD (f ev) = getFD ev) → (∀ ev, getWorker (f ev) = getWorker ev) →
  epoll_wf i q s → epoll_wf i q (update_event f e s).
Proof.
  intros Hf Hg [Hm Hi Hx]. split; [|done|done]. intros fd e' (x & Hx' & Hfd & Hw)%Hm. simpl.
  destruct (decide (e = e')) as [->|]; [|rewrite lookup_alter_ne by done; by exists x].
  rewrite lookup_alter_eq, Hx'. exists (f x.1, x.2). cbn [fst]. by rewrite Hf, Hg.
Qed.

(** Releasing a pointer closes no descriptor a poller still watches. *)
Lemma epoll_wf_release e l i q s :
  store_wf (e :: l) s → map_refs q ⊆ l → epoll_wf i q s → epoll_wf i q (release e s).
Proof.
  intros Hwf Hsub [Hm Hi Hx]. destruct (release_cases e l s Hwf) as (x & Hxe & [[Hin ->]|[Hnin ->]]).
  - split; [|done|done]. intros fd e' (y & Hy & Hfd & Hw)%Hm. simpl.
    destruct (decide (e = e')) as [->|]; [|rewrite lookup_insert_ne by done; by exists y].
    rewrite lookup_insert_eq. eexists. split; [done|]. simpl. split; congruence.
  - assert (∀ fd e', __events q !! fd = Some e' → e' ≠ e ∧ fd ≠ getFD x.1) as Hne.
    { intros fd e' Hq. assert (e' ≠ e) as Hne.
      { intros ->. apply Hnin, Hsub. apply elem_map_refs. by exists fd. }
      split; [done|]. intros ->. destruct (Hm _ _ Hq) as (y & Hy & Hfd & Hw). apply Hne.
      by eapply (wf_fds _ _ Hwf). }
    split; [| |done].
    + intros fd e' Hq. destruct (Hne _ _ Hq) as [He _]. destruct (Hm _ _ Hq) as (y & Hy & Hfd & Hw).
      exists y. simpl. by rewrite lookup_delete_ne.
    + simpl. destruct (close_ok (getFD x.1) (kernel s)) as [_ ->]. rewrite dom_delete_L, <- Hi.
      apply set_eq. intros fd. rewrite elem_of_difference, elem_of_singleton. split; [|by intros [? _]].
      intros Hfd. split; [done|]. apply elem_of_dom in Hfd as [e' Hq]. by destruct (Hne _ _ Hq).
Qed.

(** A kernel call on [p]'s instance that leaves the other ones alone. *)
Lemma others_kernel p o k s :
  (∀ ep', ep' ≠ __epfd p → interest ep' k = interest ep' (kernel s)) → others_kept p o s (set_kernel k s).
Proof. intros Hk j q Hq _ Hwf. apply epoll_wf_set_kernel; [by apply Hk|done]. Qed.

(** The result of registering: the event is in the map, which now owns it, or
    nothing has changed but the kernel's other state. *)
Definition add_result (p p' : Epoll) (e : eptr) (ev : Event) (s s' : store K) (err : Error) : Prop :=
  (err = SERVER_OK ∧ __events p !! getFD ev = None ∧
   p' = set_events (<[getFD ev := e]> (__events p)) p ∧ evs s' = evs (share e s)) ∨
  (err ≠ SERVER_OK ∧ p' = p ∧ evs s' = evs s).

Lemma epollAddEvent_ok e ev n o i p s :
  evs s !! e = Some (ev, n) → getWorker ev = Some i → store_wf (map_refs p ++ o) s → epoll_wf i p s →
  ∃ err p' s', epollAddEvent e p s = Ret (err, p', s') ∧
    store_wf (map_refs p' ++ o) s' ∧ epoll_wf i p' s' ∧ others_kept p o s s' ∧
    fds (kernel s') = fds (kernel s) ∧ add_result p p' e ev s s' err.
Proof.
  intros He Hwk Hwf Hp. unfold epollAddEvent, get_event. rewrite He, deref_Some_bind, ret_bind.
  destruct (Nat.leb_spec (maxFDS p) (activeFDS p)) as [_|Hsz].
  { eexists _, p, s. by split_and!; [| | |intros j q| |right]. }
  destruct (validEpollFD p); cbn [negb]; [|eexists _, p, s; by split_and!; [| | |intros j q| |right]].
  destruct (epoll_ctl _ _ _ _ _) as [ok k1] eqn:Hctl.
  destruct (ctl_add_ok _ _ _ _ _ _ Hctl) as (Hfds & Hoth & Hr). destruct ok.
  - destruct Hr as [Hnone Hint].
    assert (__events p !! getFD ev = None) as Hfresh.
    { apply not_elem_of_dom. rewrite (wf_interest _ _ _ Hp). by apply not_elem_of_dom. }
    eexists _, _, _. split; [done|]. rewrite Hfresh. cbn [release_old].
    split_and!; [| | |done|left; by split_and!].
    + eapply store_wf_perm; [symmetry; by apply Permutation_app_tail, map_refs_insert|].
      cbn [app]. apply share_wf; [simpl; by rewrite He|]. by apply set_kernel_wf.
    + split; cbn [__events __epfd __maxFDS set_events].
      * intros fd e' [[<- <-]|[_ Hq]]%lookup_insert_Some.
        -- simpl. rewrite lookup_alter_eq, He. by eexists.
        -- destruct (wf_map _ _ _ Hp _ _ Hq) as (x & Hx & Hfd & Hw). simpl.
           destruct (decide (e = e')) as [->|]; [|rewrite lookup_alter_ne by done; by exists x].
           rewrite lookup_alter_eq, Hx. by eexists.
      * simpl. rewrite Hint, !dom_insert_L. f_equal. apply (wf_interest _ _ _ Hp).
      * rewrite map_size_insert_None by done. unfold activeFDS, maxFDS in Hsz. lia.
    + intros j q Hq Hsub Hwfq. by apply epoll_wf_share, (others_kernel p o).
  - eexists _, p, _. split_and!; [done|by apply set_kernel_wf| |by apply others_kernel|done|by right].
    by apply epoll_wf_set_kernel.
Qed.

(** Unregistering succeeds exactly for an event that is in the map, which then
    gives up its pointer; the caller's own keeps the event alive. *)
Lemma epollDelEvent_ok e ev n o i p s :
  evs s !! e = Some (ev, n) → store_wf (map_refs p ++ o) s → epoll_wf i p s → validEpollFD p = true →
  ∃ err p' s', epollDelEvent e p s = Ret (err, p', s') ∧
    store_wf (map_refs p' ++ o) s' ∧ epoll_wf i p' s' ∧ others_kept p o s s' ∧
    p' = set_events (delete (getFD ev) (__events p)) p ∧
    (err = SERVER_OK ↔ __events p !! getFD ev = Some e).
Proof.
  intros He Hwf Hp Hv. unfold epollDelEvent, get_event. rewrite He, deref_Some_bind, ret_bind, Hv. cbn [negb].
  destruct (epoll_ctl _ _ _ _ _) as [ok k1] eqn:Hctl.
  destruct (ctl_del_ok _ _ _ _ _ _ Hctl) as (Hfds & Hoth & Hr & Hint).
  assert (ok = true ↔ is_Some (__events p !! getFD ev)) as Hok.
  { rewrite Hr. by rewrite <- !elem_of_dom, (wf_interest _ _ _ Hp). }
  set (s1 := set_kernel k1 s). assert (store_wf (map_refs p ++ o) s1) as Hwf1 by by apply set_kernel_wf.
  assert (others_kept p o s s1) as Hoth1 by by apply others_kernel.
  destruct (__events p !! getFD ev) as [e'|] eqn:Hq.
  - assert (ok = true) as -> by by apply Hok.
    assert (e' = e) as ->.
    { destruct (wf_map _ _ _ Hp _ _ Hq) as (x & Hx & Hfd & _). exact (wf_fds _ _ Hwf _ _ _ _ Hx He Hfd). }
    eexists _, _, _. split; [done|]. cbn [release_old]. set (p' := set_events _ p).
    assert (store_wf (e :: map_refs p' ++ o) s1) as Hwf2.
    { eapply store_wf_perm; [|done]. by rewrite (map_refs_delete _ _ _ Hq). }
    assert (epoll_wf i p' s1) as Hp'.
    { split; cbn [__events __epfd __maxFDS set_events p'].
      - intros fd e' [_ Hq']%lookup_delete_Some. by apply (wf_map _ _ _ Hp).
      - simpl. rewrite Hint, !dom_delete_L. by rewrite (wf_interest _ _ _ Hp).
      - rewrite map_size_delete. pose proof (wf_max _ _ _ Hp). rewrite Hq. lia. }
    split_and!; [by apply release_wf| | |done|done].
    + eapply epoll_wf_release; [done|intros x Hx; by apply elem_of_app; left|done].
    + intros j q Hneq Hsub Hwfq. eapply epoll_wf_release; [done| |by apply Hoth1].
      intros x Hx. apply elem_of_app. right. by apply Hsub.
  - assert (ok = false) as -> by (destruct ok; [by destruct Hok as [[? ?] _]|done]).
    rewrite (delete_id _ _ Hq). exists EPOLL_EVENT_DEL_FAILED, p, s1.
    split_and!; [done|done| |done|by destruct p|done].
    apply epoll_wf_set_kernel; [|done]. rewrite Hint. apply delete_id.
    apply not_elem_of_dom. rewrite <- (wf_interest _ _ _ Hp). by apply not_elem_of_dom.
Qed.

(** The events returned by a wait are live, each with a pointer of its own. *)
Lemma collect_ok l i p s o :
  store_wf o s → epoll_wf i p s →
  ∃ ret s', collect l p s = (ret, s') ∧ store_wf (ret ++ o) s' ∧ epoll_wf i p s' ∧
    (∀ j q, epoll_wf j q s → epoll_wf j q s') ∧ ret = omap (λ x, __events p !! x.1) l ∧ kernel s' = kernel s.
Proof.
  revert s o. induction l as [|[fd events] l IH]; intros s o Hwf Hp; cbn [collect omap list_omap fst].
  - by exists [], s.
  - destruct (__events p !! fd) as [cur|] eqn:Hq; [|by apply IH].
    assert (∀ ev, getFD (setResponseEvent events ev) = getFD ev) as Hf by done.
    set (s1 := share cur (update_event (setResponseEvent events) cur s)).
    assert (epoll_wf i p s1) as Hp1 by by apply epoll_wf_share, epoll_wf_update.
    destruct (wf_map _ _ _ Hp _ _ Hq) as (x & Hx & _ & _).
    assert (store_wf (cur :: o) s1) as Hwf1.
    { apply share_wf; [|by apply update_wf]. simpl. by rewrite lookup_alter_eq, Hx. }
    destruct (IH s1 (cur :: o) Hwf1 Hp1) as (ret & s' & -> & Hwf' & Hp' & Hq' & -> & Hk).
    eexists _, s'. split; [done|]. split_and!; [|done| |done|by rewrite Hk].
    + eapply store_wf_perm; [|done]. by rewrite <- Permutation_middle.
    + intros j q Hwfq. by apply Hq', epoll_wf_share, epoll_wf_update.
Qed.

Lemma epollWait_ok timeout i p s o ret err s' :
  store_wf o s → epoll_wf i p s → epollWait timeout p s = (ret, err, s') →
  store_wf (ret ++ o) s' ∧ epoll_wf i p s' ∧ (∀ j q, epoll_wf j q s → epoll_wf j q s') ∧
  (length ret ≤ maxFDS p)%nat ∧ (err ≠ SERVER_OK → ret = []) ∧ Forall (λ e, e ∈ map_refs p) ret.
Proof.
  intros Hwf Hp. unfold epollWait. destruct (validEpollFD p); cbn [negb].
  2: { intros [= <- <- <-]. split_and!; try done. simpl. lia. }
  destruct (epoll_wait _ _ _ _) as [r k1] eqn:Hw.
  destruct (wait_ok _ _ _ _ _ _ Hw) as (Hfds & Hint & Hl).
  assert (∀ j q, epoll_wf j q s → epoll_wf j q (set_kernel k1 s)) as Hq by (intros j q; by apply epoll_wf_set_kernel).
  destruct r as [l|].
  - destruct (collect_ok l i p (set_kernel k1 s) o) as (ret' & s2 & -> & Hwf2 & Hp2 & Hq2 & -> & _);
      [by apply set_kernel_wf|by apply Hq|].
    intros [= <- <- <-]. destruct (Hl l eq_refl) as [Hlen _]. split_and!; [done|done|by auto| |done|].
    + etrans; [|exact Hlen]. clear. induction l as [|[fd ev] l IH]; [done|].
      cbn [omap list_omap fst]. destruct (__events p !! fd); cbn [length]; lia.
    + apply list.Forall_forall. intros e He. apply elem_map_refs.
      apply list_elem_of_omap in He as ([fd ev] & _ & Hfd). by exists fd.
  - intros [= <- <- <-]. split_and!; try done; [by apply set_kernel_wf|by apply Hq|simpl; lia].
Qed.

(** ** The worker an event knows *)

Definition link (e : eptr) (s : store K) : option (option nat) := (λ x, getWorker x.1) <$> evs s !! e.

Lemma link_share e f s : link e (share f s) = link e s.
Proof.
  unfold link. simpl. destruct (decide (f = e)) as [->|]; [|by rewrite lookup_alter_ne].
  rewrite lookup_alter_eq. by destruct (evs s !! e).
Qed.

Lemma link_update g e f s :
  (∀ ev, getWorker (g ev) = getWorker ev) ∨ e ≠ f → link e (update_event g f s) = link e s.
Proof.
  intros Hg. unfold link. simpl. destruct (decide (f = e)) as [->|]; [|by rewrite lookup_alter_ne].
  rewrite lookup_alter_eq. destruct (evs s !! e) as [[ev n]|]; [|done]. simpl.
  destruct Hg as [Hg|]; [by rewrite Hg|done].
Qed.

(** Giving up one pointer leaves alone every event that still has an owner. *)
Lemma link_release e f l s : store_wf (f :: l) s → e ∈ l → link e (release f s) = link e s.
Proof.
  intros Hwf He. destruct (release_cases f l s Hwf) as ([ev n] & Hx & [[Hin ->]|[Hnin ->]]); unfold link; simpl.
  - destruct (decide (f = e)) as [->|]; [by rewrite lookup_insert_eq, Hx|by rewrite lookup_insert_ne].
  - rewrite lookup_delete_ne; [done|]. by intros ->.
Qed.

Lemma link_add e f ev p p' s s' err : add_result p p' f ev s s' err → link e s' = link e s.
Proof.
  intros [(_ & _ & _ & Hev)|(_ & _ & Hev)]; unfold link; rewrite Hev; [apply link_share|done].
Qed.

Lemma link_del e f o p s err p' s' :
  store_wf (map_refs p ++ o) s → e ∈ o → epollDelEvent f p s = Ret (err, p', s') → link e s' = link e s.
Proof.
  intros Hwf He. unfold epollDelEvent, get_event. destruct (evs s !! f) as [[ev n]|]; [|done].
  rewrite deref_Some_bind, ret_bind. destruct (validEpollFD p); cbn [negb]; [|by intros [= _ _ <-]].
  destruct (epoll_ctl _ _ _ _ _) as [ok k1] eqn:Hctl. destruct ok; [|by intros [= _ _ <-]].
  intros [= _ _ <-]. destruct (__events p !! getFD ev) as [f'|] eqn:Hq; [|done]. cbn [release_old].
  rewrite (link_release e f' (map_refs (set_events (delete (getFD ev) (__events p)) p) ++ o)); [done| |by apply elem_of_app; right].
  destruct (ctl_del_ok _ _ _ _ _ _ Hctl) as (Hfds & _). apply set_kernel_wf; [done|].
  eapply store_wf_perm; [|exact Hwf]. by rewrite (map_refs_delete _ _ _ Hq).
Qed.

Lemma link_collect e l p s : link e (snd (collect l p s)) = link e s.
Proof.
  revert s. induction l as [|[fd ev] l IH]; intros s; cbn [collect]; [done|].
  destruct (__events p !! fd) as [cur|]; [|apply IH].
  destruct (collect l p _) as [ret s1] eqn:E. cbn [snd].
  assert (s1 = snd (collect l p (share cur (update_event (setResponseEvent ev) cur s)))) as -> by by rewrite E.
  rewrite IH, link_share. apply link_update. by left.
Qed.

Lemma link_wait e timeout p s : link e (snd (epollWait timeout p s)) = link e s.
Proof.
  unfold epollWait. destruct (validEpollFD p); [|done]. cbn [negb].
  destruct (epoll_wait _ _ _ _) as [[l|] k1]; [|done].
  pose proof (link_collect e l p (set_kernel k1 s)) as Hl. by destruct (collect l p _).
Qed.
End ownership.

(** * Properties *)

Section properties.
Context {K : Type} `{KernelOk K}.

(** C24: registering an event keeps the books: the map still agrees with the
    kernel's interest set, within the limit, counts match owners, and the
    descriptor and its pointer are kept exactly when it succeeds. *)
Theorem add_keeps_poller e ev n o i p s :
  evs s !! e = Some (ev, n) → getWorker ev = Some i → store_wf (map_refs p ++ o) s → epoll_wf i p s →
  ∃ err p' s', epollAddEvent e p s = Ret (err, p', s') ∧
    store_wf (map_refs p' ++ o) s' ∧ epoll_wf i p' s' ∧ (activeFDS p' ≤ maxFDS p')%nat ∧
    fds (kernel s') = fds (kernel s) ∧
    (if decide (err = SERVER_OK)
     then __events p' = <[getFD ev := e]> (__events p) ∧ activeFDS p' = S (activeFDS p) ∧ refs e s' = S n
     else p' = p ∧ refs e s' = n).
Proof.
  intros He Hw Hwf Hp. destruct (epollAddEvent_ok e ev n o i p s He Hw Hwf Hp)
    as (err & p' & s' & Hrun & Hwf' & Hp' & _ & Hfds & Hres).
  exists err, p', s'. split_and!; [done..|apply (wf_max _ _ _ Hp')|done|].
  destruct Hres as [(-> & Hn & -> & Hev)|(Hne & -> & Hev)].
  - rewrite decide_True by done. unfold refs, activeFDS. rewrite Hev. simpl.
    rewrite map_size_insert_None, lookup_alter_eq, He by done. done.
  - rewrite decide_False by done. unfold refs. by rewrite Hev, He.
Qed.

(** C25: unregistering succeeds exactly for a registered event; afterwards
    neither the map nor the kernel has it, one pointer fewer refers to it, and the
    books are kept. Its descriptor stays open as long as another pointer does. *)
Theorem del_keeps_poller e ev n o i p s :
  evs s !! e = Some (ev, n) → e ∈ o → store_wf (map_refs p ++ o) s → epoll_wf i p s → validEpollFD p = true →
  ∃ err p' s', epollDelEvent e p s = Ret (err, p', s') ∧
    store_wf (map_refs p' ++ o) s' ∧ epoll_wf i p' s' ∧
    __events p' !! getFD ev = None ∧ interest (__epfd p) (kernel s') !! getFD ev = None ∧
    (err = SERVER_OK ↔ __events p !! getFD ev = Some e) ∧ getFD ev ∈ fds (kernel s').
Proof.
  intros He Ho Hwf Hp Hv. destruct (epollDelEvent_ok e ev n o i p s He Hwf Hp Hv)
    as (err & p' & s' & Hrun & Hwf' & Hp' & _ & Hp'eq & Herr).
  assert (__events p' !! getFD ev = None) as Hnone by (subst p'; apply lookup_delete_eq).
  exists err, p', s'. split_and!; [done..| |done|].
  - apply not_elem_of_dom. replace (__epfd p) with (__epfd p') by by subst p'.
    rewrite <- (wf_interest _ _ _ Hp'). by apply not_elem_of_dom.
  - destruct (owner_live e _ s' Hwf') as [x Hx]; [by apply elem_of_app; right|].
    assert (getFD x.1 = getFD ev) as <-; [|by apply (wf_open _ _ Hwf' e)].
    unfold epollDelEvent, get_event in Hrun. rewrite He, deref_Some_bind, ret_bind, Hv in Hrun. cbn [negb] in Hrun.
    destruct (epoll_ctl _ _ _ _ _) as [[] k1]; injection Hrun as <- _ <-; cbn [evs set_kernel] in Hx.
    + unfold release_old in Hx. destruct (__events p !! getFD ev).
      * apply release_same_fd in Hx as (y & Hy & ->). simpl in Hy. rewrite He in Hy. by injection Hy as <-.
      * simpl in Hx. rewrite He in Hx. by injection Hx as <-.
    + rewrite He in Hx. by injection Hx as <-.
Qed.

(** Waiting returns only registered events, at most as many as the limit,
    each kept alive by a pointer of its own. *)
Theorem wait_returns_registered timeout i p s o ret err s' :
  store_wf o s → epoll_wf i p s → epollWait timeout p s = (ret, err, s') →
  store_wf (ret ++ o) s' ∧ epoll_wf i p s' ∧ (length ret ≤ maxFDS p)%nat ∧
  Forall (λ e, (∃ fd, __events p !! fd = Some e) ∧ is_Some (evs s' !! e)) ret ∧
  (err ≠ SERVER_OK → ret = []).
Proof.
  intros Hwf Hp Hr. destruct (epollWait_ok timeout i p s o ret err s' Hwf Hp Hr) as (Hwf' & Hp' & _ & Hl & He & Hf).
  split_and!; try done. rewrite list.Forall_forall in Hf |- *. intros e Hin.
  split; [by apply elem_map_refs, Hf|]. eapply owner_live; [done|]. by apply elem_of_app; left.
Qed.
End properties.

(** [epollAddEvent] tests the size of the map and inserts into it under two
    separate acquisitions of the lock. *)
Section race.
Context {K : Type} `{Kernel K}.

Definition add_check (p : Epoll) : bool := negb (Nat.leb (maxFDS p) (activeFDS p)) && validEpollFD p.

Definition add_commit (e : eptr) (p : Epoll) (s : store K) : outcome (Error * Epoll * store K) :=
  ev ← get_event e s;
  let fd := getFD ev in
  let '(ok, k1) := epoll_ctl (__epfd p) EPOLL_CTL_ADD fd (getEvent ev) (kernel s) in
  let s1 := set_kernel k1 s in
  if ok : bool then
    mret (SERVER_OK, set_events (<[fd := e]> (__events p)) p,
          release_old (__events p !! fd) (share e s1))
  else mret (EPOLL_EVENT_ADD_FAILED, p, s1).

Lemma add_is_check_commit e p s :
  is_Some (evs s !! e) → add_check p = true → epollAddEvent e p s = add_commit e p s.
Proof.
  intros [[ev n] He]. unfold add_check, epollAddEvent, add_commit, get_event. rewrite He, deref_Some_bind, ret_bind.
  destruct (Nat.leb _ _); [done|]. by destruct (validEpollFD p).
Qed.

(** Two threads that register at the same time can exceed the limit: both
    see the last free place, and both then take one. *)
Theorem concurrent_adds_exceed_limit `{!KernelOk K} e1 e2 x1 x2 i p s p1 s1 p2 s2 :
  S (activeFDS p) = maxFDS p → validEpollFD p = true → epoll_wf i p s →
  evs s !! e1 = Some x1 → evs s !! e2 = Some x2 → getFD x1.1 ≠ getFD x2.1 →
  add_commit e1 p s = Ret (SERVER_OK, p1, s1) → add_commit e2 p1 s1 = Ret (SERVER_OK, p2, s2) →
  add_check p = true ∧ (maxFDS p2 < activeFDS p2)%nat.
Proof.
  intros Hsz Hv Hp He1 He2 Hne H1' H2'. split.
  { unfold add_check. rewrite Hv, andb_true_r, <- Hsz. apply negb_true_iff, Nat.leb_gt. lia. }
  unfold add_commit, get_event in H1', H2'. rewrite He1, deref_Some_bind in H1'. destruct x1 as [ev1 n1], x2 as [ev2 n2].
  rewrite ret_bind in H1'. destruct (epoll_ctl _ _ _ _ (kernel s)) as [ok k1] eqn:Hc1.
  destruct (ctl_add_ok _ _ _ _ _ _ Hc1) as (_ & _ & Hr1). destruct ok; [|done]. destruct Hr1 as [Hn1 Hi1].
  assert (__events p !! getFD ev1 = None) as Hq1.
  { apply not_elem_of_dom. rewrite (wf_interest _ _ _ Hp). by apply not_elem_of_dom. }
  rewrite Hq1 in H1'. injection H1' as <- <-. cbn [release_old] in H2'.
  assert (∃ n, evs (share e1 (set_kernel k1 s)) !! e2 = Some (ev2, n)) as [n He2'].
  { simpl. destruct (decide (e1 = e2)) as [->|]; [|rewrite lookup_alter_ne by done; by eexists].
    rewrite lookup_alter_eq, He2. by eexists. }
  rewrite He2', deref_Some_bind, ret_bind in H2'. cbn [kernel share set_kernel] in H2'.
  destruct (epoll_ctl _ _ _ _ k1) as [ok k2] eqn:Hc2.
  destruct (ctl_add_ok _ _ _ _ _ _ Hc2) as (_ & _ & Hr2). destruct ok; [|done]. destruct Hr2 as [Hn2 _].
  injection H2' as <- _. unfold activeFDS, maxFDS in *. simpl in *.
  rewrite Hi1 in Hn2. apply lookup_insert_None in Hn2 as [Hn2 _].
  assert (__events p !! getFD ev2 = None) as Hq2.
  { apply not_elem_of_dom. rewrite (wf_interest _ _ _ Hp). by apply not_elem_of_dom. }
  rewrite !map_size_insert_None by (done || by rewrite lookup_insert_ne). lia.
Qed.
End race.
