(* ===== verification/PollerThreads.v ===== *)
(** Epoll, several threads: what a poller keeps when the listening thread registers
    clients with it while its own worker waits, unregisters and drops events.

    A step is what one thread does between two acquisitions of the poller's lock:
    the test of [epollAddEvent] and its insertion are two steps, and so are
    [epoll_wait] and the collection of the events in [epollWait]. *)

From S2P Require Export Epoll.

(** Where a thread is: between operations, past the guards of [epollAddEvent], or
    with what [epoll_wait] reported. *)
Inductive poller_pc := Idle | Checked (e : eptr) | Reported (l : list (Z * N)).

(** A thread with the pointers it has, one entry each, and whether it ever
    registers events. *)
Record poller_thread := mk_thread { pc : poller_pc; mine : list eptr; registers : bool }.

Section steps.
Context {K : Type} `{Kernel K} (worker : nat).

Record poller_sys := mk_poller_sys { poller : Epoll; pstore : store K; pthreads : list poller_thread }.

Inductive thread_step : poller_thread → Epoll * store K → poller_thread → Epoll * store K → Prop :=
| thread_accept lfd ev c k1 e s1 m a p s :
    sys_accept lfd (kernel s) = (Some c, k1) → make_event c ev (set_kernel k1 s) = (e, s1) →
    thread_step (mk_thread Idle m a) (p, s)
                (mk_thread Idle (e :: m) a) (p, update_event (setWorker (Some worker)) e s1)
| thread_check e m p s :
    e ∈ m → link e s = Some (Some worker) →
    thread_step (mk_thread Idle m true) (p, s)
                (mk_thread (if add_check p then Checked e else Idle) m true) (p, s)
| thread_commit e m a p s err p' s' :
    add_commit e p s = Ret (err, p', s') →
    thread_step (mk_thread (Checked e) m a) (p, s) (mk_thread Idle m a) (p', s')
| thread_delete e m a p s err p' s' :
    e ∈ m → epollDelEvent e p s = Ret (err, p', s') →
    thread_step (mk_thread Idle m a) (p, s) (mk_thread Idle m a) (p', s')
| thread_wait timeout r k1 m a p s :
    validEpollFD p = true → epoll_wait (__epfd p) (maxFDS p) timeout (kernel s) = (r, k1) →
    thread_step (mk_thread Idle m a) (p, s)
                (mk_thread (match r with Some l => Reported l | None => Idle end) m a) (p, set_kernel k1 s)
| thread_collect l ret m a p s s' :
    collect l p s = (ret, s') →
    thread_step (mk_thread (Reported l) m a) (p, s) (mk_thread Idle (ret ++ m) a) (p, s')
| thread_drop e m m' a p s :
    m ≡ₚ e :: m' →
    thread_step (mk_thread Idle m a) (p, s) (mk_thread Idle m' a) (p, release e s).

Inductive poller_step : poller_sys → poller_sys → Prop :=
| poller_thread_step i t t' p' s' y :
    pthreads y !! i = Some t → thread_step t (poller y, pstore y) t' (p', s') →
    poller_step y (mk_poller_sys p' s' (<[i := t']> (pthreads y))).
End steps.
Arguments poller_sys : clear implicits.

(** * The bound

    Past the guards, a thread will insert whatever others have inserted meanwhile:
    with [n] threads that register, the map has at most [n - 1] events too many. *)

Definition checked (t : poller_thread) : nat := match pc t with Checked _ => 1 | _ => 0 end.
Definition adders (ts : list poller_thread) : nat := sum_list_with (λ t, Nat.b2n (registers t)) ts.
Definition committing (ts : list poller_thread) : nat := sum_list_with checked ts.

(** The poller with a limit so much higher. *)
Definition widen (k : nat) (p : Epoll) : Epoll := mk_Epoll (__epfd p) (__maxFDS p + k) (__events p).

Section invariant.
Context {K : Type} `{KernelOk K} (worker : nat) (rest : list eptr).
Abbreviation sys := (poller_sys K).

Definition owners (y : sys) : list eptr := map_refs (poller y) ++ (pthreads y ≫= mine) ++ rest.

Record poller_inv (n : nat) (y : sys) : Prop := {
  pi_store : store_wf (owners y) (pstore y);
  pi_poller : epoll_wf worker (widen (n - 1) (poller y)) (pstore y);
  pi_adders : adders (pthreads y) = n;
  pi_room : (0 < committing (pthreads y) →
             size (__events (poller y)) + committing (pthreads y) ≤ __maxFDS (poller y) + (n - 1))%nat;
  pi_checked t e : t ∈ pthreads y → pc t = Checked e →
    registers t = true ∧ e ∈ mine t ∧ link e (pstore y) = Some (Some worker) ∧ validEpollFD (poller y) = true
}.

Lemma add_commit_widen k e p s err p' s' :
  add_commit e p s = Ret (err, p', s') → add_commit e (widen k p) s = Ret (err, widen k p', s').
Proof.
  unfold add_commit. destruct (get_event e s) as [ev| | |]; try done. rewrite !ret_bind.
  change (__epfd (widen k p)) with (__epfd p). destruct (epoll_ctl _ _ _ _ _) as [[] k1]; by intros [= <- <- <-].
Qed.

Lemma del_widen k e p s err p' s' :
  epollDelEvent e p s = Ret (err, p', s') → epollDelEvent e (widen k p) s = Ret (err, widen k p', s').
Proof.
  unfold epollDelEvent. destruct (get_event e s) as [ev| | |]; try done. rewrite !ret_bind.
  change (validEpollFD (widen k p)) with (validEpollFD p). destruct (validEpollFD p); cbn [negb]; [|by intros [= <- <- <-]].
  change (__epfd (widen k p)) with (__epfd p). destruct (epoll_ctl _ _ _ _ _) as [[] k1]; by intros [= <- <- <-].
Qed.

Lemma collect_widen k l p (s : store K) : collect l (widen k p) s = collect l p s.
Proof.
  revert s. induction l as [|[fd ev] l IH]; intros s; cbn [collect]; [done|].
  change (__events (widen k p)) with (__events p). destruct (__events p !! fd); by rewrite IH.
Qed.

(** The invariant after a step of one thread, by what the step did. *)
Lemma poller_inv_put n i t t' ts p' s' y :
  poller_inv n y → pthreads y ≡ₚ t :: ts → <[i := t']> (pthreads y) ≡ₚ t' :: ts →
  __epfd p' = __epfd (poller y) → __maxFDS p' = __maxFDS (poller y) → registers t' = registers t →
  store_wf (map_refs p' ++ mine t' ++ (ts ≫= mine) ++ rest) s' → epoll_wf worker (widen (n - 1) p') s' →
  (0 < checked t' + committing ts →
   size (__events p') + (checked t' + committing ts) ≤ __maxFDS p' + (n - 1))%nat →
  (∀ e, e ∈ (ts ≫= mine) → link e s' = link e (pstore y)) →
  (∀ e, pc t' = Checked e →
     registers t' = true ∧ e ∈ mine t' ∧ link e s' = Some (Some worker) ∧ validEpollFD p' = true) →
  poller_inv n (mk_poller_sys p' s' (<[i := t']> (pthreads y))).
Proof.
  intros [_ _ Hn _ Hc] Hp Hput Hfd Hmax Hreg Hst Hep Hroom Hlink Ht'. split; cbn [poller pstore pthreads]; [|done| | |].
  - unfold owners. cbn [poller pthreads]. rewrite Hput. cbn [mbind list_bind]. by rewrite <- app_assoc.
  - unfold adders in *. rewrite Hput. rewrite Hp in Hn. simpl in *. by rewrite Hreg.
  - unfold committing in *. rewrite Hput. simpl. exact Hroom.
  - intros u e Hu He. rewrite Hput in Hu. apply elem_of_cons in Hu as [->|Hu]; [by apply Ht'|].
    destruct (Hc u e) as (? & Hm & Hl & Hv); [rewrite Hp; by right|done|].
    rewrite Hlink by (apply list_elem_of_bind; by exists u). split_and!; [done..|].
    unfold validEpollFD in *. by rewrite Hfd.
Qed.

Lemma committing_le ts :
  (∀ t e, t ∈ ts → pc t = Checked e → registers t = true) → (committing ts ≤ adders ts)%nat.
Proof.
  induction ts as [|t ts IH]; intros Hc; [done|]. unfold committing, adders in *. simpl.
  assert (checked t ≤ Nat.b2n (registers t))%nat.
  { unfold checked. destruct (pc t) as [|e|] eqn:E; [lia| |lia]. by rewrite (Hc t e) by first [by left|done]. }
  assert (∀ u e, u ∈ ts → pc u = Checked e → registers u = true) as Hc' by (intros u e Hu; apply Hc; by right).
  specialize (IH Hc'). lia.
Qed.

(** A new descriptor and its event, which no poller has. *)
Lemma accept_wf lfd ev c k1 e s1 l p s :
  store_wf l s → epoll_wf worker p s →
  sys_accept lfd (kernel s) = (Some c, k1) → make_event c ev (set_kernel k1 s) = (e, s1) →
  let s2 := update_event (setWorker (Some worker)) e s1 in
  store_wf (e :: l) s2 ∧ epoll_wf worker p s2 ∧ ∀ e', e' ∈ l → link e' s2 = link e' s.
Proof.
  intros Hwf Hp Ha Hm s2. destruct (accept_ok _ _ _ _ Ha) as (Hint & Hc & _ & Hfds).
  assert (store_wf l (set_kernel k1 s)) as Hwf1.
  { destruct Hwf as [H1 H2 H3 H4]. split; [done..| |done]. intros e' x Hx. cbn [kernel set_kernel]. rewrite Hfds.
    apply elem_of_union. right. by eapply H3. }
  destruct (make_event_wf c ev l (set_kernel k1 s) e s1) as (Hwf2 & Hk & Hev & Hnone); [|intros e' x Hx Heq; apply Hc; rewrite <- Heq; by apply (wf_open _ _ Hwf e')|done|done|].
  { cbn [kernel set_kernel]. rewrite Hfds. by apply elem_of_union; left; apply elem_of_singleton. }
  cbn [evs set_kernel] in Hev, Hnone.
  assert (∀ e', is_Some (evs s !! e') → evs s2 !! e' = evs s !! e' ∧ e' ≠ e) as Hold.
  { intros e' [x Hx]. assert (e' ≠ e) as Hne by congruence. split; [|done].
    unfold s2. simpl. by rewrite Hev, lookup_alter_ne, lookup_insert_ne. }
  split_and!.
  - by apply update_wf.
  - destruct Hp as [H1 H2 H3]. split; [|unfold s2; simpl; rewrite Hk; simpl; by rewrite Hint|done].
    intros fd e' Hq. destruct (H1 _ _ Hq) as (x & Hx & Hxr). exists x. by rewrite (proj1 (Hold e' ltac:(by eexists))).
  - intros e' He'. unfold link. by rewrite (proj1 (Hold e' (owner_live e' _ _ Hwf He'))).
Qed.

(** Inserting past the guards. *)
Lemma commit_ok n e ts o i t y err p' s' :
  poller_inv n y → pthreads y !! i = Some t → pc t = Checked e → pthreads y ≡ₚ t :: ts →
  store_wf (map_refs (poller y) ++ o) (pstore y) → add_commit e (poller y) (pstore y) = Ret (err, p', s') →
  store_wf (map_refs p' ++ o) s' ∧ epoll_wf worker (widen (n - 1) p') s' ∧ (∀ f, link f s' = link f (pstore y)) ∧
  __epfd p' = __epfd (poller y) ∧ __maxFDS p' = __maxFDS (poller y) ∧
  (size (__events p') ≤ S (size (__events (poller y))))%nat.
Proof.
  intros Hy Hi Hpc Hp Hwf Hc. destruct (pi_checked _ _ Hy t e) as (_ & _ & Hl & Hv); [by eapply list_elem_of_lookup_2|done|].
  assert (0 < committing (pthreads y))%nat as Hpos.
  { unfold committing. rewrite Hp. simpl. unfold checked at 1. rewrite Hpc. lia. }
  pose proof (pi_room _ _ Hy Hpos) as Hroom. unfold link in Hl. destruct (evs (pstore y) !! e) as [[ev m]|] eqn:He; [|done].
  injection Hl as Hw. assert (add_check (widen (n - 1) (poller y)) = true) as Hck.
  { unfold add_check. change (validEpollFD (widen (n - 1) (poller y))) with (validEpollFD (poller y)). rewrite Hv, andb_true_r.
    apply negb_true_iff, Nat.leb_gt. unfold maxFDS, activeFDS, widen. cbn [__maxFDS __events]. lia. }
  pose proof (add_commit_widen (n - 1) _ _ _ _ _ _ Hc) as Hc'.
  destruct (epollAddEvent_ok e ev m o worker (widen (n - 1) (poller y)) (pstore y) He Hw Hwf (pi_poller _ _ Hy))
    as (err0 & p0 & s0 & Hrun & Hst & Hep & _ & _ & Hres).
  rewrite (add_is_check_commit e) in Hrun by (done || by rewrite He). rewrite Hc' in Hrun. injection Hrun as <- <- <-.
  split_and!; [exact Hst|exact Hep|by intros f; eapply link_add| | |].
  - unfold add_commit in Hc. destruct (get_event _ _); [|done..]. rewrite ret_bind in Hc.
    destruct (epoll_ctl _ _ _ _ _) as [[] k1]; by injection Hc as _ <- _.
  - unfold add_commit in Hc. destruct (get_event _ _); [|done..]. rewrite ret_bind in Hc.
    destruct (epoll_ctl _ _ _ _ _) as [[] k1]; by injection Hc as _ <- _.
  - unfold add_commit in Hc. destruct (get_event _ _) as [ev0| | |]; [|done..]. rewrite ret_bind in Hc.
    destruct (epoll_ctl _ _ _ _ _) as [[] k1]; injection Hc as _ <- _; [|lia]. cbn [__events set_events].
    rewrite map_size_insert. case_match; unfold id; lia.
Qed.

Lemma delete_ok n e o y err p' s' :
  poller_inv n y → e ∈ o → store_wf (map_refs (poller y) ++ o) (pstore y) →
  epollDelEvent e (poller y) (pstore y) = Ret (err, p', s') →
  store_wf (map_refs p' ++ o) s' ∧ epoll_wf worker (widen (n - 1) p') s' ∧ (∀ f, f ∈ o → link f s' = link f (pstore y)) ∧
  __epfd p' = __epfd (poller y) ∧ __maxFDS p' = __maxFDS (poller y) ∧
  (size (__events p') ≤ size (__events (poller y)))%nat.
Proof.
  intros Hy Ho Hwf Hc. destruct (validEpollFD (poller y)) eqn:Hv; cycle 1.
  { unfold epollDelEvent in Hc. destruct (get_event _ _); [|done..]. rewrite ret_bind, Hv in Hc. injection Hc as _ <- <-.
    split_and!; try done. apply Hy. }
  destruct (owner_live e _ _ Hwf) as [[ev m] He]; [by apply elem_of_app; right|].
  destruct (epollDelEvent_ok e ev m o worker (widen (n - 1) (poller y)) (pstore y) He Hwf (pi_poller _ _ Hy) Hv)
    as (err0 & p0 & s0 & Hrun & Hst & Hep & _ & Hp0 & _).
  rewrite (del_widen (n - 1) _ _ _ _ _ _ Hc) in Hrun. injection Hrun as <- <- <-.
  assert (__events p' = delete (getFD ev) (__events (poller y)) ∧ __epfd p' = __epfd (poller y) ∧
          __maxFDS p' = __maxFDS (poller y)) as (Hev & Hfd & Hmax).
  { unfold widen in Hp0. cbn [set_events __epfd __maxFDS __events] in Hp0. injection Hp0 as ? ? ?. split_and!; [done|done|lia]. }
  split_and!; [exact Hst|exact Hep|intros f Hf; by eapply link_del|done|done|].
  rewrite Hev, map_size_delete. case_match; unfold id; lia.
Qed.

(** A thread that registers, past the guards: the others leave it a place. *)
Lemma check_room n t ts y :
  poller_inv n y → pthreads y ≡ₚ t :: ts → registers t = true → add_check (poller y) = true →
  (size (__events (poller y)) + (1 + committing ts) ≤ __maxFDS (poller y) + (n - 1))%nat.
Proof.
  intros Hy Hp Ht Hck. pose proof (pi_adders _ _ Hy) as Hn. unfold adders in Hn. rewrite Hp in Hn.
  cbn [sum_list_with] in Hn. rewrite Ht in Hn. fold (adders ts) in Hn. cbn [Nat.b2n] in Hn.
  assert (committing ts ≤ adders ts)%nat.
  { apply committing_le. intros u f Hu Hf. apply (pi_checked _ _ Hy u f); [rewrite Hp; by right|done]. }
  unfold add_check in Hck. apply andb_true_iff in Hck as [Hck%negb_true_iff%Nat.leb_gt _].
  unfold maxFDS, activeFDS in Hck. lia.
Qed.

(** What a thread gives up is released, and the books of the others are kept. *)
Lemma drop_ok k e o p s :
  store_wf (map_refs p ++ e :: o) s → epoll_wf worker (widen k p) s →
  store_wf (map_refs p ++ o) (release e s) ∧ epoll_wf worker (widen k p) (release e s) ∧
  ∀ f, f ∈ o → link f (release e s) = link f s.
Proof.
  intros Hwf Hep. assert (store_wf (e :: map_refs p ++ o) s) as Hwf1 by by rewrite Permutation_middle.
  split_and!; [by apply release_wf| |].
  - apply (epoll_wf_release e (map_refs p ++ o)); [done| |done]. intros f Hf. by apply elem_of_app; left.
  - intros f Hf. apply (link_release f e (map_refs p ++ o)); [done|]. by apply elem_of_app; right.
Qed.

Lemma committing_idle ts : Forall (λ t, pc t = Idle) ts → committing ts = 0%nat.
Proof.
  induction 1 as [|t ts Ht _ IH]; [done|]. unfold committing in *. simpl. unfold checked at 1. by rewrite Ht.
Qed.

Lemma poller_inv_start y :
  Forall (λ t, pc t = Idle) (pthreads y) → store_wf (owners y) (pstore y) → epoll_wf worker (poller y) (pstore y) →
  poller_inv (adders (pthreads y)) y.
Proof.
  intros Hidle Hst [Hm Hi Hx]. split; [done| |done| |].
  - split; [done..|]. cbn [widen __events __maxFDS]. lia.
  - rewrite (committing_idle _ Hidle). lia.
  - intros t e Ht He. rewrite list.Forall_forall in Hidle. rewrite (Hidle t Ht) in He. done.
Qed.

Lemma poller_step_inv n y y' : poller_inv n y → poller_step worker y y' → poller_inv n y'.
Proof.
  intros Hy Hst. destruct Hst as [i t t' p' s' y Hi Hts]. destruct (list_focus _ _ _ Hi) as (ts & Hp & Hput).
  assert (store_wf (map_refs (poller y) ++ mine t ++ (ts ≫= mine) ++ rest) (pstore y)) as Hwf.
  { pose proof (pi_store _ _ Hy) as Hwf. unfold owners in Hwf. rewrite Hp in Hwf. cbn [mbind list_bind] in Hwf.
    by rewrite <- app_assoc in Hwf. }
  pose proof (pi_poller _ _ Hy) as Hep. pose proof (pi_room _ _ Hy) as Hroom.
  unfold committing in Hroom. rewrite Hp in Hroom. cbn [sum_list_with] in Hroom. fold (committing ts) in Hroom.
  specialize (Hput t'). revert Hy Hi Hp Hput Hwf Hep Hroom. inversion Hts; subst; intros Hy Hi Hp Hput Hwf Hep Hroom;
    cbn [mine registers pc checked] in *.
  - destruct (accept_wf lfd ev c k1 e s1 _ _ _ Hwf Hep) as (Hwf' & Hep' & Hl); [done|done|].
    apply (poller_inv_put n i _ _ ts _ _ y Hy Hp Hput); try done.
    + eapply store_wf_perm; [|exact Hwf']. cbn [mine app]. apply Permutation_middle.
    + intros f Hf. apply Hl. rewrite !elem_of_app. tauto.
  - apply (poller_inv_put n i _ _ ts _ _ y Hy Hp Hput); try done; cbn [checked pc registers mine].
    + destruct (add_check (poller y)) eqn:Hck; cbn [checked pc]; [|exact Hroom].
      intros _. by apply (check_room n (mk_thread Idle m true)).
    + intros f. destruct (add_check (poller y)) eqn:Hck; [|done]. intros [= <-].
      split_and!; [done..|]. unfold add_check in Hck. by apply andb_true_iff in Hck as [_ Hv].
  - destruct (commit_ok n e ts _ i (mk_thread (Checked e) m a) y err p' s' Hy Hi eq_refl Hp Hwf) as (Hwf' & Hep' & Hl & Hfd & Hmax & Hsz); [done|].
    apply (poller_inv_put n i _ _ ts _ _ y Hy Hp Hput); try done. cbn [checked pc]. rewrite Hmax. lia.
  - destruct (delete_ok n e (m ++ (ts ≫= mine) ++ rest) y err p' s' Hy) as (Hwf' & Hep' & Hl & Hfd & Hmax & Hsz); [by apply elem_of_app; left|done|done|].
    apply (poller_inv_put n i _ _ ts _ _ y Hy Hp Hput); try done; cbn [checked pc]; [rewrite Hmax; lia|].
    intros f Hf. apply Hl. rewrite !elem_of_app. tauto.
  - match goal with Hw : epoll_wait _ _ _ _ = _ |- _ => destruct (wait_ok _ _ _ _ _ _ Hw) as (Hfds & Hint & _) end.
    apply (poller_inv_put n i _ _ ts _ _ y Hy Hp Hput); try done; cbn [checked pc mine].
    + by apply set_kernel_wf.
    + by apply epoll_wf_set_kernel.
    + by destruct r.
    + by destruct r.
  - destruct (collect_ok l worker (widen (n - 1) (poller y)) (pstore y) _ Hwf Hep) as (ret' & s2 & Hc & Hwf' & Hep' & _).
    rewrite collect_widen in Hc. match goal with Hl : collect _ _ _ = _ |- _ => rewrite Hl in Hc; injection Hc as <- <-;
      pose proof (λ f, link_collect f l (poller y) (pstore y)) as Hlink; rewrite Hl in Hlink end.
    apply (poller_inv_put n i _ _ ts _ _ y Hy Hp Hput); try done; cbn [mine].
    eapply store_wf_perm; [|exact Hwf']. by rewrite Permutation_app_swap_app, <- app_assoc.
  - match goal with Hm : m ≡ₚ _ |- _ => rewrite Hm in Hwf end.
    destruct (drop_ok (n - 1) e (m' ++ (ts ≫= mine) ++ rest) _ _ Hwf Hep) as (Hwf' & Hep' & Hl).
    apply (poller_inv_put n i _ _ ts _ _ y Hy Hp Hput); try done; cbn [mine].
    intros f Hf. apply Hl. rewrite !elem_of_app. tauto.
Qed.

(** C7: from a poller whose books are right and threads between operations,
    every interleaving of accepts, registrations, removals, waits and drops keeps
    one owner per counted pointer, and the map in agreement with the kernel's
    interest set and with live events of this worker; its size is within the
    limit, plus one for each thread that registers beyond the first; and a thread
    past the guards always has its event alive and registers it. *)
Theorem poller_safe_concurrently (y0 y : sys) :
  Forall (λ t, pc t = Idle) (pthreads y0) → store_wf (owners y0) (pstore y0) →
  epoll_wf worker (poller y0) (pstore y0) → rtc (poller_step worker) y0 y →
  store_wf (owners y) (pstore y) ∧
  (∀ fd e, __events (poller y) !! fd = Some e →
     ∃ x, evs (pstore y) !! e = Some x ∧ getFD x.1 = fd ∧ getWorker x.1 = Some worker) ∧
  dom (__events (poller y)) = dom (interest (__epfd (poller y)) (kernel (pstore y))) ∧
  (activeFDS (poller y) ≤ maxFDS (poller y) + (adders (pthreads y0) - 1))%nat ∧
  (∀ t e, t ∈ pthreads y → pc t = Checked e →
     ∃ err p' s', add_commit e (poller y) (pstore y) = Ret (err, p', s')).
Proof.
  intros Hidle Hst Hep Hrtc.
  assert (poller_inv (adders (pthreads y0)) y0) as Hinv by by apply poller_inv_start.
  assert (poller_inv (adders (pthreads y0)) y) as Hy.
  { clear -Hinv Hrtc. set (n := adders _) in *. clearbody n.
    induction Hrtc as [|a b c Hab _ IH]; [done|]. by eapply IH, poller_step_inv. }
  destruct (pi_poller _ _ Hy) as [Hm Hi Hx]. split_and!; [apply Hy|exact Hm|exact Hi|exact Hx|].
  intros t e Ht He. destruct (pi_checked _ _ Hy t e Ht He) as (_ & _ & Hl & _).
  unfold link in Hl. destruct (evs (pstore y) !! e) as [[ev m]|] eqn:Hev; [|done].
  unfold add_commit, get_event. rewrite Hev, deref_Some_bind, ret_bind.
  destruct (epoll_ctl _ _ _ _ _) as [[] k1]; by eexists _, _, _.
Qed.
End invariant.
