(* ===== verification/EpollExamples.v ===== *)
(** Checking the books of concrete stores and pollers by computation, and the
    theorems on the poller at concrete inputs. *)

From S2P Require Export PollerThreads SimKernel.

(** * Books checked by computation *)

Definition store_check (owners : list eptr) (s : store sim_os) : bool :=
  bool_decide (map_Forall (λ e (x : Event * nat), x.2 = copies e owners ∧ (0 < x.2)%nat ∧ getFD x.1 ∈ k_open (kernel s)) (evs s)) &&
  bool_decide (Forall (λ e, is_Some (evs s !! e)) owners) &&
  bool_decide (map_Forall (λ e1 (x1 : Event * nat), map_Forall (λ e2 (x2 : Event * nat), getFD x1.1 = getFD x2.1 → e1 = e2) (evs s)) (evs s)).

Lemma store_check_ok owners s : store_check owners s = true → store_wf owners s.
Proof.
  unfold store_check. intros [[H1%bool_decide_eq_true H2%bool_decide_eq_true]%andb_prop H3%bool_decide_eq_true]%andb_prop.
  split.
  - intros e. unfold refs. destruct (evs s !! e) as [x|] eqn:He; simpl; [by destruct (H1 _ _ He)|].
    symmetry. apply count_occ_not_In. rewrite <- list_elem_of_In. intros Hin.
    rewrite list.Forall_forall in H2. destruct (H2 _ Hin) as [x Hx]. congruence.
  - intros e x He. by destruct (H1 _ _ He) as (_ & ? & _).
  - intros e x He. by destruct (H1 _ _ He) as (_ & _ & ?).
  - intros e1 e2 x1 x2 He1 He2. by apply (H3 _ _ He1 _ _ He2).
Qed.

Definition epoll_check (i : nat) (p : Epoll) (s : store sim_os) : bool :=
  bool_decide (map_Forall (λ fd e, (λ x, (getFD x.1, getWorker x.1)) <$> evs s !! e = Some (fd, Some i)) (__events p)) &&
  bool_decide (dom (__events p) = dom (sim_interest (__epfd p) (kernel s))) &&
  Nat.leb (size (__events p)) (__maxFDS p).

Lemma epoll_check_ok i p s : epoll_check i p s = true → epoll_wf i p s.
Proof.
  unfold epoll_check. intros [[H1%bool_decide_eq_true H2%bool_decide_eq_true]%andb_prop H3%Nat.leb_le]%andb_prop.
  split; [|done|done]. intros fd e He. pose proof (H1 _ _ He) as Hx. cbn beta in Hx. destruct (evs s !! e) as [x|]; [|done].
  injection Hx as <- Hw. by exists x.
Qed.

(** * A poller with one client registered and another to come *)

Definition two_sockets (add : bool) : sim_os :=
  mk_sim_os {[0; 1; 2; 3; 6; 7]} {[3 := {[6 := EPOLLIN]}]} 8 [] [(6, EPOLLIN)] ∅ add true.

Definition ev_old : Event := setWorker (Some 0%nat) (new_Event 6 EPOLLIN).
Definition ev_new : Event := setWorker (Some 0%nat) (new_Event 7 EPOLLIN).

(** Pointer 1 is in the map and also held by a thread, as is pointer 2. *)
Definition two_store : store sim_os :=
  mk_store (two_sockets true) {[1%nat := (ev_old, 2%nat); 2%nat := (ev_new, 1%nat)]}.

Definition one_poller (max : nat) : Epoll := mk_Epoll 3 max {[6 := 1%nat]}.

Lemma two_store_wf max : store_wf (map_refs (one_poller max) ++ [1; 2]%nat) two_store.
Proof. apply store_check_ok. vm_compute. reflexivity. Qed.

Lemma add_keeps_poller_witness :
  ∃ err p' s', epollAddEvent 2%nat (one_poller 2) two_store = Ret (err, p', s') ∧
    store_wf (map_refs p' ++ [1; 2]%nat) s' ∧ epoll_wf 0 p' s' ∧ (activeFDS p' ≤ maxFDS p')%nat ∧
    fds (kernel s') = fds (kernel two_store) ∧
    (if decide (err = SERVER_OK)
     then __events p' = <[7 := 2%nat]> (__events (one_poller 2)) ∧ activeFDS p' = 2%nat ∧ refs 2%nat s' = 2%nat
     else p' = one_poller 2 ∧ refs 2%nat s' = 1%nat).
Proof.
  apply (add_keeps_poller 2%nat ev_new 1 [1; 2]%nat 0 (one_poller 2) two_store);
    [reflexivity|reflexivity|apply two_store_wf|by apply epoll_check_ok].
Defined.

Lemma del_keeps_poller_witness :
  ∃ err p' s', epollDelEvent 1%nat (one_poller 2) two_store = Ret (err, p', s') ∧
    store_wf (map_refs p' ++ [1; 2]%nat) s' ∧ epoll_wf 0 p' s' ∧
    __events p' !! 6 = None ∧ interest 3 (kernel s') !! 6 = None ∧
    (err = SERVER_OK ↔ __events (one_poller 2) !! 6 = Some 1%nat) ∧ 6 ∈ fds (kernel s').
Proof.
  apply (del_keeps_poller 1%nat ev_old 2 [1; 2]%nat 0 (one_poller 2) two_store);
    [reflexivity|by left|apply two_store_wf|by apply epoll_check_ok|reflexivity].
Defined.

(** What a wait returns, and leaves. *)
Definition waited : list eptr * Error * store sim_os := epollWait (-1) (one_poller 2) two_store.

Lemma wait_returns_registered_witness :
  store_wf (fst (fst waited) ++ map_refs (one_poller 2) ++ [1; 2]%nat) (snd waited) ∧
  epoll_wf 0 (one_poller 2) (snd waited) ∧ (length (fst (fst waited)) ≤ 2)%nat ∧
  Forall (λ e, (∃ fd, __events (one_poller 2) !! fd = Some e) ∧ is_Some (evs (snd waited) !! e)) (fst (fst waited)) ∧
  (snd (fst waited) ≠ SERVER_OK → fst (fst waited) = []).
Proof.
  apply (wait_returns_registered (-1) 0 (one_poller 2) two_store (map_refs (one_poller 2) ++ [1; 2]%nat)
           (fst (fst waited)) (snd (fst waited)) (snd waited));
    [apply two_store_wf|by apply epoll_check_ok|].
  fold waited. by destruct waited as [[? ?] ?].
Defined.

(** Two clients that are registered at the same time with a poller for one. *)
Definition empty_sockets : sim_os := mk_sim_os {[0; 1; 2; 3; 6; 7]} ∅ 8 [] [] ∅ true true.
Definition empty_store : store sim_os :=
  mk_store empty_sockets {[1%nat := (ev_old, 1%nat); 2%nat := (ev_new, 1%nat)]}.
Definition small_poller : Epoll := mk_Epoll 3 1 ∅.

Definition committed (e : eptr) (ps : Epoll * store sim_os) : Epoll * store sim_os :=
  match add_commit e ps.1 ps.2 with Ret (_, p, s) => (p, s) | _ => ps end.
Definition first_add := committed 1%nat (small_poller, empty_store).
Definition second_add := committed 2%nat first_add.

Lemma concurrent_adds_exceed_limit_witness :
  add_check small_poller = true ∧ (maxFDS (fst second_add) < activeFDS (fst second_add))%nat.
Proof.
  apply (concurrent_adds_exceed_limit 1%nat 2%nat (ev_old, 1%nat) (ev_new, 1%nat) 0 small_poller empty_store
           (fst first_add) (snd first_add) (fst second_add) (snd second_add));
    [reflexivity|reflexivity|by apply epoll_check_ok|reflexivity|reflexivity|done|vm_compute; reflexivity..].
Defined.

(** The listening thread registers the new client while the worker waits and then
    collects what it was told of the old one. *)
Definition listening : poller_thread := mk_thread Idle [2%nat] true.
Definition working : poller_thread := mk_thread Idle [1%nat] false.
Definition shared_poller : poller_sys sim_os := mk_poller_sys (one_poller 2) two_store [listening; working].
Definition kernel_waited : option (list (Z * N)) * sim_os := epoll_wait 3 2 (-1) (kernel two_store).
Definition after_wait : poller_sys sim_os :=
  mk_poller_sys (one_poller 2) (set_kernel (snd kernel_waited) two_store)
    [mk_thread (Checked 2%nat) [2%nat] true; mk_thread (Reported (default [] (fst kernel_waited))) [1%nat] false].
Definition after_commit : Epoll * store sim_os := committed 2%nat (poller after_wait, pstore after_wait).
Definition collected : list eptr * store sim_os :=
  collect (default [] (fst kernel_waited)) (fst after_commit) (snd after_commit).
Definition after_collect : poller_sys sim_os :=
  mk_poller_sys (fst after_commit) (snd collected) [listening; mk_thread Idle (fst collected ++ [1%nat]) false].

Lemma poller_step_to i t t' p' s' (y y' : poller_sys sim_os) :
  pthreads y !! i = Some t → thread_step 0 t (poller y, pstore y) t' (p', s') →
  y' = mk_poller_sys p' s' (<[i := t']> (pthreads y)) → poller_step 0 y y'.
Proof. intros Hi Ht ->. by eapply poller_thread_step. Qed.

Lemma poller_safe_concurrently_witness :
  store_wf (owners [] after_collect) (pstore after_collect) ∧
  (∀ fd e, __events (poller after_collect) !! fd = Some e →
     ∃ x, evs (pstore after_collect) !! e = Some x ∧ getFD x.1 = fd ∧ getWorker x.1 = Some 0%nat) ∧
  dom (__events (poller after_collect)) = dom (interest (__epfd (poller after_collect)) (kernel (pstore after_collect))) ∧
  (activeFDS (poller after_collect) ≤ maxFDS (poller after_collect) + (1 - 1))%nat ∧
  (∀ t e, t ∈ pthreads after_collect → pc t = Checked e →
     ∃ err p' s', add_commit e (poller after_collect) (pstore after_collect) = Ret (err, p', s')).
Proof.
  apply (poller_safe_concurrently 0 [] shared_poller after_collect);
    [do 2 (apply Forall_cons; [reflexivity|]); apply Forall_nil|by apply store_check_ok|by apply epoll_check_ok|].
  apply rtc_l with (mk_poller_sys (one_poller 2) two_store [mk_thread (Checked 2%nat) [2%nat] true; working]).
  { eapply (poller_step_to 0 listening); [reflexivity| |reflexivity]. apply (thread_check 0 2%nat); [by left|reflexivity]. }
  apply rtc_l with after_wait.
  { eapply (poller_step_to 1 working); [reflexivity| |reflexivity].
    apply (thread_wait 0 (-1) (fst kernel_waited)); [reflexivity|apply surjective_pairing]. }
  apply rtc_l with (mk_poller_sys (fst after_commit) (snd after_commit)
                     [listening; mk_thread (Reported (default [] (fst kernel_waited))) [1%nat] false]).
  { eapply (poller_step_to 0); [reflexivity| |reflexivity]. eapply (thread_commit 0 2%nat _ true _ _ SERVER_OK). vm_compute. reflexivity. }
  apply rtc_once. eapply (poller_step_to 1); [reflexivity| |reflexivity]. apply (thread_collect 0), surjective_pairing.
Defined.

Example both_are_registered : activeFDS (poller after_collect) = 2%nat.
Proof. vm_compute. reflexivity. Qed.
