(* ===== verification/TestPrograms.v ===== *)
(** The programs under test/: what each does with the components it drives. Those
    that talk to a user or a client are functions of what they are given to read;
    those that go on for ever are steps, or loops with a bound on their turns. *)

From S2P Require Export Router Kernel Logger RedisThreads ResourceAccessor.
From S2P Require Buffer HttpRequest HttpResponse SocketStream.

(** * BufferTest *)

Definition buffer_test_text : bytes := $"FDSFSF".

(** The buffer after [n] turns of the loop, which has no end. *)
Definition buffer_test (n : nat) : Buffer.Buffer ascii :=
  Nat.iter n (λ buff, snd (Buffer.append buffer_test_text buff)) (Buffer.new_Buffer NUL Buffer.DEFAULT_BFSIZE).

(** The buffer holds the start of the text written over and over, and nothing is
    stored past its end. *)
Theorem buffer_test_saturates n :
  Buffer.buffer_wf (buffer_test n) ∧ Buffer.capacity (buffer_test n) = 4096%nat ∧
  Buffer.contents (buffer_test n) = take 4096 (mjoin (replicate n buffer_test_text)).
Proof.
  induction n as [|n (Hwf & Hcap & Hc)].
  - destruct (Buffer.new_Buffer_wf NUL Buffer.DEFAULT_BFSIZE) as [Hwf Hc].
    split_and!; [done|apply length_replicate|done].
  - change (buffer_test (S n)) with (snd (Buffer.append buffer_test_text (buffer_test n))).
    destruct (Buffer.append buffer_test_text (buffer_test n)) as [total b] eqn:E. cbn [snd].
    destruct (Buffer.append_ok _ _ _ _ Hwf E) as (Hwf' & Hcap' & -> & Hc'). split_and!; [done|lia|].
    rewrite Hc', replicate_S_end, join_app, Hc. cbn [mjoin list_join]. rewrite app_nil_r.
    rewrite take_app. f_equal. pose proof (Buffer.length_contents _ Hwf) as Hl. rewrite Hc, length_take in Hl.
    unfold Buffer.rest. rewrite Hcap, <- Hl. set (X := mjoin _).
    destruct (Nat.le_gt_cases (length X) 4096).
    + replace (4096 `min` length X)%nat with (length X) by lia.
      destruct (Nat.le_gt_cases (length buffer_test_text) (4096 - length X)).
      * rewrite Nat.min_l by lia. by rewrite !take_ge by lia.
      * by rewrite Nat.min_r by lia.
    + replace (4096 `min` length X)%nat with 4096%nat by lia. rewrite Nat.min_r by lia.
      by replace (4096 - length X)%nat with (4096 - 4096)%nat by lia.
Qed.

(** * RouterTest *)

(** [operator<<]: a resource of another type is cast to a [ValidResource]. *)
Definition print_resource (g : GeneralResource) : bytes :=
  $"Type: " ++
  match g with
  | InvalidResource => $"INVAILD"
  | Valid v =>
      if decide (getType g = INVALID) then $"INVAILD"
      else (if decide (getType g = STATIC) then $"STATIC" else $"CGI")
           ++ $" URI: " ++ getURI v ++ $" Path: " ++ getPath v
  end.

Definition router_test : list bytes :=
  let router := new_Router in
  print_resource <$> [lookup_code router 404; lookup_uri router ($"/hello"); lookup_code router 505].

Example router_test_output :
  router_test = [$"Type: STATIC URI: /404 Path: ./StaticFiles/404.html";
                 $"Type: STATIC URI: /hello Path: ./hello.html"; $"Type: INVAILD"].
Proof. vm_compute. reflexivity. Qed.

(** * RedisConnTest and RedisCacheTest *)

(** The variables [cmd], [key] and [val], which keep their values when nothing is
    read into them. *)
Record vars := mk_vars { cmd : bytes; key : bytes; val : bytes }.
Definition no_vars : vars := mk_vars [] [] [].

(** [cin >> old] *)
Definition read_into {B} `{StreamBuf B} (fuel : nat) (old : bytes) : IS B bytes :=
  w ← extract_word fuel; mret (default old w).

Definition found_line (r : option bytes) : bytes := default ($"FAILED") r.
Definition stored_line (b : bool) : bytes := if b then $"OK" else $"FAILED".

Section session.
Context {B C : Type} `{StreamBuf B} `{ICache C} (put_word : bytes).

(** The do-while loop, of at most [n] turns: the lines it prints, its input and the
    cache when it has read OUT. *)
Fixpoint command_loop (n fuel : nat) (v : vars) (cin : istream B) (c : C) : outcome (list bytes * istream B * C) :=
  match n with
  | O => Spin
  | S n' =>
      '(word, in1) ← read_into fuel (cmd v) cin;
      if decide (word = $"OUT") then Ret ([], in1, c)
      else if decide (word = $"GET") then
        '(k, in2) ← read_into fuel (key v) in1;
        '(r, c1) ← cache_get k c;
        '(out, in3, c2) ← command_loop n' fuel (mk_vars word k (default (val v) r)) in2 c1;
        mret (found_line r :: out, in3, c2)
      else if decide (word = put_word) then
        '(k, in2) ← read_into fuel (key v) in1;
        '(x, in3) ← read_into fuel (val v) in2;
        '(b, c1) ← cache_put k x c;
        '(out, in4, c2) ← command_loop n' fuel (mk_vars word k x) in3 c1;
        mret (stored_line b :: out, in4, c2)
      else command_loop n' fuel (mk_vars word (key v) (val v)) in1 c
  end.
End session.

(** [conn->getKey] and [conn->putKey], used as a cache that takes any key. *)
#[global] Instance connection_ICache {W} `{Hiredis W} : ICache (RedisConnection * W) := {
  cache_get k s := '(r, c, w) ← getKey 1 k s.1 s.2; mret (r, (c, w));
  cache_put k v s := '(b, c, w) ← putKey 1 k v s.1 s.2; mret (b, (c, w));
  validKey _ := true;
  validVal _ := true
}.

Section redis_tests.
Context {B W : Type} `{StreamBuf B} `{Hiredis W}.

(** [main]: the lines printed and the exit code. *)
Definition redis_conn_test (n fuel : nat) (cin : istream B) (w : W) : outcome (list bytes * Z) :=
  let conn := setPort 6379 (setIP ($"127.0.0.1") new_RedisConnection) in
  '(error, conn1, w1) ← contextInit conn w;
  if decide (error = SERVER_OK) then
    '(out, _, _) ← command_loop ($"PUT") n fuel no_vars cin (conn1, w1);
    mret (out, 0)
  else mret ([to_string (err_code error)], -1).

(** Connections made one after the other and given to the pool. *)
Fixpoint push_connections (n : nat) (pool : RedisConnectionPool) (hp : gmap N RedisConnection) (w : W)
  : outcome (Error * RedisConnectionPool * gmap N RedisConnection * W) :=
  match n with
  | O => Ret (SERVER_OK, pool, hp, w)
  | S n' =>
      let conn := setPasswd ($"panda") (setPort 6379 (setIP ($"127.0.0.1") new_RedisConnection)) in
      '(error, conn1, w1) ← contextInit conn w;
      if decide (error = SERVER_OK) then
        let addr := fresh ({[null_conn]} ∪ dom hp) in
        let '(error, pool1) := pushConnection addr pool in
        if decide (error = SERVER_OK) then push_connections n' pool1 (<[addr := conn1]> hp) w1
        else mret (error, pool1, <[addr := conn1]> hp, w1)
      else mret (error, pool, hp, w1)
  end.

Definition redis_cache_test (n fuel : nat) (cin : istream B) (w : W) : outcome (list bytes * Z) :=
  '(error, pool, hp, w1) ← push_connections 3 (new_RedisConnectionPool 3 1) ∅ w;
  if decide (error = SERVER_OK) then
    '(out, _, _) ← command_loop ($"SET") n fuel no_vars cin (new_RedisCache pool hp w1);
    mret (($"pool conn num: " ++ to_string (curConnNum pool)) :: out, 0)
  else mret ([to_string (err_code error)], -1).
End redis_tests.

(** ** A session is a run of the cache's specification *)

(** Requests made one after the other. *)
Inductive served : gmap bytes bytes → list request → list answer → gmap bytes bytes → Prop :=
| served_nil m : served m [] [] m
| served_cons m q a m1 qs ans m2 :
    cache_spec m q a m1 → served m1 qs ans m2 → served m (q :: qs) (a :: ans) m2.

Definition typed (put_word : bytes) (q : request) : bytes :=
  match q with
  | Get k => $"GET " ++ k ++ [ch_LF]
  | Put k v => put_word ++ [ch_SP] ++ k ++ [ch_SP] ++ v ++ [ch_LF]
  end.

Definition line_of (a : answer) : bytes :=
  match a with Found r => found_line r | Stored b => stored_line b end.

Lemma read_word pre w r fuel old :
  Forall (λ x, isspace x = true) pre → HttpRequest.is_word w →
  match r with [] => False | x :: _ => isspace x = true end →
  (length pre ≤ fuel)%nat → (length w ≤ fuel)%nat →
  read_into fuel old (mk_istream (pre ++ w ++ r) false false) = Ret (w, mk_istream r false false).
Proof.
  intros Hpre [Hne Hw] Hr Hf1 Hf2. unfold read_into.
  rewrite (SM_bind_Ret _ _ _ _ _ (extract_word_string pre w r fuel Hpre Hne Hw ltac:(by destruct r) Hf1 Hf2)).
  by destruct r.
Qed.

(** With nothing left to read the variable keeps its value. *)
Lemma read_nothing fuel old (s : istream bytes) :
  good s = false ∨ (eofbit s = false ∧ failbit s = false ∧
                    Forall (λ x, isspace x = true) (rdbuf s) ∧ (length (rdbuf s) ≤ fuel)%nat) →
  ∃ s', read_into fuel old s = Ret (old, s') ∧ good s' = false.
Proof.
  unfold read_into, extract_word, sentry. intros [Hg|(He & Hf & Hsp & Hl)].
  - eexists. unfold mbind at 1, SM_bind at 1. unfold mbind at 1, SM_bind at 1. unfold mbind at 1, SM_bind at 1.
    unfold sm_gets at 1. rewrite Hg. cbn. split; [done|]. unfold good. cbn. by rewrite !orb_true_r.
  - destruct s as [b e f]. cbn [rdbuf eofbit failbit] in *. subst e f.
    pose proof (scan_stream_string not_space _ b [] fuel false false stop_not_space) as Hs.
    rewrite app_nil_r in Hs.
    assert (Forall (λ x, negb (isspace x) = false) b) as Hb by (apply (list.Forall_impl _ _ _ Hsp); by intros x ->).
    specialize (Hs Hb I Hl).
    eexists. unfold mbind at 1, SM_bind at 1. unfold mbind at 1, SM_bind at 1. unfold mbind at 1, SM_bind at 1.
    unfold sm_gets at 1. cbn [good eofbit failbit negb orb]. unfold mbind at 1, SM_bind at 1. rewrite Hs. by cbn.
Qed.

Section sessions.
Context {C : Type} `{ICacheOk C} (put_word : bytes).

Lemma get_served k (c : C) :
  cache_inv c → key_ok (C:=C) k →
  ∃ r c1, cache_get k c = Ret (r, c1) ∧ cache_inv c1 ∧ cache_spec (stored c) (Get k) (Found r) (stored c1).
Proof.
  intros Hc Hk. destruct (cache_get_ok k c Hc Hk) as (r & c1 & Hg & Hc1 & Hst & Hr). exists r, c1. split_and!; [done..|]. rewrite Hst.
  destruct r as [v|]; [by apply spec_hit, Hr|apply spec_miss].
Qed.

Lemma put_served k v (c : C) :
  cache_inv c → key_ok (C:=C) k →
  ∃ b c1, cache_put k v c = Ret (b, c1) ∧ cache_inv c1 ∧ cache_spec (stored c) (Put k v) (Stored b) (stored c1).
Proof.
  intros Hc Hk. destruct (cache_put_ok k v c Hc Hk) as (b & c1 & Hg & Hc1 & Hst & Hb). exists b, c1. split_and!; [done..|].
  destruct Hst as [Hst|Hst]; [|rewrite Hst; apply spec_put]. destruct b; [|rewrite Hst; apply spec_refused].
  specialize (Hb eq_refl). rewrite Hst in Hb. rewrite <- (insert_id (stored c) k v Hb) in Hst. rewrite Hst. apply spec_put.
Qed.

(** A request that can be typed: its key and its value are words. *)
Definition typable (q : request) : Prop :=
  HttpRequest.is_word (key_of q) ∧ key_ok (C:=C) (key_of q) ∧
  match q with Get _ => True | Put _ v => HttpRequest.is_word v end.

Context (Hword : HttpRequest.is_word put_word) (Hout : put_word ≠ $"OUT") (Hget : put_word ≠ $"GET").

(** One request is one turn of the loop. *)
Lemma command_turn n fuel v pre q r (c : C) :
  Forall (λ x, isspace x = true) pre → typable q → cache_inv c →
  (length (pre ++ typed put_word q) ≤ fuel)%nat →
  ∃ word x a c1, cache_inv c1 ∧ cache_spec (stored c) q a (stored c1) ∧ word ≠ $"OUT" ∧
    command_loop put_word (S n) fuel v (mk_istream (pre ++ typed put_word q ++ r) false false) c =
    ('(out, in1, c2) ← command_loop put_word n fuel (mk_vars word (key_of q) x) (mk_istream (ch_LF :: r) false false) c1;
     mret (line_of a :: out, in1, c2)).
Proof.
  intros Hpre (Hk & Hkey & Hv) Hc Hf. rewrite length_app in Hf.
  assert (HttpRequest.is_word ($"GET")) as HGET by by apply (bool_decide_unpack _).
  destruct q as [k|k x]; cbn [typed key_of] in *; rewrite !length_app in Hf; simpl length in Hf.
  - destruct (get_served k c Hc Hkey) as (r0 & c1 & Hrun & Hc1 & Hsp).
    exists ($"GET"), (default (val v) r0), (Found r0), c1. split_and!; [done..|]. cbn [command_loop].
    change ($"GET " ++ k ++ [ch_LF]) with ($"GET" ++ [ch_SP] ++ k ++ [ch_LF]). rewrite <- !app_assoc.
    rewrite read_word by (done || simpl; lia). rewrite ret_bind, decide_False, decide_True by done.
    rewrite read_word by (done || (by repeat constructor) || simpl; lia). by rewrite ret_bind, Hrun, ret_bind.
  - destruct (put_served k x c Hc Hkey) as (b & c1 & Hrun & Hc1 & Hsp).
    exists put_word, x, (Stored b), c1. split_and!; [done..|]. cbn [command_loop]. rewrite <- !app_assoc.
    rewrite read_word by (done || simpl; lia). rewrite ret_bind, !decide_False, decide_True by done.
    rewrite read_word by (done || (by repeat constructor) || simpl; lia). rewrite ret_bind.
    rewrite read_word by (done || (by repeat constructor) || simpl; lia). by rewrite ret_bind, Hrun, ret_bind.
Qed.

Lemma command_end n fuel v pre r (c : C) :
  Forall (λ x, isspace x = true) pre → (length (pre ++ $"OUT") ≤ fuel)%nat →
  command_loop put_word (S n) fuel v (mk_istream (pre ++ $"OUT" ++ ch_LF :: r) false false) c =
  Ret ([], mk_istream (ch_LF :: r) false false, c).
Proof.
  intros Hpre Hf. rewrite length_app in Hf. cbn [command_loop].
  rewrite read_word by (done || (by apply (bool_decide_unpack _)) || simpl in *; lia).
  by rewrite ret_bind, decide_True.
Qed.

(** At the end of its input the loop makes the last request over and over. *)
Lemma command_starved n fuel v (s : istream bytes) (c : C) :
  good s = false ∨ (eofbit s = false ∧ failbit s = false ∧
                    Forall (λ x, isspace x = true) (rdbuf s) ∧ (length (rdbuf s) ≤ fuel)%nat) →
  cmd v ≠ $"OUT" → key_ok (C:=C) (key v) → cache_inv c → command_loop put_word n fuel v s c = Spin.
Proof.
  revert v s c. induction n as [|n IH]; intros v s c Hs Hv Hk Hc; [done|]. cbn [command_loop].
  destruct (read_nothing fuel (cmd v) s Hs) as (s1 & -> & H1'). rewrite ret_bind, decide_False by done.
  destruct (read_nothing fuel (key v) s1 (or_introl H1')) as (s2 & Hr2 & H2').
  case_decide as HG; [|case_decide as HP; [|by apply IH; first [by left|done]]].
  - rewrite Hr2, ret_bind. destruct (get_served (key v) c Hc Hk) as (r & c1 & -> & Hc1 & _).
    rewrite ret_bind. rewrite IH; [done|by left|done..].
  - rewrite Hr2, ret_bind. destruct (read_nothing fuel (val v) s2 (or_introl H2')) as (s3 & -> & H3').
    rewrite ret_bind. destruct (put_served (key v) (val v) c Hc Hk) as (b & c1 & -> & Hc1 & _).
    rewrite ret_bind. rewrite IH; [done|by left|done..].
Qed.

Lemma command_turns qs : ∀ n fuel v pre r (c : C),
  Forall (λ x, isspace x = true) pre → Forall typable qs → cache_inv c → cmd v ≠ $"OUT" → key_ok (C:=C) (key v) →
  (length pre ≤ 1)%nat → (length (mjoin (typed put_word <$> qs)) < fuel)%nat →
  ∃ v' ans c1 pre', Forall (λ x, isspace x = true) pre' ∧ (length pre' ≤ 1)%nat ∧ cmd v' ≠ $"OUT" ∧
    key_ok (C:=C) (key v') ∧ cache_inv c1 ∧ served (stored c) qs ans (stored c1) ∧
    command_loop put_word (length qs + n) fuel v (mk_istream (pre ++ mjoin (typed put_word <$> qs) ++ r) false false) c =
    ('(out, in1, c2) ← command_loop put_word n fuel v' (mk_istream (pre' ++ r) false false) c1;
     mret ((line_of <$> ans) ++ out, in1, c2)).
Proof.
  induction qs as [|q qs IH]; intros n fuel v pre r c Hpre Hqs Hc Hv Hk Hl Hf.
  - cbn [fmap list_fmap mjoin list_join app] in *.
    exists v, [], c, pre. split_and!; try done; [constructor|]. simpl.
    destruct (command_loop _ _ _ _ _ _) as [[[out s1] c2]| | |]; done.
  - inversion_clear Hqs as [|? ? Hq Hqs']. 
    assert (mjoin (typed put_word <$> q :: qs) = typed put_word q ++ mjoin (typed put_word <$> qs)) as E by done.
    rewrite E in Hf |- *. clear E. rewrite <- (app_assoc (typed put_word q)). rewrite length_app in Hf.
    destruct (command_turn (length qs + n) fuel v pre q (mjoin (typed put_word <$> qs) ++ r) c Hpre Hq Hc)
      as (word & x & a & c1 & Hc1 & Hsp & Hw & Hrun); [rewrite length_app; lia|].
    assert (0 < length (typed put_word q))%nat by (destruct q; simpl; rewrite ?length_app; simpl; lia).
    destruct (IH n fuel (mk_vars word (key_of q) x) [ch_LF] r c1) as (v' & ans & c2 & pre' & Hpre' & Hf' & Hv' & Hk' & Hc2 & Hsv & Hrun');
      [by repeat constructor|done..|apply Hq|done|lia|].
    exists v', (a :: ans), c2, pre'. split_and!; try done; [by eapply served_cons|].
    cbn [length Nat.add]. rewrite Hrun. cbn [app] in Hrun'. rewrite Hrun'.
    destruct (command_loop _ n _ _ _ _) as [[[out s1] c3]| | |]; done.
Qed.

(** C38: a session of the test programs, over any cache that keeps its contract: each
    request typed is answered, in order, as by a cache that may forget or refuse
    but never gives a value that was not put last; OUT ends the session, and
    without it the session goes on for ever, repeating its last request. *)
Theorem session_served qs n fuel r (c : C) :
  Forall typable qs → cache_inv c → key_ok (C:=C) [] →
  (length (mjoin (typed put_word <$> qs)) + 3 < fuel)%nat →
  (∃ ans c1, cache_inv c1 ∧ served (stored c) qs ans (stored c1) ∧
     command_loop put_word (S (length qs)) fuel no_vars
       (mk_istream (mjoin (typed put_word <$> qs) ++ $"OUT" ++ ch_LF :: r) false false) c =
     Ret (line_of <$> ans, mk_istream (ch_LF :: r) false false, c1)) ∧
  command_loop put_word (length qs + n) fuel no_vars (mk_istream (mjoin (typed put_word <$> qs)) false false) c = Spin.
Proof.
  intros Hqs Hc Hk Hf. split.
  - destruct (command_turns qs 1 fuel no_vars [] ($"OUT" ++ ch_LF :: r) c)
      as (v & ans & c1 & pre & Hpre & Hl & _ & _ & Hc1 & Hsv & Hrun); [done..|simpl; lia|lia|].
    exists ans, c1. split_and!; [done..|]. cbn [app] in Hrun.
    replace (S (length qs)) with (length qs + 1)%nat by lia. rewrite Hrun.
    rewrite command_end by (done || rewrite length_app; simpl; lia). by rewrite ret_bind, app_nil_r.
  - destruct (command_turns qs n fuel no_vars [] [] c)
      as (v & ans & c1 & pre & Hpre & Hl & Hv & Hk' & Hc1 & _ & Hrun); [done..|simpl; lia|lia|].
    rewrite !app_nil_r in Hrun. cbn [app] in Hrun. rewrite Hrun.
    rewrite command_starved; [done| |done..]. right. cbn. split_and!; [done..|lia].
Qed.
End sessions.

(** * LoggerTest *)

Section logger_test.
Context `{AsyncLogger.LogFS} (thread_id : nat → bytes).

(** What thread [i] logs in each turn of its loop. *)
Definition logged_line (i : nat) : bytes := thread_id i ++ $" " ++ replicate 123 "a"%char ++ [ch_LF].

Definition logThread (t0 t1 : option bytes) (file : bytes) (i : nat) (lg : AsyncLogger) : outcome AsyncLogger :=
  LOG2DIARY t0 t1 file 12 (logged_line i) lg.

(** The eight threads and the thread of the logger. *)
Inductive logger_test_step : log_sys → log_sys → Prop :=
| turn_of_thread i t0 t1 file s lg' :
    (i < 8)%nat → logThread t0 t1 file i (lg s) = Ret lg' → logger_test_step s (mk_sys lg' (stage s))
| look_of_logger s :
    stage s = Looking → isRunning (lg s) = true → logger_test_step s (mk_sys (lg s) Waiting)
| turn_of_logger timeout s :
    stage s = Waiting → logger_test_step s (mk_sys (run_take timeout (lg s)) Flushing)
| flush_of_logger s :
    stage s = Flushing → logger_test_step s (mk_sys (run_flush (lg s)) Looking).

(** The state [main] starts from, and the line it prints every five seconds. *)
Definition logger_test (fs : gmap bytes bytes) : log_sys :=
  mk_sys (snd (setLogFile ($"/dev/null") (new_AsyncLogger fs))) Looking.
Definition status_of (s : log_sys) : bytes := to_string (if isRunning (lg s) then 1 else 0).

(** An entry of one of the threads, as much of it as a buffer takes. *)
Definition entry_of_test (e : bytes) : Prop :=
  ∃ t0 t1 file i, (i < 8)%nat ∧ e = take 4096 (entry t0 t1 file 12 (logged_line i)).

Record logger_test_inv (fs : gmap bytes bytes) (s : log_sys) : Prop := {
  lt_log : log_inv fs s;
  lt_running : isRunning (lg s) = true;
  lt_logged : ∃ es, Forall entry_of_test es ∧ logged (lg s) = concat es
}.

Lemma logThread_ok fs t0 t1 file i s :
  log_inv fs s → isRunning (lg s) = true → ∃ lg',
    logThread t0 t1 file i (lg s) = Ret lg' ∧ log_step s (mk_sys lg' (stage s)) ∧ isRunning lg' = true ∧
    logged lg' = logged (lg s) ++ take 4096 (entry t0 t1 file 12 (logged_line i)).
Proof.
  intros [Hwf Ho _ _ _ _] Hr. unfold logThread. destruct (LOG2DIARY_append t0 t1 file 12 (logged_line i) (lg s)) as (b & Hb & Hc & ->).
  destruct (append_spec b (lg s) Hb Hwf Ho Hr) as (s' & Ha & _ & _ & Hlog & _ & _ & Hrun & _).
  exists s'. rewrite Ha, ret_bind, Hlog, Hc. split_and!; [done|by eapply step_append| |done].
  unfold isRunning in *. congruence.
Qed.

Lemma logger_test_step_inv fs s s' : logger_test_step s s' → logger_test_inv fs s → logger_test_inv fs s'.
Proof.
  intros Hst [Hl Hr (es & Hes & Hlog)]. destruct Hst as [i t0 t1 file s lg' Hi Ht|s Hf _|timeout s Hf|s Hf].
  - destruct (logThread_ok fs t0 t1 file i s Hl Hr) as (lg1 & Ht' & Hstep & Hr' & Hlog'). rewrite Ht in Ht'. injection Ht' as <-.
    split; [by eapply log_step_inv|done|]. cbn [lg]. exists (es ++ [take 4096 (entry t0 t1 file 12 (logged_line i))]).
    split; [apply Forall_app_2; [done|]; apply Forall_singleton; by exists t0, t1, file, i|].
    by rewrite concat_app, Hlog', Hlog; simpl; rewrite app_nil_r.
  - split; [eapply log_step_inv; [done|by apply step_look]|done|by exists es].
  - split; [eapply log_step_inv; [done|by apply step_take]| |]; cbn [lg].
    + unfold isRunning, run_take in *. by destruct (__alternate _), timeout.
    + exists es. split; [done|]. unfold run_take. by destruct (__alternate _), timeout.
  - split; [eapply log_step_inv; [done|by apply step_flush]| |]; cbn [lg];
      destruct (run_flush_moved _ _ (flush_moved (__loggerLocal (lg s)) (lg s))) as (_ & _ & _ & Hl' & _ & _ & _ & Hr').
    + unfold isRunning in *. by rewrite Hr'.
    + exists es. by rewrite Hl'.
Qed.

(** LoggerTest: whatever the interleaving of its threads, the logger goes on
    running, so that [main] keeps printing 1 and each thread can log its next line;
    what was transferred to the files followed by what is buffered is, in order, made
    of entries of the threads, each of them whole. *)
Theorem logger_test_runs fs s :
  reachable logger_test_step (logger_test fs) s →
  status_of s = $"1" ∧ (∀ t0 t1 file i, ∃ lg', logThread t0 t1 file i (lg s) = Ret lg') ∧
  ∃ es segs, Forall entry_of_test es ∧ log_files fs segs (files (lg s)) ∧
    (all_bytes segs ++ pending (lg s)) `sublist_of` concat es.
Proof.
  intros Hs. assert (logger_test_inv fs s) as [Hl Hr (es & Hes & Hlog)].
  { eapply (reachable_invariant _ (logger_test_inv fs)); [|..|exact Hs]; [intros a b Ha Hab; by eapply logger_test_step_inv|].
    assert (lg (logger_test fs) = snd (setLogFile ($"/dev/null") (new_AsyncLogger fs))) as E by done.
    split; [|rewrite E; unfold setLogFile; by destruct (can_open _ _)|exists []; rewrite E; unfold setLogFile; by destruct (can_open _ _)].
    eapply log_step_inv; [apply (log_inv_init fs)|exact (step_setLogFile _ (mk_sys (new_AsyncLogger fs) Looking))]. }
  split_and!.
  - unfold status_of. by rewrite Hr.
  - intros t0 t1 file i. destruct (logThread_ok fs t0 t1 file i s Hl Hr) as (lg' & -> & _). by eexists.
  - exists es, (writes (lg s)). rewrite <- Hlog. split_and!; [done|apply Hl..].
Qed.
End logger_test.

(** * HttpUtilTest and SocketStreamBufferTest *)

Section one_client.
Context {K : Type} `{Kernel K}.

(** Both programs first wait for one client on port 8888: the exit code when that
    fails, or the listening socket and the client. [accept] blocks here. *)
Definition accept_one (k : K) : (Z + Z * Z) * K :=
  let '(r, k1) := sys_socket k in
  match r with
  | None => (inl (Z.of_N (err_code SOCKET_INIT_FAILED)), k1)
  | Some listenFD =>
      let '(bound, k2) := sys_bind listenFD 0 8888 k1 in
      if negb bound then (inl (Z.of_N (err_code SOCKET_BIND_FAILED)), k2) else
      let '(listening, k3) := sys_listen listenFD 5 k2 in
      if negb listening then (inl (Z.of_N (err_code SOCKET_LISTEN_FAILED)), sys_close listenFD k3) else
      let '(c, k4) := sys_accept listenFD k3 in
      match c with
      | None => (inl (-1), sys_close listenFD k4)
      | Some clientFD => (inr (listenFD, clientFD), k4)
      end
  end.

(** What is open afterwards: both sockets, or nothing new, but for the socket that
    could not be bound. *)
Theorem accept_one_descriptors `{!KernelOk K} k r k' :
  accept_one k = (r, k') →
  match r with
  | inl code => fds k' = fds k ∨ code = Z.of_N (err_code SOCKET_BIND_FAILED) ∧ ∃ s, (s ∉ fds k) ∧ fds k' = {[s]} ∪ fds k
  | inr (s, c) => s ≠ c ∧ (s ∉ fds k) ∧ (c ∉ fds k) ∧ fds k' = {[c]} ∪ ({[s]} ∪ fds k)
  end.
Proof.
  assert (∀ (s : Z) (X : gset Z), s ∉ X → ({[s]} ∪ X) ∖ {[s]} = X) as Hdrop by set_solver.
  unfold accept_one. destruct (sys_socket k) as [[s|] k1] eqn:Hs; destruct (socket_ok _ _ _ Hs) as [_ Hs'];
    [|intros [= <- <-]; by left].
  destruct Hs' as (Hnew & _ & H1'). destruct (sys_bind _ _ _ _) as [b k2] eqn:Hb. destruct (bind_ok _ _ _ _ _ _ Hb) as [H2' _].
  destruct b; cbn [negb]; [|intros [= <- <-]; right; split; [done|]; exists s; by rewrite H2'].
  destruct (sys_listen _ _ _) as [b k3] eqn:Hl. destruct (listen_ok _ _ _ _ _ Hl) as [H3' _].
  destruct b; cbn [negb]; [|intros [= <- <-]; left; rewrite (proj1 (close_ok _ _)), H3', H2', H1'; by apply Hdrop].
  destruct (sys_accept _ _) as [[c|] k4] eqn:Ha; destruct (accept_ok _ _ _ _ Ha) as [_ Ha'].
  - intros [= <- <-]. destruct Ha' as (Hc & _ & H4'). rewrite H3', H2', H1' in Hc. rewrite H4', H3', H2', H1'. set_solver.
  - intros [= <- <-]. left. rewrite (proj1 (close_ok _ _)), Ha', H3', H2', H1'. by apply Hdrop.
Qed.
End one_client.

(** [test4Request]: the lines printed. Unlike the server it answers what it could
    not read; its accessor has no cache. *)
Section test4Request.
Context {Ob C : Type} `{OStreamBuf Ob} `{MapOrder} `{FileAvail} `{FileSystem} `{ICache C}.

Fixpoint test4Request {B} `{StreamBuf B} (n fuel : nat) (router : Router) (accessor : option C) (iss : istream B)
    (oss : ostream Ob) (buff : bytes) : outcome (list bytes * ostream Ob) :=
  if eofbit iss then Ret ([], oss) else
  match n with
  | O => Spin
  | S n' =>
      '((error, req), iss1) ← HttpRequest.getOneHttpRequest fuel iss;
      '(res, accessor1) ← HttpResponse.getResponseFromRequest fuel req router accessor;
      '(error2, (oss1, _, buff1)) ← HttpResponse.response fuel oss res buff;
      '(out, oss2) ← test4Request n' fuel router accessor1 iss1 oss1 buff1;
      mret (($"getOneHttpRequest returned with error: " ++ to_string (err_code error))
            :: HttpRequest.print_request req
            :: ($"response ret with error: " ++ to_string (err_code error2)) :: out, oss2)
  end.
End test4Request.
