(* ===== verification/TestExamples.v ===== *)
(** The programs under test/ run on concrete inputs. *)

From S2P Require Export TestPrograms RedisExamples SimKernel.
From S2P Require SocketStream HttpRequest Analyser HttpExamples.

#[local] Instance list_order : MapOrder := map_to_list.
#[local] Instance all_avail : Reader.FileAvail := Reader.avail_all.

(** * Redis *)

Definition lines (l : list bytes) : bytes := mjoin ((λ x, x ++ [ch_LF]) <$> l).
Definition typing (l : list bytes) : istream bytes := mk_istream (lines l) false false.

Example redis_cache_test_run :
  redis_cache_test 9 100 (typing [$"GET a"; $"SET a 1"; $"SET b 2"; $"GET a"; $"LIST"; $"GET b"; $"OUT"]) (∅ : gmap bytes bytes)
  = Ret ([$"pool conn num: 3"; $"FAILED"; $"OK"; $"OK"; $"1"; $"2"], 0).
Proof. vm_compute. reflexivity. Qed.

(** The server asks for no password. *)
Example redis_conn_test_run :
  redis_conn_test 9 100 (typing [$"PUT a 1"; $"GET a"; $"SET a"; $"OUT"]) (∅ : gmap bytes bytes)
  = Ret ([$"OK"; $"1"], 0).
Proof. vm_compute. reflexivity. Qed.

Definition two_requests : list request := [Put ($"a") ($"1"); Get ($"a")].

Lemma session_served_witness :
  (∃ ans c1, cache_inv (C:=RedisCache (gmap bytes bytes)) c1 ∧ served (stored demo_cache) two_requests ans (stored c1) ∧
     command_loop ($"SET") 3 100 no_vars
       (mk_istream (mjoin (typed ($"SET") <$> two_requests) ++ $"OUT" ++ ch_LF :: []) false false) demo_cache =
     Ret (line_of <$> ans, mk_istream (ch_LF :: []) false false, c1)) ∧
  command_loop ($"SET") (2 + 7) 100 no_vars
    (mk_istream (mjoin (typed ($"SET") <$> two_requests)) false false) demo_cache = Spin.
Proof.
  apply (session_served (C:=RedisCache (gmap bytes bytes)) ($"SET")).
  - apply (bool_decide_unpack _). vm_compute. exact I.
  - apply (bool_decide_unpack _). vm_compute. exact I.
  - apply (bool_decide_unpack _). vm_compute. exact I.
  - repeat (apply Forall_cons || apply Forall_nil);
      (split; [|split]; [| |try exact I]; apply (bool_decide_unpack _); vm_compute; exact I).
  - split; [exact demo_cache_wf|exact I].
  - apply (bool_decide_unpack _). vm_compute. exact I.
  - apply (bool_decide_unpack _). vm_compute. exact I.
Defined.

(** * The client of HttpUtilTest *)

Definition blank : bytes := replicate SocketStream.BFSIZE NUL.

(** One good request, in two pieces, and then the end of the connection: that too
    is answered. *)
#[local] Existing Instance HttpExamples.two_files.

Example test4Request_run :
  Analyser.result (test4Request (C:=RedisCache (gmap bytes bytes)) 9 200 new_Router None
    (HttpRequest.socket_with [$"GET / HT"; $"TP/1.1" ++ HttpRequest.crlf ++ HttpRequest.crlf] blank 7)
    (mk_ostream ([] : bytes) false) blank) =
  Ret [$"getOneHttpRequest returned with error: 0"; $"GET / HTTP/1.1" ++ [ch_LF; ch_LF]; $"response ret with error: 0";
       $"getOneHttpRequest returned with error: 16";
       $"UNKNOWN_REQUEST_METHOD  UNKNOWN_HTTP_VERSION" ++ [ch_LF; ch_LF]; $"response ret with error: 0"].
Proof. vm_compute. reflexivity. Qed.

(** * Accepting it *)

Definition quiet : sim_os := mk_sim_os {[0; 1; 2]} ∅ 3 [] [] ∅ true true.

Lemma accept_one_descriptors_witness :
  match fst (accept_one quiet) with
  | inl code => fds (snd (accept_one quiet)) = fds quiet ∨ code = Z.of_N (err_code SOCKET_BIND_FAILED) ∧
      ∃ s, (s ∉ fds quiet) ∧ fds (snd (accept_one quiet)) = {[s]} ∪ fds quiet
  | inr (s, c) => s ≠ c ∧ (s ∉ fds quiet) ∧ (c ∉ fds quiet) ∧
      fds (snd (accept_one quiet)) = {[c]} ∪ ({[s]} ∪ fds quiet)
  end.
Proof. apply (accept_one_descriptors quiet). by destruct (accept_one quiet). Defined.
