(* ===== verification/Worker.v ===== *)
(** Worker, IOEventHandler and ListenEventHandler: the reactor.

    The state of the process is the store of events with the kernel, the workers
    by address, the router and the accessor that the I/O handlers share, the static
    buffer of HttpResponse.cc and the logger. A worker's thread polls its poller and
    hands each event to its handler. *)

From S2P Require Export Error Kernel Epoll SocketStream Router ResourceAccessor.
From S2P Require HttpRequest HttpResponse AsyncLogger Logger.

(** What surrounds the process: the clock, [__FILE__], how a thread is printed,
    and what an uninitialised array holds. *)
Class Env := {
  clock : nat → option bytes;
  file_name : bytes → bytes;
  thread_text : nat → bytes;
  uninit : bytes
}.
Class EnvOk `{Env} : Prop := uninit_length : length uninit = BFSIZE.

(** The handler of a worker: an [IOEventHandler], or a [ListenEventHandler] with
    its (weak) pointers to the I/O workers. *)
Inductive Handler :=
| IOEventHandler
| ListenEventHandler (ioWorkers : list nat).

Record Worker := mk_Worker {
  __running : bool;
  __eventPoller : Epoll;
  __eventHandler : Handler
}.

Definition new_Worker (p : Epoll) (h : Handler) : Worker := mk_Worker false p h.

Definition isRunning (w : Worker) : bool := __running w.
Definition stop (w : Worker) : Worker := mk_Worker false (__eventPoller w) (__eventHandler w).
Definition set_poller (p : Epoll) (w : Worker) : Worker := mk_Worker (__running w) p (__eventHandler w).
Definition set_handler (h : Handler) (w : Worker) : Worker := mk_Worker (__running w) (__eventPoller w) h.

Definition worker_maxFDS (w : Worker) : nat := maxFDS (__eventPoller w).
Definition worker_activeFDS (w : Worker) : nat := activeFDS (__eventPoller w).

(** The constructors: an [IOEventHandler] is given the pointers to the router and
    the accessor of the process; a [ListenEventHandler] a weak pointer to each worker. *)
Definition new_IOEventHandler : Handler := IOEventHandler.
Definition new_ListenEventHandler (ws : list nat) : Handler := ListenEventHandler ws.

Record process (K R A : Type) := mk_process {
  estore : store K;
  workers : list Worker;
  router : R;
  accessor : A;
  static_buff : bytes;
  log : AsyncLogger.AsyncLogger;
  ticks : nat
}.
Arguments mk_process {K R A} _ _ _ _ _ _ _.
Arguments estore {K R A} _.
Arguments workers {K R A} _.
Arguments router {K R A} _.
Arguments accessor {K R A} _.
Arguments static_buff {K R A} _.
Arguments log {K R A} _.
Arguments ticks {K R A} _.

Section reactor.
Context {K R A : Type} `{Kernel K} `{IRouter R} `{IResourceAccessor A} `{MapOrder} `{FileAvail} `{Env}.

Abbreviation proc := (process K R A).

Definition set_store (st : store K) (s : proc) : proc :=
  mk_process st (workers s) (router s) (accessor s) (static_buff s) (log s) (ticks s).
Definition set_workers (ws : list Worker) (s : proc) : proc :=
  mk_process (estore s) ws (router s) (accessor s) (static_buff s) (log s) (ticks s).
Definition set_accessor (a : A) (s : proc) : proc :=
  mk_process (estore s) (workers s) (router s) a (static_buff s) (log s) (ticks s).
Definition set_buff (b : bytes) (s : proc) : proc :=
  mk_process (estore s) (workers s) (router s) (accessor s) b (log s) (ticks s).
Definition in_kernel (f : K → K) (s : proc) : proc :=
  set_store (set_kernel (f (kernel (estore s))) (estore s)) s.

(** A [LOG2DIARY] statement. *)
Definition diary (file : bytes) (line : Z) (msg : bytes) (s : proc) : outcome proc :=
  lg ← Logger.LOG2DIARY (clock (ticks s)) (clock (S (ticks s))) (file_name file) line msg (log s);
  mret (mk_process (estore s) (workers s) (router s) (accessor s) (static_buff s) lg (S (S (ticks s)))).

(** * Worker *)

Definition get_worker (i : nat) (s : proc) : outcome Worker := deref (workers s !! i).
Definition put_worker (i : nat) (w : Worker) (s : proc) : proc := set_workers (<[i := w]> (workers s)) s.

Definition addEvent (i : nat) (e : eptr) (s : proc) : outcome (Error * proc) :=
  w ← get_worker i s;
  let st1 := update_event (setWorker (Some i)) e (estore s) in
  '(error, p, st2) ← epollAddEvent e (__eventPoller w) st1;
  let st3 := if decide (error = SERVER_OK) then st2 else update_event (setWorker None) e st2 in
  mret (error, set_store st3 (put_worker i (set_poller p w) s)).

Definition delEvent (i : nat) (e : eptr) (s : proc) : outcome (Error * proc) :=
  w ← get_worker i s;
  '(error, p, st1) ← epollDelEvent e (__eventPoller w) (estore s);
  mret (error, set_store st1 (put_worker i (set_poller p w) s)).

Definition modEvent (i : nat) (e : eptr) (s : proc) : outcome (Error * proc) :=
  w ← get_worker i s;
  '(error, p, st1) ← epollModEvent e (__eventPoller w) (estore s);
  mret (error, set_store st1 (put_worker i (set_poller p w) s)).

Definition eventPoll (i : nat) (timeout : Z) (s : proc) : outcome (list eptr * Error * proc) :=
  w ← get_worker i s;
  let '(events, error, st1) := epollWait timeout (__eventPoller w) (estore s) in
  mret (events, error, set_store st1 s).

(** * IOEventHandler *)

(** The loop of [handle], over the two streams of the connection. *)
Fixpoint request_loop `{SO : SendOracle} (n fuel : nat) (fd : Z) (in_ : istream SocketStreamBuffer)
    (out : ostream SocketStreamBuffer) (s : proc)
  : outcome (istream SocketStreamBuffer * ostream SocketStreamBuffer * proc) :=
  if eofbit in_ then Ret (in_, out, s) else
  match n with
  | O => Spin
  | S n' =>
      '((error, req), in1) ← HttpRequest.getOneHttpRequest fuel in_;
      s1 ← diary ($"IOEventHandler.cc") 32
             ($"getOneHttpRequest from clientFD " ++ to_string_Z fd
              ++ $" with returned with error: " ++ to_string (err_code error) ++ [ch_LF]) s;
      if decide (error = SERVER_OK) then
        s2 ← diary ($"IOEventHandler.cc") 35 (HttpRequest.print_request req ++ [ch_LF]) s1;
        '(res, a1) ← HttpResponse.getResponseFromRequest fuel req (router s2) (accessor s2);
        '(error2, (out1, _, buff1)) ← HttpResponse.response fuel out res (static_buff s2);
        s3 ← diary ($"IOEventHandler.cc") 38
               ($"response ret with error: " ++ to_string (err_code error2) ++ [ch_LF])
               (set_buff buff1 (set_accessor a1 s2));
        request_loop n' fuel fd in1 out1 s3
      else request_loop n' fuel fd in1 out s1
  end.

(** [handle]; also returned are the bytes the connection has sent when its
    streams are destroyed, which flushes them once more. *)
Definition IOEventHandler_handle (fuel : nat) (e : eptr) (s : proc) : outcome (Error * bytes * proc) :=
  ev ← get_event e (estore s);
  let fd := getFD ev in
  let k := kernel (estore s) in
  let in_ := new_SocketInputStream (mk_SocketStreamBuffer uninit fd (sock_incoming fd k)) in
  let out := new_SocketOutputStream (mk_SocketStreamBuffer uninit fd []) in
  '(_, out1, s1) ← request_loop (SO:=sock_send fd k) fuel fuel fd in_ out s;
  ev1 ← get_event e (estore s1);
  i ← deref (getWorker ev1);
  '(_, s2) ← delEvent i e s1;
  mret (SERVER_OK, tx (ssb_destroy (H:=sock_send fd k) (obuf out1)), s2).

(** * ListenEventHandler *)

(** The search for a running worker with room: its index in the list and its
    address. [lock()] of a dead worker gives a null pointer. *)
Fixpoint find_worker (i : nat) (ios : list nat) (s : proc) : outcome (option (nat * nat)) :=
  match ios with
  | [] => Ret None
  | cur :: ios' =>
      w ← get_worker cur s;
      if isRunning w && Nat.ltb (worker_activeFDS w) (worker_maxFDS w)
      then Ret (Some (i, cur))
      else find_worker (S i) ios' s
  end.

(** The body of the loop of [handle], for an accepted client. *)
Definition accept_client (clientFD : Z) (ios : list nat) (s : proc) : outcome (list nat * proc) :=
  let '(flags, k1) := fcntl_getfl clientFD (kernel (estore s)) in
  let s1 := in_kernel (λ _, k1) s in
  match flags with
  | None => mret (ios, in_kernel (sys_close clientFD) s1)
  | Some flags =>
      let s2 := in_kernel (fcntl_setfl clientFD (N.lor flags O_NONBLOCK)) s1 in
      found ← find_worker 0 ios s2;
      match found with
      | None => mret (ios, in_kernel (sys_close clientFD) s2)
      | Some (i, cur) =>
          let '(e, st3) := make_event clientFD (N.lor EPOLLET EPOLLIN) (estore s2) in
          '(error, s4) ← addEvent cur e (set_store st3 s2);
          let s5 := set_store (release e (estore s4)) s4 in
          if decide (error = SERVER_OK) then
            s6 ← diary ($"ListenEventHandler.cc") 40
                   ($"Accept client with clientFD and assign it to worker: " ++ thread_text cur ++ [ch_LF]) s5;
            mret (delete i ios ++ [cur], s6)
          else mret (ios, in_kernel (sys_close clientFD) s5)
      end
  end.

Fixpoint accept_loop (n : nat) (listenedFD : Z) (ios : list nat) (s : proc) : outcome (list nat * proc) :=
  match n with
  | O => Spin
  | S n' =>
      let '(c, k1) := sys_accept listenedFD (kernel (estore s)) in
      let s1 := in_kernel (λ _, k1) s in
      match c with
      | None => Ret (ios, s1)
      | Some clientFD =>
          '(ios1, s2) ← accept_client clientFD ios s1;
          accept_loop n' listenedFD ios1 s2
      end
  end.

Definition ListenEventHandler_handle (n : nat) (e : eptr) (ios : list nat) (s : proc)
  : outcome (Error * list nat * proc) :=
  ev ← get_event e (estore s);
  '(ios1, s1) ← accept_loop n (getFD ev) ios s;
  mret (SERVER_OK, ios1, s1).

(** * The worker's thread *)

(** [handleEvent]: the handler's own state is the worker's. *)
Definition handleEvent (fuel : nat) (i : nat) (e : eptr) (s : proc) : outcome proc :=
  w ← get_worker i s;
  match __eventHandler w with
  | IOEventHandler =>
      '(_, _, s1) ← IOEventHandler_handle fuel e s;
      mret s1
  | ListenEventHandler ios =>
      '(_, ios1, s1) ← ListenEventHandler_handle fuel e ios s;
      w1 ← get_worker i s1;
      mret (put_worker i (set_handler (ListenEventHandler ios1) w1) s1)
  end.

(** [run], in the calling thread; [alive] is whether the new thread has not
    already left its loop when it is looked at. *)
Definition run (i : nat) (alive : bool) (s : proc) : outcome (Error * proc) :=
  w ← get_worker i s;
  if isRunning w then mret (WORKER_ALREADY_RUNNING, s)
  else
    let s1 := put_worker i (mk_Worker alive (__eventPoller w) (__eventHandler w)) s in
    mret (if alive then SERVER_OK else WORKER_START_FAILED, s1).

(** One iteration of the loop of the worker's thread, without interleaving: a
    failed wait ends the thread. *)
Fixpoint handle_all (fuel : nat) (i : nat) (events : list eptr) (s : proc) : outcome proc :=
  match events with
  | [] => Ret s
  | e :: events' => s1 ← handleEvent fuel i e s; handle_all fuel i events' s1
  end.

Definition release_all (events : list eptr) (s : proc) : proc :=
  set_store (fold_left (λ st e, release e st) events (estore s)) s.

(** The end of the thread: it marks the worker as stopped and logs the error of
    its last poll. *)
Definition worker_exit (i : nat) (error : Error) (s : proc) : outcome proc :=
  w ← get_worker i s;
  diary ($"Worker.cc") 68 ($"worker exit with err " ++ to_string (err_code error) ++ [ch_LF])
        (put_worker i (stop w) s).

Definition run_iteration (fuel : nat) (i : nat) (s : proc) : outcome proc :=
  '(events, error, s1) ← eventPoll i (-1) s;
  if decide (error = SERVER_OK) then
    s2 ← handle_all fuel i events s1;
    mret (release_all events s2)
  else worker_exit i error s1.
End reactor.
