(* ===== verification/Reactor.v ===== *)
(** What the reactor keeps true: the invariant of workers, pollers and events
    under the operations of Worker, the handlers and the interleaving of the
    workers' threads. *)

From S2P Require Export Worker.

(** * The invariant *)

Section invariant.
Context {K R A : Type} `{KernelOk K}.
Abbreviation proc := (process K R A).

Definition refs_of (ws : list Worker) : list eptr := concat ((map_refs ∘ __eventPoller) <$> ws).

(** The logger can take what is logged. *)
Definition log_ok (lg : AsyncLogger.AsyncLogger) : Prop :=
  AsyncLogger.buffers_wf lg ∧ (0 < AsyncLogger.__overflow lg)%N.

(** [locals] are the pointers to events held by threads. *)
Record proc_wf (locals : list eptr) (s : proc) : Prop := {
  pw_store : store_wf (refs_of (workers s) ++ locals) (estore s);
  pw_pollers i w : workers s !! i = Some w → epoll_wf i (__eventPoller w) (estore s);
  pw_valid i w : workers s !! i = Some w → validEpollFD (__eventPoller w) = true;
  pw_distinct i j wi wj :
    workers s !! i = Some wi → workers s !! j = Some wj →
    __epfd (__eventPoller wi) = __epfd (__eventPoller wj) → i = j;
  pw_log : log_ok (log s)
}.

(** The pointers of one worker's map, and those of all the others. *)
Lemma worker_focus ws i w :
  ws !! i = Some w →
  ∃ rest, refs_of ws ≡ₚ map_refs (__eventPoller w) ++ rest ∧
    (∀ w', refs_of (<[i := w']> ws) ≡ₚ map_refs (__eventPoller w') ++ rest) ∧
    (∀ j wj, j ≠ i → ws !! j = Some wj → map_refs (__eventPoller wj) ⊆ rest).
Proof.
  intros Hi. apply list_elem_of_split_length in Hi as (l1 & l2 & -> & ->).
  exists (refs_of l1 ++ refs_of l2). unfold refs_of.
  assert (∀ w', concat ((map_refs ∘ __eventPoller) <$> l1 ++ w' :: l2)
                ≡ₚ map_refs (__eventPoller w') ++ refs_of l1 ++ refs_of l2) as Hp.
  { intros w'. rewrite fmap_app, concat_app. cbn [fmap list_fmap concat]. unfold refs_of.
    rewrite !app_assoc. apply Permutation_app_tail, Permutation_app_comm. }
  split_and!; [apply Hp| |].
  - intros w'. rewrite insert_app_r_alt, Nat.sub_diag by lia. simpl. apply Hp.
  - intros j wj Hj Hwj x Hx. rewrite <- concat_app, <- fmap_app.
    apply list_elem_of_In, in_concat. exists (map_refs (__eventPoller wj)).
    split; [|by apply list_elem_of_In]. apply list_elem_of_In, list_elem_of_fmap. exists wj. split; [done|].
    apply elem_of_app. apply lookup_app_Some in Hwj as [Hwj|[Hle Hwj]].
    + left. by eapply list_elem_of_lookup_2.
    + right. destruct (j - length l1)%nat eqn:E; [lia|]. simpl in Hwj. by eapply list_elem_of_lookup_2.
Qed.

Lemma elem_refs_of ws e :
  e ∈ refs_of ws ↔ ∃ i w, ws !! i = Some w ∧ e ∈ map_refs (__eventPoller w).
Proof.
  unfold refs_of. rewrite list_elem_of_In, in_concat. split.
  - intros (l & Hl & Hin). apply list_elem_of_In, list_elem_of_fmap in Hl as (w & -> & Hw).
    apply list_elem_of_lookup_1 in Hw as [i Hi]. exists i, w. split; [done|by apply list_elem_of_In].
  - intros (i & w & Hi & Hin). exists (map_refs (__eventPoller w)). split; [|by apply list_elem_of_In].
    apply list_elem_of_In, list_elem_of_fmap. exists w. split; [done|]. by eapply list_elem_of_lookup_2.
Qed.

(** A change to one worker's poller and to the store that keeps the others. *)
Lemma proc_wf_worker i w w' st' rest locals locals' s :
  proc_wf locals s → workers s !! i = Some w →
  (∀ w', refs_of (<[i := w']> (workers s)) ≡ₚ map_refs (__eventPoller w') ++ rest) →
  store_wf (map_refs (__eventPoller w') ++ rest ++ locals') st' →
  epoll_wf i (__eventPoller w') st' → __epfd (__eventPoller w') = __epfd (__eventPoller w) →
  (∀ j wj, j ≠ i → workers s !! j = Some wj → epoll_wf j (__eventPoller wj) st') →
  proc_wf locals' (set_store st' (put_worker i w' s)).
Proof.
  intros [Hst Hpo Hv Hd Hlg] Hi Hrest Hst' Hp' Hfd Hoth.
  assert (i < length (workers s))%nat as Hlt by by eapply lookup_lt_Some.
  split; simpl; [| | | |done].
  - eapply store_wf_perm; [|exact Hst']. by rewrite Hrest, app_assoc.
  - intros j wj [(<- & <- & _)|[Hne Hj]]%list_lookup_insert_Some; [done|by apply Hoth].
  - intros j wj [(<- & <- & _)|[Hne Hj]]%list_lookup_insert_Some; [|by eapply Hv].
    unfold validEpollFD. rewrite Hfd. by apply (Hv i).
  - intros j1 j2 w1 w2 [(<- & <- & _)|[Hn1 H1']]%list_lookup_insert_Some [(<- & <- & _)|[Hn2 H2']]%list_lookup_insert_Some;
      rewrite ?Hfd; intros Heq; [done|by eapply Hd..].
Qed.

(** Replacing a worker by one with the same poller. *)
Lemma proc_wf_same_poller i w w' locals s :
  proc_wf locals s → workers s !! i = Some w → __eventPoller w' = __eventPoller w →
  proc_wf locals (put_worker i w' s).
Proof.
  intros Hwf Hi Hp. destruct (worker_focus _ _ _ Hi) as (rest & Hp1 & Hput & _).
  assert (put_worker i w' s = set_store (estore s) (put_worker i w' s)) as -> by by destruct s.
  apply (proc_wf_worker i w w' (estore s) rest locals locals s Hwf Hi Hput); rewrite ?Hp.
  - eapply store_wf_perm; [|apply Hwf]. by rewrite Hp1, app_assoc.
  - by apply (pw_pollers _ _ Hwf).
  - done.
  - intros j wj _ Hj. by apply (pw_pollers _ _ Hwf).
Qed.

(** The pollers of the other workers are others in the sense of the poller. *)
Lemma others_distinct locals i w rest o st st' s :
  proc_wf locals s → workers s !! i = Some w →
  (∀ j wj, j ≠ i → workers s !! j = Some wj → map_refs (__eventPoller wj) ⊆ rest) →
  (∀ j wj, workers s !! j = Some wj → epoll_wf j (__eventPoller wj) st) →
  others_kept (__eventPoller w) (rest ++ o) st st' →
  ∀ j wj, j ≠ i → workers s !! j = Some wj → epoll_wf j (__eventPoller wj) st'.
Proof.
  intros Hs Hi Hsub Hwf Hk j wj Hj Hwj. apply Hk; [| |by apply Hwf].
  - intros Heq. apply Hj. by eapply (pw_distinct _ _ Hs).
  - intros x Hx. apply elem_of_app. left. by eapply Hsub.
Qed.

Lemma epoll_wf_update_other f e i q st :
  e ∉ map_refs q → epoll_wf i q st → epoll_wf i q (update_event f e st).
Proof.
  intros Hne [Hm Hi Hx]. split; [|done|done]. intros fd e' Hq.
  destruct (Hm _ _ Hq) as (x & Hx' & ?). exists x. split; [|done]. simpl.
  rewrite lookup_alter_ne; [done|]. intros ->. apply Hne, elem_map_refs. by exists fd.
Qed.

(** What an operation on behalf of a thread leaves alone: the workers the events
    it holds know, the handlers, the router and the accessor. *)
Definition frame (locals : list eptr) (s s' : proc) : Prop :=
  (∀ e, e ∈ locals → link e (estore s') = link e (estore s)) ∧
  __eventHandler <$> workers s' = __eventHandler <$> workers s ∧
  router s' = router s ∧ accessor s' = accessor s.

Lemma frame_refl locals s : frame locals s s.
Proof. done. Qed.

Lemma frame_trans locals s1 s2 s3 : frame locals s1 s2 → frame locals s2 s3 → frame locals s1 s3.
Proof.
  intros (Hl & Hh & Hr & Ha) (Hl' & Hh' & Hr' & Ha'). split_and!; [|by etrans..].
  intros e He. by rewrite Hl', Hl.
Qed.

Lemma frame_poller locals i w p st s :
  workers s !! i = Some w → (∀ e, e ∈ locals → link e st = link e (estore s)) →
  frame locals s (set_store st (put_worker i (set_poller p w) s)).
Proof.
  intros Hi Hl. split_and!; [done| |done|done]. cbn. rewrite list_fmap_insert.
  apply list_insert_id. by rewrite list_lookup_fmap, Hi.
Qed.

(** The same, for an operation that may use the accessor. *)
Definition kept (locals : list eptr) (s s' : proc) : Prop :=
  (∀ e, e ∈ locals → link e (estore s') = link e (estore s)) ∧
  __eventHandler <$> workers s' = __eventHandler <$> workers s ∧ router s' = router s.

Lemma frame_kept locals s s' : frame locals s s' → kept locals s s'.
Proof. by intros (? & ? & ? & _). Qed.

Lemma frame_length locals s s' : frame locals s s' → length (workers s') = length (workers s).
Proof. intros (_ & Hh & _). apply (f_equal length) in Hh. by rewrite !length_fmap in Hh. Qed.

(** [addEvent] of an event no poller has. *)
Lemma addEvent_ok i w e locals s :
  proc_wf locals s → workers s !! i = Some w → e ∈ locals → e ∉ refs_of (workers s) →
  ∃ err p' st', addEvent i e s = Ret (err, set_store st' (put_worker i (set_poller p' w) s)) ∧
    proc_wf locals (set_store st' (put_worker i (set_poller p' w) s)) ∧
    fds (kernel st') = fds (kernel (estore s)) ∧
    (∀ ev, get_event e (estore s) = Ret ev →
       if decide (err = SERVER_OK)
       then p' = set_events (<[getFD ev := e]> (__events (__eventPoller w))) (__eventPoller w) ∧
            activeFDS p' = S (activeFDS (__eventPoller w)) ∧
            get_event e st' = Ret (setWorker (Some i) ev)
       else p' = __eventPoller w ∧ get_event e st' = Ret (setWorker None ev)) ∧
    (∀ l, e ∉ l → frame l s (set_store st' (put_worker i (set_poller p' w) s))).
Proof.
  intros Hs Hi He Hne. destruct (worker_focus _ _ _ Hi) as (rest & Hp & Hput & Hsub).
  pose proof (pw_store _ _ Hs) as Hst. destruct (owner_live e _ _ Hst) as [[ev n] Hev]; [apply elem_of_app; by right|].
  set (st1 := update_event (setWorker (Some i)) e (estore s)).
  assert (evs st1 !! e = Some (setWorker (Some i) ev, n)) as Hev1 by (simpl; by rewrite lookup_alter_eq, Hev).
  assert (store_wf (map_refs (__eventPoller w) ++ rest ++ locals) st1) as Hst1.
  { apply update_wf; [done|]. eapply store_wf_perm; [|exact Hst]. by rewrite Hp, app_assoc. }
  assert (∀ j wj, workers s !! j = Some wj → e ∉ map_refs (__eventPoller wj)) as Hnot.
  { intros j wj Hj Hin. apply Hne, elem_refs_of. by exists j, wj. }
  assert (∀ j wj, workers s !! j = Some wj → epoll_wf j (__eventPoller wj) st1) as Hpo1.
  { intros j wj Hj. apply epoll_wf_update_other; [by eapply Hnot|by apply (pw_pollers _ _ Hs)]. }
  destruct (epollAddEvent_ok e _ n (rest ++ locals) i (__eventPoller w) st1 Hev1 eq_refl Hst1 (Hpo1 _ _ Hi))
    as (err & p' & st2 & Hrun & Hwf2 & Hp2 & Hoth & Hfds & Hres).
  pose proof (others_distinct _ _ _ _ _ _ _ _ Hs Hi Hsub Hpo1 Hoth) as Hoth2.
  set (st3 := if decide (err = SERVER_OK) then st2 else update_event (setWorker None) e st2).
  exists err, p', st3. split.
  { unfold addEvent, get_worker. rewrite Hi, deref_Some_bind. fold st1. by rewrite Hrun, ret_bind. }
  assert (getEv : get_event e (estore s) = Ret ev) by (unfold get_event; by rewrite Hev).
  assert (∀ l, e ∉ l → frame l s (set_store st3 (put_worker i (set_poller p' w) s))) as Hframe.
  { intros l Hel. apply frame_poller; [done|]. intros e' He'. assert (e' ≠ e) as Hee by (by intros ->).
    assert (link e' st2 = link e' (estore s)) as <-.
    { rewrite (link_add _ _ _ _ _ _ _ _ Hres). apply link_update. by right. }
    subst st3. destruct (decide (err = SERVER_OK)); [done|]. apply link_update. by right. }
  destruct Hres as [(-> & Hnone & -> & Hevs)|(Herr & -> & Hevs)].
  - subst st3. rewrite decide_True by done.
    split_and!; [eapply proc_wf_worker; [done|done|exact Hput|done..]|done| |done].
    intros ev' Hget. rewrite getEv in Hget. injection Hget as <-. rewrite decide_True by done.
    unfold activeFDS. simpl. rewrite map_size_insert_None by done. split_and!; [done..|].
    unfold get_event. rewrite Hevs. simpl. rewrite lookup_alter_eq, lookup_alter_eq, Hev. done.
  - subst st3. rewrite decide_False in Hframe by done. rewrite decide_False by done. split_and!; [|done| |exact Hframe].
    + eapply proc_wf_worker; [done|done|exact Hput| | |done|].
      * apply update_wf; [done|]. exact Hwf2.
      * apply epoll_wf_update_other; [exact (Hnot i w Hi)|done].
      * intros j wj Hj Hwj. apply epoll_wf_update_other; [by eapply Hnot|by apply Hoth2].
    + intros ev' Hget. rewrite getEv in Hget. injection Hget as <-. rewrite decide_False by done.
      split; [done|]. unfold get_event. simpl. rewrite lookup_alter_eq, Hevs. simpl.
      by rewrite lookup_alter_eq, Hev.
Qed.

(** [delEvent] of an event the caller holds. *)
Lemma delEvent_ok i w e locals s :
  proc_wf locals s → workers s !! i = Some w → e ∈ locals →
  ∃ err p' st' ev, delEvent i e s = Ret (err, set_store st' (put_worker i (set_poller p' w) s)) ∧
    proc_wf locals (set_store st' (put_worker i (set_poller p' w) s)) ∧
    get_event e (estore s) = Ret ev ∧
    p' = set_events (delete (getFD ev) (__events (__eventPoller w))) (__eventPoller w) ∧
    (err = SERVER_OK ↔ __events (__eventPoller w) !! getFD ev = Some e) ∧
    frame locals s (set_store st' (put_worker i (set_poller p' w) s)).
Proof.
  intros Hs Hi He. destruct (worker_focus _ _ _ Hi) as (rest & Hp & Hput & Hsub).
  pose proof (pw_store _ _ Hs) as Hst. destruct (owner_live e _ _ Hst) as [[ev n] Hev]; [apply elem_of_app; by right|].
  assert (store_wf (map_refs (__eventPoller w) ++ rest ++ locals) (estore s)) as Hst1.
  { eapply store_wf_perm; [|exact Hst]. by rewrite Hp, app_assoc. }
  destruct (epollDelEvent_ok e ev n (rest ++ locals) i (__eventPoller w) (estore s) Hev Hst1
              (pw_pollers _ _ Hs _ _ Hi) (pw_valid _ _ Hs _ _ Hi))
    as (err & p' & st' & Hrun & Hwf & Hp' & Hoth & Hpeq & Herr).
  exists err, p', st', ev. split_and!; [| | |done|done|].
  - unfold delEvent, get_worker. by rewrite Hi, deref_Some_bind, Hrun, ret_bind.
  - eapply proc_wf_worker; [done|done|exact Hput|done|done|by subst p'|].
    by eapply others_distinct; [..|apply Hs|].
  - unfold get_event. by rewrite Hev.
  - apply frame_poller; [done|]. intros e' He'.
    eapply link_del; [exact Hst1|apply elem_of_app; by right|exact Hrun].
Qed.

(** No live event is for the descriptor [c]. *)
Definition unowned (c : Z) (st : store K) : Prop := ∀ e x, evs st !! e = Some x → getFD x.1 ≠ c.

(** ** Steps that touch only the kernel or the pointers *)

Lemma proc_wf_store locals locals' st' s :
  proc_wf locals s → store_wf (refs_of (workers s) ++ locals') st' →
  (∀ j w, workers s !! j = Some w → epoll_wf j (__eventPoller w) st') → proc_wf locals' (set_store st' s).
Proof. intros [????] Hst Hpo. by split. Qed.

Lemma proc_wf_kernel k locals s :
  fds k = fds (kernel (estore s)) → (∀ ep, interest ep k = interest ep (kernel (estore s))) →
  proc_wf locals s → proc_wf locals (set_store (set_kernel k (estore s)) s).
Proof.
  intros Hf Hi Hs. eapply proc_wf_store; [done|by apply set_kernel_wf, Hs|].
  intros j w Hw. apply epoll_wf_set_kernel; [done|by apply (pw_pollers _ _ Hs)].
Qed.

(** A descriptor is opened that nothing watches. *)
Lemma proc_wf_open k c locals s :
  fds k = {[c]} ∪ fds (kernel (estore s)) → (∀ ep, interest ep k = interest ep (kernel (estore s))) →
  proc_wf locals s → proc_wf locals (set_store (set_kernel k (estore s)) s).
Proof.
  intros Hf Hi Hs. eapply proc_wf_store; [done| |].
  - destruct (pw_store _ _ Hs) as [? ? Hop ?]. split; [done..| |done]. simpl. rewrite Hf.
    intros e x Hx. apply elem_of_union_r. by eapply Hop.
  - intros j w Hw. apply epoll_wf_set_kernel; [done|by apply (pw_pollers _ _ Hs)].
Qed.

(** Closing a descriptor that belongs to no event. *)
Lemma proc_wf_close c locals s :
  unowned c (estore s) → proc_wf locals s → proc_wf locals (in_kernel (sys_close c) s).
Proof.
  intros Hc Hs. destruct (close_ok c (kernel (estore s))) as [Hf Hi]. eapply proc_wf_store; [done| |].
  - destruct (pw_store _ _ Hs) as [? ? Hop ?]. split; [done..| |done]. simpl. rewrite Hf.
    intros e x Hx. apply elem_of_difference. split; [by eapply Hop|].
    intros Heq%elem_of_singleton. by apply (Hc e x).
  - intros j w Hw. destruct (pw_pollers _ _ Hs _ _ Hw) as [Hm Hint Hmax]. split; [done| |done]. simpl.
    rewrite Hi, dom_delete_L, <- Hint. apply set_eq. intros fd. rewrite elem_of_difference, elem_of_singleton.
    split; [|by intros [? _]]. intros Hfd. split; [done|]. intros ->.
    apply elem_of_dom in Hfd as [e Hq]. destruct (Hm _ _ Hq) as (x & Hx & Hfd & _). by apply (Hc e x).
Qed.

Lemma proc_wf_release e locals s :
  proc_wf (e :: locals) s → proc_wf locals (set_store (release e (estore s)) s).
Proof.
  intros Hs. assert (store_wf (e :: refs_of (workers s) ++ locals) (estore s)) as Hst.
  { eapply store_wf_perm; [|apply Hs]. by rewrite Permutation_middle. }
  eapply proc_wf_store; [done|by apply release_wf|]. intros j w Hw.
  eapply epoll_wf_release; [exact Hst| |by apply (pw_pollers _ _ Hs)].
  intros x Hx. apply elem_of_app. left. apply elem_refs_of. by exists j, w.
Qed.

Lemma proc_wf_make c ev locals s e st' :
  c ∈ fds (kernel (estore s)) → unowned c (estore s) → proc_wf locals s →
  make_event c ev (estore s) = (e, st') →
  proc_wf (e :: locals) (set_store st' s) ∧ (e ∉ refs_of (workers s) ++ locals) ∧
  get_event e st' = Ret (new_Event c ev) ∧ kernel st' = kernel (estore s).
Proof.
  intros Hc Hun Hs Hm. destruct (make_event_wf c ev _ _ e st' Hc Hun (pw_store _ _ Hs) Hm) as (Hst & Hk & Hev & Hnone).
  assert (e ∉ refs_of (workers s) ++ locals) as Hne.
  { intros Hin. destruct (owner_live e _ _ (pw_store _ _ Hs) Hin) as [x Hx]. by rewrite Hnone in Hx. }
  split_and!; [|done|unfold get_event; by rewrite Hev, lookup_insert_eq|done].
  eapply proc_wf_store; [done|eapply store_wf_perm; [|exact Hst]; by rewrite Permutation_middle|].
  intros j w Hw. destruct (pw_pollers _ _ Hs _ _ Hw) as [Hmap Hint Hmax]. split; [|by rewrite Hk|done].
  intros fd e' Hq. destruct (Hmap _ _ Hq) as (x & Hx & ?). exists x. split; [|done].
  rewrite Hev, lookup_insert_ne; [done|]. intros <-. by rewrite Hnone in Hx.
Qed.
End invariant.

(** * Logging never fails *)

Section logging.
Context {K R A : Type} `{Env}.

(** [s'] is [s] but for what has been logged. *)
Definition logged_from (s s' : process K R A) : Prop :=
  ∃ lg t, s' = mk_process (estore s) (workers s) (router s) (accessor s) (static_buff s) lg t ∧ log_ok lg.

Lemma diary_ok file line msg (s : process K R A) :
  log_ok (log s) → ∃ s', diary file line msg s = Ret s' ∧ logged_from s s'.
Proof.
  intros [Hb Ho]. unfold diary, Logger.LOG2DIARY, Logger.destroy_LogStreamBuffer.
  set (bf := Buffer.setLength _ _). destruct (AsyncLogger.isRunning (log s)) eqn:Hr.
  - destruct (AsyncLogger.append_spec bf (log s)) as (lg & -> & Hb' & _ & _ & _ & Ho' & _);
      [apply Buffer.setLength_wf|done..|].
    rewrite !ret_bind. eexists. split; [done|]. eexists _, _. split; [done|]. split; [done|]. by rewrite Ho'.
  - unfold AsyncLogger.append. rewrite Hr. cbn [negb]. rewrite !ret_bind.
    eexists. split; [done|]. by eexists _, _.
Qed.

Lemma logged_wf `{KernelOk K} locals (s s' : process K R A) :
  logged_from s s' → proc_wf locals s → proc_wf locals s'.
Proof. intros (lg & t & -> & Hlg) [????]. by split. Qed.
End logging.

Lemma logged_frame {K R A} (l : list eptr) (s s' : process K R A) : logged_from s s' → frame l s s'.
Proof. by intros (lg & t & -> & _). Qed.

(** * Accepting clients *)

Section listening.
Context {K R A : Type} `{KernelOk K} `{Env}.
Abbreviation proc := (process K R A).

Definition available (w : Worker) : bool :=
  isRunning w && Nat.ltb (worker_activeFDS w) (worker_maxFDS w).

Definition known (ios : list nat) (s : proc) : Prop := Forall (λ i, is_Some (workers s !! i)) ios.

(** The worker found is the first one of the list that is running and has room. *)
Lemma find_worker_spec n ios (s : proc) :
  known ios s →
  ∃ r, find_worker n ios s = Ret r ∧
    match r with
    | None => Forall (λ i, ∀ w, workers s !! i = Some w → available w = false) ios
    | Some (m, cur) => ∃ i w, m = (n + i)%nat ∧ ios !! i = Some cur ∧ workers s !! cur = Some w ∧
        available w = true ∧ Forall (λ i, ∀ w, workers s !! i = Some w → available w = false) (take i ios)
    end.
Proof.
  revert n. induction ios as [|cur ios IH]; intros n Hk; simpl; [by exists None|].
  apply Forall_cons_1 in Hk as [[w Hw] Hk]. unfold get_worker. rewrite Hw, deref_Some_bind.
  fold (available w). destruct (available w) eqn:Ha.
  - exists (Some (n, cur)). split; [done|]. exists 0%nat, w. rewrite Nat.add_0_r. by split_and!.
  - destruct (IH (S n) Hk) as (r & -> & Hr). exists r. split; [done|].
    assert (∀ w0, workers s !! cur = Some w0 → available w0 = false) as Hcur by (intros w0; congruence).
    destruct r as [[m c]|]; [|by constructor].
    destruct Hr as (i & w' & -> & Hi & Hw' & Ha' & Hall). exists (S i), w'.
    split_and!; [lia|done|done|done|]. simpl. by constructor.
Qed.

(** A worker with a descriptor more, or one less, in the map of its poller. *)
Definition watch (c : Z) (e : eptr) (w : Worker) : Worker :=
  set_poller (set_events (<[c := e]> (__events (__eventPoller w))) (__eventPoller w)) w.
Definition unwatch (c : Z) (w : Worker) : Worker :=
  set_poller (set_events (delete c (__events (__eventPoller w))) (__eventPoller w)) w.

(** What becomes of an accepted client. *)
Definition served (c : Z) (ios ios' : list nat) (s s' : proc) : Prop :=
  ∃ i cur w w' e, ios !! i = Some cur ∧ ios' = delete i ios ++ [cur] ∧
    workers s !! cur = Some w ∧ available w = true ∧
    Forall (λ i, ∀ w, workers s !! i = Some w → available w = false) (take i ios) ∧
    workers s' = <[cur := w']> (workers s) ∧ w' = watch c e w ∧
    activeFDS (__eventPoller w') = S (activeFDS (__eventPoller w)) ∧
    get_event e (estore s') = Ret (setWorker (Some cur) (new_Event c (N.lor EPOLLET EPOLLIN))).

Definition refused (c : Z) (ios ios' : list nat) (s s' : proc) : Prop :=
  ios' = ios ∧ workers s' = workers s ∧ c ∉ fds (kernel (estore s')).

Lemma close_not_open c (s : proc) : c ∉ fds (kernel (estore (in_kernel (sys_close c) s))).
Proof.
  simpl. destruct (close_ok c (kernel (estore s))) as [-> _].
  intros [_ Hn]%elem_of_difference. by apply Hn, elem_of_singleton.
Qed.

Lemma release_get e e' (st : store K) ev :
  e ≠ e' → get_event e st = Ret ev → get_event e (release e' st) = Ret ev.
Proof.
  unfold get_event, release. intros Hne. destruct (evs st !! e') as [[ev' n]|]; [|done].
  destruct (Nat.leb n 1); simpl; [by rewrite lookup_delete_ne|by rewrite lookup_insert_ne].
Qed.

(** A pointer given up while another remains leaves the event as it was. *)
Lemma release_keeps e l (st : store K) ev :
  store_wf (e :: l) st → e ∈ l → get_event e st = Ret ev →
  get_event e (release e st) = Ret ev ∧ kernel (release e st) = kernel st.
Proof.
  intros Hwf Hin Hg. destruct (release_cases e l st Hwf) as ([ev' n] & Hx & [[_ ->]|[Hn _]]); [|done].
  unfold get_event in *. rewrite Hx in Hg. injection Hg as <-. split; [|done]. simpl. by rewrite lookup_insert_eq.
Qed.

(** The event a worker has under a descriptor survives a local pointer to it. *)
Lemma release_registered e i w c locals (s : proc) ev :
  proc_wf (e :: locals) s → workers s !! i = Some w → __events (__eventPoller w) !! c = Some e →
  get_event e (estore s) = Ret ev →
  get_event e (release e (estore s)) = Ret ev ∧ kernel (release e (estore s)) = kernel (estore s).
Proof.
  intros Hs Hi Hc Hg. apply (release_keeps e (refs_of (workers s) ++ locals)); [| |done].
  - eapply store_wf_perm; [|apply Hs]. symmetry. by apply Permutation_middle.
  - apply elem_of_app. left. apply elem_refs_of. exists i, w. split; [done|]. apply elem_map_refs. by exists c.
Qed.

(** Making an event and giving up a pointer leave the other pointers held alone. *)
Lemma frame_make c ev e st locals (s : proc) :
  make_event c ev (estore s) = (e, st) → e ∉ locals → frame locals s (set_store st s).
Proof.
  unfold make_event. intros [= <- <-] Hne. split; [|done]. intros e' He'. unfold link. simpl.
  rewrite lookup_insert_ne; [done|]. intros Heq. apply Hne. by rewrite Heq.
Qed.

Lemma frame_release e locals (s : proc) :
  proc_wf (e :: locals) s → frame locals s (set_store (release e (estore s)) s).
Proof.
  intros Hs. split; [|done]. intros e' He'. apply (link_release e' e (refs_of (workers s) ++ locals)).
  - eapply store_wf_perm; [|apply Hs]. symmetry. by apply Permutation_middle.
  - apply elem_of_app. by right.
Qed.

(** Handing the client over: registered with the worker, or closed (twice). *)
Lemma hand_over_ok c i cur w ios locals (s : proc) :
  proc_wf locals s → known ios s → c ∈ fds (kernel (estore s)) → unowned c (estore s) →
  ios !! i = Some cur → workers s !! cur = Some w → available w = true →
  Forall (λ i, ∀ w, workers s !! i = Some w → available w = false) (take i ios) →
  ∃ ios' s',
    (let '(e, st3) := make_event c (N.lor EPOLLET EPOLLIN) (estore s) in
     '(error, s4) ← addEvent cur e (set_store st3 s);
     let s5 := set_store (release e (estore s4)) s4 in
     if decide (error = SERVER_OK) then
       s6 ← diary ($"ListenEventHandler.cc") 40
              ($"Accept client with clientFD and assign it to worker: " ++ thread_text cur ++ [ch_LF]) s5;
       mret (delete i ios ++ [cur], s6)
     else mret (ios, in_kernel (sys_close c) s5)) = Ret (ios', s') ∧
    proc_wf locals s' ∧ frame locals s s' ∧ (served c ios ios' s s' ∨ refused c ios ios' s s').
Proof.
  intros Hs Hk Hc Hun Hi Hw Ha Hfst. destruct (make_event _ _ _) as [e st3] eqn:Hm.
  destruct (proc_wf_make _ _ _ _ _ _ Hc Hun Hs Hm) as (Hs3 & Hne & Hge & Hk3).
  destruct (addEvent_ok cur w e _ _ Hs3 Hw) as (err & p' & st4 & -> & Hs4 & Hf4 & Hev & Hfr);
    [by left|intros Hin; apply Hne, elem_of_app; by left|]. rewrite ret_bind. cbn [estore set_store].
  set (s4 := set_store st4 _) in *. specialize (Hev _ Hge).
  assert (e ∉ locals) as Hel by (intros Hin; apply Hne, elem_of_app; by right).
  assert (frame locals s (set_store (release e st4) s4)) as Hframe.
  { eapply frame_trans; [by eapply frame_make|]. eapply frame_trans; [by apply Hfr|].
    exact (frame_release _ _ _ Hs4). }
  pose proof (proc_wf_release _ _ _ Hs4) as Hs5. cbn [estore set_store s4] in Hs5.
  destruct (decide (err = SERVER_OK)) as [->|Herr].
  - destruct Hev as (Hevs & Hact & Hg4).
    destruct (diary_ok ($"ListenEventHandler.cc") 40
      ($"Accept client with clientFD and assign it to worker: " ++ thread_text cur ++ [ch_LF])
      (set_store (release e st4) s4)) as (s6 & -> & Hl); [apply Hs5|].
    rewrite ret_bind. eexists _, s6. split; [done|]. split; [by eapply logged_wf|].
    split; [eapply frame_trans; [exact Hframe|by eapply logged_frame]|]. left.
    destruct Hl as (lg & t & -> & _). exists i, cur, w, (set_poller p' w), e. cbn [workers estore set_store].
    split_and!; try done.
    + by rewrite Hevs.
    + eapply proj1, (release_registered e cur _ c _ s4); [exact Hs4| | |exact Hg4].
      * cbn. apply list_lookup_insert_eq. by eapply lookup_lt_Some.
      * cbn [__eventPoller set_poller]. rewrite Hevs. apply lookup_insert_eq.
  - destruct Hev as (-> & Hg4).
    eexists _, _. split; [done|]. split; [|split; [exact Hframe|right; split_and!; [done| |apply close_not_open]]].
    + apply proc_wf_close; [|done]. cbn [estore set_store]. intros e' x Hx Hfd.
      apply release_same_fd in Hx as Hx'. destruct Hx' as (y & Hy & Hfdy).
      assert (e' = e) as ->.
      { unfold get_event in Hg4. destruct (evs st4 !! e) as [[ev4 n4]|] eqn:E4; [|done]. injection Hg4 as ->.
        eapply (wf_fds _ _ (pw_store _ _ Hs4)); [exact Hy|exact E4|]. simpl. congruence. }
      apply Hne. assert (workers s4 = workers s) as <-; [|by eapply live_owner; [apply Hs5|]].
      cbn. apply list_insert_id. rewrite Hw. by destruct w.
    + cbn. apply list_insert_id. rewrite Hw. by destruct w.
Qed.

Lemma unowned_kernel c k (st : store K) : unowned c st → unowned c (set_kernel k st).
Proof. done. Qed.

Lemma accept_client_ok c ios locals (s : proc) :
  proc_wf locals s → known ios s → c ∈ fds (kernel (estore s)) → unowned c (estore s) →
  ∃ ios' s', accept_client c ios s = Ret (ios', s') ∧ proc_wf locals s' ∧ frame locals s s' ∧
             (served c ios ios' s s' ∨ refused c ios ios' s s').
Proof.
  intros Hs Hk Hc Hun. unfold accept_client.
  destruct (fcntl_getfl c _) as [flags k1] eqn:Hg. destruct (getfl_ok _ _ _ _ Hg) as [Hf1 Hi1].
  set (s1 := in_kernel (λ _, k1) s). assert (proc_wf locals s1) as Hs1 by by apply proc_wf_kernel.
  destruct flags as [flags|].
  2: { eexists _, _. split; [done|]. split; [by apply proc_wf_close|]. split; [done|]. right. split_and!; [done..|apply close_not_open]. }
  set (s2 := in_kernel _ s1). destruct (setfl_ok c (N.lor flags O_NONBLOCK) k1) as [Hf2 Hi2].
  assert (proc_wf locals s2) as Hs2 by by apply proc_wf_kernel.
  destruct (find_worker_spec 0 ios s2 Hk) as (r & -> & Hr). rewrite ret_bind. destruct r as [[m cur]|].
  - destruct Hr as (i & w & -> & Hi & Hw & Ha & Hfst).
    assert (c ∈ fds (kernel (estore s2))) as Hc2 by (simpl; by rewrite Hf2, Hf1).
    exact (hand_over_ok c i cur w ios locals s2 Hs2 Hk Hc2 Hun Hi Hw Ha Hfst).
  - eexists _, _. split; [done|]. split; [by apply proc_wf_close|]. split; [done|]. right. split_and!; [done..|apply close_not_open].
Qed.

Lemma known_workers ios (s s' : proc) : length (workers s') = length (workers s) → known ios s → known ios s'.
Proof.
  intros Hl Hk. apply (list.Forall_impl _ _ _ Hk). intros i. by rewrite !lookup_lt_is_Some, Hl.
Qed.

(** One client: the list of workers stays a permutation of itself. *)
Lemma handled_client c ios ios' (s s' : proc) :
  served c ios ios' s s' ∨ refused c ios ios' s s' →
  ios' ≡ₚ ios ∧ length (workers s') = length (workers s).
Proof.
  intros [(i & cur & w & w' & e & Hi & -> & _ & _ & _ & -> & _)|(-> & -> & _)]; [|done].
  split; [|by rewrite length_insert]. rewrite (delete_Permutation ios i cur Hi) at 2.
  by rewrite Permutation_app_comm.
Qed.

Lemma accept_unowned lfd c k1 locals (s : proc) :
  proc_wf locals s → sys_accept lfd (kernel (estore s)) = (Some c, k1) →
  proc_wf locals (in_kernel (λ _, k1) s) ∧ c ∈ fds k1 ∧ unowned c (estore s).
Proof.
  intros Hs Ha. destruct (accept_ok _ _ _ _ Ha) as (Hi & Hc & _ & Hf). split_and!.
  - by eapply proc_wf_open.
  - rewrite Hf. apply elem_of_union_l, elem_of_singleton. done.
  - intros e x Hx Heq. apply Hc. rewrite <- Heq. by eapply (wf_open _ _ (pw_store _ _ Hs)).
Qed.

Lemma accept_loop_ok n lfd ios locals (s : proc) :
  proc_wf locals s → known ios s →
  accept_loop n lfd ios s = Spin ∨
  ∃ ios' s', accept_loop n lfd ios s = Ret (ios', s') ∧ proc_wf locals s' ∧
             ios' ≡ₚ ios ∧ frame locals s s'.
Proof.
  revert ios s. induction n as [|n IH]; intros ios s Hs Hk; [by left|]. cbn [accept_loop].
  destruct (sys_accept lfd _) as [[c|] k1] eqn:Ha.
  - destruct (accept_unowned _ _ _ _ _ Hs Ha) as (Hs1 & Hc & Hun).
    destruct (accept_client_ok c ios locals (in_kernel (λ _, k1) s)) as (ios1 & s2 & -> & Hs2 & Hfr2 & Hcase); [done..|].
    rewrite ret_bind. apply handled_client in Hcase as [Hp Hl]. cbn in Hl.
    assert (known ios1 s2) as Hk2.
    { eapply known_workers; [exact Hl|]. unfold known. rewrite Hp. exact Hk. }
    destruct (IH ios1 s2 Hs2 Hk2) as [Hspin|(ios' & s' & Hrun & Hs' & Hp' & Hl')]; [by left|right].
    exists ios', s'. split_and!; [done|done|by rewrite Hp'|by eapply frame_trans].
  - right. eexists _, _. split; [done|]. destruct (accept_ok _ _ _ _ Ha) as [Hi Hf].
    split_and!; [by apply proc_wf_kernel|done|done].
Qed.
End listening.

(** * Serving a connection *)

Section connection.
Context {K R A : Type} `{KernelOk K} `{IRouterOk R} `{IResourceAccessorOk A} `{MapOrderOk} `{FileAvailOk} `{EnvOk}.
Abbreviation proc := (process K R A).
Import HttpResponse.

(** What the handlers rely on to build answers. *)
Record serves (fuel : nat) (s : proc) : Prop := {
  sv_router : router_wf (router s);
  sv_files : reachable_files fuel (router s);
  sv_accessor : accessor_inv (accessor s);
  sv_fit req : (length (answer_body req (router s)) ≤ fuel)%nat;
  sv_log : log_ok (log s)
}.

(** What serving leaves as it was. *)
Definition same_reactor (s s' : proc) : Prop :=
  estore s' = estore s ∧ workers s' = workers s ∧ router s' = router s.

Lemma same_reactor_trans s1 s2 s3 : same_reactor s1 s2 → same_reactor s2 s3 → same_reactor s1 s3.
Proof. intros (? & ? & ?) (? & ? & ?). by split_and!; etrans. Qed.

Lemma logged_same fuel s s' : logged_from s s' → serves fuel s → serves fuel s' ∧ same_reactor s s'.
Proof. intros (lg & t & -> & Hlg) [?????]. by split; [split|]. Qed.

(** The answer to a request, as bytes. *)
Definition answer (r : R) (req : HttpRequest.HttpRequest) : bytes :=
  answer_wire (answer_version req) (answer_code req r) (answer_body req r).

Context `{SO : SendOracle}.

(** One answer, over a connection that may have failed. *)
Lemma respond_ok fuel req (out : ostream SocketStreamBuffer) s :
  serves fuel s →
  ∃ res a1 e res' buff,
    getResponseFromRequest fuel req (router s) (accessor s) = Ret (res, a1) ∧
    response fuel out res (static_buff s)
      = Ret (e, (oflush (owrite (answer (router s) req) out), res', buff)) ∧
    serves fuel (set_buff buff (set_accessor a1 s)).
Proof.
  intros [Hr Hf Ha Hlen Hl]. specialize (Hlen req) as Hlen1.
  destruct (getResponseFromRequest_answers fuel req (router s) (accessor s) Hr Hf Ha)
    as (res & a1 & Hrun & Ha1 & Hv & Hst & Hh & (body & Hbody & Hdata & Hpos & Hfail)).
  rewrite <- Hdata in Hlen1. destruct (obad out) eqn:Hb.
  - exists res, a1, GEN_RESPONSE_LINE_FAILED, res, (static_buff s). split; [done|]. split; [|by split].
    unfold response, genResponseLine. open_getters. rewrite Hv, deref_Some_bind.
    rewrite !(owrite_bad _ out) by done. rewrite Hb. done.
  - destruct (response_spec fuel out res (static_buff s) _ body Hb Hv Hbody) as (e & res' & buff & Hres & _);
      [split; [done|lia]|done|].
    rewrite Hst, Hh, wire_no_header, Hdata in Hres.
    exists res, a1, e, res', buff. by split_and!.
Qed.

(** A step of the loop, when a request has been read. *)
Definition after_request (fuel : nat) (error : Error) (req : HttpRequest.HttpRequest)
    (out : ostream SocketStreamBuffer) (s : proc) (out' : ostream SocketStreamBuffer) (s' : proc) : Prop :=
  out' = (if decide (error = SERVER_OK) then oflush (owrite (answer (router s) req) out) else out) ∧
  serves fuel s' ∧ same_reactor s s'.

Lemma request_step n fuel fd in_ in1 error req out s :
  serves fuel s → eofbit in_ = false →
  HttpRequest.getOneHttpRequest fuel in_ = Ret ((error, req), in1) →
  ∃ out' s', request_loop (S n) fuel fd in_ out s = request_loop n fuel fd in1 out' s' ∧
             after_request fuel error req out s out' s'.
Proof.
  intros Hs He Hg. cbn [request_loop]. rewrite He, Hg, ret_bind.
  match goal with |- context [diary ?f ?l ?m s] => destruct (diary_ok f l m s (sv_log _ _ Hs)) as (s1 & -> & H1') end.
  destruct (logged_same fuel _ _ H1' Hs) as [Hs1 Hsame1]. rewrite ret_bind. unfold after_request.
  destruct (decide (error = SERVER_OK)) as [_|_]; [|by exists out, s1].
  match goal with |- context [diary ?f ?l ?m s1] => destruct (diary_ok f l m s1 (sv_log _ _ Hs1)) as (s2 & -> & H2') end.
  destruct (logged_same fuel _ _ H2' Hs1) as [Hs2 Hsame2]. rewrite ret_bind.
  destruct (respond_ok fuel req out s2 Hs2) as (res & a1 & e & res' & buff & -> & Hres & Hs3).
  rewrite ret_bind, Hres, ret_bind.
  match goal with |- context [diary ?f ?l ?m (set_buff buff ?s3)] =>
    destruct (diary_ok f l m (set_buff buff s3) (sv_log _ _ Hs3)) as (s4 & -> & H4') end.
  destruct (logged_same fuel _ _ H4' Hs3) as [Hs4 Hsame4]. rewrite ret_bind.
  assert (same_reactor s s2) as Hss2 by by eapply same_reactor_trans.
  eexists _, s4. split; [done|]. destruct Hss2 as (? & ? & Hrt). rewrite Hrt.
  split_and!; [done|done|]. eapply same_reactor_trans; [|done]. by split_and!.
Qed.

(** ** The requests of a connection, and the answers to them *)

(** Reading requests from a stream that is not at its end, one after the other: their
    error codes, the requests, and the stream that is left. *)
Inductive reads (fuel : nat)
  : istream SocketStreamBuffer → list (Error * HttpRequest.HttpRequest) → istream SocketStreamBuffer → Prop :=
| reads_nil in_ : reads fuel in_ [] in_
| reads_cons in_ error req in1 l in2 :
    eofbit in_ = false → HttpRequest.getOneHttpRequest fuel in_ = Ret ((error, req), in1) →
    reads fuel in1 l in2 → reads fuel in_ ((error, req) :: l) in2.

(** What is done to the output stream for them. *)
Definition replies (r : R) (l : list (Error * HttpRequest.HttpRequest)) : list out_op :=
  concat ((λ x, if decide (x.1 = SERVER_OK) then [OWrite (answer r x.2); OFlush] else []) <$> l).

Lemma reads_app fuel in_ l1 in1 l2 in2 : reads fuel in_ l1 in1 → reads fuel in1 l2 in2 → reads fuel in_ (l1 ++ l2) in2.
Proof. intros Hl1 Hl2. induction Hl1; [done|]. econstructor; eauto. Qed.

Lemma request_loop_reads l n fuel fd in_ in1 out s :
  reads fuel in_ l in1 → serves fuel s →
  ∃ s', request_loop (length l + n) fuel fd in_ out s =
        request_loop n fuel fd in1 (run_ops (replies (router s) l) out) s' ∧ serves fuel s' ∧ same_reactor s s'.
Proof.
  intros Hl. revert out s. induction Hl as [in_|in_ error req in1 l in2 He Hg _ IH]; intros out s Hs; [by exists s|].
  destruct (request_step (length l + n) fuel fd in_ in1 error req out s Hs He Hg) as (out1 & s1 & Hstep & Ho & Hs1 & Hsame).
  destruct (IH out1 s1 Hs1) as (s' & Hrun & Hs' & Hsame'). exists s'. cbn [length Nat.add]. rewrite Hstep, Hrun.
  split; [|split; [done|by eapply same_reactor_trans]]. f_equal. destruct Hsame as (_ & _ & ->). subst out1.
  change (replies (router s) ((error, req) :: l)) with
    ((if decide (error = SERVER_OK) then [OWrite (answer (router s) req); OFlush] else []) ++ replies (router s) l).
  rewrite run_ops_app. by case_decide.
Qed.

(** It goes on to the end of the stream, or to a request whose reading does not end
    or throws. *)
Lemma reads_end fuel (b : SocketStreamBuffer) :
  (length (view b) < fuel)%nat →
  ∃ l in1, reads fuel (mk_istream b false false) l in1 ∧
    (eofbit in1 = true ∧ (length l ≤ S (length (view b)))%nat ∨
     eofbit in1 = false ∧ (length l ≤ length (view b))%nat ∧
     (HttpRequest.getOneHttpRequest fuel in1 = Spin ∨ ∃ x, HttpRequest.getOneHttpRequest fuel in1 = Throw x)).
Proof.
  assert (Hshow : ∀ b : SocketStreamBuffer, showmanyc b = 0) by done.
  remember (length (view b)) as n eqn:Hn. revert b Hn. induction n as [n IH] using lt_wf_ind. intros b -> Hf.
  destruct (HttpRequest.getOneHttpRequest_progress Hshow fuel b Hf)
    as [Hg|[[x Hg]|([error req] & [b1 eof1 fail1] & Hg & Hset & Hlt)]].
  1, 2: eexists [], _; split; [constructor|]; right; split_and!; [done|simpl; lia|eauto].
  destruct eof1.
  - exists [(error, req)], (mk_istream b1 true fail1). split; [by econstructor; [..|constructor]|]. left. simpl. split; [done|lia].
  - specialize (Hlt eq_refl). simpl in Hlt. unfold HttpRequest.settled_stream in Hset. simpl in Hset.
    destruct fail1; [by specialize (Hset eq_refl)|].
    destruct (IH _ Hlt b1 eq_refl ltac:(lia)) as (l & in2 & Hl & Hend). exists ((error, req) :: l), in2.
    split; [by econstructor|]. cbn [length]. destruct Hend as [[? ?]|(? & ? & ?)]; [left|right]; split_and!; (done || lia).
Qed.

(** ** Well-formed requests *)


Definition plain (req : HttpRequest.HttpRequest) : Prop :=
  HttpRequest.wf_request req ∧ HttpRequest.__body req = [].

Definition requests_wire (reqs : list HttpRequest.HttpRequest) : bytes :=
  concat (HttpRequest.wire_request <$> reqs).
Definition answers_wire (r : R) (reqs : list HttpRequest.HttpRequest) : bytes := concat (answer r <$> reqs).

Lemma ops_bytes_app l1 l2 : ops_bytes (l1 ++ l2) = ops_bytes l1 ++ ops_bytes l2.
Proof. unfold ops_bytes. by rewrite fmap_app, concat_app. Qed.

Lemma replies_app r l1 l2 : replies r (l1 ++ l2) = replies r l1 ++ replies r l2.
Proof. unfold replies. by rewrite fmap_app, concat_app. Qed.

(** What is done for requests that have been read without an error, and the bytes
    written for them. *)
Definition answered (r : R) (reqs : list HttpRequest.HttpRequest) : list out_op := replies r (pair SERVER_OK <$> reqs).

Lemma answered_bytes r reqs : ops_bytes (answered r reqs) = answers_wire r reqs.
Proof.
  unfold answered, answers_wire. induction reqs as [|req reqs IH]; [done|]. rewrite fmap_cons, fmap_cons.
  change (replies r ((SERVER_OK, req) :: ?l)) with ([OWrite (answer r req); OFlush] ++ replies r l).
  rewrite ops_bytes_app, IH. cbn. by rewrite app_nil_r.
Qed.

Lemma replies_rejected r l : Forall (λ x, x.1 ≠ SERVER_OK) l → replies r l = [].
Proof. induction 1 as [|x l Hx _ IH]; [done|]. unfold replies in *. cbn. by rewrite decide_False. Qed.

(** How requests may arrive so that no body is waited for: without bodies, in any
    pieces; or with bodies, all in one piece, which the array can take. *)
Definition arriving (reqs : list HttpRequest.HttpRequest) (chunks : list bytes) : Prop :=
  visible chunks = requests_wire reqs ∧
  (Forall plain reqs ∨
   Forall HttpRequest.wf_request reqs ∧ chunks = [requests_wire reqs] ∧ (length (requests_wire reqs) ≤ BFSIZE)%nat).

(** An invariant of the buffer by which the bodies are in the get area when
    their turn comes; [tail] follows the requests. *)
Definition bodies_at_hand (P : SocketStreamBuffer → Prop) (reqs : list HttpRequest.HttpRequest) (tail : bytes) : Prop :=
  ∀ pre req post b, reqs = pre ++ req :: post → P b →
    view b = HttpRequest.__body req ++ requests_wire post ++ tail →
    (length (HttpRequest.__body req) ≤ length (get_area b))%nat.

Lemma plain_at_hand P reqs tail : Forall plain reqs → bodies_at_hand P reqs tail.
Proof. intros Hplain pre req post b -> _ _. apply Forall_app in Hplain as [_ [[_ ->] _]%Forall_cons_1]. simpl. lia. Qed.

Lemma wire_nonempty req : (0 < length (HttpRequest.wire_request req))%nat.
Proof.
  unfold HttpRequest.wire_request, HttpRequest.wire_head. destruct (HttpRequest.__method req); simpl; lia.
Qed.

Lemma arriving_invariant reqs chunks init fd :
  arriving reqs chunks →
  ∃ P, buf_closed P ∧ P (mk_SocketStreamBuffer init fd chunks) ∧ bodies_at_hand P reqs [] ∧ Forall HttpRequest.wf_request reqs.
Proof.
  intros [Hv [Hplain|(Hwf & -> & Hle)]].
  - exists (λ _, True). split_and!; [done|done|by apply plain_at_hand|by apply (list.Forall_impl _ _ _ Hplain); intros req [? _]].
  - destruct reqs as [|req0 reqs]; [exists (λ _, True); split_and!; [done..|by intros [|] ????|done]|].
    set (w := requests_wire (req0 :: reqs)) in *. exists (HttpRequest.one_chunk w).
    assert (w ≠ []) as Hne.
    { subst w. unfold requests_wire. cbn [fmap list_fmap concat]. intros [Hnil _]%app_eq_nil.
      pose proof (wire_nonempty req0) as Hl. rewrite Hnil in Hl. simpl in Hl. lia. }
    split_and!; [by apply HttpRequest.one_chunk_closed|by right| |done].
    intros pre req post b Hreqs Hb Hview. rewrite app_nil_r in Hview. unfold view, ssb_view in Hview. destruct Hb as [Hrx|[Hrx Hga]]; rewrite Hrx in Hview.
    + rewrite app_nil_r in Hview. change (get_area b) with (ssb_get_area b). rewrite Hview, length_app. lia.
    + rewrite Hga, Hv in Hview. apply (f_equal length) in Hview. subst w. rewrite Hreqs in Hview.
      unfold requests_wire in Hview. rewrite fmap_app, concat_app in Hview. cbn [fmap list_fmap concat app] in Hview.
      rewrite !length_app in Hview. unfold HttpRequest.wire_request at 2 in Hview. rewrite length_app in Hview.
      assert (0 < length (HttpRequest.wire_head (HttpRequest.__method req) (HttpRequest.__uri req) (HttpRequest.__version req)
                            (map_order (HttpRequest.__header req))))%nat; [|lia].
      unfold HttpRequest.wire_head. destruct (HttpRequest.__method req); simpl; lia.
Qed.

(** The requests are read, and the stream comes to what follows them. *)
Lemma reads_prefix P reqs tail fuel b :
  buf_closed P → P b → bodies_at_hand P reqs tail → Forall HttpRequest.wf_request reqs →
  view b = requests_wire reqs ++ tail → (length (requests_wire reqs) < fuel)%nat →
  ∃ b', view b' = tail ∧ reads fuel (mk_istream b false false) (pair SERVER_OK <$> reqs) (mk_istream b' false false).
Proof.
  intros Hcl. revert b. induction reqs as [|req reqs IH]; intros b HP Hbod Hall Hv Hf; [exists b; by split; [|constructor]|].
  apply Forall_cons_1 in Hall as [Hwf Hall].
  unfold requests_wire in Hv, Hf. cbn [fmap list_fmap concat] in Hv, Hf. fold (requests_wire reqs) in Hv, Hf.
  rewrite length_app in Hf. rewrite <- app_assoc in Hv.
  destruct (HttpRequest.wire_request_parsed P fuel b req (requests_wire reqs ++ tail)) as (b1 & Hg & Hv1 & HP1);
    [done|done|done|by intros b' Hb'; apply (Hbod [] req reqs b')|lia|done|].
  assert (bodies_at_hand P reqs tail) as Hbod1 by (intros pre r post b' ->; by apply (Hbod (req :: pre))).
  destruct (IH b1 HP1 Hbod1 Hall Hv1 ltac:(lia)) as (b' & Hv' & Hl). exists b'. split; [done|].
  rewrite fmap_cons. by econstructor.
Qed.

(** After well-formed requests one more is looked for, where the stream ends. *)
Lemma reads_arriving reqs chunks init fd fuel :
  arriving reqs chunks → (length (requests_wire reqs) < fuel)%nat →
  ∃ req in1, reads fuel (mk_istream (mk_SocketStreamBuffer init fd chunks) false false)
                   ((pair SERVER_OK <$> reqs) ++ [(PARSE_REQ_METHOD_FAILED, req)]) in1 ∧ eofbit in1 = true.
Proof.
  intros Hin Hf. destruct (arriving_invariant reqs chunks init fd Hin) as (P & Hcl & HP & Hbod & Hwf).
  destruct (reads_prefix P reqs [] fuel (mk_SocketStreamBuffer init fd chunks)) as (b1 & Hv1 & Hl);
    [done..|rewrite app_nil_r; apply Hin|done|].
  destruct (HttpRequest.getOneHttpRequest_end fuel b1) as (req & in1 & Hg & He); [lia|done|].
  exists req, in1. split; [|done]. eapply reads_app; [done|]. by econstructor; [..|constructor].
Qed.
End connection.

(** * The handlers *)

Section handlers.
Context {K R A : Type} `{KernelOk K} `{IRouterOk R} `{IResourceAccessorOk A} `{MapOrderOk} `{FileAvailOk} `{EnvOk}.
Abbreviation proc := (process K R A).

(** What the workers are after a connection has been served: the event is no
    longer registered, and nothing else has changed. *)
Definition unregistered (i : nat) (w : Worker) (fd : Z) (s s' : proc) : Prop :=
  workers s' = <[i := unwatch fd w]> (workers s).

(** After the requests the event is taken from its worker's poller. *)
Lemma unregister_ok fuel i w e ev locals (s s1 : proc) :
  proc_wf locals s → e ∈ locals → get_event e (estore s) = Ret ev → getWorker ev = Some i →
  workers s !! i = Some w → serves fuel s1 → same_reactor s s1 →
  ∃ err s2, delEvent i e s1 = Ret (err, s2) ∧ proc_wf locals s2 ∧ serves fuel s2 ∧ kept locals s s2 ∧
    unregistered i w (getFD ev) s s2.
Proof.
  intros Hs He Hg Hw Hi Hsv (Hst & Hws & Hrt). assert (proc_wf locals s1) as Hs1.
  { destruct Hs. split; [by rewrite Hst, Hws| |by rewrite Hws|by rewrite Hws|by apply Hsv].
    rewrite Hst, Hws. done. }
  assert (workers s1 !! i = Some w) as Hi1 by by rewrite Hws.
  destruct (delEvent_ok i w e locals s1 Hs1 Hi1 He) as (err & p' & st' & ev' & -> & Hs2 & Hg' & -> & _ & Hfr).
  rewrite Hst, Hg in Hg'. injection Hg' as <-.
  eexists err, _. split_and!; [done|done| | |].
  - destruct Hsv. by split.
  - destruct Hfr as (Hl & Hh & Hrt' & _). split_and!; [|by rewrite Hh, Hws|by rewrite Hrt'].
    intros e' He'. by rewrite Hl, Hst.
  - unfold unregistered. cbn. by rewrite Hws.
Qed.

(** The streams that the handler makes for a connection. *)
Definition conn_in (fd : Z) (k : K) : istream SocketStreamBuffer :=
  mk_istream (mk_SocketStreamBuffer uninit fd (sock_incoming fd k)) false false.
Definition conn_out (fd : Z) : ostream SocketStreamBuffer := mk_ostream (mk_SocketStreamBuffer uninit fd []) false.

(** What the handler sends for what it reads. *)
Definition conn_sent (fd : Z) (k : K) (ops : list out_op) : bytes := sent_by (H:=sock_send fd k) ops (conn_out fd).

Lemma conn_sent_of fd k ops : sent_of (sock_send fd k) (ops_bytes ops) (conn_sent fd k ops).
Proof. apply (sent_by_of (SO:=sock_send fd k)), uninit_length. Qed.

(** The requests of the connection [l] are read to the end of the stream: they
    are answered, and the event is unregistered. *)
Lemma io_handle_reads fuel i w e ev locals (s : proc) l in1 :
  proc_wf locals s → serves fuel s → e ∈ locals →
  get_event e (estore s) = Ret ev → getWorker ev = Some i → workers s !! i = Some w →
  reads fuel (conn_in (getFD ev) (kernel (estore s))) l in1 → eofbit in1 = true → (length l ≤ fuel)%nat →
  ∃ s', IOEventHandler_handle fuel e s
          = Ret (SERVER_OK, conn_sent (getFD ev) (kernel (estore s)) (replies (router s) l), s') ∧
     proc_wf locals s' ∧ serves fuel s' ∧ kept locals s s' ∧ unregistered i w (getFD ev) s s'.
Proof.
  intros Hs Hsv He Hg Hw Hi Hl Heof Hlen. unfold IOEventHandler_handle, new_SocketInputStream, new_SocketOutputStream.
  rewrite Hg, ret_bind. cbv zeta. fold (conn_out (getFD ev)). set (fd := getFD ev) in *. set (k := kernel (estore s)) in *.
  fold (conn_in fd k).
  destruct (request_loop_reads (SO:=sock_send fd k) l (fuel - length l) fuel fd (conn_in fd k) in1 (conn_out fd) s Hl Hsv)
    as (s1 & Hrun & Hsv1 & Hsame). replace (length l + (fuel - length l))%nat with fuel in Hrun by lia.
  assert (∀ o, request_loop (SO:=sock_send fd k) (fuel - length l) fuel fd in1 o s1 = Ret (in1, o, s1)) as Hend
    by (intros o; destruct (fuel - length l)%nat; cbn [request_loop]; by rewrite Heof).
  rewrite Hend in Hrun. rewrite Hrun, ret_bind. pose proof Hsame as (Hst & _ & _).
  rewrite Hst, Hg, ret_bind, Hw, deref_Some_bind.
  destruct (unregister_ok fuel i w e ev locals s s1 Hs He Hg Hw Hi Hsv1 Hsame)
    as (err & s2 & -> & Hs2 & Hsv2 & Hk & Hun).
  rewrite ret_bind. by exists s2.
Qed.

(** One that hangs or throws when it is read stops the handler. *)
Lemma io_handle_stuck fuel e ev (s : proc) l in1 :
  serves fuel s → get_event e (estore s) = Ret ev →
  reads fuel (conn_in (getFD ev) (kernel (estore s))) l in1 → eofbit in1 = false → (length l < fuel)%nat →
  (HttpRequest.getOneHttpRequest fuel in1 = Spin → IOEventHandler_handle fuel e s = Spin) ∧
  ∀ x, HttpRequest.getOneHttpRequest fuel in1 = Throw x → IOEventHandler_handle fuel e s = Throw x.
Proof.
  intros Hsv Hg Hl Heof Hn. set (fd := getFD ev) in *. set (k := kernel (estore s)) in *.
  assert (∀ o, (o = Spin ∨ ∃ x, o = Throw x) → HttpRequest.getOneHttpRequest fuel in1 = o →
    request_loop (SO:=sock_send fd k) fuel fuel fd (conn_in fd k) (conn_out fd) s =
    match o with Throw x => Throw x | _ => Spin end) as Hrun.
  { intros o Ho Hg1. destruct (request_loop_reads (SO:=sock_send fd k) l (S (fuel - length l - 1)) fuel fd (conn_in fd k) in1 (conn_out fd) s Hl Hsv)
      as (s1 & Hrun & _). replace (length l + S (fuel - length l - 1))%nat with fuel in Hrun by lia.
    rewrite Hrun. cbn [request_loop]. rewrite Heof, Hg1. by destruct Ho as [->|[x ->]]. }
  unfold IOEventHandler_handle, new_SocketInputStream, new_SocketOutputStream.
  rewrite Hg, ret_bind. cbv zeta. fold (conn_out (getFD ev)). fold fd k. fold (conn_in fd k).
  split; [intros Hg1; by rewrite (Hrun _ (or_introl eq_refl) Hg1)|].
  intros x Hg1. by rewrite (Hrun _ (or_intror (ex_intro _ x eq_refl)) Hg1).
Qed.

(** Whatever arrives, the requests are read to the end of the stream, or to one
    whose reading hangs or throws, and then so does the handler. *)
Lemma io_handle_ends fuel i w e ev locals (s : proc) :
  proc_wf locals s → serves fuel s → e ∈ locals →
  get_event e (estore s) = Ret ev → getWorker ev = Some i → workers s !! i = Some w →
  (length (visible (sock_incoming (getFD ev) (kernel (estore s)))) < fuel)%nat →
  ∃ l in1, reads fuel (conn_in (getFD ev) (kernel (estore s))) l in1 ∧
  ((eofbit in1 = true ∧ ∃ s', IOEventHandler_handle fuel e s
      = Ret (SERVER_OK, conn_sent (getFD ev) (kernel (estore s)) (replies (router s) l), s') ∧
     proc_wf locals s' ∧ serves fuel s' ∧ kept locals s s' ∧ unregistered i w (getFD ev) s s') ∨
   (eofbit in1 = false ∧ HttpRequest.getOneHttpRequest fuel in1 = Spin ∧ IOEventHandler_handle fuel e s = Spin) ∨
   (eofbit in1 = false ∧ ∃ x, HttpRequest.getOneHttpRequest fuel in1 = Throw x ∧ IOEventHandler_handle fuel e s = Throw x)).
Proof.
  intros Hs Hsv He Hg Hw Hi Hlen. set (fd := getFD ev) in *. set (k := kernel (estore s)) in *.
  destruct (reads_end fuel (mk_SocketStreamBuffer uninit fd (sock_incoming fd k)) Hlen) as (l & in1 & Hl & Hend).
  change (view (mk_SocketStreamBuffer uninit fd (sock_incoming fd k))) with (visible (sock_incoming fd k)) in Hend.
  fold (conn_in fd k) in Hl. exists l, in1. split; [done|].
  destruct Hend as [[Heof Hn]|(Heof & Hn & Hg1)]; [left; split; [done|]; eapply io_handle_reads; [done..|lia]|right].
  destruct (io_handle_stuck fuel e ev s l in1 Hsv Hg Hl Heof ltac:(lia)) as [Hspin Hthrow].
  destruct Hg1 as [Hg1|[x Hg1]]; [left; by auto|right; split; [done|exists x; by auto]].
Qed.

(** Well-formed requests are answered, in their order, and nothing else is sent. *)
Lemma io_handle_answers fuel i w e ev reqs locals (s : proc) :
  proc_wf locals s → serves fuel s → e ∈ locals →
  get_event e (estore s) = Ret ev → getWorker ev = Some i → workers s !! i = Some w →
  arriving reqs (sock_incoming (getFD ev) (kernel (estore s))) →
  (length (requests_wire reqs) < fuel)%nat → (length reqs < fuel)%nat →
  ∃ s', IOEventHandler_handle fuel e s
          = Ret (SERVER_OK, conn_sent (getFD ev) (kernel (estore s)) (answered (router s) reqs), s') ∧
        proc_wf locals s' ∧ unregistered i w (getFD ev) s s'.
Proof.
  intros Hs Hsv He Hg Hw Hi Hin Hlen Hn.
  destruct (reads_arriving reqs _ uninit (getFD ev) fuel Hin Hlen) as (req & in1 & Hl & Heof).
  destruct (io_handle_reads fuel i w e ev locals s _ in1 Hs Hsv He Hg Hw Hi Hl Heof) as (s' & Hrun & Hs' & _ & _ & Hu).
  { rewrite length_app, length_fmap. simpl. lia. }
  exists s'. split; [|done]. rewrite Hrun, replies_app, (replies_rejected _ [_]), app_nil_r; [done|by constructor].
Qed.

Lemma listen_handle_ends n i w ios e ev locals (s : proc) :
  proc_wf locals s → known ios s → get_event e (estore s) = Ret ev → workers s !! i = Some w →
  ListenEventHandler_handle n e ios s = Spin ∨
  ∃ ios' s', ListenEventHandler_handle n e ios s = Ret (SERVER_OK, ios', s') ∧
    proc_wf locals s' ∧ ios' ≡ₚ ios ∧ frame locals s s'.
Proof.
  intros Hs Hk Hg Hi. unfold ListenEventHandler_handle. rewrite Hg, ret_bind.
  destruct (accept_loop_ok n (getFD ev) ios locals s Hs Hk) as [->|(ios' & s' & -> & Hs' & Hp & Hf)]; [by left|right].
  rewrite ret_bind. by exists ios', s'.
Qed.
End handlers.
