(* ===== verification/Distribution.v ===== *)
(** How ListenEventHandler spreads clients over the I/O workers: one call of its
    handler accepts until nobody is waiting, and each client that is taken in goes
    to the worker that has waited longest. *)

From S2P Require Export Reactor.

#[local] Open Scope nat_scope.

(** The first of a list goes to its end. *)
Definition to_back {A} (l : list A) : list A :=
  match l with [] => [] | x :: l' => l' ++ [x] end.

Lemma to_back_perm {A} (l : list A) : to_back l ≡ₚ l.
Proof. destruct l as [|x l]; [done|]. symmetry. apply Permutation_cons_append. Qed.

Lemma length_to_back {A} (l : list A) : length (to_back l) = length l.
Proof. apply Permutation_length, to_back_perm. Qed.

(** Looking round the list from its second entry on. *)
Lemma lookup_to_back {A} (l : list A) j :
  to_back l !! (j mod length l) = l !! (S j mod length l).
Proof.
  destruct l as [|x l]; [done|]. cbn [to_back length]. set (n := S (length l)).
  pose proof (Nat.mod_upper_bound j n ltac:(lia)) as Hj. pose proof (Nat.div_mod_eq j n) as Hdm.
  destruct (decide (j mod n = length l)) as [Heq|Hne].
  - rewrite <- (Nat.mod_unique (S j) n (S (j / n)) 0) by lia. by rewrite Heq, list_lookup_middle.
  - rewrite <- (Nat.mod_unique (S j) n (j / n) (S (j mod n))) by lia. by rewrite lookup_app_l by lia.
Qed.

(** How often the [p]-th of [n] comes up in the first [m] of a round. *)
Definition turns (m n p : nat) : nat := m / n + Nat.b2n (Nat.ltb p (m mod n)).

Lemma turns_0 n p : turns 0 n p = 0.
Proof. unfold turns. destruct n; [done|]. by rewrite Nat.Div0.div_0_l, Nat.Div0.mod_0_l. Qed.

Lemma turns_S m n p :
  (p < n) → turns (S m) n p = (turns m n p + Nat.b2n (Nat.eqb p (m mod n))).
Proof.
  intros Hp. unfold turns. pose proof (Nat.mod_upper_bound m n ltac:(lia)) as Hm. pose proof (Nat.div_mod_eq m n) as Hdm.
  destruct (decide (S (m mod n) = n)) as [Heq|Hne].
  - rewrite <- (Nat.mod_unique (S m) n (S (m / n)) 0), <- (Nat.div_unique (S m) n (S (m / n)) 0) by lia.
    destruct (Nat.ltb_spec p (m mod n)), (Nat.eqb_spec p (m mod n)); simpl; lia.
  - rewrite <- (Nat.mod_unique (S m) n (m / n) (S (m mod n))), <- (Nat.div_unique (S m) n (m / n) (S (m mod n))) by lia.
    destruct (Nat.ltb_spec p (m mod n)), (Nat.ltb_spec p (S (m mod n))), (Nat.eqb_spec p (m mod n)); simpl; lia.
Qed.

(** A list that goes round [l] has each entry of [l] in its turns. *)
Definition goes_round {A} (l L : list A) : Prop :=
  ∀ j x, L !! j = Some x → l !! (j mod length l) = Some x.

Lemma goes_round_count {A} `{EqDecision A} (l L : list A) p x :
  NoDup l → l !! p = Some x → goes_round l L → length (filter (x =.) L) = turns (length L) (length l) p.
Proof.
  intros Hnd Hp. pose proof (lookup_lt_Some _ _ _ Hp) as Hlt.
  induction L as [|y L IH] using rev_ind; intros Hr; [by rewrite turns_0|].
  rewrite list.filter_app, !length_app. cbn [length]. rewrite Nat.add_1_r, turns_S by done.
  rewrite IH by (intros j z Hj; apply (Hr j z); by apply lookup_app_l_Some). f_equal.
  assert (l !! (length L mod length l) = Some y) as Hy by (apply Hr; by apply list_lookup_middle).
  rewrite filter_cons, filter_nil. case_decide as Hxy.
  - subst y. rewrite (NoDup_lookup _ _ _ _ Hnd Hp Hy), Nat.eqb_refl. done.
  - destruct (Nat.eqb_spec p (length L mod length l)); [|done]. congruence.
Qed.

Section distribution.
Context {K R A : Type} `{KernelOk K} `{Env}.
Abbreviation proc := (process K R A).

(** The clients that a call has accepted, in their order, each with the worker it
    was given to or none; the list of workers and the process go along. *)
Inductive distribution (lfd : Z) : list nat → proc → list (Z * option nat) → list nat → proc → Prop :=
| dist_nil ios s : distribution lfd ios s [] ios s
| dist_served c cur l ios ios1 ios' s k1 s2 s' :
    sys_accept lfd (kernel (estore s)) = (Some c, k1) →
    accept_client c ios (in_kernel (λ _, k1) s) = Ret (ios1, s2) →
    served c ios ios1 (in_kernel (λ _, k1) s) s2 → list.last ios1 = Some cur →
    distribution lfd ios1 s2 l ios' s' →
    distribution lfd ios s ((c, Some cur) :: l) ios' s'
| dist_refused c l ios ios1 ios' s k1 s2 s' :
    sys_accept lfd (kernel (estore s)) = (Some c, k1) →
    accept_client c ios (in_kernel (λ _, k1) s) = Ret (ios1, s2) →
    refused c ios ios1 (in_kernel (λ _, k1) s) s2 →
    distribution lfd ios1 s2 l ios' s' →
    distribution lfd ios s ((c, None) :: l) ios' s'.

(** The loop makes one, until nobody is waiting; it goes on as long as somebody is. *)
Lemma accept_loop_distribution n lfd ios locals (s : proc) :
  proc_wf locals s → known ios s →
  ∃ l ios1 s1, distribution lfd ios s l ios1 s1 ∧
    ((length l < n ∧ ∃ k1, sys_accept lfd (kernel (estore s1)) = (None, k1) ∧
        accept_loop n lfd ios s = Ret (ios1, in_kernel (λ _, k1) s1)) ∨
     (length l = n ∧ accept_loop n lfd ios s = Spin)).
Proof.
  revert ios s. induction n as [|n IH]; intros ios s Hs Hk; cbn [accept_loop].
  { exists [], ios, s. split; [constructor|by right]. }
  destruct (sys_accept lfd _) as [[c|] k1] eqn:Ha.
  2: { exists [], ios, s. split; [constructor|]. left. split; [simpl; lia|]. by exists k1. }
  destruct (accept_unowned _ _ _ _ _ Hs Ha) as (Hs1 & Hc & Hun).
  destruct (accept_client_ok c ios locals (in_kernel (λ _, k1) s)) as (ios1 & s2 & Hrun & Hs2 & _ & Hcase); [done..|].
  rewrite Hrun, ret_bind. pose proof (handled_client _ _ _ _ _ Hcase) as [Hp Hl].
  destruct (IH ios1 s2 Hs2) as (l & ios2 & s3 & Hdist & Hend).
  { eapply known_workers; [exact Hl|]. unfold known. by rewrite Hp. }
  assert (∃ o, distribution lfd ios s ((c, o) :: l) ios2 s3) as [o Ho].
  { destruct Hcase as [Hserved|Href]; [|by eexists; eapply dist_refused].
    assert (∃ cur, list.last ios1 = Some cur) as [cur Hcur].
    { destruct Hserved as (? & cur & ? & ? & ? & _ & -> & _). exists cur. by rewrite last_snoc. }
    exists (Some cur). by eapply dist_served. }
  exists ((c, o) :: l), ios2, s3. split; [done|]. cbn [length].
  destruct Hend as [(Hlen & Hret)|(Hlen & Hspin)]; [left|right]; (split; [lia|done]).
Qed.

(** All workers of the list run and have room for [m] more descriptors. *)
Definition roomy (m : nat) (ios : list nat) (s : proc) : Prop :=
  ∀ i w, i ∈ ios → workers s !! i = Some w →
    isRunning w = true ∧ worker_activeFDS w + m ≤ worker_maxFDS w.

Lemma roomy_available m ios i w (s : proc) :
  roomy (S m) ios s → i ∈ ios → workers s !! i = Some w → available w = true.
Proof.
  intros Hr Hi Hw. destruct (Hr i w Hi Hw) as [Hrun Hroom]. unfold available. rewrite Hrun.
  apply Nat.ltb_lt. lia.
Qed.

(** With room everywhere a client goes to the first worker, which moves to the
    back with one descriptor more. *)
Lemma served_first c cur m ios ios1 (s s2 : proc) :
  known ios s → NoDup ios → roomy (S m) ios s → served c ios ios1 s s2 → list.last ios1 = Some cur →
  ios !! 0 = Some cur ∧ ios1 = to_back ios ∧ roomy m ios1 s2 ∧
  ∀ i w w2, workers s !! i = Some w → workers s2 !! i = Some w2 →
    worker_activeFDS w2 = worker_activeFDS w + Nat.b2n (bool_decide (cur = i)).
Proof.
  intros Hk Hnd Hr (p & cur' & w & w' & e & Hp & -> & Hw & _ & Hall & Hws & -> & Hact & _) Hlast.
  rewrite last_snoc in Hlast. injection Hlast as ->.
  assert (p = 0) as ->.
  { destruct p as [|p]; [done|]. destruct ios as [|x ios]; [done|]. cbn [take] in Hall.
    apply Forall_cons_1 in Hall as [Hx _]. apply Forall_cons_1 in Hk as [[wx Hwx] _].
    pose proof (roomy_available _ _ x wx _ Hr (list_elem_of_here _ _) Hwx). by rewrite (Hx wx Hwx) in *. }
  destruct ios as [|x ios]; [done|]. injection Hp as ->. cbn [delete list_delete to_back].
  assert (∀ i w0 w2, workers s !! i = Some w0 → workers s2 !! i = Some w2 →
    (cur = i ∧ w0 = w ∧ w2 = watch c e w) ∨ (cur ≠ i ∧ w2 = w0)) as Hcase.
  { intros i w0 w2 H0' H2'. rewrite Hws in H2'. apply list_lookup_insert_Some in H2' as [(<- & <- & _)|[Hne H2']].
    - left. split_and!; congruence.
    - right. split; congruence. }
  split_and!; [done|done| |].
  - intros i w2 Hi Hw2. assert (i ∈ cur :: ios) as Hi' by (rewrite <- (to_back_perm (cur :: ios)); exact Hi).
    destruct (workers s !! i) as [w0|] eqn:Hw0.
    + destruct (Hr i w0 Hi' Hw0) as [Hrun Hroom]. destruct (Hcase i w0 w2 Hw0 Hw2) as [(<- & -> & ->)|[_ ->]]; [|split; [done|lia]].
      split; [done|]. unfold worker_activeFDS, worker_maxFDS in *. rewrite Hact.
      change (maxFDS (__eventPoller (watch c e w))) with (maxFDS (__eventPoller w)). lia.
    + apply lookup_ge_None_1 in Hw0. apply lookup_lt_Some in Hw2. rewrite Hws, length_insert in Hw2. lia.
  - intros i w0 w2 H0' H2'. destruct (Hcase i w0 w2 H0' H2') as [(<- & -> & ->)|[Hne ->]].
    + rewrite bool_decide_true by done. unfold worker_activeFDS. rewrite Hact. cbn [Nat.b2n]. lia.
    + rewrite bool_decide_false by done. simpl. lia.
Qed.
(** The workers that were given clients, in the order of the clients. *)
Definition takers (l : list (Z * option nat)) : list nat := omap snd l.

Lemma same_workers_lookup (s s2 : proc) i w :
  length (workers s2) = length (workers s) → workers s !! i = Some w → is_Some (workers s2 !! i).
Proof. intros Hl Hw. apply lookup_lt_is_Some. rewrite Hl. by eapply lookup_lt_Some. Qed.

Lemma distribution_spec lfd ios s l ios' s' :
  distribution lfd ios s l ios' s' → known ios s → NoDup ios → roomy (length (takers l)) ios s →
  goes_round ios (takers l) ∧ ios' = Nat.iter (length (takers l)) to_back ios ∧
  ∀ i w w', workers s !! i = Some w → workers s' !! i = Some w' →
    worker_activeFDS w' = worker_activeFDS w + length (filter (i =.) (takers l)).
Proof.
  induction 1 as [ios s|c cur l ios ios1 ios' s k1 s2 s' _ _ Hsv Hlast _ IH|c l ios ios1 ios' s k1 s2 s' _ _ Href _ IH];
    intros Hk Hnd Hr.
  - split_and!; [by intros j x|done|]. intros i w w' Hw Hw'. rewrite Hw in Hw'. injection Hw' as <-. cbn. lia.
  - change (takers ((c, Some cur) :: l)) with (cur :: takers l) in *. cbn [length] in *.
    destruct (served_first c cur (length (takers l)) ios ios1 (in_kernel (λ _, k1) s) s2) as (H0' & -> & Hr2 & Hact); [done..|].
    destruct (handled_client _ _ _ _ _ (or_introl Hsv)) as [Hp Hl]. change (workers (in_kernel (λ _, k1) s)) with (workers s) in *.
    destruct IH as (Hgo & -> & Hcnt).
    { eapply known_workers; [exact Hl|]. unfold known. by rewrite Hp. }
    { by rewrite Hp. }
    { done. }
    split_and!.
    + intros [|j] x; [intros [= <-]; by rewrite Nat.Div0.mod_0_l|]. intros Hj%Hgo.
      by rewrite length_to_back, lookup_to_back in Hj.
    + symmetry. apply Nat.iter_succ_r.
    + intros i w w' Hw Hw'. destruct (same_workers_lookup s s2 i w Hl Hw) as [w2 Hw2].
      rewrite (Hcnt i w2 w' Hw2 Hw'), (Hact i w w2 Hw Hw2), filter_cons.
      destruct (decide (cur = i)) as [->|Hne]; [rewrite bool_decide_true, decide_True by done|rewrite bool_decide_false, decide_False by congruence];
        simpl; lia.
  - change (takers ((c, None) :: l)) with (takers l) in *. destruct Href as (-> & Hws & _). cbn [workers in_kernel set_store] in Hws.
    destruct IH as (Hgo & -> & Hcnt); [unfold known; by rewrite Hws|done|unfold roomy; by rewrite Hws|].
    split_and!; [done..|]. intros i w w' Hw. apply Hcnt. by rewrite Hws.
Qed.
End distribution.

(** * Property *)

(** C27: a call of the listening handler takes in clients until nobody is waiting,
    and gives those it takes in to the workers in turn: over distinct workers that
    all run and have room for them, the [j]-th such client goes to worker [j] modulo
    their number, the workers are left in the order in which the next ones are due,
    and each has a descriptor more for each of its turns, so that their loads grow
    by the same number or one more. *)
Theorem clients_spread_in_turn {K R A : Type} `{KernelOk K} `{Env} n e ev ios locals (s : process K R A) :
  proc_wf locals s → get_event e (estore s) = Ret ev → known ios s → NoDup ios →
  ∃ l ios' s', distribution (getFD ev) ios s l ios' s' ∧
    ((length l < n ∧ ∃ k1, sys_accept (getFD ev) (kernel (estore s')) = (None, k1) ∧
        ListenEventHandler_handle n e ios s = Ret (SERVER_OK, ios', in_kernel (λ _, k1) s')) ∨
     (length l = n ∧ ListenEventHandler_handle n e ios s = Spin)) ∧
    (roomy (length (takers l)) ios s →
     goes_round ios (takers l) ∧ ios' = Nat.iter (length (takers l)) to_back ios ∧
     ∀ p i w w', ios !! p = Some i → workers s !! i = Some w → workers s' !! i = Some w' →
       worker_activeFDS w' = worker_activeFDS w + turns (length (takers l)) (length ios) p).
Proof.
  intros Hs Hev Hk Hnd. destruct (accept_loop_distribution n (getFD ev) ios locals s Hs Hk) as (l & ios' & s' & Hl & Hend).
  exists l, ios', s'. split; [done|]. split.
  - unfold ListenEventHandler_handle. rewrite Hev, ret_bind.
    destruct Hend as [(Hlen & k1 & Ha & ->)|(Hlen & ->)]; [left|by right]. split; [done|]. by exists k1.
  - intros Hr. destruct (distribution_spec _ _ _ _ _ _ Hl Hk Hnd Hr) as (Hgo & Hios & Hcnt).
    split_and!; [done..|]. intros p i w w' Hp Hw Hw'. rewrite (Hcnt i w w' Hw Hw'). f_equal. by apply goes_round_count.
Qed.
