(* ===== verification/System.v ===== *)
(** The workers' threads together: every interleaving, at the granularity of
    whole polls and handler calls, and the properties of the reactor. *)

From S2P Require Export Reactor.
From S2P Require HttpResponse.

Section system.
Context {K R A : Type} `{KernelOk K} `{IRouterOk R} `{IResourceAccessorOk A} `{MapOrderOk} `{FileAvailOk} `{EnvOk}.
Abbreviation proc := (process K R A).

(** The process, and the pointers to events that the threads of the workers
    hold between polling them and clearing them. *)
Record system := mk_system { sp : proc; batches : list (nat * eptr) }.

(** The input waiting for a connection is within the fuel. *)
Definition input_fits (fuel : nat) (e : eptr) (s : proc) : Prop :=
  ∀ ev, get_event e (estore s) = Ret ev →
        (length (visible (sock_incoming (getFD ev) (kernel (estore s)))) < fuel)%nat.

(** A thread polls, handles an event it has polled, or drops one; it leaves its
    loop when a poll fails or it finds its worker stopped, which the server may
    do at any time. Any order of handling, dropping and leaving is allowed, so that
    of the code is. (A thread that never polled would log an uninitialised error.) *)
Inductive sys_step (fuel : nat) : system → system → Prop :=
| sys_poll i w events s1 s :
    workers (sp s) !! i = Some w → isRunning w = true →
    eventPoll i (-1) (sp s) = Ret (events, SERVER_OK, s1) →
    sys_step fuel s (mk_system s1 (((λ e, (i, e)) <$> events) ++ batches s))
| sys_handle i e s1 s :
    (i, e) ∈ batches s → input_fits fuel e (sp s) → handleEvent fuel i e (sp s) = Ret s1 →
    sys_step fuel s (mk_system s1 (batches s))
| sys_release i e rest s :
    batches s ≡ₚ (i, e) :: rest →
    sys_step fuel s (mk_system (set_store (release e (estore (sp s))) (sp s)) rest)
| sys_fail i w events error s1 s2 s :
    workers (sp s) !! i = Some w → isRunning w = true →
    eventPoll i (-1) (sp s) = Ret (events, error, s1) → error ≠ SERVER_OK →
    worker_exit i error s1 = Ret s2 →
    sys_step fuel s (mk_system s2 (batches s))
| sys_exit i w error s1 s :
    workers (sp s) !! i = Some w → isRunning w = false →
    worker_exit i error (sp s) = Ret s1 →
    sys_step fuel s (mk_system s1 (batches s))
| sys_stop i w s :
    workers (sp s) !! i = Some w →
    sys_step fuel s (mk_system (put_worker i (stop w) (sp s)) (batches s)).

(** The lists of the listening workers name existing workers. *)
Definition lists_known (s : proc) : Prop :=
  ∀ i w ios, workers s !! i = Some w → __eventHandler w = ListenEventHandler ios → known ios s.

Record sys_inv (fuel : nat) (s : system) : Prop := {
  si_wf : proc_wf ((batches s).*2) (sp s);
  si_serves : serves fuel (sp s);
  si_link i e : (i, e) ∈ batches s → link e (estore (sp s)) = Some (Some i) ∧ is_Some (workers (sp s) !! i);
  si_lists : lists_known (sp s)
}.

Lemma held_elem i e (s : system) : (i, e) ∈ batches s → e ∈ (batches s).*2.
Proof. intros Hin. apply list_elem_of_fmap. by exists (i, e). Qed.

Lemma link_event i e (s : system) fuel :
  sys_inv fuel s → (i, e) ∈ batches s →
  ∃ ev w, get_event e (estore (sp s)) = Ret ev ∧ getWorker ev = Some i ∧ workers (sp s) !! i = Some w.
Proof.
  intros Hs Hin. destruct (si_link _ _ Hs i e Hin) as [Hl [w Hw]]. unfold link in Hl.
  destruct (evs (estore (sp s)) !! e) as [[ev n]|] eqn:He; [|done]. injection Hl as Hl.
  exists ev, w. split_and!; [|done|done]. unfold get_event. by rewrite He.
Qed.

Lemma handlers_same l (s s' : proc) i w' :
  kept l s s' → workers s' !! i = Some w' →
  ∃ w, workers s !! i = Some w ∧ __eventHandler w = __eventHandler w'.
Proof.
  intros (_ & Hh & _) Hi. assert ((__eventHandler <$> workers s') !! i = Some (__eventHandler w')) as Hx
    by (by rewrite list_lookup_fmap, Hi).
  rewrite Hh, list_lookup_fmap in Hx. destruct (workers s !! i) as [w|]; [|done]. exists w. split; [done|].
  simpl in Hx. congruence.
Qed.

Lemma kept_length l (s s' : proc) : kept l s s' → length (workers s') = length (workers s).
Proof. intros (_ & Hh & _). apply (f_equal length) in Hh. by rewrite !length_fmap in Hh. Qed.

(** A step that keeps links, handlers and contracts keeps the invariant. *)
Lemma sys_inv_kept fuel s s1 :
  sys_inv fuel s → proc_wf ((batches s).*2) s1 → serves fuel s1 → kept ((batches s).*2) (sp s) s1 →
  sys_inv fuel (mk_system s1 (batches s)).
Proof.
  intros [Hwf Hsv Hli Hls] Hwf1 Hsv1 Hk. pose proof (kept_length _ _ _ Hk) as Hlen. split; simpl; [done|done| |].
  - intros i e Hin. destruct (Hli i e Hin) as [Hl Hw]. split.
    + destruct Hk as [Hkl _]. rewrite Hkl; [done|]. by eapply held_elem.
    + rewrite lookup_lt_is_Some in *. by rewrite Hlen.
  - intros i w ios Hi Hh. destruct (handlers_same _ _ _ _ _ Hk Hi) as (w0 & Hw0 & Hh0).
    eapply known_workers; [done|]. eapply Hls; [done|]. by rewrite Hh0.
Qed.

(** Handling a polled event returns normally, or reading a request does not. *)
Lemma handle_ok fuel i e s :
  sys_inv fuel s → (i, e) ∈ batches s → input_fits fuel e (sp s) →
  match handleEvent fuel i e (sp s) with
  | Ret s1 => sys_inv fuel (mk_system s1 (batches s))
  | Undef => False
  | _ => True
  end.
Proof.
  intros Hs Hin Hfit. destruct (link_event i e s fuel Hs Hin) as (ev & w & Hg & Hw & Hi).
  pose proof (held_elem _ _ _ Hin) as He. unfold handleEvent, get_worker. rewrite Hi, deref_Some_bind.
  destruct (__eventHandler w) as [|ios] eqn:Hh.
  - destruct (io_handle_ends fuel i w e ev _ (sp s) (si_wf _ _ Hs) (si_serves _ _ Hs) He Hg Hw Hi (Hfit _ Hg))
      as (l & in1 & _ & [(_ & s' & -> & Hwf' & Hsv' & Hk & _)|[(_ & _ & ->)|(_ & x & _ & ->)]]); [|done|done].
    rewrite ret_bind. by eapply sys_inv_kept.
  - destruct (listen_handle_ends fuel i w ios e ev _ (sp s) (si_wf _ _ Hs)) as [->|(ios' & s' & -> & Hwf' & Hp & Hf)];
      [by eapply si_lists|done|done|done|].
    rewrite ret_bind. apply frame_kept in Hf as Hk. pose proof (kept_length _ _ _ Hk) as Hlen.
    destruct (lookup_lt_is_Some_2 (workers s') i) as [w1 Hw1]; [rewrite Hlen; by eapply lookup_lt_Some|].
    rewrite Hw1, deref_Some_bind.
    destruct (worker_focus _ _ _ Hw1) as (rest & Hp1 & Hput & Hsub).
    assert (proc_wf ((batches s).*2) (put_worker i (set_handler (ListenEventHandler ios') w1) s')) as Hwf2.
    { apply (proc_wf_worker i w1 _ (estore s') rest ((batches s).*2) _ s' Hwf' Hw1 Hput);
        [|exact (pw_pollers _ _ Hwf' i w1 Hw1)|done|intros j wj _ Hj; by apply (pw_pollers _ _ Hwf')].
      eapply store_wf_perm; [|apply Hwf']. by rewrite Hp1, app_assoc. }
    split; simpl.
    + exact Hwf2.
    + destruct (si_serves _ _ Hs) as [Hr Hfl Ha Hft Hlg]. destruct Hf as (_ & _ & Hrt & Hac).
      split; simpl; rewrite ?Hrt, ?Hac; try done. apply Hwf'.
    + intros j e' Hin'. destruct (si_link _ _ Hs j e' Hin') as [Hl Hj]. destruct Hk as [Hkl _].
      split; [rewrite Hkl; [done|by eapply held_elem]|]. rewrite lookup_lt_is_Some, length_insert, Hlen.
      by apply lookup_lt_is_Some.
    + intros j wj ios0 Hj Hhj. assert (known ios0 (sp s)) as Hk0.
      { apply list_lookup_insert_Some in Hj as [(<- & <- & _)|[Hne Hj]].
        - injection Hhj as <-. unfold known. rewrite Hp. by eapply si_lists.
        - destruct (handlers_same _ _ _ _ _ Hk Hj) as (w0 & Hw0 & Hh0). eapply si_lists; [done|done|]. by rewrite Hh0. }
      eapply known_workers; [|exact Hk0]. simpl. by rewrite length_insert.
Qed.

Lemma poll_ok fuel i w events error s1 s :
  sys_inv fuel s → workers (sp s) !! i = Some w →
  eventPoll i (-1) (sp s) = Ret (events, error, s1) →
  sys_inv fuel (mk_system s1 (((λ e, (i, e)) <$> events) ++ batches s)) ∧
  workers s1 = workers (sp s) ∧ (error ≠ SERVER_OK → events = []).
Proof.
  intros [Hwf Hsv Hli Hls] Hi. unfold eventPoll, get_worker. rewrite Hi, deref_Some_bind.
  destruct (epollWait (-1) (__eventPoller w) (estore (sp s))) as [[ret err] st'] eqn:Hw.
  intros [= <- -> <-].
  destruct (epollWait_ok _ i _ _ _ _ _ _ (pw_store _ _ Hwf) (pw_pollers _ _ Hwf _ _ Hi) Hw)
    as (Hst & _ & Hpo & _ & Hnil & Hreg). split; [|by split].
  assert (∀ e, link e st' = link e (estore (sp s))) as Hlink.
  { intros e. rewrite <- (link_wait e (-1) (__eventPoller w) (estore (sp s))). by rewrite Hw. }
  assert (∀ l : list eptr, snd <$> ((λ e, (i, e)) <$> l) = l) as Hsnd.
  { intros l. rewrite <- list_fmap_compose. apply list_fmap_id. }
  split; simpl.
  - eapply proc_wf_store; [exact Hwf| |].
    + rewrite fmap_app, Hsnd. eapply store_wf_perm; [|exact Hst].
      rewrite !app_assoc. apply Permutation_app_tail, Permutation_app_comm.
    + intros j wj Hj. apply Hpo, (pw_pollers _ _ Hwf _ _ Hj).
  - destruct Hsv. by split.
  - intros j e Hin. rewrite Hlink. apply elem_of_app in Hin as [Hin|Hin]; [|by apply Hli].
    apply list_elem_of_fmap in Hin as (e' & [= -> ->] & He').
    rewrite list.Forall_forall in Hreg. apply Hreg, elem_map_refs in He' as [fd Hfd].
    destruct (wf_map _ _ _ (pw_pollers _ _ Hwf _ _ Hi) _ _ Hfd) as ([ev n] & Hev & _ & Hwk).
    split; [|by eexists]. unfold link. rewrite Hev. simpl in *. by rewrite Hwk.
  - exact Hls.
Qed.

Lemma release_ok fuel i e rest s :
  sys_inv fuel s → batches s ≡ₚ (i, e) :: rest →
  sys_inv fuel (mk_system (set_store (release e (estore (sp s))) (sp s)) rest).
Proof.
  intros [Hwf Hsv Hli Hls] Hp. assert (proc_wf (e :: rest.*2) (sp s)) as Hwf'.
  { destruct Hwf as [Hst ????]. split; [|done..]. eapply store_wf_perm; [|exact Hst]. by rewrite Hp. }
  split; simpl; [by apply proc_wf_release|by destruct Hsv|..|exact Hls].
  intros j e' Hin. assert ((j, e') ∈ batches s) as Hin' by (rewrite Hp; by right).
  destruct (Hli j e' Hin') as [Hl Hw]. split; [|done].
  rewrite (link_release e' e (refs_of (workers (sp s)) ++ rest.*2)); [done| |].
  - eapply store_wf_perm; [|apply Hwf']. symmetry. by apply Permutation_middle.
  - apply elem_of_app. right. apply list_elem_of_fmap. by exists (j, e').
Qed.

(** Stopping a worker changes nothing but whether it runs. *)
Lemma stop_ok fuel i w s :
  sys_inv fuel s → workers (sp s) !! i = Some w →
  sys_inv fuel (mk_system (put_worker i (stop w) (sp s)) (batches s)).
Proof.
  intros Hs Hi. apply (sys_inv_kept fuel s); [done| | |].
  - eapply proc_wf_same_poller; [apply Hs|exact Hi|done].
  - destruct (si_serves _ _ Hs). by split.
  - split_and!; [done| |done]. cbn. rewrite list_fmap_insert. apply list_insert_id. by rewrite list_lookup_fmap, Hi.
Qed.

Lemma exit_ok fuel i w error s1 s :
  sys_inv fuel s → workers (sp s) !! i = Some w → worker_exit i error (sp s) = Ret s1 →
  sys_inv fuel (mk_system s1 (batches s)).
Proof.
  intros Hs Hi. unfold worker_exit, get_worker. rewrite Hi, deref_Some_bind. intros Hd.
  pose proof (stop_ok fuel i w s Hs Hi) as Hs1.
  destruct (diary_ok ($"Worker.cc") 68 ($"worker exit with err " ++ to_string (err_code error) ++ [ch_LF])
              (put_worker i (stop w) (sp s)) (sv_log _ _ (si_serves _ _ Hs1))) as (s2 & Hd' & Hl).
  rewrite Hd in Hd'. injection Hd' as <-.
  eapply (sys_inv_kept fuel _ _ Hs1); [by eapply logged_wf, Hs1|by apply (logged_same fuel _ _ Hl), Hs1|].
  by apply frame_kept, logged_frame.
Qed.

Lemma fail_ok fuel i w events error s1 s2 s :
  sys_inv fuel s → workers (sp s) !! i = Some w →
  eventPoll i (-1) (sp s) = Ret (events, error, s1) → error ≠ SERVER_OK →
  worker_exit i error s1 = Ret s2 → sys_inv fuel (mk_system s2 (batches s)).
Proof.
  intros Hs Hi Hp He Hx. destruct (poll_ok _ _ _ _ _ _ _ Hs Hi Hp) as (Hs1 & Hw & Hnil).
  rewrite (Hnil He) in Hs1. eapply (exit_ok fuel i w error s2 _ Hs1); [|exact Hx]. simpl. by rewrite Hw.
Qed.

Lemma sys_step_inv fuel s s' : sys_inv fuel s → sys_step fuel s s' → sys_inv fuel s'.
Proof.
  intros Hs Hst. revert Hs.
  destruct Hst as [i w events s1 s0 Hi Hr Hp|i e s1 s0 Hin Hfit Hh|i e rest s0 Hp
                  |i w events error s1 s2 s0 Hi _ Hp He Hx|i w error s1 s0 Hi _ Hx|i w s0 Hi]; intros Hs.
  - by destruct (poll_ok _ _ _ _ _ _ _ Hs Hi Hp).
  - pose proof (handle_ok fuel i e s0 Hs Hin Hfit) as Hok. by rewrite Hh in Hok.
  - exact (release_ok _ _ _ _ _ Hs Hp).
  - exact (fail_ok _ _ _ _ _ _ _ _ Hs Hi Hp He Hx).
  - exact (exit_ok _ _ _ _ _ _ Hs Hi Hx).
  - exact (stop_ok _ _ _ _ Hs Hi).
Qed.
End system.

(** * Properties *)

Section properties.
Context {K R A : Type} `{KernelOk K} `{IRouterOk R} `{IResourceAccessorOk A} `{MapOrderOk} `{FileAvailOk} `{EnvOk}.
Abbreviation proc := (process K R A).

(** C1: a connection that sends well-formed requests, one or many in a row, and
    then ends, has each answered, in their order, and nothing else; then its event is
    unregistered, the books are kept, and the handler returns. What is sent is what
    an output stream over the socket makes of the answers, each written and flushed:
    exactly the answers when every [send] takes all it is given, a prefix of them
    when some of them take nothing. The requests arrive in any pieces if they have no
    bodies; with bodies they arrive in one piece that fits into the buffer. *)
Theorem requests_answered_in_order fuel i w e ev reqs locals (s : proc) :
  proc_wf locals s → serves fuel s → e ∈ locals →
  get_event e (estore s) = Ret ev → getWorker ev = Some i → workers s !! i = Some w →
  arriving reqs (sock_incoming (getFD ev) (kernel (estore s))) →
  (length (requests_wire reqs) < fuel)%nat → (length reqs < fuel)%nat →
  let k := kernel (estore s) in
  let sent := conn_sent (getFD ev) k (answered (router s) reqs) in
  (∃ s', IOEventHandler_handle fuel e s = Ret (SERVER_OK, sent, s') ∧
         proc_wf locals s' ∧ unregistered i w (getFD ev) s s') ∧
  sent_of (sock_send (getFD ev) k) (answers_wire (router s) reqs) sent.
Proof.
  intros Hs Hsv He Hg Hw Hi Hin Hlen Hn k sent. split; [by apply io_handle_answers|].
  rewrite <- answered_bytes. apply conn_sent_of.
Qed.

(** C28: whatever a client sends, handling its connection never reads a null
    pointer or fails an assertion. The requests are read from it one after the other:
    to the end of what it sends, and then the answers to those read without an error
    are sent and the handler returns with the event unregistered and the books kept;
    or to one whose reading, from what is left, hangs or throws, and then the handler
    does. *)
Theorem connection_handled fuel i w e ev locals (s : proc) :
  proc_wf locals s → serves fuel s → e ∈ locals →
  get_event e (estore s) = Ret ev → getWorker ev = Some i → workers s !! i = Some w →
  (length (visible (sock_incoming (getFD ev) (kernel (estore s)))) < fuel)%nat →
  ∃ l in1, reads fuel (conn_in (getFD ev) (kernel (estore s))) l in1 ∧
  ((eofbit in1 = true ∧ ∃ s', IOEventHandler_handle fuel e s
      = Ret (SERVER_OK, conn_sent (getFD ev) (kernel (estore s)) (replies (router s) l), s') ∧
     proc_wf locals s' ∧ unregistered i w (getFD ev) s s') ∨
   (eofbit in1 = false ∧ HttpRequest.getOneHttpRequest fuel in1 = Spin ∧ IOEventHandler_handle fuel e s = Spin) ∨
   (eofbit in1 = false ∧ ∃ x, HttpRequest.getOneHttpRequest fuel in1 = Throw x ∧ IOEventHandler_handle fuel e s = Throw x)).
Proof.
  intros Hs Hsv He Hg Hw Hi Hlen.
  destruct (io_handle_ends fuel i w e ev locals s Hs Hsv He Hg Hw Hi Hlen)
    as (l & in1 & Hl & [(Heof & s' & Hrun & Hs' & _ & _ & Hu)|Hend]); exists l, in1; (split; [done|]); [left|by right].
  split; [done|]. by exists s'.
Qed.

(** C26: an accepted client is registered, for reading and edge-triggered, with
    the first worker of the list that is running and has room, which then moves
    to the end of the list; or it is closed and the list stays as it is. *)
Theorem client_distributed lfd c k1 ios locals (s : proc) :
  proc_wf locals s → known ios s → sys_accept lfd (kernel (estore s)) = (Some c, k1) →
  ∃ ios' s', accept_client c ios (in_kernel (λ _, k1) s) = Ret (ios', s') ∧
    proc_wf locals s' ∧ ios' ≡ₚ ios ∧
    (served c ios ios' (in_kernel (λ _, k1) s) s' ∨ refused c ios ios' (in_kernel (λ _, k1) s) s').
Proof.
  intros Hs Hk Ha. destruct (accept_unowned _ _ _ _ _ Hs Ha) as (Hs1 & Hc & Hun).
  destruct (accept_client_ok c ios locals (in_kernel (λ _, k1) s)) as (ios1 & s2 & Hrun & Hs2 & _ & Hcase); [done..|].
  exists ios1, s2. split_and!; [done|done|by apply handled_client in Hcase as [? _]|done].
Qed.

(** C2: in every interleaving of the workers' threads, whose polls may fail and
    whose workers may be stopped at any time, the books are kept: each
    map agrees with the kernel and its limit, counts match owners, live events
    have distinct open descriptors (so each is closed once); and no handler ever
    dereferences a null pointer or fails an assertion. *)
Theorem reactor_safe fuel (s0 s : system) :
  sys_inv fuel s0 → reachable (sys_step fuel) s0 s →
  proc_wf ((batches s).*2) (sp s) ∧
  ∀ i e, (i, e) ∈ batches s → input_fits fuel e (sp s) → handleEvent fuel i e (sp s) ≠ Undef.
Proof.
  intros H0' Hr. assert (sys_inv fuel s) as Hs by (eapply reachable_invariant; [apply sys_step_inv|exact H0'|exact Hr]).
  split; [apply Hs|]. intros i e Hin Hfit Hu. pose proof (handle_ok fuel i e s Hs Hin Hfit) as Hok.
  by rewrite Hu in Hok.
Qed.

(** A client whose registration the kernel refuses has its descriptor closed
    twice: by the event that owned it, and again by the handler, when the number
    may already stand for something else. *)
Theorem refused_client_closed_twice c flags k1 k3 i cur w ios locals (s : proc) :
  proc_wf locals s → known ios s → c ∈ fds (kernel (estore s)) → unowned c (estore s) →
  fcntl_getfl c (kernel (estore s)) = (Some flags, k1) →
  find_worker 0 ios s = Ret (Some (i, cur)) → workers s !! cur = Some w →
  epoll_ctl (__epfd (__eventPoller w)) EPOLL_CTL_ADD c (N.lor EPOLLET EPOLLIN)
            (fcntl_setfl c (N.lor flags O_NONBLOCK) k1) = (false, k3) →
  ∃ s', accept_client c ios s = Ret (ios, s') ∧ kernel (estore s') = sys_close c (sys_close c k3).
Proof.
  intros Hs Hk Hc Hun Hfl Hfind Hw Hctl.
  destruct (find_worker_spec 0 ios s Hk) as (r & Hr & Hspec). rewrite Hfind in Hr. injection Hr as <-.
  destruct Hspec as (idx & w' & -> & Hidx & Hw' & Ha & _). rewrite Hw in Hw'. injection Hw' as <-.
  unfold accept_client. rewrite Hfl.
  set (s2 := in_kernel (fcntl_setfl c (N.lor flags O_NONBLOCK)) (in_kernel (λ _, k1) s)).
  assert (find_worker 0 ios s2 = Ret (Some (0 + idx, cur)%nat)) as ->.
  { rewrite <- Hfind. clear. generalize 0%nat. induction ios as [|x ios IH]; intros n; [done|].
    cbn [find_worker]. unfold get_worker. cbn [s2 in_kernel set_store workers].
    destruct (workers s !! x) as [wx|]; [|done]. rewrite !deref_Some_bind. by destruct (_ && _). }
  rewrite ret_bind. destruct (make_event _ _ _) as [e st3] eqn:Hm.
  assert (evs st3 !! e = Some (new_Event c (N.lor EPOLLET EPOLLIN), 1%nat) ∧
          kernel st3 = fcntl_setfl c (N.lor flags O_NONBLOCK) k1) as [He Hk3].
  { unfold make_event in Hm. injection Hm as <- <-. simpl. by rewrite lookup_insert_eq. }
  unfold addEvent, get_worker. cbn [workers set_store s2 in_kernel]. rewrite Hw, deref_Some_bind.
  unfold epollAddEvent, get_event. cbn [estore set_store update_event evs kernel].
  rewrite lookup_alter_eq, He. cbn [fmap option_fmap option_map fst snd]. rewrite deref_Some_bind, ret_bind.
  apply andb_prop in Ha as [_ Hroom%Nat.ltb_lt]. unfold worker_activeFDS, worker_maxFDS in Hroom. rewrite (proj2 (Nat.leb_gt _ _) Hroom).
  rewrite (pw_valid _ _ Hs _ _ Hw). cbn [negb]. cbn [getFD setWorker new_Event __fd getEvent __ev].
  rewrite Hk3, Hctl. rewrite !ret_bind. eexists. split; [reflexivity|].
  cbn [in_kernel set_store estore set_kernel kernel]. f_equal. rewrite decide_False by done.
  match goal with |- kernel (release e ?st) = _ =>
    assert (∃ ev, evs st !! e = Some (ev, 1%nat) ∧ getFD ev = c) as (ev & Hev & <-) end.
  { cbn [evs update_event set_kernel set_store]. rewrite !lookup_alter_eq, He. by eexists. }
  unfold release. rewrite Hev. done.
Qed.
End properties.
