(* ===== verification/Truncated.v ===== *)
(** IOEventHandler over HttpUtils/HttpRequest, a request that has only arrived in
    part when the connection is reported ready: what its client is sent. *)

From S2P Require Export System.
From S2P Require Import Incomplete.

Abbreviation http_request := HttpRequest.HttpRequest.

(** What becomes of the connection: the part is dropped, or taken for a request,
    or ends the process with an exception, or keeps the worker for ever. *)
Inductive cut := Rejected | Accepted (r : http_request) | Crashed (x : exn) | Hanging.

Definition cut_of (o : outcome (Error * http_request)) : cut :=
  match o with
  | Ret (e, r) => if decide (e = SERVER_OK) then Accepted r else Rejected
  | Throw x => Crashed x
  | _ => Rejected
  end.

(** A request cut in its first line; or in or before the line after some of its
    headers, and which of these it is decides; or in the body that its headers announce. *)
Inductive truncated : bytes → cut → Prop :=
| cut_in_line q : one_line q → truncated q Rejected
| cut_in_headers m u v hdrs p :
    HttpRequest.is_word u → Forall HttpRequest.wf_header hdrs → one_line p →
    truncated (request_line m u v ++ HttpRequest.header_block hdrs ++ p)
              (cut_of (cut_request p (HttpRequest.parsed_head m u v hdrs)))
| cut_in_body m u v hdrs cl n d :
    HttpRequest.is_word u → Forall HttpRequest.wf_header hdrs →
    assign_all hdrs ∅ !! HttpRequest.CONTENT_LENGTH = Some cl → stoul cl = Ret n → (N.of_nat (length d) < n)%N →
    truncated (HttpRequest.wire_head m u v hdrs ++ d) Hanging.

(** ** Every proper part of a request is one of these: [every_cut] *)

Lemma prefix_app_split {A} (q a b : list A) : q `prefix_of` a ++ b → q `prefix_of` a ∨ ∃ q', q = a ++ q' ∧ q' `prefix_of` b.
Proof.
  intros Hq. destruct (prefix_weak_total q a (a ++ b) Hq (prefix_app_r _ _ _ (reflexivity _))) as [|[q' ->]]; [by left|right].
  exists q'. split; [done|]. by apply prefix_app_inv in Hq.
Qed.

Lemma prefix_snoc {A} (q a : list A) x : q `prefix_of` a ++ [x] → q `prefix_of` a ∨ q = a ++ [x].
Proof.
  intros [?|(q' & -> & Hq)]%prefix_app_split; [by left|]. destruct q' as [|y q']; [left; by rewrite app_nil_r|right].
  apply prefix_cons_inv_1 in Hq as Hy. apply prefix_cons_inv_2, prefix_nil_inv in Hq. by subst.
Qed.

Lemma one_line_prefix q l : q `prefix_of` l → one_line l → one_line q.
Proof. intros [k ->] [Hl _]%Forall_app. done. Qed.

Lemma header_text_line kv : HttpRequest.wf_header kv → one_line (HttpRequest.header_text kv).
Proof.
  intros (Hk & Hv & _). unfold HttpRequest.header_text. rewrite !Forall_app. split_and!; try done; try by repeat constructor.
  by apply (list.Forall_impl _ _ _ Hk); intros c [_ ?].
Qed.

Lemma prefix_headers hdrs q :
  Forall HttpRequest.wf_header hdrs → q `prefix_of` HttpRequest.header_block hdrs ++ crlf → q ≠ HttpRequest.header_block hdrs ++ crlf →
  ∃ h p, q = HttpRequest.header_block h ++ p ∧ one_line p ∧ Forall HttpRequest.wf_header h.
Proof.
  intros Hwf. revert q. induction Hwf as [|kv hdrs Hkv Hwf IH]; intros q Hq Hne.
  - exists [], q. split_and!; [done| |constructor]. change (HttpRequest.header_block [] ++ crlf) with ([ch_CR] ++ [ch_LF]) in Hq, Hne.
    apply prefix_snoc in Hq as [Hq|]; [|done]. eapply one_line_prefix; [done|]. by repeat constructor.
  - rewrite HttpRequest.header_block_cons in Hq, Hne. change (ch_LF :: ?l) with ([ch_LF] ++ l) in Hq, Hne. rewrite <- !app_assoc in Hq, Hne.
    rewrite (app_assoc _ [ch_LF]) in Hq, Hne. apply prefix_app_split in Hq as [Hq|(q' & -> & Hq)].
    + apply prefix_snoc in Hq as [Hq| ->].
      * exists [], q. split_and!; [done| |constructor]. by eapply one_line_prefix, header_text_line.
      * exists [kv], []. rewrite HttpRequest.header_block_cons. split_and!; [by rewrite app_nil_r|constructor|by constructor].
    + destruct (IH q' Hq) as (h & p & -> & Hp & Hh); [intros ->; by apply Hne|].
      exists (kv :: h), p. rewrite HttpRequest.header_block_cons. split_and!; [by rewrite <- !app_assoc|done|by constructor].
Qed.

Lemma every_cut `{MapOrderOk} req q :
  HttpRequest.wf_request req → q `prefix_of` HttpRequest.wire_request req → q ≠ HttpRequest.wire_request req →
  ∃ c, truncated q c.
Proof.
  intros Hwf Hq Hne. pose proof Hwf as (Hu & _ & Hlen). pose proof (HttpRequest.wf_request_headers req Hwf) as Hh.
  assert (HttpRequest.wire_request req = request_line (HttpRequest.__method req) (HttpRequest.__uri req) (HttpRequest.__version req)
    ++ (HttpRequest.header_block (map_order (HttpRequest.__header req)) ++ crlf) ++ HttpRequest.__body req) as Hw.
  { unfold HttpRequest.wire_request, HttpRequest.wire_head, request_line. by rewrite <- !app_assoc. }
  assert (∀ d, d `prefix_of` HttpRequest.__body req → d ≠ HttpRequest.__body req →
    truncated (request_line (HttpRequest.__method req) (HttpRequest.__uri req) (HttpRequest.__version req)
    ++ (HttpRequest.header_block (map_order (HttpRequest.__header req)) ++ crlf) ++ d) Hanging) as Hbody.
  { intros d [k Hk] Hd. unfold HttpRequest.requestBodyLength, HttpRequest.getHeader in Hlen.
    assert (0 < length k)%nat as Hpos.
    { destruct k; [|simpl; lia]. rewrite app_nil_r in Hk. by destruct Hd. }
    rewrite Hk, length_app in Hlen. destruct (HttpRequest.__header req !! HttpRequest.CONTENT_LENGTH) as [cl|] eqn:Hcl; [|injection Hlen; lia].
    assert (assign_all (map_order (HttpRequest.__header req)) ∅ !! HttpRequest.CONTENT_LENGTH = Some cl) as Hcl'
      by by rewrite (assign_all_perm _ _ (map_order_perm _)).
    pose proof (cut_in_body (HttpRequest.__method req) (HttpRequest.__uri req) (HttpRequest.__version req) _ cl _ d Hu Hh Hcl' Hlen) as Hc.
    unfold HttpRequest.wire_head in Hc. unfold request_line. rewrite <- !app_assoc in *. apply Hc. lia. }
  rewrite Hw in Hq, Hne. apply prefix_app_split in Hq as [Hq|(q1 & -> & Hq)].
  - unfold request_line in Hq. rewrite !app_assoc in Hq. change crlf with ([ch_CR] ++ [ch_LF]) in Hq. rewrite app_assoc in Hq.
    apply prefix_snoc in Hq as [Hq| ->].
    + exists Rejected. constructor. eapply one_line_prefix; [done|]. rewrite !Forall_app. destruct Hu as [_ Hu]. split_and!.
      all: try by repeat constructor.
      * by destruct (HttpRequest.__method req); repeat constructor.
      * apply (list.Forall_impl _ _ _ Hu). intros x Hx ->. done.
      * by destruct (HttpRequest.__version req); repeat constructor.
    + eexists. pose proof (cut_in_headers (HttpRequest.__method req) (HttpRequest.__uri req) (HttpRequest.__version req) [] []
        Hu (Forall_nil_2 _) (Forall_nil_2 _)) as Hc. cbn [HttpRequest.header_block fmap list_fmap mjoin list_join app] in Hc.
      rewrite app_nil_r in Hc. unfold request_line in Hc. change crlf with ([ch_CR] ++ [ch_LF]) in Hc. rewrite !app_assoc in Hc. exact Hc.
  - apply prefix_app_split in Hq as [Hq|(d & -> & Hq)].
    + destruct (decide (q1 = HttpRequest.header_block (map_order (HttpRequest.__header req)) ++ crlf)) as [->|Hq1].
      2: { destruct (prefix_headers _ _ Hh Hq Hq1) as (h & p & -> & Hp & Hh1). eexists. by apply cut_in_headers. }
      exists Hanging. rewrite <- (app_nil_r (_ ++ crlf)). apply Hbody; [apply prefix_nil|].
      intros Hnil. apply Hne. by rewrite <- Hnil, app_nil_r.
    + exists Hanging. apply Hbody; [done|]. intros ->. by apply Hne.
Qed.


Section truncated.
Context {K R A : Type} `{KernelOk K} `{IRouterOk R} `{IResourceAccessorOk A} `{MapOrderOk} `{FileAvailOk} `{EnvOk}.
Abbreviation proc := (process K R A).



End truncated.
