(* ===== verification/Descriptors.v ===== *)
(** No descriptor is lost: the open descriptors that belong to no event, which no
    operation of the reactor's threads adds to or takes from. *)

From S2P Require Export System.

(** * In the store of events *)

Section stray.
Context {K : Type} `{KernelOk K}.

(** Open, and not the descriptor of a live event. *)
Definition stray (fd : Z) (s : store K) : Prop :=
  fd ∈ fds (kernel s) ∧ ∀ e x, evs s !! e = Some x → getFD x.1 ≠ fd.

(** Two stores with the same stray descriptors. *)
Definition same_stray (s s' : store K) : Prop := ∀ fd, stray fd s' ↔ stray fd s.

#[export] Instance same_stray_preorder : PreOrder same_stray.
Proof. split; [done|]. intros s1 s2 s3 H12 H23 fd. by rewrite (H23 fd), (H12 fd). Qed.

Lemma stray_kernel k s : fds k = fds (kernel s) → same_stray s (set_kernel k s).
Proof. intros Hk fd. unfold stray. simpl. by rewrite Hk. Qed.

(** The same kernel, and events for the same descriptors. *)
Lemma stray_alter f e s :
  (∀ x, getFD (f x).1 = getFD x.1) → same_stray s (mk_store (kernel s) (alter f e (evs s))).
Proof.
  intros Hf fd. unfold stray. simpl. split; intros [Hin Hall]; (split; [done|]); intros e' x Hx;
    destruct (decide (e = e')) as [->|Hne].
  - rewrite <- (Hf x). apply (Hall e'). by rewrite lookup_alter_eq, Hx.
  - apply (Hall e'). by rewrite lookup_alter_ne.
  - rewrite lookup_alter_eq in Hx. apply fmap_Some in Hx as (y & Hy & ->). rewrite Hf. by eapply Hall.
  - rewrite lookup_alter_ne in Hx by done. by eapply Hall.
Qed.

Lemma stray_update f e s : (∀ ev, getFD (f ev) = getFD ev) → same_stray s (update_event f e s).
Proof. intros Hf. apply (stray_alter (λ x, (f x.1, x.2))). intros x. apply Hf. Qed.

Lemma stray_share e s : same_stray s (share e s).
Proof. by apply (stray_alter (λ x, (x.1, S x.2))). Qed.

Lemma stray_close c s fd : stray fd (set_kernel (sys_close c (kernel s)) s) ↔ fd ≠ c ∧ stray fd s.
Proof.
  unfold stray. simpl. destruct (close_ok c (kernel s)) as [-> _].
  rewrite elem_of_difference, elem_of_singleton. tauto.
Qed.

(** The last pointer to an event takes its descriptor along. *)
Lemma stray_release e s : same_stray s (release e s).
Proof.
  intros fd. unfold release. destruct (evs s !! e) as [[ev n]|] eqn:He; [|done]. destruct (Nat.leb n 1).
  - unfold stray. simpl. destruct (close_ok (getFD ev) (kernel s)) as [-> _].
    rewrite elem_of_difference, elem_of_singleton. split.
    + intros [[Hin Hne] Hall]. split; [done|]. intros e' x Hx Hfd. destruct (decide (e = e')) as [<-|Hee].
      * rewrite He in Hx. injection Hx as <-. by apply Hne.
      * apply (Hall e' x); [by rewrite lookup_delete_ne|done].
    + intros [Hin Hall]. split; [split; [done|intros ->; by apply (Hall _ _ He)]|].
      intros e' x [_ Hx]%lookup_delete_Some. by eapply Hall.
  - unfold stray. simpl. split; intros [Hin Hall]; (split; [done|]); intros e' x Hx.
    + destruct (decide (e = e')) as [<-|Hee].
      * rewrite He in Hx. injection Hx as <-. by apply (Hall e (ev, n - 1)%nat); rewrite ?lookup_insert_eq.
      * apply (Hall e'). by rewrite lookup_insert_ne.
    + apply lookup_insert_Some in Hx as [[<- <-]|[_ Hx]]; [by apply (Hall _ _ He)|by eapply Hall].
Qed.

Lemma stray_release_old old s : same_stray s (release_old old s).
Proof. destruct old; [apply stray_release|done]. Qed.

Lemma stray_make c ev s e s' fd : make_event c ev s = (e, s') → stray fd s' ↔ fd ≠ c ∧ stray fd s.
Proof.
  intros [= He <-]. assert (evs s !! e = None) as Hnone.
  { apply not_elem_of_dom. rewrite <- He. apply is_fresh. }
  rewrite He. unfold stray. simpl. split.
  - intros [Hin Hall]. split_and!; [|done|].
    + intros ->. by apply (Hall e (new_Event c ev, 1%nat)); [apply lookup_insert_eq|].
    + intros e' x Hx. apply (Hall e'). rewrite lookup_insert_ne; [done|]. intros <-. by rewrite Hnone in Hx.
  - intros (Hne & Hin & Hall). split; [done|]. intros e' x [[_ <-]|[_ Hx]]%lookup_insert_Some; [|by eapply Hall].
    simpl. by intros ->.
Qed.

(** A descriptor that is opened, by a call that makes it new. *)
Lemma stray_open c k s fd :
  fds k = {[c]} ∪ fds (kernel s) → c ∉ fds (kernel s) →
  fd ≠ c → stray fd (set_kernel k s) ↔ stray fd s.
Proof.
  intros Hk Hc Hne. unfold stray. simpl. rewrite Hk, elem_of_union, elem_of_singleton. tauto.
Qed.

Lemma stray_fds fd s : stray fd s → fd ∈ fds (kernel s).
Proof. by intros [? _]. Qed.

(** ** Operations of the poller *)

Lemma epollAddEvent_stray e p s err p' s' :
  epollAddEvent e p s = Ret (err, p', s') → same_stray s s' ∧ __epfd p' = __epfd p.
Proof.
  unfold epollAddEvent. destruct (get_event e s) as [ev| | |]; try discriminate. rewrite ret_bind.
  destruct (Nat.leb _ _); [by intros [= _ <- <-]|]. destruct (negb _); [by intros [= _ <- <-]|].
  destruct (epoll_ctl _ _ _ _ _) as [ok k1] eqn:Hctl. destruct (ctl_add_ok _ _ _ _ _ _ Hctl) as (Hf & _).
  destruct ok; intros [= _ <- <-]; (split; [|done]); [|by apply stray_kernel].
  etrans; [by apply (stray_kernel k1)|]. etrans; [apply stray_share|apply stray_release_old].
Qed.

Lemma epollDelEvent_stray e p s err p' s' :
  epollDelEvent e p s = Ret (err, p', s') → same_stray s s' ∧ __epfd p' = __epfd p.
Proof.
  unfold epollDelEvent. destruct (get_event e s) as [ev| | |]; try discriminate. rewrite ret_bind.
  destruct (negb _); [by intros [= _ <- <-]|].
  destruct (epoll_ctl _ _ _ _ _) as [ok k1] eqn:Hctl. destruct (ctl_del_ok _ _ _ _ _ _ Hctl) as (Hf & _).
  destruct ok; intros [= _ <- <-]; (split; [|done]); [|by apply stray_kernel].
  etrans; [by apply (stray_kernel k1)|apply stray_release_old].
Qed.

Lemma collect_stray l p s : same_stray s (snd (collect l p s)).
Proof.
  revert s. induction l as [|[fd ev] l IH]; intros s; cbn [collect]; [done|].
  destruct (__events p !! fd) as [cur|]; [|apply IH].
  destruct (collect l p _) as [ret s1] eqn:E. cbn [snd].
  assert (s1 = snd (collect l p (share cur (update_event (setResponseEvent ev) cur s)))) as -> by by rewrite E.
  etrans; [|apply IH]. etrans; [by apply (stray_update (setResponseEvent ev) cur)|apply stray_share].
Qed.

Lemma epollWait_stray timeout p s : same_stray s (snd (epollWait timeout p s)).
Proof.
  unfold epollWait. destruct (negb _); [done|]. destruct (epoll_wait _ _ _ _) as [r k1] eqn:Hw.
  destruct (wait_ok _ _ _ _ _ _ Hw) as (Hf & _). destruct r as [l|]; [|by apply stray_kernel].
  pose proof (collect_stray l p (set_kernel k1 s)) as Hc. destruct (collect l p _) as [ret s2]. simpl in *.
  etrans; [by apply (stray_kernel k1)|done].
Qed.
End stray.

(** * In the process *)

(** The descriptors of the workers' pollers. *)
Definition poller_fds (ws : list Worker) : list Z := (λ w, __epfd (__eventPoller w)) <$> ws.

Section process.
Context {K R A : Type} `{KernelOk K} `{Env}.
Abbreviation proc := (process K R A).

(** The same stray descriptors, and the same pollers. *)
Definition conserved (s s' : proc) : Prop :=
  same_stray (estore s) (estore s') ∧ poller_fds (workers s') = poller_fds (workers s).

#[export] Instance conserved_preorder : PreOrder conserved.
Proof.
  split; [done|]. intros s1 s2 s3 [H12 P12] [H23 P23]. split; [by etrans|by rewrite P23].
Qed.

Lemma conserved_logged s s' : logged_from s s' → conserved s s'.
Proof. by intros (lg & t & -> & _). Qed.

Lemma conserved_diary file line msg s s' : diary file line msg s = Ret s' → conserved s s'.
Proof.
  unfold diary. destruct (Logger.LOG2DIARY _ _ _ _ _ _) as [lg| | |]; try discriminate.
  rewrite ret_bind. by intros [= <-].
Qed.

(** Replacing a worker by one whose poller has the same descriptor. *)
Lemma poller_fds_put i w w' ws :
  ws !! i = Some w → __epfd (__eventPoller w') = __epfd (__eventPoller w) → poller_fds (<[i := w']> ws) = poller_fds ws.
Proof.
  intros Hi Hw. unfold poller_fds. rewrite list_fmap_insert, Hw. apply list_insert_id. by rewrite list_lookup_fmap, Hi.
Qed.

Lemma conserved_put i w w' s st :
  workers s !! i = Some w → __epfd (__eventPoller w') = __epfd (__eventPoller w) → same_stray (estore s) st →
  conserved s (set_store st (put_worker i w' s)).
Proof. intros Hi Hw Hst. split; [done|]. by apply (poller_fds_put i w). Qed.

Lemma poller_fds_length (s s' : proc) : conserved s s' → length (workers s') = length (workers s).
Proof. intros [_ Hp]. apply (f_equal length) in Hp. unfold poller_fds in Hp. by rewrite !length_fmap in Hp. Qed.

Lemma addEvent_conserved i e s err s' : addEvent i e s = Ret (err, s') → conserved s s'.
Proof.
  unfold addEvent, get_worker. destruct (workers s !! i) as [w|] eqn:Hi; [|done]. rewrite deref_Some_bind.
  destruct (epollAddEvent _ _ _) as [[[err1 p1] st1]| | |] eqn:Ha; try discriminate. rewrite ret_bind. intros [= _ <-].
  destruct (epollAddEvent_stray _ _ _ _ _ _ Ha) as [Hst Hp]. eapply conserved_put; [done|done|].
  etrans; [by apply (stray_update (setWorker (Some i)) e)|]. etrans; [exact Hst|].
  case_decide; [done|by apply stray_update].
Qed.

Lemma delEvent_conserved i e s err s' : delEvent i e s = Ret (err, s') → conserved s s'.
Proof.
  unfold delEvent, get_worker. destruct (workers s !! i) as [w|] eqn:Hi; [|done]. rewrite deref_Some_bind.
  destruct (epollDelEvent _ _ _) as [[[err1 p1] st1]| | |] eqn:Ha; try discriminate. rewrite ret_bind. intros [= _ <-].
  destruct (epollDelEvent_stray _ _ _ _ _ _ Ha) as [Hst Hp]. by eapply conserved_put.
Qed.

Lemma eventPoll_conserved i timeout s events err s' : eventPoll i timeout s = Ret (events, err, s') → conserved s s'.
Proof.
  unfold eventPoll, get_worker. destruct (workers s !! i) as [w|] eqn:Hi; [|done]. rewrite deref_Some_bind.
  pose proof (epollWait_stray timeout (__eventPoller w) (estore s)) as Hw.
  destruct (epollWait _ _ _) as [[ret e1] st1]. by intros [= _ _ <-].
Qed.

Lemma find_worker_store n ios (s : proc) st : find_worker n ios (set_store st s) = find_worker n ios s.
Proof. revert n. induction ios as [|i ios IH]; intros n; [done|]. cbn [find_worker]. unfold get_worker. simpl.
  destruct (workers s !! i) as [w|]; [|done]. rewrite !deref_Some_bind. by destruct (_ && _). Qed.

(** A client that has been accepted ends up in an event, or closed. *)
Lemma accept_client_stray c ios (s : proc) ios' s' :
  accept_client c ios s = Ret (ios', s') →
  (∀ fd, stray fd (estore s') ↔ fd ≠ c ∧ stray fd (estore s)) ∧ poller_fds (workers s') = poller_fds (workers s).
Proof.
  unfold accept_client. destruct (fcntl_getfl c _) as [flags k1] eqn:Hg. destruct (getfl_ok _ _ _ _ Hg) as [Hf1 _].
  set (s1 := in_kernel (λ _, k1) s). assert (same_stray (estore s) (estore s1)) as Hs1 by by apply stray_kernel.
  assert (∀ t : proc, same_stray (estore s) (estore t) → workers t = workers s →
    (∀ fd, stray fd (estore (in_kernel (sys_close c) t)) ↔ fd ≠ c ∧ stray fd (estore s)) ∧
    poller_fds (workers (in_kernel (sys_close c) t)) = poller_fds (workers s)) as Hclose.
  { intros t Ht Hw. split; [|simpl; by rewrite Hw]. intros fd. simpl. rewrite (stray_close c (estore t) fd). by rewrite (Ht fd). }
  destruct flags as [flags|]; [|intros [= _ <-]; by apply Hclose].
  set (s2 := in_kernel _ s1). destruct (setfl_ok c (N.lor flags O_NONBLOCK) k1) as [Hf2 _].
  assert (same_stray (estore s) (estore s2)) as Hs2 by (etrans; [exact Hs1|by apply stray_kernel]).
  destruct (find_worker 0 ios s2) as [found| | |]; try discriminate. rewrite ret_bind.
  destruct found as [[m cur]|]; [|intros [= _ <-]; by apply Hclose].
  destruct (make_event _ _ _) as [e st3] eqn:Hm.
  destruct (addEvent cur e _) as [[err s4]| | |] eqn:Ha; try discriminate. rewrite ret_bind.
  destruct (addEvent_conserved _ _ _ _ _ Ha) as [Hst4 Hp4]. cbn [estore set_store workers] in Hst4, Hp4.
  assert (∀ fd, stray fd (release e (estore s4)) ↔ fd ≠ c ∧ stray fd (estore s)) as Hrel.
  { intros fd. rewrite (stray_release e (estore s4) fd), (Hst4 fd), (stray_make _ _ _ _ _ fd Hm). by rewrite (Hs2 fd). }
  case_decide.
  - destruct (diary _ _ _ _) as [s6| | |] eqn:Hd; try discriminate. rewrite ret_bind. intros [= _ <-].
    destruct (conserved_diary _ _ _ _ _ Hd) as [Hst6 Hp6]. cbn [estore set_store workers] in Hst6, Hp6. split; [|by rewrite Hp6, Hp4].
    intros fd. by rewrite (Hst6 fd).
  - intros [= _ <-]. split; [|exact Hp4]. intros fd. 
    pose proof (stray_close c (release e (estore s4)) fd) as Hcl. simpl in *. rewrite Hcl, Hrel. tauto.
Qed.

Lemma accept_loop_conserved n lfd ios (s : proc) ios' s' : accept_loop n lfd ios s = Ret (ios', s') → conserved s s'.
Proof.
  revert ios s. induction n as [|n IH]; intros ios s; [done|]. cbn [accept_loop].
  destruct (sys_accept lfd _) as [[c|] k1] eqn:Ha; destruct (accept_ok _ _ _ _ Ha) as [_ Hacc].
  - destruct Hacc as (Hc & _ & Hf). destruct (accept_client c ios _) as [[ios1 s2]| | |] eqn:Hac; try discriminate.
    rewrite ret_bind. intros Hl. etrans; [|exact (IH _ _ Hl)].
    destruct (accept_client_stray _ _ _ _ _ Hac) as [Hst Hp]. split; [|exact Hp]. intros fd. rewrite Hst. split.
    + intros [Hne Hs]. by apply (stray_open c k1 (estore s) fd Hf Hc Hne).
    + intros Hs. assert (fd ≠ c) as Hne by (intros ->; by apply Hc, stray_fds). split; [done|].
      by apply (stray_open c k1 (estore s) fd Hf Hc Hne).
  - intros [= _ <-]. split; [|done]. by apply stray_kernel.
Qed.
End process.

(** * In the system of threads *)

Section system.
Context {K R A : Type} `{KernelOk K} `{IRouter R} `{IResourceAccessor A} `{MapOrder} `{FileAvail} `{Env}.
Abbreviation proc := (process K R A).

(** Answering requests touches neither events nor workers. *)
Lemma request_loop_conserved `{SO : SendOracle} n fuel fd in_ out (s : proc) in' out' s' :
  request_loop n fuel fd in_ out s = Ret (in', out', s') → conserved s s'.
Proof.
  revert in_ out s. induction n as [|n IH]; intros in_ out s; cbn [request_loop];
    (destruct (eofbit in_); [by intros [= _ _ <-]|]); [done|].
  destruct (HttpRequest.getOneHttpRequest fuel in_) as [[[error req] in1]| | |]; try discriminate. rewrite ret_bind.
  destruct (diary _ _ _ s) as [s1| | |] eqn:H1'; try discriminate. rewrite ret_bind. apply conserved_diary in H1'.
  case_decide; [|intros Hr; etrans; [exact H1'|by eapply IH]].
  destruct (diary _ _ _ s1) as [s2| | |] eqn:H2'; try discriminate. rewrite ret_bind. apply conserved_diary in H2'.
  destruct (HttpResponse.getResponseFromRequest _ _ _ _) as [[res a1]| | |]; try discriminate. rewrite ret_bind.
  destruct (HttpResponse.response _ _ _ _) as [[error2 [[out1 res1] buff1]]| | |]; try discriminate. rewrite ret_bind.
  destruct (diary _ _ _ (set_buff buff1 _)) as [s3| | |] eqn:H3'; try discriminate. rewrite ret_bind. apply conserved_diary in H3'.
  intros Hr. etrans; [exact H1'|]. etrans; [exact H2'|]. etrans; [|by eapply IH]. exact H3'.
Qed.

Lemma handleEvent_conserved fuel i e (s s' : proc) : handleEvent fuel i e s = Ret s' → conserved s s'.
Proof.
  unfold handleEvent, get_worker. destruct (workers s !! i) as [w|] eqn:Hi; [|done]. rewrite deref_Some_bind.
  destruct (__eventHandler w) as [|ios].
  - unfold IOEventHandler_handle. destruct (get_event e (estore s)) as [ev| | |]; try discriminate. rewrite ret_bind. cbv zeta.
    destruct (request_loop _ _ _ _ _ _) as [[[in' out'] s1]| | |] eqn:Hr; try discriminate. rewrite ret_bind.
    apply request_loop_conserved in Hr. destruct (get_event e (estore s1)) as [ev1| | |]; try discriminate. rewrite ret_bind.
    destruct (getWorker ev1) as [j|]; [|done]. rewrite deref_Some_bind.
    destruct (delEvent j e s1) as [[err s2]| | |] eqn:Hd; try discriminate. intros [= <-].
    etrans; [exact Hr|by eapply delEvent_conserved].
  - unfold ListenEventHandler_handle. destruct (get_event e (estore s)) as [ev| | |]; try discriminate. rewrite ret_bind.
    destruct (accept_loop _ _ _ _) as [[ios1 s1]| | |] eqn:Ha; try discriminate. rewrite !ret_bind.
    apply accept_loop_conserved in Ha. destruct (workers s1 !! i) as [w1|] eqn:Hw1; [|done]. rewrite deref_Some_bind.
    intros [= <-]. etrans; [exact Ha|]. change (put_worker i ?w s1) with (set_store (estore s1) (put_worker i w s1)).
    by eapply conserved_put.
Qed.

Lemma worker_exit_conserved i error (s s' : proc) : worker_exit i error s = Ret s' → conserved s s'.
Proof.
  unfold worker_exit, get_worker. destruct (workers s !! i) as [w|] eqn:Hi; [|done]. rewrite deref_Some_bind.
  intros Hd. etrans; [|by eapply conserved_diary].
  change (put_worker i ?w s) with (set_store (estore s) (put_worker i w s)). by eapply conserved_put.
Qed.

Lemma sys_step_conserved fuel (y y' : system) : sys_step fuel y y' → conserved (sp y) (sp y').
Proof.
  intros [i w events s1 s Hi _ Hp|i e s1 s _ _ Hh|i e rest s _|i w events error s1 s2 s Hi _ Hp _ Hx
         |i w error s1 s Hi _ Hx|i w s Hi]; cbn [sp].
  - by eapply eventPoll_conserved.
  - by eapply handleEvent_conserved.
  - split; [apply stray_release|done].
  - etrans; [by eapply eventPoll_conserved|by eapply worker_exit_conserved].
  - by eapply worker_exit_conserved.
  - change (put_worker i ?w ?s) with (set_store (estore s) (put_worker i w s)). by eapply conserved_put.
Qed.

Lemma reachable_conserved fuel (y y' : system) : reachable (sys_step fuel) y y' → conserved (sp y) (sp y').
Proof. induction 1 as [|y1 y2 _ IH Hst]; [done|]. etrans; [exact IH|by eapply sys_step_conserved]. Qed.
End system.
