(* ===== verification/Client.v ===== *)
(** A client from its registration to its answers: whatever the threads do, its
    event stays with the worker it was given to until a thread handles it; until
    then every wait that reports its descriptor returns the event, and the call that
    handles it sends the answers. *)

From S2P Require Export System.

Section client.
Context {K R A : Type} `{KernelOk K} `{IRouterOk R} `{IResourceAccessorOk A} `{MapOrderOk} `{FileAvailOk} `{EnvOk}.
Abbreviation proc := (process K R A).

(** The event [e] of the client [c] is registered with the I/O worker [cur]. *)
Definition registered (cur : nat) (c : Z) (e : eptr) (s : proc) : Prop :=
  ∃ w, workers s !! cur = Some w ∧ __eventHandler w = IOEventHandler ∧ __events (__eventPoller w) !! c = Some e.

(** The event is live, for the client, and knows the worker. *)
Lemma registered_event cur c e locals (s : proc) :
  proc_wf locals s → registered cur c e s →
  ∃ ev, get_event e (estore s) = Ret ev ∧ getFD ev = c ∧ getWorker ev = Some cur.
Proof.
  intros Hs (w & Hw & _ & He). destruct (wf_map _ _ _ (pw_pollers _ _ Hs _ _ Hw) _ _ He) as ([ev n] & Hev & Hfd & Hwk).
  exists ev. split; [|done]. unfold get_event. by rewrite Hev.
Qed.

(** Changing a worker so that this client stays. *)
Lemma registered_put cur c e i w w' (s s' : proc) :
  workers s !! i = Some w → workers s' = <[i := w']> (workers s) → __eventHandler w' = __eventHandler w →
  (__events (__eventPoller w) !! c = Some e → __events (__eventPoller w') !! c = Some e) →
  registered cur c e s → registered cur c e s'.
Proof.
  intros Hi Hs' Hh Hev (w0 & Hw0 & Hh0 & He). unfold registered. rewrite Hs'. destruct (decide (i = cur)) as [->|Hne].
  - rewrite Hi in Hw0. injection Hw0 as <-. exists w'. split_and!; [|by rewrite Hh|by apply Hev].
    apply list_lookup_insert_eq. by eapply lookup_lt_Some.
  - exists w0. by rewrite list_lookup_insert_ne.
Qed.

Lemma registered_same cur c e (s s' : proc) : workers s' = workers s → registered cur c e s → registered cur c e s'.
Proof. unfold registered. by intros ->. Qed.

(** Another client is accepted. *)
Lemma accept_client_registered c' ios ios' cur c e (s s' : proc) :
  c' ≠ c → served c' ios ios' s s' ∨ refused c' ios ios' s s' → registered cur c e s → registered cur c e s'.
Proof.
  intros Hne [(i & j & w & w' & e' & _ & _ & Hw & _ & _ & Hs' & -> & _)|(_ & Hs' & _)]; [|by apply registered_same].
  apply (registered_put _ _ _ j w (watch c' e' w)); [done|done|done|]. cbn. by rewrite lookup_insert_ne.
Qed.

Lemma accept_loop_registered n lfd ios locals cur c e (s : proc) ios' s' :
  proc_wf locals s → known ios s → registered cur c e s → accept_loop n lfd ios s = Ret (ios', s') →
  registered cur c e s'.
Proof.
  revert ios s. induction n as [|n IH]; intros ios s Hs Hk Hreg; [done|]. cbn [accept_loop].
  destruct (sys_accept lfd _) as [[c'|] k1] eqn:Ha; [|by intros [= _ <-]].
  destruct (accept_unowned _ _ _ _ _ Hs Ha) as (Hs1 & Hc & Hun).
  destruct (accept_client_ok c' ios locals (in_kernel (λ _, k1) s)) as (ios1 & s2 & -> & Hs2 & _ & Hcase); [done..|].
  rewrite ret_bind. destruct (registered_event _ _ _ _ _ Hs Hreg) as (ev & Hev & Hfd & _).
  assert (c' ≠ c) as Hne.
  { intros ->. unfold get_event in Hev. destruct (evs (estore s) !! e) as [[ev' n']|] eqn:E; [|done]. injection Hev as ->. by apply (Hun _ _ E). }
  apply IH; [done| |by eapply accept_client_registered].
  apply handled_client in Hcase as [Hp Hl]. eapply known_workers; [exact Hl|]. unfold known. rewrite Hp. exact Hk.
Qed.

(** The handler is called on another event. *)
Lemma handle_registered fuel i e' cur c e (y : system) s1 :
  sys_inv fuel y → (i, e') ∈ batches y → input_fits fuel e' (sp y) → e' ≠ e →
  registered cur c e (sp y) → handleEvent fuel i e' (sp y) = Ret s1 → registered cur c e s1.
Proof.
  intros Hy Hin Hfit Hne Hreg. destruct (link_event i e' y fuel Hy Hin) as (ev' & w & Hg & Hw & Hi).
  pose proof (held_elem _ _ _ Hin) as He'. unfold handleEvent, get_worker. rewrite Hi, deref_Some_bind.
  destruct (__eventHandler w) as [|ios] eqn:Hh.
  - destruct (io_handle_ends fuel i w e' ev' _ (sp y) (si_wf _ _ Hy) (si_serves _ _ Hy) He' Hg Hw Hi (Hfit _ Hg))
      as (l & in1 & _ & [(_ & s' & -> & _ & _ & _ & Hun)|[(_ & _ & ->)|(_ & x & _ & ->)]]); [|done|done].
    rewrite ret_bind. intros [= <-]. apply (registered_put _ _ _ i w (unwatch (getFD ev') w) (sp y)); [done|exact Hun|done| |exact Hreg].
    intros Hc. cbn. rewrite lookup_delete_ne; [done|]. intros Heq. apply Hne.
    destruct (registered_event _ _ _ _ _ (si_wf _ _ Hy) Hreg) as (ev & Hev & Hfd & _). unfold get_event in Hev, Hg.
    destruct (evs (estore (sp y)) !! e) as [[? ?]|] eqn:E; [|done]. destruct (evs (estore (sp y)) !! e') as [[? ?]|] eqn:E'; [|done].
    injection Hev as ->. injection Hg as ->. eapply (wf_fds _ _ (pw_store _ _ (si_wf _ _ Hy))); [exact E'|exact E|]. simpl. congruence.
  - unfold ListenEventHandler_handle. rewrite Hg, ret_bind.
    destruct (accept_loop _ _ _ _) as [[ios1 s2]| | |] eqn:Hl; try discriminate. rewrite !ret_bind.
    assert (known ios (sp y)) as Hk by by eapply si_lists.
    pose proof (accept_loop_registered _ _ _ _ _ _ _ _ _ _ (si_wf _ _ Hy) Hk Hreg Hl) as Hreg2.
    destruct (accept_loop_ok fuel (getFD ev') ios _ (sp y) (si_wf _ _ Hy) Hk) as [Hsp|(ios' & s' & Hrun & _ & _ & Hfr)];
      [by rewrite Hl in Hsp|]. rewrite Hl in Hrun. injection Hrun as <- <-.
    destruct (workers s2 !! i) as [w2|] eqn:Hw2; [|done]. rewrite deref_Some_bind. intros [= <-].
    destruct (handlers_same _ _ _ _ _ (frame_kept _ _ _ Hfr) Hw2) as (w0 & Hw0 & Hh0). rewrite Hi in Hw0. injection Hw0 as <-.
    destruct Hreg2 as (wc & Hwc & Hhc & Hec). exists wc. split; [|done]. cbn.
    rewrite list_lookup_insert_ne; [done|]. intros ->. rewrite Hw2 in Hwc. injection Hwc as ->. congruence.
Qed.

Lemma logged_workers (s s' : proc) file line msg : diary file line msg s = Ret s' → workers s' = workers s.
Proof.
  unfold diary. destruct (Logger.LOG2DIARY _ _ _ _ _ _) as [lg| | |]; try discriminate. rewrite ret_bind. by intros [= <-].
Qed.

Lemma exit_registered i error cur c e (s s' : proc) :
  worker_exit i error s = Ret s' → registered cur c e s → registered cur c e s'.
Proof.
  unfold worker_exit, get_worker. destruct (workers s !! i) as [w|] eqn:Hi; [|done]. rewrite deref_Some_bind.
  intros Hd%logged_workers Hreg. by apply (registered_put _ _ _ i w (stop w) s).
Qed.

Lemma poll_workers i events error (s s1 : proc) : eventPoll i (-1) s = Ret (events, error, s1) → workers s1 = workers s.
Proof.
  unfold eventPoll, get_worker. destruct (workers s !! i); [|done]. rewrite deref_Some_bind.
  destruct (epollWait _ _ _) as [[ret e1] st1]. by intros [= _ _ <-].
Qed.

(** A step keeps the client's registration, or is the call that handles it. *)
Definition handled_by (fuel : nat) (e : eptr) (y y' : system) : Prop :=
  ∃ i s1, (i, e) ∈ batches y ∧ input_fits fuel e (sp y) ∧ handleEvent fuel i e (sp y) = Ret s1 ∧ y' = mk_system s1 (batches y).

Lemma step_registered fuel cur c e (y y' : system) :
  sys_inv fuel y → sys_step fuel y y' → registered cur c e (sp y) →
  registered cur c e (sp y') ∨ handled_by fuel e y y'.
Proof.
  intros Hy Hst. revert Hy.
  destruct Hst as [i w events s1 s Hi _ Hp|i e' s1 s Hin Hfit Hh|i e' rest s _|i w events error s1 s2 s Hi _ Hp _ Hx
    |i w error s1 s Hi _ Hx|i w s Hi]; intros Hy Hreg; cbn [sp].
  - left. by eapply registered_same; [by eapply poll_workers|].
  - destruct (decide (e' = e)) as [->|Hne]; [right; by exists i, s1|left]. by eapply handle_registered.
  - by left.
  - left. eapply exit_registered; [exact Hx|]. by eapply registered_same; [by eapply poll_workers|].
  - left. by eapply exit_registered.
  - left. by apply (registered_put _ _ _ i w (stop w) (sp s)).
Qed.

Lemma reachable_registered fuel cur c e (y0 y : system) :
  sys_inv fuel y0 → registered cur c e (sp y0) → reachable (sys_step fuel) y0 y →
  sys_inv fuel y ∧
  (registered cur c e (sp y) ∨
   ∃ y1 y2, reachable (sys_step fuel) y0 y1 ∧ sys_inv fuel y1 ∧ registered cur c e (sp y1) ∧
            handled_by fuel e y1 y2 ∧ reachable (sys_step fuel) y2 y).
Proof.
  intros Hy0 Hreg. induction 1 as [|y1 y2 Hr [Hy1 IH] Hst]; [by split; [|left]|].
  split; [by eapply sys_step_inv|]. destruct IH as [Hreg1|(z1 & z2 & ? & ? & ? & ? & Hz)].
  - destruct (step_registered _ _ _ _ _ _ Hy1 Hst Hreg1) as [|Hh]; [by left|right].
    exists y1, y2. split_and!; try done. apply reach_refl.
  - right. exists z1, z2. split_and!; try done. by eapply reach_step.
Qed.

(** Whenever the kernel reports a registered descriptor, its event is polled. *)
Lemma registered_polled cur c e w l k1 locals (s : proc) :
  proc_wf locals s → registered cur c e s → workers s !! cur = Some w →
  epoll_wait (__epfd (__eventPoller w)) (maxFDS (__eventPoller w)) (-1) (kernel (estore s)) = (Some l, k1) → c ∈ l.*1 →
  ∃ events s1, eventPoll cur (-1) s = Ret (events, SERVER_OK, s1) ∧ e ∈ events.
Proof.
  intros Hs (w0 & Hw0 & _ & He) Hw Hwait Hc. rewrite Hw in Hw0. injection Hw0 as <-.
  unfold eventPoll, get_worker. rewrite Hw, deref_Some_bind. unfold epollWait. rewrite (pw_valid _ _ Hs _ _ Hw), Hwait. cbn [negb].
  destruct (wait_ok _ _ _ _ _ _ Hwait) as (Hf & Hint & _).
  destruct (collect_ok l cur (__eventPoller w) (set_kernel k1 (estore s)) (refs_of (workers s) ++ locals)) as (ret & s2 & -> & _ & _ & _ & -> & _).
  { by apply set_kernel_wf, (pw_store _ _ Hs). }
  { apply epoll_wf_set_kernel; [by rewrite Hint|by apply (pw_pollers _ _ Hs)]. }
  eexists _, _. split; [done|]. apply list_elem_of_omap. apply list_elem_of_fmap in Hc as ([fd rev] & -> & Hin).
  by exists (fd, rev).
Qed.
(** What becomes of a registered client between two states: it is still registered
    and polled when the kernel reports it, or the call that handled it answered it. *)
Definition attended (fuel cur : nat) (c : Z) (e : eptr) (y0 y : @system K R A) : Prop :=
  (registered cur c e (sp y) ∧ ∀ w l k1, workers (sp y) !! cur = Some w →
     epoll_wait (__epfd (__eventPoller w)) (maxFDS (__eventPoller w)) (-1) (kernel (estore (sp y))) = (Some l, k1) →
     c ∈ l.*1 → ∃ events s1, eventPoll cur (-1) (sp y) = Ret (events, SERVER_OK, s1) ∧ e ∈ events) ∨
  ∃ y1 y2, reachable (sys_step fuel) y0 y1 ∧ handled_by fuel e y1 y2 ∧ reachable (sys_step fuel) y2 y ∧
    ∀ reqs, let k := kernel (estore (sp y1)) in
      arriving reqs (sock_incoming c k) → (length reqs < fuel)%nat →
      ∃ sent, IOEventHandler_handle fuel e (sp y1) = Ret (SERVER_OK, sent, sp y2) ∧
              sent_of (sock_send c k) (answers_wire (router (sp y1)) reqs) sent.

Lemma registered_attended fuel cur c e (y0 y : @system K R A) :
  sys_inv fuel y0 → registered cur c e (sp y0) → reachable (sys_step fuel) y0 y → attended fuel cur c e y0 y.
Proof.
  intros Hy0 Hreg Hr. destruct (reachable_registered fuel cur c e y0 y Hy0 Hreg Hr)
    as [Hy [Hry|(y1 & y2 & Hr1 & Hy1 & Hreg1 & Hh & Hr2)]].
  - left. split; [done|]. intros w l k1 Hw Hwait Hc. by eapply registered_polled; [apply Hy|..].
  - right. exists y1, y2. split_and!; [done..|]. intros reqs k Hin Hn.
    destruct Hh as (i & s1 & Hb & Hfit & Hrun & ->).
    destruct (registered_event _ _ _ _ _ (si_wf _ _ Hy1) Hreg1) as (ev & Hev & <- & Hwk).
    destruct (link_event i e y1 fuel Hy1 Hb) as (ev' & w & Hev' & Hwk' & Hw). rewrite Hev in Hev'. injection Hev' as <-.
    rewrite Hwk in Hwk'. injection Hwk' as <-.
    destruct (io_handle_answers fuel cur w e ev reqs ((batches y1).*2) (sp y1)) as (s' & Hans & _);
      [apply Hy1|apply Hy1|by eapply held_elem|exact Hev|exact Hwk|exact Hw|exact Hin
      |rewrite <- (proj1 Hin); by apply Hfit|exact Hn|].
    eexists. rewrite Hans. split; [do 2 f_equal|rewrite <- answered_bytes; apply conn_sent_of]. cbn [sp]. destruct Hreg1 as (w0 & Hw0 & Hh0 & _). rewrite Hw in Hw0. injection Hw0 as <-.
    unfold handleEvent, get_worker in Hrun. rewrite Hw, deref_Some_bind, Hh0, Hans, ret_bind in Hrun. by injection Hrun.
Qed.
End client.

(** * Properties *)

Section properties.
Context {K R A : Type} `{KernelOk K} `{IRouterOk R} `{IResourceAccessorOk A} `{MapOrderOk} `{FileAvailOk} `{EnvOk}.
Abbreviation proc := (process K R A).

(** C3: no client is forgotten: in every interleaving of the threads, the event of
    a client that has been registered with an I/O worker stays registered with it,
    so that whenever the kernel reports the descriptor the worker's poll returns the
    event, until a thread handles it; and that call answers the client: if what it
    has sent are well-formed requests, without bodies or in one piece that fits into
    the buffer, and no more of them than the fuel, it returns having answered them in
    their order: exactly the answers are sent when every [send] takes all it is
    given, and a prefix of them when some of them take nothing. *)
Theorem client_not_forgotten fuel cur c e (y0 y : @system K R A) :
  sys_inv fuel y0 → registered cur c e (sp y0) → reachable (sys_step fuel) y0 y →
  (registered cur c e (sp y) ∧ ∀ w l k1, workers (sp y) !! cur = Some w →
     epoll_wait (__epfd (__eventPoller w)) (maxFDS (__eventPoller w)) (-1) (kernel (estore (sp y))) = (Some l, k1) →
     c ∈ l.*1 → ∃ events s1, eventPoll cur (-1) (sp y) = Ret (events, SERVER_OK, s1) ∧ e ∈ events) ∨
  ∃ y1 y2, reachable (sys_step fuel) y0 y1 ∧ handled_by fuel e y1 y2 ∧ reachable (sys_step fuel) y2 y ∧
    ∀ reqs, let k := kernel (estore (sp y1)) in
      arriving reqs (sock_incoming c k) → (length reqs < fuel)%nat →
      ∃ sent, IOEventHandler_handle fuel e (sp y1) = Ret (SERVER_OK, sent, sp y2) ∧
              sent_of (sock_send c k) (answers_wire (router (sp y1)) reqs) sent.
Proof. apply registered_attended. Qed.
End properties.
