(* ===== verification/Admission.v ===== *)
(** From the queue of the listening socket to the answers: the clients that a call
    of the listening handler takes in are registered, and from then on attended to
    in every interleaving. *)

From S2P Require Export Client Distribution.

Section admission.
Context {K R A : Type} `{KernelOk K} `{IRouterOk R} `{IResourceAccessorOk A} `{MapOrderOk} `{FileAvailOk} `{EnvOk}.
Abbreviation proc := (process K R A).

(** The workers of the list are I/O workers. *)
Definition io_list (ios : list nat) (s : proc) : Prop :=
  ∀ i w, i ∈ ios → workers s !! i = Some w → __eventHandler w = IOEventHandler.

(** One accepted client: the books, the list and the other clients are kept. *)
Lemma accepted_keeps lfd c k1 ios ios1 locals (s s2 : proc) :
  proc_wf locals s → known ios s → io_list ios s →
  sys_accept lfd (kernel (estore s)) = (Some c, k1) → accept_client c ios (in_kernel (λ _, k1) s) = Ret (ios1, s2) →
  proc_wf locals s2 ∧ known ios1 s2 ∧ io_list ios1 s2 ∧
  ∀ cur c0 e, registered cur c0 e s → registered cur c0 e s2.
Proof.
  intros Hs Hk Hio Ha Hrun. destruct (accept_unowned _ _ _ _ _ Hs Ha) as (Hs1 & Hc & Hun).
  destruct (accept_client_ok c ios locals (in_kernel (λ _, k1) s)) as (ios' & s' & Hrun' & Hs2 & Hfr & Hcase); [done..|].
  rewrite Hrun in Hrun'. injection Hrun' as <- <-. pose proof (handled_client _ _ _ _ _ Hcase) as [Hp Hl].
  split_and!; [done| | |].
  - eapply known_workers; [exact Hl|]. unfold known. by rewrite Hp.
  - intros i w2 Hi Hw2. rewrite Hp in Hi. destruct (handlers_same _ _ _ _ _ (frame_kept _ _ _ Hfr) Hw2) as (w & Hw & <-).
    by eapply Hio.
  - intros cur c0 e Hreg. eapply (accept_client_registered c); [|exact Hcase|exact Hreg].
    intros ->. destruct (registered_event _ _ _ _ _ Hs Hreg) as (ev & Hev & Hfd & _). unfold get_event in Hev.
    destruct (evs (estore s) !! e) as [[ev' n']|] eqn:E; [|done]. injection Hev as ->. by apply (Hun _ _ E).
Qed.

Lemma served_registered c cur ios ios1 (s s2 : proc) :
  io_list ios s → served c ios ios1 s s2 → list.last ios1 = Some cur → ∃ e, registered cur c e s2.
Proof.
  intros Hio (p & cur' & w & w' & e & Hp & -> & Hw & _ & _ & Hws & -> & _) Hlast.
  rewrite last_snoc in Hlast. injection Hlast as ->. exists e, (watch c e w). split_and!.
  - rewrite Hws. apply list_lookup_insert_eq. by eapply lookup_lt_Some.
  - apply (Hio cur w); [by eapply list_elem_of_lookup_2|done].
  - cbn. apply lookup_insert_eq.
Qed.

Lemma distribution_keeps lfd ios (s : proc) l ios' s' locals cur c e :
  distribution lfd ios s l ios' s' → proc_wf locals s → known ios s → io_list ios s →
  registered cur c e s → registered cur c e s'.
Proof.
  induction 1 as [|c' cur' l ios ios1 ios' s k1 s2 s' Ha Hrun _ _ _ IH|c' l ios ios1 ios' s k1 s2 s' Ha Hrun _ _ IH];
    intros Hs Hk Hio Hreg; [done|..];
    destruct (accepted_keeps _ _ _ _ _ _ _ _ Hs Hk Hio Ha Hrun) as (Hs2 & Hk2 & Hio2 & Hkeep); by eauto.
Qed.

Lemma distribution_registered lfd ios (s : proc) l ios' s' locals c cur :
  distribution lfd ios s l ios' s' → proc_wf locals s → known ios s → io_list ios s →
  (c, Some cur) ∈ l → ∃ e, registered cur c e s'.
Proof.
  induction 1 as [|c' cur' l ios ios1 ios' s k1 s2 s' Ha Hrun Hsv Hlast Hd IH|c' l ios ios1 ios' s k1 s2 s' Ha Hrun _ _ IH];
    intros Hs Hk Hio Hin; [by apply not_elem_of_nil in Hin|..];
    destruct (accepted_keeps _ _ _ _ _ _ _ _ Hs Hk Hio Ha Hrun) as (Hs2 & Hk2 & Hio2 & Hkeep);
    apply elem_of_cons in Hin as [Heq|Hin]; [|by eauto|done|by eauto].
  injection Heq as -> ->. destruct (served_registered _ _ _ _ _ _ Hio Hsv Hlast) as [e He].
  exists e. by eapply distribution_keeps.
Qed.
Lemma distribution_takers lfd ios (s : proc) l ios' s' c cur :
  distribution lfd ios s l ios' s' → (c, Some cur) ∈ l → cur ∈ ios.
Proof.
  induction 1 as [|c' cur' l ios ios1 ios' s k1 s2 s' _ _ Hsv Hlast _ IH|c' l ios ios1 ios' s k1 s2 s' _ _ Href _ IH];
    intros Hin; [by apply not_elem_of_nil in Hin|..]; apply elem_of_cons in Hin as [Heq|Hin]; [|..|done|].
  - injection Heq as -> ->. destruct (handled_client _ _ _ _ _ (or_introl Hsv)) as [<- _].
    apply last_Some in Hlast as [l' ->]. set_solver.
  - destruct (handled_client _ _ _ _ _ (or_introl Hsv)) as [<- _]. by apply IH.
  - destruct Href as (-> & _). by apply IH.
Qed.
End admission.

Section attending.
Context {K R A : Type} `{KernelOk K} `{IRouterOk R} `{IResourceAccessorOk A} `{MapOrderOk} `{FileAvailOk} `{EnvOk}.

(** From the queue to the answers: when the thread of the listening worker
    handles its event, it takes in clients until nobody is waiting, and each client
    that it gives to a worker is registered there and from then on attended to in
    every interleaving of all threads: it stays registered, and polled whenever the
    kernel reports it, until a thread handles it, and that call answers all its
    requests in their order. *)
Lemma accepted_clients_attended fuel i e ev w ios (y0 : @system K R A) s1 :
  sys_inv fuel y0 → (i, e) ∈ batches y0 → input_fits fuel e (sp y0) → get_event e (estore (sp y0)) = Ret ev →
  workers (sp y0) !! i = Some w → __eventHandler w = ListenEventHandler ios → io_list ios (sp y0) →
  handleEvent fuel i e (sp y0) = Ret s1 →
  let y1 := mk_system s1 (batches y0) in
  ∃ l ios' s2 k1, distribution (getFD ev) ios (sp y0) l ios' s2 ∧
    sys_accept (getFD ev) (kernel (estore s2)) = (None, k1) ∧
    ∀ c cur, (c, Some cur) ∈ l → ∃ e', registered cur c e' s1 ∧
      ∀ y, reachable (sys_step fuel) y1 y → attended fuel cur c e' y1 y.
Proof.
  intros Hy Hin Hfit Hev Hw Hh Hio Hrun y1. pose proof (si_wf _ _ Hy) as Hs.
  assert (known ios (sp y0)) as Hk by by eapply si_lists.
  assert (sys_inv fuel y1) as Hy1 by (eapply sys_step_inv; [exact Hy|by eapply sys_handle]).
  unfold handleEvent, get_worker in Hrun. rewrite Hw, deref_Some_bind, Hh in Hrun.
  unfold ListenEventHandler_handle in Hrun. rewrite Hev, ret_bind in Hrun.
  destruct (accept_loop_distribution fuel (getFD ev) ios _ (sp y0) Hs Hk)
    as (l & ios' & s2 & Hl & [(_ & k1 & Ha & Hloop)|(_ & Hloop)]); rewrite Hloop in Hrun; [|done].
  rewrite !ret_bind in Hrun. exists l, ios', s2, k1. split_and!; [done..|].
  intros c cur Hc. destruct (distribution_registered _ _ _ _ _ _ _ c cur Hl Hs Hk Hio Hc) as [e' He'].
  assert (registered cur c e' s1) as Hreg.
  { destruct He' as (wc & Hwc & Hhc & Hec). cbn [workers in_kernel set_store] in Hrun.
    destruct (workers s2 !! i) as [w2|] eqn:Hw2; [|done]. rewrite deref_Some_bind in Hrun. injection Hrun as <-.
    exists wc. split; [|done]. cbn. rewrite list_lookup_insert_ne; [done|]. intros ->. rewrite Hw2 in Hwc. injection Hwc as ->.
    destruct (accept_loop_ok fuel (getFD ev) ios _ (sp y0) Hs Hk) as [Hsp|(ios3 & s3 & Hrun3 & _ & _ & Hfr)]; [by rewrite Hloop in Hsp|].
    rewrite Hloop in Hrun3. injection Hrun3 as <- <-.
    destruct (handlers_same _ _ _ _ _ (frame_kept _ _ _ Hfr) Hw2) as (w0 & Hw0 & Hh0). congruence. }
  exists e'. split; [done|]. intros y Hr. by apply registered_attended.
Qed.
End attending.
