(* ===== verification/ReactorExamples.v ===== *)
(** A process with an I/O worker that serves one client and a listening worker,
    over the small operating system, and the reactor's theorems about it. *)

From S2P Require Export System Truncated Client Admission EpollExamples HttpExamples.
From S2P Require HttpRequest LogExamples Incomplete.

#[local] Existing Instances list_order list_order_ok all_avail all_avail_ok two_files two_files_ok.

#[local] Instance quiet_env : Env := {|
  clock _ := None; file_name f := f; thread_text _ := $"thread"; uninit := blank
|}.
#[local] Instance quiet_env_ok : EnvOk.
Proof. vm_compute. reflexivity. Qed.

(** * Running steps

    A thread polls, handles what it has polled, or its worker is stopped; and
    whether it can be. *)
Section steps.
Context {K R A : Type} `{KernelOk K} `{IRouterOk R} `{IResourceAccessorOk A} `{MapOrderOk} `{FileAvailOk} `{EnvOk}.
Abbreviation threads := (@system K R A).

Definition poll_now (i : nat) (y : threads) : threads :=
  match eventPoll i (-1) (sp y) with Ret (l, _, p) => mk_system p (((λ e, (i, e)) <$> l) ++ batches y) | _ => y end.
Definition can_poll (i : nat) (y : threads) : bool :=
  match workers (sp y) !! i, eventPoll i (-1) (sp y) with
  | Some w, Ret (_, SERVER_OK, _) => isRunning w
  | _, _ => false
  end.

Definition handle_now (fuel i : nat) (e : eptr) (y : threads) : threads :=
  match handleEvent fuel i e (sp y) with Ret p => mk_system p (batches y) | _ => y end.
Definition can_handle (fuel i : nat) (e : eptr) (y : threads) : bool :=
  bool_decide ((i, e) ∈ batches y) &&
  match get_event e (estore (sp y)), handleEvent fuel i e (sp y) with
  | Ret ev, Ret _ => Nat.ltb (length (visible (sock_incoming (getFD ev) (kernel (estore (sp y)))))) fuel
  | _, _ => false
  end.

Definition stop_now (i : nat) (y : threads) : threads :=
  match workers (sp y) !! i with
  | Some w => mk_system (put_worker i (stop w) (sp y)) (batches y)
  | None => y
  end.

Lemma poll_now_step fuel i y : can_poll i y = true → sys_step fuel y (poll_now i y).
Proof.
  unfold can_poll, poll_now. destruct (workers (sp y) !! i) as [w|] eqn:Hi; [|done].
  destruct (eventPoll i (-1) (sp y)) as [[[l []] p]| | |] eqn:Hp; try done. intros Hr. by eapply sys_poll.
Qed.

Lemma handle_now_step fuel i e y : can_handle fuel i e y = true → sys_step fuel y (handle_now fuel i e y).
Proof.
  unfold can_handle, handle_now. intros [Hin%bool_decide_eq_true Hf]%andb_prop.
  destruct (get_event e (estore (sp y))) as [ev| | |] eqn:Hev; try done.
  destruct (handleEvent fuel i e (sp y)) as [p| | |] eqn:Hh; try done. apply Nat.ltb_lt in Hf.
  eapply sys_handle; [exact Hin| |exact Hh]. intros ev' Hev'. rewrite Hev in Hev'. by injection Hev' as <-.
Qed.

Lemma stop_now_step fuel i y :
  bool_decide (is_Some (workers (sp y) !! i)) = true → sys_step fuel (mk_system (sp y) (batches y)) (stop_now i y).
Proof.
  intros [w Hw]%bool_decide_eq_true. unfold stop_now. rewrite Hw.
  by apply (sys_stop fuel i w (mk_system (sp y) (batches y))).
Qed.
End steps.

Abbreviation demo_proc := (process sim_os Router ()).

(** * The process *)

Definition lost_request : HttpRequest.HttpRequest := HttpRequest.mk_HttpRequest GET ($"/lost") HTTP_1_0 bare_headers [].
Definition demo_requests : list HttpRequest.HttpRequest := [home_request; lost_request].

Definition demo_wire : bytes := requests_wire demo_requests.

(** Descriptor 6 is the client's, 5 the listening socket; client 7 waits to be
    accepted ([late] whether it has been). The requests arrive in two pieces. *)
Definition demo_kernel (add late : bool) : sim_os :=
  mk_sim_os ({[0; 1; 2; 3; 4; 5; 6]} ∪ (if late then {[7]} else ∅))
         {[3 := {[6 := EPOLLIN]}; 4 := {[5 := EPOLLIN]}]} 8 [7] [(6, EPOLLIN); (5, EPOLLIN)]
         {[6 := [take 10 demo_wire; drop 10 demo_wire]]} add true.

Definition listen_event : Event := setWorker (Some 1%nat) (new_Event 5 EPOLLIN).
Definition client_event : Event := setWorker (Some 0%nat) (new_Event 6 EPOLLIN).

(** The I/O thread holds a pointer to its client's event, which it has polled. *)
Definition demo_store (add late : bool) : store sim_os :=
  mk_store (demo_kernel add late) {[1%nat := (listen_event, 1%nat); 2%nat := (client_event, 2%nat)]}.

Definition io_worker : Worker := mk_Worker true (mk_Epoll 3 10 {[6 := 2%nat]}) IOEventHandler.
Definition listen_worker : Worker := mk_Worker true (mk_Epoll 4 10 {[5 := 1%nat]}) (ListenEventHandler [0%nat]).

Definition demo (add late : bool) : demo_proc :=
  mk_process (demo_store add late) [io_worker; listen_worker] new_Router () blank
             (LogExamples.opened (H:=LogExamples.reliable_fs)) 0.

Definition demo_system : system := mk_system (demo true false) [(0%nat, 2%nat)].

(** * It is well formed and serves *)

Lemma demo_log_ok : log_ok (LogExamples.opened (H:=LogExamples.reliable_fs)).
Proof. split; [by split_and!; constructor|done]. Qed.

Lemma demo_wf add late : proc_wf [2%nat] (demo add late).
Proof.
  split.
  - apply store_check_ok. destruct add, late; vm_compute; reflexivity.
  - intros [|[|i]] w Hi; simpl in Hi; [injection Hi as <-..|done]; apply epoll_check_ok; destruct add, late; vm_compute; reflexivity.
  - by intros [|[|i]] w [= <-].
  - intros [|[|i]] [|[|j]] wi wj; simpl; try done; by intros [= <-] [= <-].
  - exact demo_log_ok.
Qed.

Lemma error_page_short c : c ∈ [505; 501; 404; 500]%N → (length (error_page new_Router c) ≤ 200)%nat.
Proof.
  intros Hc. unfold error_page. destruct (resource_content (route_code new_Router c)) as [d|] eqn:Hd; simpl.
  - unfold resource_content in Hd. destruct (route_code new_Router c); [done|].
    apply two_files_short in Hd. lia.
  - repeat (apply elem_of_cons in Hc as [->|Hc]; [decide_now|]). by apply not_elem_of_nil in Hc.
Qed.

Lemma answers_short req : (length (answer_body req new_Router) ≤ 200)%nat.
Proof.
  assert (∀ g d, resource_content g = Some d → (length d ≤ 100)%nat) as Hfile.
  { intros [|v] d Hd; [done|]. by apply two_files_short in Hd. }
  unfold answer_body. case_decide as Hc.
  - destruct (resource_content _) as [d|] eqn:Hd; simpl; [|lia]. apply Hfile in Hd. lia.
  - apply error_page_short. revert Hc. unfold answer_code. repeat case_decide; [set_solver..|].
    destruct (route_uri new_Router _); [set_solver|]. destruct (resource_content _); set_solver.
Qed.

Lemma demo_serves add late : serves 400 (demo add late).
Proof.
  split.
  - exact new_Router_wf.
  - intros v _. split; [done|]. intros d Hd. apply two_files_short in Hd. lia.
  - exact I.
  - intros req. pose proof (answers_short req). simpl. lia.
  - exact demo_log_ok.
Qed.

Lemma home_plain : plain home_request.
Proof. split; [|done]. split; [decide_now|split; [decide_now|compute_now]]. Qed.

Lemma lost_plain : plain lost_request.
Proof. split; [|done]. split; [decide_now|split; [decide_now|compute_now]]. Qed.

Lemma demo_fits add late :
  (length (visible (sock_incoming (getFD client_event) (kernel (estore (demo add late))))) < 400)%nat.
Proof. destruct add, late; decide_now. Qed.

Lemma demo_inv : sys_inv 400 demo_system.
Proof.
  split; [apply demo_wf|apply demo_serves|..].
  - intros i e [[= -> ->]|?%not_elem_of_nil]%elem_of_cons; [|done]. split; [compute_now|by eexists].
  - intros [|[|i]] w ios Hi; simpl in Hi; [injection Hi as <-..|done]; [done|].
    intros [= <-]. repeat constructor. by eexists.
Qed.

(** * The theorems *)

(** The two requests, which arrive in two pieces, get the file and the 404 page. *)
Lemma requests_answered_in_order_witness :
  ∃ s', IOEventHandler_handle 400 2%nat (demo true false) = Ret (SERVER_OK, answers_wire new_Router demo_requests, s') ∧
        proc_wf [2%nat] s' ∧ unregistered 0 io_worker 6 (demo true false) s'.
Proof.
  destruct (requests_answered_in_order 400 0 io_worker 2%nat client_event demo_requests [2%nat] (demo true false)
           (demo_wf true false) (demo_serves true false)) as [(s' & Hrun & Hs') [_ Hall]];
    [by left|reflexivity|reflexivity|reflexivity| |decide_now|decide_now|].
  - split; [compute_now|left]. constructor; [apply home_plain|constructor; [apply lost_plain|constructor]].
  - exists s'. rewrite Hall in Hrun by done. by split.
Defined.





(** The connection is read to its end. *)
Lemma connection_handled_witness :
  ∃ l in1, reads 400 (conn_in 6 (demo_kernel true false)) l in1 ∧
  ((eofbit in1 = true ∧ ∃ s', IOEventHandler_handle 400 2%nat (demo true false)
      = Ret (SERVER_OK, conn_sent 6 (demo_kernel true false) (replies new_Router l), s') ∧
     proc_wf [2%nat] s' ∧ unregistered 0 io_worker 6 (demo true false) s') ∨
   (eofbit in1 = false ∧ HttpRequest.getOneHttpRequest 400 in1 = Spin ∧
    IOEventHandler_handle 400 2%nat (demo true false) = Spin) ∨
   (eofbit in1 = false ∧ ∃ x, HttpRequest.getOneHttpRequest 400 in1 = Throw x ∧
    IOEventHandler_handle 400 2%nat (demo true false) = Throw x)).
Proof.
  apply (connection_handled 400 0 io_worker 2%nat client_event [2%nat] (demo true false)
           (demo_wf true false) (demo_serves true false));
    [by left|reflexivity|reflexivity|reflexivity|apply demo_fits].
Defined.

Definition accepted_kernel : sim_os := snd (sys_accept 5 (demo_kernel true false)).

Lemma client_distributed_witness :
  ∃ ios' s', accept_client 7 [0%nat] (in_kernel (λ _, accepted_kernel) (demo true false)) = Ret (ios', s') ∧
    proc_wf [2%nat] s' ∧ ios' ≡ₚ [0%nat] ∧
    (served 7 [0%nat] ios' (in_kernel (λ _, accepted_kernel) (demo true false)) s' ∨
     refused 7 [0%nat] ios' (in_kernel (λ _, accepted_kernel) (demo true false)) s').
Proof.
  apply (client_distributed 5 7 accepted_kernel [0%nat] [2%nat] (demo true false) (demo_wf true false));
    [repeat constructor; by eexists|compute_now].
Defined.

(** Two I/O workers without clients, and three clients waiting. *)
Definition idle_worker (ep : Z) : Worker := mk_Worker true (mk_Epoll ep 10 ∅) IOEventHandler.
Definition waiting_event : Event := setWorker (Some 2%nat) (new_Event 6 EPOLLIN).
Definition waiting : demo_proc :=
  mk_process
    (mk_store (mk_sim_os {[0; 1; 2; 3; 4; 5; 6]} {[3 := ∅; 4 := ∅; 5 := {[6 := EPOLLIN]}]} 10 [7; 8; 9] [] ∅ true true)
              {[1%nat := (waiting_event, 2%nat)]})
    [idle_worker 3; idle_worker 4; mk_Worker true (mk_Epoll 5 10 {[6 := 1%nat]}) (ListenEventHandler [0; 1]%nat)]
    new_Router () blank (LogExamples.opened (H:=LogExamples.reliable_fs)) 0.

Lemma waiting_wf : proc_wf [1%nat] waiting.
Proof.
  split.
  - apply store_check_ok. vm_compute. reflexivity.
  - intros [|[|[|i]]] w Hi; simpl in Hi; [injection Hi as <-..|done]; apply epoll_check_ok; vm_compute; reflexivity.
  - by intros [|[|[|i]]] w [= <-].
  - intros [|[|[|i]]] [|[|[|j]]] wi wj; simpl; try done; by intros [= <-] [= <-].
  - exact demo_log_ok.
Qed.

Lemma waiting_roomy m : (m ≤ 10)%nat → roomy m [0; 1]%nat waiting.
Proof.
  intros Hm i w Hi Hw. assert (w = idle_worker 3 ∨ w = idle_worker 4) as [-> | ->]; [|by split..].
  apply elem_of_cons in Hi as [->|[->|?%not_elem_of_nil]%elem_of_cons]; [| |done];
    apply (inj Some) in Hw; [by left|by right].
Qed.

Lemma takers_length l : (length (takers l) ≤ length l)%nat.
Proof. induction l as [|[c [cur|]] l IH]; simpl; unfold takers in *; simpl; lia. Qed.

Lemma clients_spread_in_turn_witness :
  ∃ l ios' s', distribution 6 [0; 1]%nat waiting l ios' s' ∧
    goes_round [0; 1]%nat (takers l) ∧ ios' = Nat.iter (length (takers l)) to_back [0; 1]%nat.
Proof.
  destruct (clients_spread_in_turn 10 1%nat waiting_event [0; 1]%nat [1%nat] waiting waiting_wf) as (l & ios' & s' & Hd & Hend & Hall);
    [reflexivity|repeat constructor; by eexists|decide_now|].
  exists l, ios', s'. split; [exact Hd|].
  destruct Hall as (Hgo & Hios & _); [|by split]. apply waiting_roomy.
  pose proof (takers_length l). destruct Hend as [[? _]|[? _]]; lia.
Defined.

(** They go to the first, the second and the first worker. *)
Example three_clients_spread :
  match ListenEventHandler_handle 10 1%nat [0; 1]%nat waiting with
  | Ret (error, ios, s) => (error, ios, worker_activeFDS <$> workers s) = (SERVER_OK, [1; 0]%nat, [2; 1; 1]%nat)
  | _ => False
  end.
Proof. compute_now. Qed.

(** The listening worker's thread polls too. *)
Definition polled_system : system := poll_now 1 demo_system.

Lemma polled_reachable : reachable (sys_step 400) demo_system polled_system.
Proof.
  apply (reach_step _ _ demo_system); [apply reach_refl|]. apply (poll_now_step 400 1 demo_system). compute_now.
Qed.

Lemma reactor_safe_witness :
  proc_wf ((batches polled_system).*2) (sp polled_system) ∧
  ∀ i e, (i, e) ∈ batches polled_system → input_fits 400 e (sp polled_system) →
         handleEvent 400 i e (sp polled_system) ≠ Undef.
Proof. exact (reactor_safe 400 demo_system polled_system demo_inv polled_reachable). Defined.

(** The I/O thread handles its client. *)
Definition answered_system : system := handle_now 400 0 2 demo_system.

Lemma answered_reachable : reachable (sys_step 400) demo_system answered_system.
Proof.
  apply (reach_step _ _ demo_system); [apply reach_refl|]. apply (handle_now_step 400 0 2 demo_system). compute_now.
Qed.

Lemma client_not_forgotten_witness :
  (registered 0 6 2%nat (sp answered_system) ∧ ∀ w l k1, workers (sp answered_system) !! 0%nat = Some w →
     epoll_wait (__epfd (__eventPoller w)) (maxFDS (__eventPoller w)) (-1) (kernel (estore (sp answered_system))) = (Some l, k1) →
     6 ∈ l.*1 → ∃ events s1, eventPoll 0 (-1) (sp answered_system) = Ret (events, SERVER_OK, s1) ∧ 2%nat ∈ events) ∨
  ∃ y1 y2, reachable (sys_step 400) demo_system y1 ∧ handled_by 400 2%nat y1 y2 ∧ reachable (sys_step 400) y2 answered_system ∧
    ∀ reqs, let k := kernel (estore (sp y1)) in
      arriving reqs (sock_incoming 6 k) → (length reqs < 400)%nat →
      ∃ sent, IOEventHandler_handle 400 2%nat (sp y1) = Ret (SERVER_OK, sent, sp y2) ∧
              sent_of (sock_send 6 k) (answers_wire (router (sp y1)) reqs) sent.
Proof.
  apply (client_not_forgotten 400 0 6 2%nat demo_system answered_system demo_inv); [|exact answered_reachable].
  exists io_worker. by split_and!.
Defined.

(** The kernel refuses to register client 7. *)
Lemma refused_client_closed_twice_witness :
  ∃ s', accept_client 7 [0%nat] (demo false true) = Ret ([0%nat], s') ∧
        kernel (estore s') = sys_close 7 (sys_close 7 (demo_kernel false true)).
Proof.
  apply (refused_client_closed_twice 7 2 (demo_kernel false true) (demo_kernel false true) 0 0 io_worker [0%nat] [2%nat]
           (demo false true) (demo_wf false true)).
  - repeat constructor. by eexists.
  - decide_now.
  - intros e x. simpl. intros Hx. apply lookup_insert_Some in Hx as [[_ <-]|[_ Hx]]; [done|].
    by apply lookup_singleton_Some in Hx as [_ <-].
  - reflexivity.
  - reflexivity.
  - reflexivity.
  - compute_now.
Defined.
