(* ===== verification/Server.v ===== *)
(** Server: configuration, initialisation, start, stop and cleaning up of the
    whole server, over the process of the reactor, the Redis world and the logger. *)

From S2P Require Export Error System RedisCache.
From S2P Require AsyncLogger Router RedisConnectionBuilder.

(** * Configuration *)

Record RedisConf := mk_RedisConf {
  __redisServerAddr : bytes;
  __redisServerPort : N;
  __redisServerPasswd : bytes;
  __redisServerHasPasswd : bool;
  __maxConn : N;
  __maxRef : N;
  __responseTimeout : Z;
  __lockTimeout : Z
}.

(** [__maxFD] is a [uint32_t]. *)
Record ServerConfig := mk_ServerConfig {
  __maxFD : N;
  __clientTimeoutSecond : N;
  __workerNum : nat;
  __serverAddr : N;
  __serverPort : N;
  __listenQueue : N;
  __redisConf : RedisConf;
  __redisCacheEnable : bool
}.

Definition INADDR_ANY : N := 0.

(** [defaultCfg], as the constructor completes it. *)
Definition defaultCfg : ServerConfig :=
  mk_ServerConfig 100000 60 5 INADDR_ANY 8888 1000
    (mk_RedisConf ($"127.0.0.1") 6379 ($"panda") true 8 2 500 1000) true.

(** * The accessor of the server *)

(** A pointer to a [FileAccessor] or to a [CachedResourceAccessor]. *)
Inductive ServerAccessor (W : Type) :=
| FileAcc
| CachedAcc (cache : option (RedisCache W)).
Arguments FileAcc {W}.
Arguments CachedAcc {W} cache.

Section accessor.
Context {W : Type} `{Hiredis W} `{FileSystem} `{FileAvail}.

#[global] Instance ServerAccessor_access : IResourceAccessor (ServerAccessor W) := λ fuel sr a,
  match a with
  | FileAcc => Ret (FileAccessor_access sr, FileAcc)
  | CachedAcc cache =>
      '(res, cache') ← CachedResourceAccessor_access fuel sr cache;
      mret (res, CachedAcc cache')
  end.

#[global, refine] Instance ServerAccessor_ok `{!HiredisOk W} `{!FileSystemOk} `{!FileAvailOk} :
  IResourceAccessorOk (ServerAccessor W) := {
  accessor_inv a := match a with FileAcc => True | CachedAcc cache => accessor_coherent cache end;
  path_ok p := NUL ∉ p
}.
Proof.
  intros fuel sr [|cache] Ha Hp Hl; unfold access, ServerAccessor_access.
  - eexists _, _. split; [done|]. split; [done|]. apply FileAccessor_spec.
  - destruct (CachedResourceAccessor_refines fuel sr cache Ha Hp Hl) as (res & cache' & -> & Hc & Hres).
    rewrite ret_bind. by eexists _, _.
Defined.
End accessor.

(** * The server *)

(** [__router] and [__resourceAccessor] are null (false) or point to the objects
    of the process, which the handlers share. *)
Record Server := mk_Server {
  __cfgPath : bytes;
  __serverCfg : ServerConfig;
  __listenFD : Z;
  srv_running : bool;
  __router : bool;
  __resourceAccessor : bool;
  __ioWorkers : list nat;
  __listenWorker : option nat
}.

(** The server with the process (its workers and the objects their handlers
    share) and, while no cache has it, the world of its Redis connections. *)
Record sstate (W K : Type) := mk_sstate {
  srv : Server;
  pr : process K Router (ServerAccessor W);
  rworld : W
}.
Arguments mk_sstate {W K} _ _ _.
Arguments srv {W K} _.
Arguments pr {W K} _.
Arguments rworld {W K} _.

Definition DEFAULT_LOG : bytes := $"/dev/null".

(** [loadCfgFrom] reads nothing. *)
Definition loadCfgFrom (path : bytes) (v : Server) : Error * Server := (SERVER_OK, v).

(** The constructor. With a configuration path nothing sets the configuration,
    which then is whatever [garbage] the memory held. *)
Definition new_Server (cfgPath : option bytes) (garbage : ServerConfig) : Server :=
  match cfgPath with
  | Some path => snd (loadCfgFrom path (mk_Server path garbage (-1) false false false [] None))
  | None => mk_Server [] defaultCfg (-1) false false false [] None
  end.

Section server.
Context {W K : Type} `{Hiredis W} `{Kernel K} `{AsyncLogger.LogFS}.
Abbreviation st := (sstate W K).

Definition with_srv (f : Server → Server) (s : st) : st := mk_sstate (f (srv s)) (pr s) (rworld s).
Definition with_pr (p : process K Router (ServerAccessor W)) (s : st) : st := mk_sstate (srv s) p (rworld s).
Definition with_kernel (k : K) (s : st) : st :=
  with_pr (set_store (set_kernel k (estore (pr s))) (pr s)) s.
Definition kern (s : st) : K := kernel (estore (pr s)).

Definition set_listenFD (fd : Z) (v : Server) : Server :=
  mk_Server (__cfgPath v) (__serverCfg v) fd (srv_running v) (__router v) (__resourceAccessor v) (__ioWorkers v) (__listenWorker v).
Definition set_running (b : bool) (v : Server) : Server :=
  mk_Server (__cfgPath v) (__serverCfg v) (__listenFD v) b (__router v) (__resourceAccessor v) (__ioWorkers v) (__listenWorker v).
Definition set_router (r : bool) (v : Server) : Server :=
  mk_Server (__cfgPath v) (__serverCfg v) (__listenFD v) (srv_running v) r (__resourceAccessor v) (__ioWorkers v) (__listenWorker v).
Definition set_resourceAccessor (a : bool) (v : Server) : Server :=
  mk_Server (__cfgPath v) (__serverCfg v) (__listenFD v) (srv_running v) (__router v) a (__ioWorkers v) (__listenWorker v).
Definition set_ioWorkers (l : list nat) (v : Server) : Server :=
  mk_Server (__cfgPath v) (__serverCfg v) (__listenFD v) (srv_running v) (__router v) (__resourceAccessor v) l (__listenWorker v).
Definition set_listenWorker (o : option nat) (v : Server) : Server :=
  mk_Server (__cfgPath v) (__serverCfg v) (__listenFD v) (srv_running v) (__router v) (__resourceAccessor v) (__ioWorkers v) o.

(** ** Initialisation *)

Definition initListenSocket (s : st) : Error * st :=
  let cfg := __serverCfg (srv s) in
  let '(r, k1) := sys_socket (kern s) in
  let s1 := with_kernel k1 s in
  match r with
  | None => (SOCKET_INIT_FAILED, with_srv (set_listenFD (-1)) s1)
  | Some fd =>
      let s2 := with_srv (set_listenFD fd) s1 in
      let '(flags, k2) := fcntl_getfl fd (kern s2) in
      match flags with
      | None => (SOCKET_INIT_FAILED, with_kernel k2 s2)
      | Some flags =>
          let k3 := fcntl_setfl fd (N.lor flags O_NONBLOCK) k2 in
          let '(bound, k4) := sys_bind fd (__serverAddr cfg) (__serverPort cfg) k3 in
          if negb bound then (SOCKET_BIND_FAILED, with_kernel k4 s2) else
          let '(listening, k5) := sys_listen fd (__listenQueue cfg) k4 in
          if negb listening then (SOCKET_LISTEN_FAILED, with_kernel k5 s2)
          else (SERVER_OK, with_kernel k5 s2)
      end
  end.

Definition put_router (r : Router) (s : st) : st :=
  let p := pr s in
  with_pr (mk_process (estore p) (workers p) r (accessor p) (static_buff p) (log p) (ticks p)) s.
Definition put_accessor (a : ServerAccessor W) (s : st) : st := with_pr (set_accessor a (pr s)) s.

Definition initRouter (s : st) : Error * st :=
  (SERVER_OK, with_srv (set_router true) (put_router new_Router s)).

(** What the connections are configured with: the calls on their builder. *)
Definition connection_calls (conf : RedisConf) : list RedisConnectionBuilder.connection_call :=
  [RedisConnectionBuilder.SetIP (__redisServerAddr conf);
   RedisConnectionBuilder.SetPort (__redisServerPort conf);
   RedisConnectionBuilder.SetReqTimeout (__responseTimeout conf);
   RedisConnectionBuilder.SetLockTimeout (__lockTimeout conf);
   RedisConnectionBuilder.SetPasswd (if __redisServerHasPasswd conf then __redisServerPasswd conf else [])].

(** The connection that they build. *)
Definition configured (conf : RedisConf) : RedisConnection :=
  setPasswd (if __redisServerHasPasswd conf then __redisServerPasswd conf else [])
    (setLockTimeout (__lockTimeout conf)
      (setReqTimeout (__responseTimeout conf)
        (setPort (__redisServerPort conf)
          (setIP (__redisServerAddr conf) new_RedisConnection)))).

Lemma configured_built conf h :
  ∃ p, h !! p = None ∧
    (b ← RedisConnectionBuilder.new_RedisConnectionBuilder;
     b' ← Objects.chain RedisConnectionBuilder.on_builder (connection_calls conf) b;
     mret (RedisConnectionBuilder.build b')) h = Ret (p, <[p := configured conf]> h).
Proof.
  exact (Objects.new_built RedisConnectionBuilder.build RedisConnectionBuilder.on_connection
           (RedisConnectionBuilder.on_builder (B:=RedisConnectionBuilder.RedisConnectionBuilder))
           RedisConnectionBuilder.mk_RedisConnectionBuilder new_RedisConnection (connection_calls conf) h
           (λ _, eq_refl) RedisConnectionBuilder.RedisConnectionBuilder_ok).
Qed.

(** The loop of [initResourceAccessor] over the connections still to be made. *)
Fixpoint connect_loop (n : nat) (conf : RedisConf) (pool : RedisConnectionPool) (hp : gmap N RedisConnection) (w : W)
  : outcome (Error * RedisConnectionPool * gmap N RedisConnection * W) :=
  match n with
  | O => Ret (SERVER_OK, pool, hp, w)
  | S n' =>
      '(error, conn1, w1) ← contextInit (configured conf) w;
      if decide (error = SERVER_OK) then
        let addr := fresh ({[null_conn]} ∪ dom hp) in
        let '(error, pool1) := pushConnection addr pool in
        if decide (error = SERVER_OK) then connect_loop n' conf pool1 (<[addr := conn1]> hp) w1
        else mret (error, pool1, <[addr := conn1]> hp, w1)
      else mret (error, pool, hp, destroy_connection conn1 w1)
  end.

(** Dropping connections destroys them. *)
Definition drop_connections (hp : gmap N RedisConnection) (w : W) : W :=
  fold_right (λ kc w, destroy_connection kc.2 w) w (map_to_list hp).

Definition initResourceAccessor (s : st) : outcome (Error * st) :=
  let cfg := __serverCfg (srv s) in
  if __redisCacheEnable cfg then
    let conf := __redisConf cfg in
    let pool := new_RedisConnectionPool (__maxConn conf) (__maxRef conf) in
    '(error, pool1, hp, w1) ← connect_loop (N.to_nat (__maxConn conf)) conf pool ∅ (rworld s);
    if decide (error = SERVER_OK) then
      let redisCache := if (curConnNum pool1 =? 0)%N then None else Some (new_RedisCache pool1 hp w1) in
      mret (SERVER_OK, put_accessor (CachedAcc (new_CachedResourceAccessor redisCache))
                         (mk_sstate (set_resourceAccessor true (srv s)) (pr s) w1))
    else mret (error, mk_sstate (srv s) (pr s) (drop_connections hp w1))
  else mret (SERVER_OK, put_accessor FileAcc (with_srv (set_resourceAccessor true) s)).

Definition set_log (lg : AsyncLogger.AsyncLogger) (p : process K Router (ServerAccessor W)) :=
  mk_process (estore p) (workers p) (router p) (accessor p) (static_buff p) lg (ticks p).

(** The descriptor of the log file is the logger's, not one of the kernel state's
    [fds]; nothing closes it when the server is destroyed. *)
Definition initLogger (s : st) : Error * st :=
  let lg := log (pr s) in
  if negb (AsyncLogger.isRunning lg) then (LOG_THREAD_STOPPED, s)
  else if AsyncLogger.logFileOn lg then (SERVER_OK, s)
  else let '(error, lg1) := AsyncLogger.setLogFile DEFAULT_LOG lg in
       (error, with_pr (set_log lg1 (pr s)) s).

(** The number of descriptors given to a new poller is an [int]: from 2^31 on it is
    negative, and the poller's vector of that many events cannot be made. *)
Definition int_of_uint32 (n : N) : Z := if (n <? 2 ^ 31)%N then Z.of_N n else Z.of_N n - 2 ^ 32.
Definition poller_size (v : Server) : Z := int_of_uint32 (__maxFD (__serverCfg v)).
Definition max_fds (v : Server) : nat := Z.to_nat (poller_size v).

(** Creating a worker over a new poller, when that can be made: the error of the
    poller, and the worker's address. *)
Definition add_worker (h : Handler) (s : st) : Error * nat * st :=
  let '(error, p, k1) := make_Epoll (max_fds (srv s)) (kern s) in
  let s1 := with_kernel k1 s in
  (error, length (workers (pr s)), with_pr (set_workers (workers (pr s1) ++ [new_Worker p h]) (pr s1)) s1).

Definition destroy_worker (i : nat) (p : process K Router (ServerAccessor W)) : process K Router (ServerAccessor W) :=
  match workers p !! i with
  | Some w => set_store (destroy_Epoll (__eventPoller w) (estore p)) p
  | None => p
  end.

(** A worker without a poller is dropped when the function returns. *)
Definition drop_worker (i : nat) (s : st) : st :=
  let p1 := destroy_worker i (pr s) in
  with_pr (set_workers (take i (workers p1)) p1) s.

Fixpoint io_worker_loop (n : nat) (s : st) : Error * st :=
  match n with
  | O => (SERVER_OK, s)
  | S n' =>
      let '(error, i, s1) := add_worker new_IOEventHandler s in
      if decide (error = SERVER_OK)
      then io_worker_loop n' (with_srv (λ v, set_ioWorkers (__ioWorkers v ++ [i]) v) s1)
      else (error, drop_worker i s1)
  end.

(** The handlers are given the pointers to the server's router and accessor. *)
Definition initIOWorker (s : st) : outcome (Error * st) :=
  let n := __workerNum (__serverCfg (srv s)) in
  if Nat.ltb 0 n && (poller_size (srv s) <? 0) then Throw length_error else Ret (io_worker_loop n s).

Definition initListenWorker (s : st) : outcome (Error * st) :=
  if poller_size (srv s) <? 0 then Throw length_error else
  let '(error, i, s1) := add_worker (new_ListenEventHandler (__ioWorkers (srv s))) s in
  let s2 := with_srv (set_listenWorker (Some i)) s1 in
  if decide (error = SERVER_OK) then
    let '(e, est) := make_event (__listenFD (srv s2)) (N.lor EPOLLIN EPOLLET) (estore (pr s2)) in
    '(error, p1) ← addEvent i e (set_store est (pr s2));
    mret (error, with_pr (set_store (release e (estore p1)) p1) s2)
  else mret (error, s2).

(** ** Cleaning up *)

(** Destroying the accessor, when there is one, drops its cache's connections. *)
Definition drop_accessor (s : st) : W :=
  match __resourceAccessor (srv s), accessor (pr s) with
  | true, CachedAcc (Some c) => drop_connections (heap c) (world c)
  | _, _ => rworld s
  end.

(** Destroying the cache's connections frees their sockets, which are in the Redis
    world and not in the kernel state's [fds]. *)
Definition clean (s : st) : st :=
  let v := srv s in
  let s1 := if __listenFD v =? -1 then with_kernel (sys_close (__listenFD v) (kern s)) s else s in
  let w1 := drop_accessor s1 in
  let p1 := match __listenWorker v with Some i => destroy_worker i (pr s1) | None => pr s1 end in
  let p2 := fold_left (λ p i, destroy_worker i p) (__ioWorkers v) p1 in
  mk_sstate (set_ioWorkers [] (set_listenWorker None (set_resourceAccessor false (set_router false v))))
            (set_workers [] p2) w1.

(** ** Start and stop *)

Definition init (s : st) : outcome (Error * st) :=
  let s0 := clean s in
  let '(error, s1) := initLogger s0 in
  if decide (error = SERVER_OK) then
    let '(error, s2) := initRouter s1 in
    if decide (error = SERVER_OK) then
      '(error, s3) ← initResourceAccessor s2;
      if decide (error = SERVER_OK) then
        '(error, s4) ← initIOWorker s3;
        if decide (error = SERVER_OK) then
          let '(error, s5) := initListenSocket s4 in
          if decide (error = SERVER_OK) then initListenWorker s5
          else mret (error, s5)
        else mret (error, s4)
      else mret (error, s3)
    else mret (error, s2)
  else mret (error, s1).

Definition stop_worker (i : nat) (p : process K Router (ServerAccessor W)) : process K Router (ServerAccessor W) :=
  match workers p !! i with
  | Some w => if isRunning w then put_worker i (Worker.stop w) p else p
  | None => p
  end.

Definition stop (s : st) : st :=
  let v := srv s in
  let p1 := fold_left (λ p i, stop_worker i p) (__ioWorkers v) (pr s) in
  let p2 := match __listenWorker v with Some i => stop_worker i p1 | None => p1 end in
  mk_sstate (set_running false v) p2 (rworld s).

(** The destructor. *)
Definition destroy_Server `{Env} (s : st) : outcome st :=
  let s1 := clean (stop s) in
  p ← diary ($"Server.cc") 142 ($"server out" ++ [ch_LF]) (pr s1);
  mret (with_pr p s1).

Definition server_isRunning (s : st) : bool := srv_running (srv s).

(** The loop of [start] over the workers; [alive] as in [run]. *)
Fixpoint run_all (alive : nat → bool) (ws : list nat) (p : process K Router (ServerAccessor W))
  : outcome (Error * process K Router (ServerAccessor W)) :=
  match ws with
  | [] => Ret (SERVER_OK, p)
  | i :: ws' =>
      '(error, p1) ← run i (alive i) p;
      if decide (error = SERVER_OK) then run_all alive ws' p1 else mret (error, p1)
  end.

(** [start], as a step of the main thread. The thread of a worker runs as soon as its
    [run] has returned, but it touches nothing that the rest of [start] looks at: until
    the listening worker, the last one, runs, no event is registered with any other, so
    that their threads wait, or leave when a wait fails; that commutes with the other
    workers' [run] ([run_poll_commute], [run_exit_commute] in ServerFacts). *)
Definition start (alive : nat → bool) (s : st) : outcome (Error * st) :=
  if server_isRunning s then Ret (SERVER_ALREADY_RUNNING, s) else
  '(error, s1) ← init s;
  if decide (error = SERVER_OK) then
    '(error, p1) ← run_all alive (__ioWorkers (srv s1)) (pr s1);
    if decide (error = SERVER_OK) then
      i ← deref (__listenWorker (srv s1));
      '(error, p2) ← run i (alive i) p1;
      if decide (error = SERVER_OK) then mret (SERVER_OK, with_srv (set_running true) (with_pr p2 s1))
      else mret (error, clean (stop (with_pr p2 s1)))
    else mret (error, clean (stop (with_pr p1 s1)))
  else mret (error, s1).

(** [statusChecking]: a null listening worker is dereferenced. *)
Fixpoint check_workers (ws : list nat) (p : process K Router (ServerAccessor W)) : outcome Error :=
  match ws with
  | [] => Ret SERVER_OK
  | i :: ws' =>
      w ← get_worker i p;
      if isRunning w then check_workers ws' p else Ret IO_WORKER_DUMP
  end.

Definition statusChecking (s : st) : outcome Error :=
  i ← deref (__listenWorker (srv s));
  w ← get_worker i (pr s);
  if isRunning w then check_workers (__ioWorkers (srv s)) (pr s) else Ret LISTEN_WORKER_DUMP.
End server.
