(* ===== verification/ServerFacts.v ===== *)
(** What starting, checking and stopping the server establish. *)

From S2P Require Export Server.

Section startup.
Context {W K : Type} `{Hiredis W} `{KernelOk K} `{AsyncLogger.LogFS}.
Abbreviation st := (sstate W K).
Abbreviation proc := (process K Router (ServerAccessor W)).

(** The books of the process; every poller's descriptor is open; so are the
    three standard descriptors. *)
Record ready (p : proc) : Prop := {
  rd_wf : proc_wf [] p;
  rd_open i w : workers p !! i = Some w → __epfd (__eventPoller w) ∈ fds (kernel (estore p));
  rd_std : {[0; 1; 2]} ⊆ fds (kernel (estore p))
}.

(** A kernel call that opens at most new descriptors. *)
Lemma ready_kernel k p :
  proc_wf [] (set_store (set_kernel k (estore p)) p) → fds (kernel (estore p)) ⊆ fds k → ready p →
  ready (set_store (set_kernel k (estore p)) p).
Proof. intros Hwf Hsub [_ Ho Hstd]. split; [done| |]; simpl; [|by etrans]. intros i w Hi. by eapply Hsub, Ho. Qed.

Lemma ready_same k p :
  fds k = fds (kernel (estore p)) → (∀ ep, interest ep k = interest ep (kernel (estore p))) → ready p →
  ready (set_store (set_kernel k (estore p)) p).
Proof.
  intros Hf Hi Hr. apply ready_kernel; [by apply proc_wf_kernel, Hr|by rewrite Hf|done].
Qed.

(** Replacing a worker by one with the same poller. *)
Lemma ready_put i w w' p :
  ready p → workers p !! i = Some w → __eventPoller w' = __eventPoller w → ready (put_worker i w' p).
Proof.
  intros [Hwf Ho Hstd] Hi Hp. split; [by eapply proc_wf_same_poller| |done].
  - intros j wj [(<- & <- & _)|[Hne Hj]]%list_lookup_insert_Some; [|by eapply Ho]. rewrite Hp. by eapply Ho.
Qed.

(** A new worker over a new poller. *)
Lemma add_worker_ok h (s : st) err i s' :
  ready (pr s) → add_worker h s = (err, i, s') → err = SERVER_OK →
  ready (pr s') ∧ srv s' = srv s ∧ rworld s' = rworld s ∧ i = length (workers (pr s)) ∧
  evs (estore (pr s')) = evs (estore (pr s)) ∧
  log (pr s') = log (pr s) ∧
  ∃ ep, workers (pr s') = workers (pr s) ++ [new_Worker (mk_Epoll ep (max_fds (srv s)) ∅) h].
Proof.
  intros [Hwf Ho Hstd] Ha ->. unfold add_worker, make_Epoll in Ha.
  destruct (epoll_create1 (kern s)) as [[ep|] k1] eqn:Hc; simpl in Ha; [|discriminate].
  injection Ha as <- <-. destruct (create_ok _ _ _ Hc) as (Hnew & Hpos & Hf & Hi & Hoth).
  assert (3 ≤ ep) as H3.
  { assert (ep ≠ 0 ∧ ep ≠ 1 ∧ ep ≠ 2); [|lia]. unfold kern in Hnew. split_and!; intros ->; apply Hnew, Hstd; set_solver. }
  assert (∀ j w, workers (pr s) !! j = Some w → __epfd (__eventPoller w) ≠ ep) as Hne.
  { intros j w Hj Heq. apply Hnew. rewrite <- Heq. exact (Ho _ _ Hj). }
  split; [|split_and!; try done; by eexists].
  split; simpl.
  - pose proof Hwf as [Hst Hpo Hv Hd Hl]. split; simpl.
    + unfold refs_of in *. rewrite fmap_app, concat_app. cbn [fmap list_fmap concat compose].
      unfold map_refs at 2. simpl. rewrite map_to_list_empty. simpl. rewrite !app_nil_r in *.
      destruct Hst as [? ? Hop ?]. split; [done..| |done]. simpl. unfold kern in Hf. rewrite Hf.
      intros e x Hx. apply elem_of_union_r. by eapply Hop.
    + intros j w [Hj|[Hlen Hj]]%lookup_app_Some.
      * apply epoll_wf_set_kernel; [|by apply Hpo]. apply Hoth. by eapply Hne.
      * apply list_lookup_singleton_Some in Hj as [_ <-]. split; simpl.
        -- intros fd e Hl'. by rewrite lookup_empty in Hl'.
        -- by rewrite Hi, !dom_empty_L.
        -- rewrite map_size_empty. lia.
    + intros j w [Hj|[_ Hj]]%lookup_app_Some; [by eapply Hv|].
      apply list_lookup_singleton_Some in Hj as [_ <-]. unfold validEpollFD. simpl. by apply Z.leb_le.
    + intros j1 j2 w1 w2 [Hj1|[L1 Hj1]]%lookup_app_Some [Hj2|[L2 Hj2]]%lookup_app_Some; [by eapply Hd|..].
      * apply list_lookup_singleton_Some in Hj2 as [_ <-]. simpl. intros Heq. by destruct (Hne _ _ Hj1).
      * apply list_lookup_singleton_Some in Hj1 as [_ <-]. simpl. intros Heq. by destruct (Hne _ _ Hj2).
      * apply list_lookup_singleton_Some in Hj1 as [? <-], Hj2 as [? <-]. intros _. lia.
    + done.
  - unfold kern in Hf. rewrite Hf. intros j w [Hj|[_ Hj]]%lookup_app_Some.
    + apply elem_of_union_r. by eapply Ho.
    + apply list_lookup_singleton_Some in Hj as [_ <-]. by apply elem_of_union_l, elem_of_singleton.
  - unfold kern in Hf. rewrite Hf. etrans; [exact Hstd|]. apply union_subseteq_r.
Qed.

Lemma ready_empty p :
  workers p = [] → evs (estore p) = ∅ → {[0; 1; 2]} ⊆ fds (kernel (estore p)) → log_ok (log p) → ready p.
Proof.
  intros Hw He Hstd Hl. split; [| |done].
  - assert (∀ e, evs (estore p) !! e = None) as Hn by (intros e; rewrite He; apply lookup_empty).
    split; rewrite ?Hw; [|by intros ??..|done].
    split; [intros e; unfold Epoll.refs; by rewrite Hn|intros e x; by rewrite Hn..|intros e1 e2 x1 x2; by rewrite Hn].
  - intros i w. by rewrite Hw.
Qed.

(** The I/O workers: one poller each, with the configured limit, nothing
    registered, not running. *)
Definition io_worker (maxFD : nat) (w : Worker) : Prop :=
  ∃ ep, w = new_Worker (mk_Epoll ep maxFD ∅) IOEventHandler.

Lemma io_worker_loop_ok n s err s' :
  ready (pr s) → io_worker_loop n s = (err, s') → err = SERVER_OK →
  ready (pr s') ∧ evs (estore (pr s')) = evs (estore (pr s)) ∧ rworld s' = rworld s ∧
  log (pr s') = log (pr s) ∧
  ∃ ws, workers (pr s') = workers (pr s) ++ ws ∧ length ws = n ∧
    Forall (io_worker (max_fds (srv s))) ws ∧
    srv s' = set_ioWorkers (__ioWorkers (srv s) ++ seq (length (workers (pr s))) n) (srv s).
Proof.
  revert s. induction n as [|n IH]; intros s Hr; cbn [io_worker_loop seq].
  - intros [= <- <-] _. split_and!; try done. exists []. rewrite !app_nil_r. by destruct (srv s).
  - destruct (add_worker new_IOEventHandler s) as [[e i] s1] eqn:Ha. case_decide as He; [|by intros [= <- <-]].
    destruct (add_worker_ok _ _ _ _ _ Hr Ha He) as (Hr1 & Hsrv & Hrw & -> & Hev & Hlg & ep & Hws).
    set (s2 := with_srv _ s1). intros Hl Hok. destruct (IH s2 Hr1 Hl Hok) as (Hr' & Hev' & Hrw' & Hlg' & ws & Hws' & Hn & Hall & Hsrv').
    split_and!; [done|by rewrite Hev', <- Hev|by rewrite Hrw', <- Hrw|by rewrite Hlg', <- Hlg|].
    exists (new_Worker (mk_Epoll ep (max_fds (srv s)) ∅) IOEventHandler :: ws).
    rewrite Hws', Hsrv'. cbn [s2 with_srv pr srv]. rewrite Hws, Hsrv, length_app, Nat.add_1_r.
    split_and!; [by rewrite <- app_assoc|simpl; by rewrite Hn| |].
    + constructor; [by eexists|]. subst s2. simpl in Hall. by rewrite Hsrv in Hall.
    + destruct (srv s) as [? ? ? ? ? ? l ?]. unfold set_ioWorkers. simpl. by rewrite <- app_assoc.
Qed.

Lemma initListenSocket_ok s err s' :
  ready (pr s) → evs (estore (pr s)) = ∅ → initListenSocket s = (err, s') → err = SERVER_OK →
  ready (pr s') ∧ srv s' = set_listenFD (__listenFD (srv s')) (srv s) ∧ __listenFD (srv s') ≠ -1 ∧
  (__listenFD (srv s') ∉ fds (kern s)) ∧
  ∃ k, fds k = {[__listenFD (srv s')]} ∪ fds (kern s) ∧ pr s' = set_store (set_kernel k (estore (pr s))) (pr s).
Proof.
  intros Hr Hev Hi ->. unfold initListenSocket in Hi.
  destruct (sys_socket (kern s)) as [[fd|] k1] eqn:Hs; [|discriminate]. destruct (socket_ok _ _ _ Hs) as (Hint & Hnew & Hpos & Hf).
  cbn [kern with_kernel with_srv with_pr pr estore set_store set_kernel kernel] in Hi.
  destruct (fcntl_getfl fd k1) as [[flags|] k2] eqn:Hg; [|discriminate]. destruct (getfl_ok _ _ _ _ Hg) as [Hf2 Hi2].
  destruct (setfl_ok fd (N.lor flags O_NONBLOCK) k2) as [Hf3 Hi3].
  destruct (sys_bind _ _ _ _) as [[] k4] eqn:Hb; [|discriminate]. destruct (bind_ok _ _ _ _ _ _ Hb) as [Hf4 Hi4].
  destruct (sys_listen _ _ k4) as [[] k5] eqn:Hl; [|discriminate]. destruct (listen_ok _ _ _ _ _ Hl) as [Hf5 Hi5].
  simpl in Hi. injection Hi as <-.
  assert (fds k5 = {[fd]} ∪ fds (kern s)) as Hfds by congruence.
  assert (∀ ep, interest ep k5 = interest ep (kern s)) as Hints by (intros ep; by rewrite Hi5, Hi4, Hi3, Hi2, Hint).
  assert (ready (set_store (set_kernel k5 (estore (pr s))) (pr s))) as Hr'.
  { apply ready_kernel; [by eapply proc_wf_open; [exact Hfds| |apply Hr]|unfold kern in Hfds; rewrite Hfds; apply union_subseteq_r|done]. }
  split_and!; [exact Hr'|done|simpl; lia|exact Hnew|]. by exists k5.
Qed.

(** The listening worker, with the listening socket registered. *)
Lemma initListenWorker_ok s err s' :
  ready (pr s) → evs (estore (pr s)) = ∅ → __listenFD (srv s) ∈ fds (kern s) →
  initListenWorker s = Ret (err, s') → err = SERVER_OK →
  ready (pr s') ∧ log (pr s') = log (pr s) ∧
  srv s' = set_listenWorker (Some (length (workers (pr s)))) (srv s) ∧
  ∃ w e, workers (pr s') = workers (pr s) ++ [w] ∧ __eventHandler w = ListenEventHandler (__ioWorkers (srv s)) ∧
    __events (__eventPoller w) = {[__listenFD (srv s) := e]} ∧ isRunning w = false.
Proof.
  intros Hr Hev Hfd Hi ->. unfold initListenWorker in Hi. destruct (poller_size _ <? 0); [done|].
  destruct (add_worker _ s) as [[e i] s1] eqn:Ha. case_decide as He; [|injection Hi as -> <-; done].
  destruct (add_worker_ok _ _ _ _ _ Hr Ha He) as (Hr1 & Hsrv & Hrw & -> & Hev1 & Hlg & ep & Hws).
  set (n := length (workers (pr s))) in *.
  assert (workers (pr s1) !! n = Some (new_Worker (mk_Epoll ep (max_fds (srv s)) ∅)
            (ListenEventHandler (__ioWorkers (srv s))))) as Hn.
  { rewrite Hws. by apply list_lookup_middle. }
  destruct (make_event _ _ _) as [ev st1] eqn:Hm. cbn [with_srv pr srv set_listenWorker __listenFD] in Hm, Hi.
  assert (__listenFD (srv s1) ∈ fds (kernel (estore (pr s1)))) as Hfd1.
  { rewrite Hsrv. clear - Ha Hfd He. unfold add_worker, make_Epoll in Ha.
    destruct (epoll_create1 (kern s)) as [[ep|] k1] eqn:Hc; simpl in Ha; simplify_eq.
    destruct (create_ok _ _ _ Hc) as (_ & _ & Hf & _). simpl. unfold kern in *. rewrite Hf.
    by apply elem_of_union_r. }
  assert (unowned (__listenFD (srv s1)) (estore (pr s1))) as Hun.
  { intros e' x. rewrite Hev1, Hev. by rewrite lookup_empty. }
  destruct (proc_wf_make _ _ [] _ _ _ Hfd1 Hun (rd_wf _ Hr1) Hm) as (Hs2 & Hne & Hg & Hk).
  destruct (addEvent_ok n _ ev _ _ Hs2 Hn) as (err & p' & st' & Hadd & Hs3 & Hf3 & Hspec & Hfr);
    [by left|by rewrite app_nil_r in Hne|].
  rewrite Hadd, ret_bind in Hi. injection Hi as -> <-.
  specialize (Hspec _ Hg). rewrite decide_True in Hspec by done. destruct Hspec as (Hevs & Hact & Hgev).
  pose proof (proc_wf_release _ _ _ Hs3) as Hs4.
  assert (kernel (release ev st') = kernel st') as Hkr.
  { eapply proj2, (release_registered ev n _ (__listenFD (srv s1)) _ (set_store st' _)); [exact Hs3| | |exact Hgev].
    - cbn. apply list_lookup_insert_eq. by eapply lookup_lt_Some.
    - cbn [__eventPoller set_poller]. rewrite Hevs. apply lookup_insert_eq. }
  cbn [pr srv with_pr with_srv].
  assert (fds (kernel (release ev st')) = fds (kernel (estore (pr s1)))) as Hfk.
  { rewrite Hkr, Hf3. cbn [set_store estore]. by rewrite Hk. }
  split_and!; [split| | |].
  - exact Hs4.
  - cbn [set_store estore workers put_worker set_workers]. rewrite Hfk.
    intros j w [(<- & <- & _)|[Hnj Hj]]%list_lookup_insert_Some; [|exact (rd_open _ Hr1 _ _ Hj)].
    rewrite Hevs. exact (rd_open _ Hr1 _ _ Hn).
  - cbn [set_store estore]. rewrite Hfk. apply Hr1.
  - exact Hlg.
  - by rewrite Hsrv.
  - eexists _, ev. cbn [set_store workers put_worker set_workers]. rewrite Hws. subst n. 
    rewrite insert_app_r_alt, Nat.sub_diag by lia. split_and!; [done|done| |done].
    cbn [__eventPoller set_poller]. rewrite Hevs, Hsrv. done.
Qed.

(** What starting threads changes: workers come to run, nothing else. *)
Definition started (p p' : proc) : Prop :=
  (∀ i w, workers p !! i = Some w →
     ∃ b, workers p' !! i = Some (mk_Worker b (__eventPoller w) (__eventHandler w)) ∧ (isRunning w = true → b = true)) ∧
  length (workers p') = length (workers p) ∧ estore p' = estore p ∧ log p' = log p ∧
  router p' = router p ∧ accessor p' = accessor p.

Lemma started_refl p : started p p.
Proof. split; [|done]. intros i [b q h] Hi. by exists b. Qed.

Lemma started_trans p1 p2 p3 : started p1 p2 → started p2 p3 → started p1 p3.
Proof.
  intros (H1' & L1 & E1 & G1 & R1 & A1) (H2' & L2 & E2 & G2 & R2 & A2).
  split; [|split_and!; by etrans]. intros i w Hi. destruct (H1' i w Hi) as (b & Hb & Hrun).
  destruct (H2' _ _ Hb) as (b' & Hb' & Hrun'). exists b'. split; [done|]. intros Hw. apply Hrun'. by apply Hrun.
Qed.

Lemma run_ok i alive p err p' :
  ready p → run i alive p = Ret (err, p') → err = SERVER_OK →
  ready p' ∧ started p p' ∧ ∃ w, workers p' !! i = Some w ∧ isRunning w = true.
Proof.
  intros Hr Hrun ->. unfold run, get_worker in Hrun. destruct (workers p !! i) as [w|] eqn:Hi; [|done].
  rewrite deref_Some_bind in Hrun. destruct (isRunning w) eqn:Hw; [discriminate|].
  destruct alive; [|discriminate]. simpl in Hrun. injection Hrun as <-.
  assert (i < length (workers p))%nat as Hlt by by eapply lookup_lt_Some.
  split_and!; [by eapply ready_put| |].
  - split; [|split_and!; try done; simpl; by rewrite length_insert]. intros j wj Hj. simpl.
    destruct (decide (i = j)) as [->|Hne].
    + rewrite Hi in Hj. injection Hj as <-. exists true. rewrite list_lookup_insert_eq by done. done.
    + rewrite list_lookup_insert_ne by done. exists (isRunning wj). split; [by rewrite Hj; destruct wj|done].
  - eexists. split; [by apply list_lookup_insert_eq|done].
Qed.

Lemma run_all_ok alive ws p err p' :
  ready p → run_all alive ws p = Ret (err, p') → err = SERVER_OK →
  ready p' ∧ started p p' ∧ Forall (λ i, ∃ w, workers p' !! i = Some w ∧ isRunning w = true) ws.
Proof.
  revert p. induction ws as [|i ws IH]; intros p Hr; cbn [run_all].
  - intros [= <- <-] _. split_and!; [done|apply started_refl|constructor].
  - destruct (run i (alive i) p) as [[e p1]| | |] eqn:Hrun; try discriminate. rewrite ret_bind.
    case_decide as He; [|by intros [= <- <-]]. destruct (run_ok _ _ _ _ _ Hr Hrun He) as (Hr1 & Hst1 & w & Hw & Hrw).
    intros Ha Hok. destruct (IH p1 Hr1 Ha Hok) as (Hr' & Hst & Hall). split_and!; [done|by eapply started_trans|].
    constructor; [|done]. destruct Hst as [Hst _]. destruct (Hst _ _ Hw) as (b & Hb & Hbr).
    eexists. split; [exact Hb|]. by apply Hbr.
Qed.

Lemma check_workers_ok ws (p : proc) :
  Forall (λ i, ∃ w, workers p !! i = Some w ∧ isRunning w = true) ws → check_workers ws p = Ret SERVER_OK.
Proof.
  induction 1 as [|i ws (w & Hi & Hw) _ IH]; cbn [check_workers]; [done|].
  unfold get_worker. by rewrite Hi, deref_Some_bind, Hw.
Qed.

(** A server that has just been constructed, in a process of its own. *)
Record fresh_server (s : st) : Prop := {
  fs_running : srv_running (srv s) = false;
  fs_io : __ioWorkers (srv s) = [];
  fs_listen : __listenWorker (srv s) = None;
  fs_accessor : __resourceAccessor (srv s) = false;
  fs_workers : workers (pr s) = [];
  fs_evs : evs (estore (pr s)) = ∅;
  fs_std : {[0; 1; 2]} ⊆ fds (kern s);
  fs_log : log_ok (log (pr s))
}.

Lemma clean_fresh s :
  fresh_server s →
  ready (pr (clean s)) ∧ evs (estore (pr (clean s))) = ∅ ∧ workers (pr (clean s)) = [] ∧
  __ioWorkers (srv (clean s)) = [] ∧ __serverCfg (srv (clean s)) = __serverCfg (srv s).
Proof.
  intros [_ Hio Hlw _ Hws Hev Hstd Hlg]. unfold clean. rewrite Hio, Hlw. cbn [fold_left].
  split_and!; [|by destruct (_ =? _)|done|done|done].
  apply ready_empty; [done|by destruct (_ =? _)| |by destruct (_ =? _)].
  simpl. destruct (Z.eqb_spec (__listenFD (srv s)) (-1)) as [->|_]; [|done].
  simpl. destruct (close_ok (-1) (kern s)) as [-> _]. intros x Hx. apply elem_of_difference.
  split; [by apply Hstd|]. apply elem_of_union in Hx as [Hx|Hx]; [apply elem_of_union in Hx as [Hx|Hx]|];
    apply elem_of_singleton in Hx as ->; by intros [=]%elem_of_singleton.
Qed.

Lemma initLogger_ok s err s' :
  ready (pr s) → initLogger s = (err, s') →
  ready (pr s') ∧ estore (pr s') = estore (pr s) ∧ workers (pr s') = workers (pr s) ∧ srv s' = srv s.
Proof.
  intros Hr. unfold initLogger. destruct (AsyncLogger.isRunning _); [|by intros [= <- <-]]. cbn [negb].
  destruct (AsyncLogger.logFileOn _); [by intros [= <- <-]|].
  pose proof (AsyncLogger.setLogFile_moved DEFAULT_LOG (log (pr s))) as (o & fs & no & nw & segs & Hl & _).
  destruct (AsyncLogger.setLogFile _ _) as [e lg]. simpl in Hl. subst lg. intros [= <- <-].
  split_and!; [|done..]. destruct Hr as [Hwf Ho Hstd]. split; [|done|done].
  destruct Hwf as [? ? ? ? Hlg]. by split.
Qed.

Lemma initResourceAccessor_ok s err s' :
  ready (pr s) → initResourceAccessor s = Ret (err, s') → err = SERVER_OK →
  ready (pr s') ∧ estore (pr s') = estore (pr s) ∧ workers (pr s') = workers (pr s) ∧
  srv s' = set_resourceAccessor true (srv s).
Proof.
  intros [Hwf Ho Hstd] Hi ->. unfold initResourceAccessor in Hi.
  assert (∀ a, ready (set_accessor a (pr s))) as Hset.
  { intros a. split; [destruct Hwf; by split|done|done]. }
  destruct (__redisCacheEnable _); [|injection Hi as <-; split_and!; [apply Hset|done..]].
  destruct (connect_loop _ _ _ _ _) as [[[[e pool1] hp] w1]| | |]; try discriminate.
  rewrite ret_bind in Hi. case_decide as He; [injection Hi as <-; split_and!; [apply Hset|done..]|by injection Hi as -> _].
Qed.

(** A process whose I/O workers are the first [n], followed by a worker that
    distributes to them and watches the listening socket. *)
Definition initialised (s : st) : Prop :=
  ready (pr s) ∧ ∃ ws w e,
    workers (pr s) = ws ++ [w] ∧ length ws = __workerNum (__serverCfg (srv s)) ∧
    Forall (io_worker (max_fds (srv s))) ws ∧
    __ioWorkers (srv s) = seq 0 (__workerNum (__serverCfg (srv s))) ∧
    __listenWorker (srv s) = Some (length ws) ∧
    __eventHandler w = ListenEventHandler (__ioWorkers (srv s)) ∧
    __events (__eventPoller w) = {[__listenFD (srv s) := e]}.

(** The state in which the accessor is made. *)
Definition routed (s : st) : st := with_srv (set_router true) (put_router new_Router s).

(** The initialisation step by step, after the cleaning up. *)
Lemma init_stages s s' : init s = Ret (SERVER_OK, s') →
  ∃ s1 s3 s4 s5, initLogger (clean s) = (SERVER_OK, s1) ∧ initResourceAccessor (routed s1) = Ret (SERVER_OK, s3) ∧
    io_worker_loop (__workerNum (__serverCfg (srv s3))) s3 = (SERVER_OK, s4) ∧ initListenSocket s4 = (SERVER_OK, s5) ∧ initListenWorker s5 = Ret (SERVER_OK, s').
Proof.
  intros Hi. unfold init in Hi.
  destruct (initLogger (clean s)) as [e1 s1]. destruct (decide (e1 = SERVER_OK)) as [->|]; [|by injection Hi as -> _].
  cbn [initRouter] in Hi. rewrite decide_True in Hi by done. fold (routed s1) in Hi.
  destruct (initResourceAccessor (routed s1)) as [[e3 s3]| | |] eqn:H3'; try discriminate. rewrite ret_bind in Hi.
  destruct (decide (e3 = SERVER_OK)) as [->|]; [|by injection Hi as -> _].
  unfold initIOWorker in Hi. cbv zeta in Hi. destruct (_ && _) in Hi; [done|]. rewrite ret_bind in Hi.
  destruct (io_worker_loop _ s3) as [e4 s4] eqn:H4'. destruct (decide (e4 = SERVER_OK)) as [->|]; [|by injection Hi as -> _].
  destruct (initListenSocket s4) as [e5 s5] eqn:H5'. destruct (decide (e5 = SERVER_OK)) as [->|]; [|by injection Hi as -> _].
  by exists s1, s3, s4, s5.
Qed.

Lemma init_ok s err s' : fresh_server s → init s = Ret (err, s') → err = SERVER_OK →
  initialised s' ∧ __serverCfg (srv s') = __serverCfg (srv s).
Proof.
  intros Hf Hi ->. destruct (clean_fresh s Hf) as (Hr0 & Hev0 & Hws0 & Hio0 & Hcfg0).
  destruct (init_stages s s' Hi) as (s1 & s3 & s4 & s5 & H1' & H3' & H4' & H5' & H6').
  destruct (initLogger_ok _ _ _ Hr0 H1') as (Hr1 & He1 & Hw1 & Hs1).
  assert (ready (pr (routed s1))) as Hr2 by (destruct Hr1 as [Hwf ? ?]; split; [destruct Hwf; by split|done|done]).
  destruct (initResourceAccessor_ok _ _ _ Hr2 H3' eq_refl) as (Hr3 & He3 & Hw3 & Hs3).
  destruct (io_worker_loop_ok _ _ _ _ Hr3 H4' eq_refl) as (Hr4 & He4 & _ & _ & ws & Hws4 & Hn4 & Hall4 & Hs4).
  assert (evs (estore (pr s4)) = ∅) as Hev4 by (rewrite He4, He3; cbn; by rewrite He1).
  destruct (initListenSocket_ok _ _ _ Hr4 Hev4 H5' eq_refl) as (Hr5 & Hs5 & _ & _ & k & Hk & Hp5).
  assert (evs (estore (pr s5)) = ∅) as Hev5 by by rewrite Hp5.
  assert (__listenFD (srv s5) ∈ fds (kern s5)) as Hfd5.
  { unfold kern at 1. rewrite Hp5. cbn [set_store estore set_kernel kernel]. rewrite Hk. by apply elem_of_union_l, elem_of_singleton. }
  destruct (initListenWorker_ok _ _ _ Hr5 Hev5 Hfd5 H6' eq_refl) as (Hr6 & _ & Hs6 & w & e & Hws6 & Hh6 & Hevs6 & _).
  assert (workers (pr s5) = workers (pr s4)) as Hws5 by by rewrite Hp5.
  assert (workers (pr s3) = []) as Hw3' by (rewrite Hw3; cbn; by rewrite Hw1).
  rewrite Hw3' in Hws4, Hs4. simpl in Hws4, Hs4.
  assert (__serverCfg (srv s3) = __serverCfg (srv s) ∧ __ioWorkers (srv s3) = []) as [Hc3 Hi3]
    by (rewrite Hs3; cbn; by rewrite Hs1).
  rewrite Hc3 in *. rewrite Hi3 in Hs4. cbn [app] in Hs4.
  assert (__serverCfg (srv s') = __serverCfg (srv s)) as Hc' by (rewrite Hs6, Hs5, Hs4; simpl; exact Hc3).
  split; [|exact Hc']. split; [exact Hr6|]. rewrite Hc'. exists ws, w, e.
  rewrite Hws6, Hws5, Hws4. rewrite Hh6, Hevs6, Hs6. rewrite Hs5, Hs4. simpl. by rewrite Hws5, Hws4.
Qed.

Lemma initialised_lists s : initialised s → lists_known (pr s).
Proof.
  intros (_ & ws & w & e & Hws & Hn & Hall & Hio & _ & Hh & _) i wi ios Hi Hhi. rewrite Hws in Hi.
  apply lookup_app_Some in Hi as [Hi|[_ Hi]].
  - rewrite list.Forall_forall in Hall. destruct (Hall wi) as [ep ->]; [by eapply list_elem_of_lookup_2|done].
  - apply list_lookup_singleton_Some in Hi as [_ <-]. rewrite Hh in Hhi. injection Hhi as <-. rewrite Hio.
    apply list.Forall_forall. intros j Hj%elem_of_seq. apply lookup_lt_is_Some.
    rewrite Hws, length_app. simpl. lia.
Qed.

(** Starting threads keeps what the server has initialised. *)
Lemma started_lists p p' : started p p' → lists_known p → lists_known p'.
Proof.
  intros (Hst & Hlen & _) Hl i w ios Hi Hh.
  assert (∃ w0, workers p !! i = Some w0) as [w0 Hw0].
  { apply lookup_lt_is_Some. rewrite <- Hlen. by eapply lookup_lt_Some. }
  destruct (Hst i w0 Hw0) as (b & Hb & _). rewrite Hi in Hb. injection Hb as ->.
  eapply known_workers; [exact Hlen|]. by eapply Hl.
Qed.

(** A start with SERVER_OK: everything is initialised, then every thread runs. *)
Lemma start_stages alive s s' :
  fresh_server s → start alive s = Ret (SERVER_OK, s') →
  ∃ s1, init s = Ret (SERVER_OK, s1) ∧ ∃ p1 lw p2,
    run_all alive (__ioWorkers (srv s1)) (pr s1) = Ret (SERVER_OK, p1) ∧ __listenWorker (srv s1) = Some lw ∧
    run lw (alive lw) p1 = Ret (SERVER_OK, p2) ∧ s' = with_srv (set_running true) (with_pr p2 s1).
Proof.
  intros Hf Hst. unfold start, server_isRunning in Hst. rewrite (fs_running _ Hf) in Hst.
  destruct (init s) as [[e1 s1]| | |] eqn:Hi; try discriminate. rewrite ret_bind in Hst.
  destruct (decide (e1 = SERVER_OK)) as [->|]; [|by injection Hst as -> _]. exists s1. split; [done|].
  destruct (run_all _ _ _) as [[e2 p1]| | |] eqn:Hra; try discriminate. rewrite ret_bind in Hst.
  destruct (decide (e2 = SERVER_OK)) as [->|]; [|by injection Hst as -> _].
  destruct (__listenWorker (srv s1)) as [lw|]; [|done]. rewrite deref_Some_bind in Hst.
  destruct (run _ _ p1) as [[e3 p2]| | |] eqn:Hrl; try discriminate. rewrite ret_bind in Hst.
  destruct (decide (e3 = SERVER_OK)) as [->|]; [|by injection Hst as -> _]. injection Hst as <-.
  by exists p1, lw, p2.
Qed.

Lemma start_ok alive s s' :
  fresh_server s → start alive s = Ret (SERVER_OK, s') →
  ∃ s1, initialised s1 ∧ __serverCfg (srv s1) = __serverCfg (srv s) ∧ srv s' = set_running true (srv s1) ∧
    ready (pr s') ∧ started (pr s1) (pr s') ∧
    Forall (λ i, ∃ w, workers (pr s') !! i = Some w ∧ isRunning w = true) (__ioWorkers (srv s1)) ∧
    ∃ lw, __listenWorker (srv s1) = Some lw ∧ ∃ w, workers (pr s') !! lw = Some w ∧ isRunning w = true.
Proof.
  intros Hf Hst. destruct (start_stages alive s s' Hf Hst) as (s1 & Hi & p1 & lw & p2 & Hra & Hlw & Hrl & ->).
  destruct (init_ok s _ s1 Hf Hi eq_refl) as [Hin Hcfg]. exists s1.
  destruct (run_all_ok _ _ _ _ _ (proj1 Hin) Hra eq_refl) as (Hr1 & Hst1 & Hall).
  destruct (run_ok _ _ _ _ _ Hr1 Hrl eq_refl) as (Hr2 & Hst2 & wl & Hwl & Hrunl).
  split_and!; [exact Hin|done|done|exact Hr2|by eapply started_trans| |by exists lw; split; [|exists wl]].
  apply (list.Forall_impl _ _ _ Hall). intros i (wi & Hi' & Hrun). destruct Hst2 as [Hst2 _].
  destruct (Hst2 _ _ Hi') as (b & Hb & Hbr). eexists. split; [exact Hb|]. by apply Hbr.
Qed.

(** The server's own workers are all there are. *)
Definition owns_workers (s : st) : Prop :=
  ∃ lw, __listenWorker (srv s) = Some lw ∧ lw :: __ioWorkers (srv s) ≡ₚ seq 0 (length (workers (pr s))).

Lemma start_owns alive s s' : fresh_server s → start alive s = Ret (SERVER_OK, s') → proc_wf [] (pr s') ∧ owns_workers s'.
Proof.
  intros Hf Hst. destruct (start_ok alive s s' Hf Hst) as (s1 & Hin & _ & Hsrv & Hr & (_ & Hlen & _) & _).
  split; [apply Hr|]. destruct Hin as (_ & ws & w & e & Hws & Hn & _ & Hio & Hlw & _).
  exists (length ws). rewrite Hsrv. cbn [set_running __listenWorker __ioWorkers]. split; [done|].
  rewrite Hio, Hlen, Hws, length_app, <- Hn, seq_app. by rewrite Permutation_app_comm.
Qed.

Lemma add_worker_error h (s : st) : let '(err, _, _) := add_worker h s in err = SERVER_OK ∨ err = INVALID_EPOLL_FD.
Proof.
  unfold add_worker, make_Epoll. destruct (epoll_create1 (kern s)) as [[ep|] k1]; [by left|by right].
Qed.

(** The listening socket was created, but could not be bound or listened on. *)
Definition unlistened (err : Error) : Prop := err = SOCKET_BIND_FAILED ∨ err = SOCKET_LISTEN_FAILED.

Lemma io_worker_loop_not_socket n (s : st) err s' : io_worker_loop n s = (err, s') →
  unlistened err → False.
Proof.
  revert s. induction n as [|n IH]; intros s; cbn [io_worker_loop]; [intros [= <- <-]; by intros [|]|].
  pose proof (add_worker_error new_IOEventHandler s) as Ha. destruct (add_worker _ s) as [[e i] s1].
  case_decide; [apply IH|]. intros [= <- <-]. by destruct Ha as [-> | ->]; intros [|].
Qed.

Lemma initListenWorker_not_socket (s : st) err s' : initListenWorker s = Ret (err, s') → unlistened err → False.
Proof.
  unfold initListenWorker. destruct (poller_size _ <? 0); [done|]. pose proof (add_worker_error (ListenEventHandler (__ioWorkers (srv s))) s) as Ha.
  destruct (add_worker _ s) as [[e i] s1]. case_decide; cycle 1.
  { intros [= <- <-]. by destruct Ha as [-> | ->]; intros [|]. }
  destruct (make_event _ _ _) as [ev est]. unfold addEvent. destruct (get_worker _ _) as [w| | |]; try discriminate.
  rewrite ret_bind. destruct (epollAddEvent _ _ _) as [[[e2 p] st2]| | |] eqn:Hadd; try discriminate.
  rewrite !ret_bind. intros [= <- _]. unfold epollAddEvent in Hadd.
  destruct (get_event _ _) as [x| | |]; try discriminate. rewrite ret_bind in Hadd.
  repeat case_match; injection Hadd as <- _ _; by intros [|].
Qed.

Lemma contextInit_not_socket c w err c' w' : contextInit c w = Ret (err, c', w') → unlistened err → False.
Proof. unfold contextInit. intros Hc [-> | ->]; repeat case_match; simplify_eq. Qed.

Lemma connect_loop_not_socket n conf pool hp w err pool' hp' w' :
  connect_loop n conf pool hp w = Ret (err, pool', hp', w') → unlistened err → False.
Proof.
  revert pool hp w. induction n as [|n IH]; intros pool hp w; cbn [connect_loop].
  - intros [= <- <- <- <-]. by intros [|].
  - destruct (contextInit _ w) as [[[e c] w1]| | |] eqn:Hc; try discriminate. rewrite ret_bind.
    case_decide; [|intros [= <- _ _ _]; exact (contextInit_not_socket _ _ _ _ _ Hc)].
    destruct (pushConnection _ pool) as [e1 pool1] eqn:Hp. case_decide; [apply IH|]. intros [= <- _ _ _].
    unfold pushConnection in Hp. repeat case_match; simplify_eq; by intros [|].
Qed.

Lemma initResourceAccessor_not_socket (s : st) err s' :
  initResourceAccessor s = Ret (err, s') → unlistened err → False.
Proof.
  unfold initResourceAccessor. destruct (__redisCacheEnable _); [|intros [= <- _]; by intros [|]].
  destruct (connect_loop _ _ _ _ _) as [[[[e pool1] hp] w1]| | |] eqn:Hc; try discriminate. rewrite ret_bind.
  case_decide; intros [= <- _]; [by intros [|]|]. exact (connect_loop_not_socket _ _ _ _ _ _ _ _ _ Hc).
Qed.

Lemma run_not_socket i alive (p : proc) err p' : run i alive p = Ret (err, p') → unlistened err → False.
Proof.
  unfold run. destruct (get_worker i p) as [w| | |]; try discriminate. rewrite ret_bind.
  destruct (isRunning w), alive; intros [= <- _]; by intros [|].
Qed.

Lemma run_all_not_socket alive ws (p : proc) err p' : run_all alive ws p = Ret (err, p') → unlistened err → False.
Proof.
  revert p. induction ws as [|i ws IH]; intros p; cbn [run_all]; [intros [= <- _]; by intros [|]|].
  destruct (run i _ p) as [[e p1]| | |] eqn:Hr; try discriminate. rewrite ret_bind.
  case_decide; [apply IH|]. intros [= <- _]. exact (run_not_socket _ _ _ _ _ Hr).
Qed.

(** ** Failed initialisation and cleaning up *)

(** A listening socket that was created but could not be bound or listened on. *)
Lemma initListenSocket_failed (s : st) err s' :
  initListenSocket s = (err, s') → unlistened err →
  (__listenFD (srv s') ∉ fds (kern s)) ∧ 0 ≤ __listenFD (srv s') ∧ __listenFD (srv s') ∈ fds (kern s') ∧
  srv s' = set_listenFD (__listenFD (srv s')) (srv s) ∧ workers (pr s') = workers (pr s).
Proof.
  intros Hi He. unfold initListenSocket in Hi.
  destruct (sys_socket (kern s)) as [[fd|] k1] eqn:Hs; [|injection Hi as <- _; by destruct He].
  destruct (socket_ok _ _ _ Hs) as (Hint & Hnew & Hpos & Hf).
  cbn [kern with_kernel with_srv with_pr pr estore set_store set_kernel kernel] in Hi.
  destruct (fcntl_getfl fd k1) as [[flags|] k2] eqn:Hg; [|injection Hi as <- _; by destruct He].
  destruct (getfl_ok _ _ _ _ Hg) as [Hf2 _]. destruct (setfl_ok fd (N.lor flags O_NONBLOCK) k2) as [Hf3 _].
  destruct (sys_bind _ _ _ _) as [bound k4] eqn:Hb. destruct (bind_ok _ _ _ _ _ _ Hb) as [Hf4 _].
  assert (fds k4 = {[fd]} ∪ fds (kern s)) as Hfds by congruence.
  destruct bound; simpl in Hi.
  - destruct (sys_listen _ _ k4) as [r k5] eqn:Hl. destruct (listen_ok _ _ _ _ _ Hl) as [Hf5 _].
    destruct r; simpl in Hi; injection Hi as <- <-; [by destruct He|].
    split_and!; try done. unfold kern. simpl. rewrite Hf5, Hfds. by apply elem_of_union_l, elem_of_singleton.
  - injection Hi as <- <-. split_and!; try done.
    unfold kern. simpl. rewrite Hfds. by apply elem_of_union_l, elem_of_singleton.
Qed.

(** Destroying workers that watch nothing closes their pollers only. *)
Lemma destroy_workers_keep fd l (p : proc) :
  (∀ i w, workers p !! i = Some w → __events (__eventPoller w) = ∅ ∧ __epfd (__eventPoller w) ≠ fd) →
  fd ∈ fds (kernel (estore p)) →
  fd ∈ fds (kernel (estore (fold_left (λ p i, destroy_worker i p) l p))).
Proof.
  revert p. induction l as [|i l IH]; intros p Hp Hfd; simpl; [done|].
  unfold destroy_worker at 2. destruct (workers p !! i) as [w|] eqn:Hi; [|by apply IH].
  destruct (Hp _ _ Hi) as [Hev Hne]. apply IH; [exact Hp|]. unfold destroy_Epoll.
  rewrite Hev, map_to_list_empty. simpl. destruct (close_ok (__epfd (__eventPoller w)) (kernel (estore p))) as [-> _].
  apply elem_of_difference. split; [done|]. intros ->%elem_of_singleton. done.
Qed.

Lemma init_socket_failed (s : st) err s' : fresh_server s → init s = Ret (err, s') →
  unlistened err →
  __listenFD (srv s') ∈ fds (kern s') ∧ 0 ≤ __listenFD (srv s') ∧ __listenWorker (srv s') = None ∧
  ∀ i w, workers (pr s') !! i = Some w →
    __events (__eventPoller w) = ∅ ∧ __epfd (__eventPoller w) ≠ __listenFD (srv s').
Proof.
  intros Hf Hi He. destruct (clean_fresh s Hf) as (Hr0 & Hev0 & Hws0 & Hio0 & _). unfold init in Hi.
  assert (__listenWorker (srv (clean s)) = None) as Hlw0 by done.
  destruct (initLogger (clean s)) as [e1 s1] eqn:H1'.
  destruct (initLogger_ok _ _ _ Hr0 H1') as (Hr1 & _ & Hw1 & Hs1).
  destruct (decide (e1 = SERVER_OK)) as [->|]; cycle 1.
  { exfalso. injection Hi as -> _. clear - H1' He. unfold initLogger in H1'.
    destruct (AsyncLogger.isRunning _); [|injection H1' as <- _; by destruct He]. cbn [negb] in H1'.
    destruct (AsyncLogger.logFileOn _); [injection H1' as <- _; by destruct He|].
    unfold AsyncLogger.setLogFile in H1'. repeat case_match; simplify_eq; by destruct He. }
  cbn [initRouter] in Hi. rewrite decide_True in Hi by done.
  set (s2 := with_srv (set_router true) (put_router new_Router s1)) in *.
  assert (ready (pr s2)) as Hr2 by (destruct Hr1 as [Hwf ? ?]; split; [destruct Hwf; by split|done|done]).
  destruct (initResourceAccessor s2) as [[e3 s3]| | |] eqn:H3'; try discriminate. rewrite ret_bind in Hi.
  destruct (decide (e3 = SERVER_OK)) as [->|]; cycle 1.
  { exfalso. injection Hi as -> _. exact (initResourceAccessor_not_socket _ _ _ H3' He). }
  destruct (initResourceAccessor_ok _ _ _ Hr2 H3' eq_refl) as (Hr3 & _ & Hw3 & Hs3).
  unfold initIOWorker in Hi. cbv zeta in Hi. destruct (_ && _) in Hi; [done|]. rewrite ret_bind in Hi.
  destruct (io_worker_loop _ s3) as [e4 s4] eqn:H4'.
  destruct (decide (e4 = SERVER_OK)) as [->|]; cycle 1.
  { exfalso. injection Hi as -> _. exact (io_worker_loop_not_socket _ _ _ _ H4' He). }
  destruct (io_worker_loop_ok _ _ _ _ Hr3 H4' eq_refl) as (Hr4 & _ & _ & _ & ws & Hws4 & _ & Hall4 & Hs4).
  destruct (initListenSocket s4) as [e5 s5] eqn:H5'.
  destruct (decide (e5 = SERVER_OK)) as [->|]; cycle 1.
  - injection Hi as -> <-. destruct (initListenSocket_failed _ _ _ H5' He) as (Hnew & Hpos & Hin & Hsrv & Hws5).
    split_and!; [done|done|by rewrite Hsrv, Hs4, Hs3; simpl; rewrite Hs1|].
    intros i w Hiw. rewrite Hws5 in Hiw. split.
    + rewrite Hws4, Hw3 in Hiw. cbn [s2 with_srv put_router with_pr pr workers] in Hiw. rewrite Hw1, Hws0 in Hiw.
      rewrite list.Forall_forall in Hall4. destruct (Hall4 w) as [ep ->]; [by eapply list_elem_of_lookup_2|done].
    + intros Heq. apply Hnew. rewrite <- Heq. exact (rd_open _ Hr4 _ _ Hiw).
  - exfalso. exact (initListenWorker_not_socket _ _ _ Hi He).
Qed.

Lemma init_not_running (s : st) err s' : srv_running (srv s) = false → init s = Ret (err, s') → srv_running (srv s') = false.
Proof.
  intros Hs. assert (srv_running (srv (clean s)) = false) as Hr0 by done. unfold init.
  destruct (initLogger (clean s)) as [e1 s1] eqn:E1.
  assert (srv_running (srv s1) = false) as Hr1.
  { unfold initLogger in E1. repeat case_match; simplify_eq; done. }
  case_decide; [|by intros [= <- <-]]. cbn [initRouter]. rewrite decide_True by done.
  destruct (initResourceAccessor _) as [[e3 s3]| | |] eqn:E3; try discriminate. rewrite ret_bind.
  assert (srv_running (srv s3) = false) as Hr3.
  { unfold initResourceAccessor in E3. destruct (__redisCacheEnable _); [|by injection E3 as <- <-].
    destruct (connect_loop _ _ _ _ _) as [[[[? ?] ?] ?]| | |]; try discriminate. rewrite ret_bind in E3.
    case_decide; by injection E3 as <- <-. }
  case_decide; [|by intros [= <- <-]]. unfold initIOWorker. cbv zeta. destruct (_ && _); [done|]. rewrite ret_bind.
  destruct (io_worker_loop _ s3) as [e4 s4] eqn:E4.
  assert (srv_running (srv s4) = false) as Hr4.
  { revert E4 Hr3. generalize (__workerNum (__serverCfg (srv s3))). clear. intros n. revert s3.
    induction n as [|n IH]; intros s3; cbn [io_worker_loop]; [by intros [= <- <-]|].
    destruct (add_worker _ s3) as [[e i] sw] eqn:Ha.
    assert (srv sw = srv s3) as Hsv by (unfold add_worker in Ha; destruct (make_Epoll _ _) as [[? ?] ?]; by injection Ha as _ _ <-).
    case_decide; [intros Hl Hrun; eapply (IH _ Hl); simpl; by rewrite Hsv|intros [= <- <-]; simpl; by rewrite Hsv]. }
  case_decide; [|by intros [= <- <-]]. destruct (initListenSocket s4) as [e5 s5] eqn:E5.
  assert (srv_running (srv s5) = false) as Hr5.
  { unfold initListenSocket in E5. repeat case_match; simplify_eq; done. }
  case_decide; [|by intros [= <- <-]]. unfold initListenWorker. destruct (poller_size _ <? 0); [done|]. destruct (add_worker _ s5) as [[e i] sw] eqn:Ha.
  assert (srv sw = srv s5) as Hsv by (unfold add_worker in Ha; destruct (make_Epoll _ _) as [[? ?] ?]; by injection Ha as _ _ <-).
  case_decide; [|intros [= <- <-]; simpl; by rewrite Hsv].
  destruct (make_event _ _ _). destruct (addEvent _ _ _) as [[? ?]| | |]; try discriminate. rewrite ret_bind.
  intros [= <- <-]. simpl. by rewrite Hsv.
Qed.

(** ** The threads that run while the server starts

    The thread of a worker runs as soon as [run] has made it, but until the listening
    worker, the last one, runs no event is registered with an I/O worker: its thread
    can only wait, or leave when its wait fails. Neither is seen by the rest of
    [start], which runs other workers: they commute. *)

Lemma run_poll_commute i j timeout b (p p1 p2 : proc) events error e :
  i ≠ j → eventPoll i timeout p = Ret (events, error, p1) → run j b p = Ret (e, p2) →
  ∃ p3, run j b p1 = Ret (e, p3) ∧ eventPoll i timeout p2 = Ret (events, error, p3).
Proof.
  intros Hne. unfold eventPoll, run, get_worker. destruct (workers p !! i) as [wi|] eqn:Hi; [|done].
  rewrite deref_Some_bind. destruct (epollWait _ _ _) as [[ev err] st1] eqn:Hw. intros [= <- <- <-].
  cbn [set_store workers]. destruct (workers p !! j) as [wj|] eqn:Hj; [|done]. rewrite !deref_Some_bind.
  destruct (isRunning wj); intros [= <- <-]; (eexists; split; [done|]).
  - by rewrite Hi, deref_Some_bind, Hw.
  - cbn [put_worker set_workers workers estore]. rewrite list_lookup_insert_ne, Hi, deref_Some_bind, Hw by done. done.
Qed.

Lemma run_exit_commute `{Env} i j error b (p p1 p2 : proc) e :
  i ≠ j → worker_exit i error p = Ret p1 → run j b p = Ret (e, p2) →
  ∃ p3, run j b p1 = Ret (e, p3) ∧ worker_exit i error p2 = Ret p3.
Proof.
  intros Hne. unfold worker_exit, run, get_worker. destruct (workers p !! i) as [wi|] eqn:Hi; [|done].
  rewrite deref_Some_bind. unfold diary. cbn [put_worker set_workers log ticks].
  destruct (Logger.LOG2DIARY _ _ _ _ _ _) as [lg| | |] eqn:Hlg; [|done..]. rewrite ret_bind. intros [= <-]. cbn [workers].
  rewrite list_lookup_insert_ne by done. destruct (workers p !! j) as [wj|] eqn:Hj; [|done]. rewrite !deref_Some_bind.
  destruct (isRunning wj); intros [= <- <-]; (eexists; split; [done|]).
  - by rewrite Hi, deref_Some_bind, Hlg, ret_bind.
  - cbn [put_worker set_workers workers log ticks]. rewrite list_lookup_insert_ne, Hi, deref_Some_bind by done.
    cbn [log ticks]. rewrite Hlg, ret_bind. unfold put_worker, set_workers. cbn [workers estore router accessor static_buff log ticks].
    by rewrite list_insert_insert_ne by done.
Qed.

(** ** Stopping *)

Definition idle (i : nat) (p : proc) : Prop := ∀ w, workers p !! i = Some w → isRunning w = false.

(** What stopping keeps of the workers. *)
Definition fixtures (p : proc) : list (Epoll * Handler) :=
  (λ w, (__eventPoller w, __eventHandler w)) <$> workers p.

Lemma stop_worker_spec i p :
  idle i (stop_worker i p) ∧ fixtures (stop_worker i p) = fixtures p ∧
  estore (stop_worker i p) = estore p ∧ (∀ j, idle j p → idle j (stop_worker i p)).
Proof.
  unfold stop_worker. destruct (workers p !! i) as [w|] eqn:Hi; [|by split_and!; [intros w; rewrite Hi|..]].
  destruct (isRunning w) eqn:Hr; [|split_and!; [intros w'; rewrite Hi; by intros [= <-]|done..]].
  assert (∀ j, idle j p ∨ j = i → idle j (put_worker i (Worker.stop w) p)) as Hidle.
  { intros j Hj wj [(-> & <- & _)|[Hne Hwj]]%list_lookup_insert_Some; [done|]. destruct Hj as [Hj| ->]; [by eapply Hj|done]. }
  split_and!; [apply Hidle; by right| |done|intros j Hj; apply Hidle; by left].
  unfold fixtures. cbn [put_worker set_workers workers]. rewrite list_fmap_insert.
  apply list_insert_id. rewrite list_lookup_fmap, Hi. by destruct w.
Qed.

Lemma stop_all_spec l p :
  let p' := fold_left (λ p i, stop_worker i p) l p in
  Forall (λ i, idle i p') l ∧ fixtures p' = fixtures p ∧ estore p' = estore p ∧ (∀ j, idle j p → idle j p').
Proof.
  revert p. induction l as [|i l IH]; intros p; cbn [fold_left]; [done|].
  destruct (stop_worker_spec i p) as (H1' & H2' & H3' & H4'). destruct (IH (stop_worker i p)) as (I1 & I2 & I3 & I4).
  split_and!; [constructor; [by apply I4|done]|by rewrite I2|by rewrite I3|]. intros j Hj. by apply I4, H4'.
Qed.

Lemma stop_keeps (s : st) :
  fixtures (pr (stop s)) = fixtures (pr s) ∧ estore (pr (stop s)) = estore (pr s) ∧ log (pr (stop s)) = log (pr s).
Proof.
  assert (∀ i (p : proc), log (stop_worker i p) = log p) as Hlog by (intros i p; unfold stop_worker; by repeat case_match).
  assert (∀ l (p : proc), log (fold_left (λ p i, stop_worker i p) l p) = log p) as Hlogs.
  { induction l as [|i l IH]; intros p; simpl; [done|]. by rewrite IH. }
  destruct (stop_all_spec (__ioWorkers (srv s)) (pr s)) as (_ & Hm1 & Hk1 & _). unfold stop.
  destruct (__listenWorker (srv s)) as [lw|]; [|split_and!; [exact Hm1|exact Hk1|apply Hlogs]].
  destruct (stop_worker_spec lw (fold_left (λ p i, stop_worker i p) (__ioWorkers (srv s)) (pr s))) as (_ & Hm2 & Hk2 & _).
  split_and!; [by etrans|by etrans|etrans; [apply Hlog|apply Hlogs]].
Qed.

Lemma fixtures_length p p' : fixtures p' = fixtures p → length (workers p') = length (workers p).
Proof. intros Hf%(f_equal length). unfold fixtures in Hf. by rewrite !length_fmap in Hf. Qed.
End startup.

(** * Properties *)

Section properties.
Context {W K : Type} `{Hiredis W} `{KernelOk K} `{AsyncLogger.LogFS}.

(** C19: when a fresh server starts with SERVER_OK it runs: it has as many I/O
    workers as configured and a listening worker that distributes to exactly
    them, all running, with the listening socket registered; the reactor's books
    are right, so that its threads keep them; and the status check is OK. *)
Theorem start_establishes_reactor alive (s s' : sstate W K) :
  fresh_server s → start alive s = Ret (SERVER_OK, s') →
  srv_running (srv s') = true ∧ statusChecking s' = Ret SERVER_OK ∧
  __ioWorkers (srv s') = seq 0 (__workerNum (__serverCfg (srv s))) ∧
  proc_wf [] (pr s') ∧ lists_known (pr s') ∧
  ∃ lw w e, __listenWorker (srv s') = Some lw ∧ workers (pr s') !! lw = Some w ∧
    __eventHandler w = ListenEventHandler (__ioWorkers (srv s')) ∧
    __events (__eventPoller w) = {[__listenFD (srv s') := e]}.
Proof.
  intros Hf Hst. destruct (start_ok alive s s' Hf Hst) as (s1 & Hin & Hcfg & Hsrv & Hr & Hs1 & Hall & lw & Hlw & wl & Hwl & Hrunl).
  pose proof (initialised_lists _ Hin) as Hls. destruct Hin as (_ & ws & w & e & Hws & Hn & _ & Hio & Hlw' & Hh & Hev).
  rewrite Hsrv. cbn [srv_running set_running __ioWorkers __listenWorker __listenFD].
  split_and!; [done| |by rewrite <- Hcfg|apply Hr|by eapply started_lists|].
  - unfold statusChecking. rewrite Hsrv. cbn [set_running __listenWorker __ioWorkers].
    rewrite Hlw, deref_Some_bind. unfold get_worker. rewrite Hwl, deref_Some_bind, Hrunl. by apply check_workers_ok.
  - destruct Hs1 as [Hst12 _]. destruct (Hst12 (length ws) w) as (b & Hb & _).
    { rewrite Hws. by apply list_lookup_middle. }
    exists (length ws), (mk_Worker b (__eventPoller w) (__eventHandler w)), e. by split_and!.
Qed.

(** When a fresh server cannot bind or listen, start reports it and the
    socket it has created stays open: cleaning up, which starting again does
    first, closes the listening descriptor only when there is none. *)
Theorem failed_start_leaks_socket alive (s s' : sstate W K) err :
  fresh_server s → start alive s = Ret (err, s') → unlistened err →
  srv_running (srv s') = false ∧ 0 ≤ __listenFD (srv s') ∧
  __listenFD (srv s') ∈ fds (kern s') ∧ __listenFD (srv s') ∈ fds (kern (clean s')) ∧
  workers (pr (clean s')) = [].
Proof.
  intros Hf Hst He. unfold start, server_isRunning in Hst. rewrite (fs_running _ Hf) in Hst.
  destruct (init s) as [[e1 s1]| | |] eqn:Hi; try discriminate. rewrite ret_bind in Hst.
  destruct (decide (e1 = SERVER_OK)) as [->|].
  - exfalso. destruct (run_all _ _ _) as [[e2 p1]| | |] eqn:Hra; try discriminate. rewrite ret_bind in Hst.
    destruct (decide (e2 = SERVER_OK)) as [->|].
    + destruct (__listenWorker (srv s1)) as [lw|]; [|discriminate]. rewrite deref_Some_bind in Hst.
      destruct (run lw _ p1) as [[e3 p2]| | |] eqn:Hrl; try discriminate. rewrite ret_bind in Hst.
      case_decide; injection Hst as <- _; [by destruct He|by eapply run_not_socket].
    + injection Hst as <- _. by eapply run_all_not_socket.
  - injection Hst as -> ->. destruct (init_socket_failed _ _ _ Hf Hi He) as (Hin & Hpos & Hlw & Hws).
    assert (srv_running (srv s') = false) as Hrun by exact (init_not_running _ _ _ (fs_running _ Hf) Hi).
    split_and!; [done..| |done]. unfold clean. rewrite Hlw. unfold kern. cbn [pr set_workers estore].
    destruct (Z.eqb_spec (__listenFD (srv s')) (-1)) as [Heq|_]; [lia|]. by apply destroy_workers_keep.
Qed.

(** Stopping: no worker of the server runs any more, their pollers, their
    handlers and the events are kept, and a status check of a server that had
    been started reports the listening worker. *)
Theorem stop_stops_workers (s : sstate W K) lw :
  __listenWorker (srv s) = Some lw → is_Some (workers (pr s) !! lw) →
  srv_running (srv (stop s)) = false ∧ statusChecking (stop s) = Ret LISTEN_WORKER_DUMP ∧
  Forall (λ i, idle i (pr (stop s))) (lw :: __ioWorkers (srv s)) ∧
  fixtures (pr (stop s)) = fixtures (pr s) ∧ estore (pr (stop s)) = estore (pr s).
Proof.
  intros Hlw Hsome. set (p1 := fold_left (λ p i, stop_worker i p) (__ioWorkers (srv s)) (pr s)).
  assert (pr (stop s) = stop_worker lw p1) as -> by (unfold stop; by rewrite Hlw).
  destruct (stop_all_spec (__ioWorkers (srv s)) (pr s)) as (Hs1 & Hm1 & Hk1 & _). fold p1 in Hs1, Hm1, Hk1.
  destruct (stop_worker_spec lw p1) as (Hs2 & Hm2 & Hk2 & Hp2).
  split_and!; [done| |constructor; [done|by eapply list.Forall_impl]|by rewrite Hm2|by rewrite Hk2].
  unfold statusChecking. assert (__listenWorker (srv (stop s)) = Some lw) as -> by done.
  assert (pr (stop s) = stop_worker lw p1) as -> by (unfold stop; by rewrite Hlw).
  rewrite deref_Some_bind. unfold get_worker.
  destruct (lookup_lt_is_Some_2 (workers (stop_worker lw p1)) lw) as [w Hw].
  { rewrite (fixtures_length _ _ Hm2), (fixtures_length _ _ Hm1). by apply lookup_lt_is_Some. }
  by rewrite Hw, deref_Some_bind, (Hs2 _ Hw).
Qed.
End properties.
