(* ===== verification/Shutdown.v ===== *)
(** Destroying the server: what becomes of the workers' pollers, of the events and
    of their descriptors, and of the threads that were detached. *)

From S2P Require Export Descriptors ServerFacts.

(** * Giving up pointers, whatever is open *)

Section counting.
Context {K : Type} `{KernelOk K}.

(** The part of [store_wf] that does not speak of the kernel's descriptors. *)
Definition counted (owners : list eptr) (s : store K) : Prop :=
  (∀ e, Epoll.refs e s = copies e owners) ∧ ∀ e x, evs s !! e = Some x → (0 < x.2)%nat.

Lemma store_wf_counted o s : store_wf o s → counted o s.
Proof. intros Hwf. split; [apply (Epoll.wf_refs _ _ Hwf)|apply (Epoll.wf_live _ _ Hwf)]. Qed.

Lemma counted_perm o o' s : o ≡ₚ o' → counted o s → counted o' s.
Proof. intros Hp [Hr Hl]. split; [|done]. intros e. by rewrite Hr, (copies_perm _ _ _ Hp). Qed.

(** The live events are those with an owner. *)
Lemma counted_live e o s : counted o s → is_Some (evs s !! e) ↔ e ∈ o.
Proof.
  intros [Hr Hl]. rewrite <- copies_elem, <- Hr. unfold Epoll.refs.
  destruct (evs s !! e) as [x|] eqn:He; simpl; [|by split; [intros [? [=]]|lia]].
  split; [by intros _; apply (Hl e)|done].
Qed.

(** [s] comes from [s0] by closing the descriptors [closed] and those of the
    events that are gone. *)
Record shrunk (closed : list Z) (s0 s : store K) : Prop := {
  sh_evs e x : evs s !! e = Some x → ∃ n, evs s0 !! e = Some (x.1, n);
  sh_fds fd : fd ∈ fds (kernel s) ↔
    fd ∈ fds (kernel s0) ∧ (fd ∉ closed) ∧ ∀ e x, evs s0 !! e = Some x → getFD x.1 = fd → is_Some (evs s !! e)
}.

Lemma shrunk_refl s : shrunk [] s s.
Proof.
  split; [intros e [ev n] He; by exists n|]. intros fd. split; [|by intros [? _]].
  intros Hfd. split_and!; [done|apply not_elem_of_nil|]. intros e x He _. by exists x.
Qed.

Lemma shrunk_close fd closed s0 s :
  shrunk closed s0 s → shrunk (fd :: closed) s0 (set_kernel (sys_close fd (kernel s)) s).
Proof.
  intros [He Hf]. split; [done|]. intros fd'. simpl. destruct (close_ok fd (kernel s)) as [-> _].
  rewrite elem_of_difference, elem_of_singleton, Hf, not_elem_of_cons. tauto.
Qed.

(** Both are kept by giving up a pointer: the event stays with one owner less, or
    goes and its descriptor is closed. *)
Lemma release_counted e o s : counted (e :: o) s → counted o (release e s).
Proof.
  intros Hc. destruct (proj2 (counted_live e _ _ Hc)) as [[ev n] He]; [by left|]. destruct Hc as [Hr Hl].
  assert (n = S (copies e o)) as Hn.
  { specialize (Hr e). unfold Epoll.refs in Hr. rewrite He, copies_cons, decide_True in Hr by done. done. }
  assert (∀ e', e' ≠ e → Epoll.refs e' s = copies e' o) as Hoth.
  { intros e' Hne. by rewrite Hr, copies_cons, decide_False. }
  unfold release. rewrite He. destruct (Nat.leb_spec n 1); split; cbn [evs].
  - intros e'. destruct (decide (e' = e)) as [->|Hne].
    + unfold Epoll.refs. simpl. rewrite lookup_delete_eq. simpl. lia.
    + rewrite <- (Hoth e' Hne). unfold Epoll.refs. simpl. by rewrite lookup_delete_ne.
  - intros e' x [_ Hx]%lookup_delete_Some. by eapply Hl.
  - intros e'. destruct (decide (e' = e)) as [->|Hne].
    + unfold Epoll.refs. simpl. rewrite lookup_insert_eq. simpl. lia.
    + rewrite <- (Hoth e' Hne). unfold Epoll.refs. simpl. by rewrite lookup_insert_ne.
  - intros e' x [[<- <-]|[_ Hx]]%lookup_insert_Some; [simpl; lia|by eapply Hl].
Qed.

Lemma release_shrunk e closed s0 s :
  shrunk closed s0 s → shrunk closed s0 (release e s).
Proof.
  intros [Hev Hf]. unfold release. destruct (evs s !! e) as [[ev n]|] eqn:He; [|by split].
  destruct (Hev _ _ He) as [n0 He0]. destruct (Nat.leb n 1); split; cbn [evs kernel].
  - intros e' x [_ Hx]%lookup_delete_Some. by apply Hev.
  - intros fd. destruct (close_ok (getFD ev) (kernel s)) as [-> _].
    rewrite elem_of_difference, elem_of_singleton, Hf. split.
    + intros [(Hin & Hnc & Hall) Hne]. split_and!; [done|done|]. intros e' x Hx Hfd.
      rewrite lookup_delete_ne; [by eapply Hall|]. intros <-. rewrite He0 in Hx. injection Hx as <-. by apply Hne.
    + intros (Hin & Hnc & Hall). split_and!; [done|done| |].
      * intros e' x Hx Hfd. destruct (Hall e' x Hx Hfd) as [y [_ Hy]%lookup_delete_Some]. by exists y.
      * intros ->. destruct (Hall _ _ He0 eq_refl) as [y [Hne _]%lookup_delete_Some]. by apply Hne.
  - intros e' x [[<- <-]|[_ Hx]]%lookup_insert_Some; [by exists n0|by apply Hev].
  - intros fd. rewrite Hf. split; intros (Hin & Hnc & Hall); split_and!; try done; intros e' x Hx Hfd;
      destruct (Hall e' x Hx Hfd) as [y Hy]; destruct (decide (e = e')) as [<-|Hne];
      rewrite ?lookup_insert_eq, ?lookup_insert_ne in * by done; by eexists.
Qed.

Lemma release_list closed o s0 s l :
  counted (l ++ o) s → shrunk closed s0 s →
  counted o (fold_right release s l) ∧ shrunk closed s0 (fold_right release s l).
Proof.
  revert o. induction l as [|e l IH]; intros o Hc Hs; simpl; [done|].
  destruct (IH (e :: o)) as [Hc' Hs']; [eapply counted_perm; [|exact Hc]; symmetry; by rewrite <- Permutation_middle|done|].
  split; [by apply release_counted|by apply release_shrunk].
Qed.

Lemma destroy_Epoll_shrunk closed o s0 s p :
  counted (map_refs p ++ o) s → shrunk closed s0 s →
  counted o (destroy_Epoll p s) ∧ shrunk (__epfd p :: closed) s0 (destroy_Epoll p s).
Proof.
  intros Hc Hs. apply release_list; [|by apply shrunk_close].
  destruct Hc as [Hr Hl]. by split.
Qed.
End counting.

(** * Destroying the workers *)

Section workers.
Context {W K : Type} `{Hiredis W} `{KernelOk K}.
Abbreviation proc := (process K Router (ServerAccessor W)).

(** The workers at the addresses [l]. *)
Definition workers_at (l : list nat) (ws : list Worker) : list Worker := omap (λ i, ws !! i) l.

Lemma workers_at_all ws : workers_at (seq 0 (length ws)) ws = ws.
Proof.
  induction ws as [|w ws IH]; [done|]. cbn [length seq]. unfold workers_at in *. cbn [omap list_omap lookup list_lookup].
  f_equal. rewrite <- IH at 2. rewrite <- fmap_S_seq. generalize (seq 0 (length ws)). clear.
  induction l as [|i l IH]; [done|]. cbn [omap list_omap fmap list_fmap lookup list_lookup].
  by destruct (ws !! i); rewrite IH.
Qed.

Lemma destroy_worker_shrunk i closed o s0 (p : proc) :
  counted (refs_of (workers_at [i] (workers p)) ++ o) (estore p) → shrunk closed s0 (estore p) →
  counted o (estore (destroy_worker i p)) ∧
  shrunk (poller_fds (workers_at [i] (workers p)) ++ closed) s0 (estore (destroy_worker i p)) ∧
  workers (destroy_worker i p) = workers p ∧ log (destroy_worker i p) = log p.
Proof.
  unfold destroy_worker, workers_at. cbn [omap list_omap]. destruct (workers p !! i) as [w|]; [|done].
  unfold refs_of. cbn [fmap list_fmap concat compose poller_fds app]. rewrite app_nil_r. intros Hc Hs.
  destruct (destroy_Epoll_shrunk _ _ _ _ _ Hc Hs). by split_and!.
Qed.

Lemma destroy_workers_shrunk l closed o s0 (p : proc) :
  counted (refs_of (workers_at l (workers p)) ++ o) (estore p) → shrunk closed s0 (estore p) →
  let p' := fold_left (λ p i, destroy_worker i p) l p in
  counted o (estore p') ∧
  (∃ closed', closed' ≡ₚ poller_fds (workers_at l (workers p)) ++ closed ∧ shrunk closed' s0 (estore p')) ∧
  log p' = log p.
Proof.
  revert closed p. induction l as [|i l IH]; intros closed p Hc Hs; cbn [fold_left].
  { split_and!; [done| |done]. by exists closed. }
  assert (workers_at (i :: l) (workers p) = workers_at [i] (workers p) ++ workers_at l (workers p)) as Happ.
  { unfold workers_at. cbn [omap list_omap]. by destruct (workers p !! i). }
  rewrite Happ in Hc |- *. unfold refs_of in Hc. rewrite fmap_app, concat_app, <- app_assoc in Hc.
  destruct (destroy_worker_shrunk i closed _ s0 p Hc Hs) as (Hc1 & Hs1 & Hw1 & Hl1).
  destruct (IH (poller_fds (workers_at [i] (workers p)) ++ closed) (destroy_worker i p)) as (Hc2 & (cl & Hcl & Hs2) & Hl2); [rewrite Hw1; exact Hc1|exact Hs1|].
  split_and!; [exact Hc2| |by rewrite Hl2]. exists cl. split; [|exact Hs2].
  rewrite Hcl, Hw1. unfold poller_fds. rewrite fmap_app, !app_assoc. apply Permutation_app_tail, Permutation_app_comm.
Qed.

(** Stopping keeps what there is to destroy. *)
Lemma fixtures_same (p p' : proc) :
  fixtures p' = fixtures p → refs_of (workers p') = refs_of (workers p) ∧
                             poller_fds (workers p') = poller_fds (workers p) ∧
                             length (workers p') = length (workers p).
Proof.
  intros Hf. assert (∀ q : proc, refs_of (workers q) = concat ((map_refs ∘ fst) <$> fixtures q)) as Hr.
  { intros q. unfold refs_of, fixtures. by rewrite <- list_fmap_compose. }
  assert (∀ q : proc, poller_fds (workers q) = (λ x, __epfd x.1) <$> fixtures q) as Hp.
  { intros q. unfold poller_fds, fixtures. by rewrite <- list_fmap_compose. }
  split_and!; [by rewrite !Hr, Hf|by rewrite !Hp, Hf|by apply fixtures_length].
Qed.

Lemma refs_of_perm ws ws' : ws ≡ₚ ws' → refs_of ws ≡ₚ refs_of ws'.
Proof.
  unfold refs_of. induction 1; cbn [fmap list_fmap concat]; [done|by apply Permutation_app_head| |by etrans].
  rewrite !app_assoc. apply Permutation_app_tail, Permutation_app_comm.
Qed.
End workers.

Section destroy.
Context {W K : Type} `{Hiredis W} `{KernelOk K} `{AsyncLogger.LogFS}.

Lemma clean_shrunk o (s : sstate W K) :
  owns_workers s → __listenFD (srv s) ≠ -1 → counted (refs_of (workers (pr s)) ++ o) (estore (pr s)) →
  counted o (estore (pr (clean s))) ∧
  (∃ closed, closed ≡ₚ poller_fds (workers (pr s)) ∧ shrunk closed (estore (pr s)) (estore (pr (clean s)))) ∧
  workers (pr (clean s)) = [] ∧ log (pr (clean s)) = log (pr s).
Proof.
  intros (lw & Hlw & Hp) Hfd Hc. unfold clean. rewrite Hlw, (proj2 (Z.eqb_neq _ _) Hfd).
  assert (workers_at (lw :: __ioWorkers (srv s)) (workers (pr s)) ≡ₚ workers (pr s)) as Hws.
  { rewrite <- (workers_at_all (workers (pr s))) at 2. unfold workers_at. by rewrite Hp. }
  destruct (destroy_workers_shrunk (lw :: __ioWorkers (srv s)) [] o (estore (pr s)) (pr s)) as (Hc' & (cl & Hcl & Hs') & Hl').
  { eapply counted_perm; [|exact Hc]. by rewrite (refs_of_perm _ _ Hws). }
  { apply shrunk_refl. }
  cbn [fold_left] in *. split_and!; [exact Hc'| |done|exact Hl']. exists cl. split; [|exact Hs'].
  rewrite Hcl, app_nil_r. unfold poller_fds. by rewrite Hws.
Qed.

(** Logging does not touch the log file. *)
Lemma append_out b (lg : AsyncLogger.AsyncLogger) e lg' :
  AsyncLogger.append b lg = Ret (e, lg') → AsyncLogger.__out lg' = AsyncLogger.__out lg.
Proof.
  unfold AsyncLogger.append. destruct (negb _); [by intros [= _ <-]|].
  destruct (AsyncLogger.currentAvailable4 b lg) as [[]| | |]; [..|done|done|done]; rewrite ret_bind; intros [= _ <-];
    unfold AsyncLogger.append2Current; by repeat case_match.
Qed.

Lemma diary_out `{Env} file line msg (p p' : process K Router (ServerAccessor W)) :
  diary file line msg p = Ret p' → AsyncLogger.__out (log p') = AsyncLogger.__out (log p).
Proof.
  unfold diary. destruct (Logger.LOG2DIARY_append (clock (ticks p)) (clock (S (ticks p))) (file_name file) line msg (log p)) as (b & _ & _ & ->).
  destruct (AsyncLogger.append b (log p)) as [[e lg]| | |] eqn:Ha; [|done..]. rewrite !ret_bind. intros [= <-].
  by eapply append_out.
Qed.

Lemma drop_accessor_stop (s : sstate W K) : drop_accessor (stop s) = drop_accessor s.
Proof.
  assert (∀ i (p : process K Router (ServerAccessor W)), accessor (stop_worker i p) = accessor p) as H1'
    by (intros i p; unfold stop_worker; by repeat case_match).
  assert (∀ l (p : process K Router (ServerAccessor W)), accessor (fold_left (λ p i, stop_worker i p) l p) = accessor p) as H2'.
  { induction l as [|i l IH]; intros p; simpl; [done|]. by rewrite IH. }
  unfold drop_accessor, stop. cbn [srv pr set_running __resourceAccessor rworld].
  destruct (__listenWorker (srv s)); by rewrite ?H1', H2'.
Qed.

(** Destroying gives up what the workers own, closes the pollers and destroys
    the workers; only the logger changes besides. *)
Lemma destroy_shrunk `{Env} locals (s : sstate W K) :
  proc_wf locals (pr s) → owns_workers s → __listenFD (srv s) ≠ -1 →
  ∃ d closed, destroy_Server s = Ret d ∧ counted locals (estore (pr d)) ∧
    closed ≡ₚ poller_fds (workers (pr s)) ∧ shrunk closed (estore (pr s)) (estore (pr d)) ∧ workers (pr d) = [] ∧
    AsyncLogger.__out (log (pr d)) = AsyncLogger.__out (log (pr s)) ∧ rworld d = drop_accessor s.
Proof.
  intros Hwf (lw & Hlw & Hp) Hfd.
  assert (fixtures (pr (stop s)) = fixtures (pr s) ∧ estore (pr (stop s)) = estore (pr s) ∧ log (pr (stop s)) = log (pr s))
    as (Hfx & Hst & Hlg) by by apply stop_keeps.
  destruct (fixtures_same _ _ Hfx) as (Hrefs & Hpfd & Hlen).
  destruct (clean_shrunk locals (stop s)) as (Hc & (cl & Hcl & Hs) & Hws & Hl).
  { exists lw. by rewrite Hlen. }
  { done. }
  { rewrite Hrefs, Hst. apply store_wf_counted, Hwf. }
  unfold destroy_Server. destruct (diary_ok ($"Server.cc") 142 ($"server out" ++ [ch_LF]) (pr (clean (stop s))))
    as (p & Hd & lg & t & Hpd & _); [rewrite Hl, Hlg; apply Hwf|]. pose proof (diary_out _ _ _ _ _ Hd) as Hout.
  rewrite Hd, ret_bind. subst p. eexists _, cl. split; [done|]. cbn [pr with_pr estore workers rworld].
  rewrite <- Hst, <- Hpfd, Hout, Hl, Hlg. split_and!; try done.
  rewrite <- drop_accessor_stop. unfold clean. cbn [rworld]. unfold drop_accessor at 1. by destruct (_ =? -1).
Qed.
End destroy.

(** * Properties *)

Section properties.
Context {W K : Type} `{Hiredis W} `{KernelOk K} `{AsyncLogger.LogFS} `{FileSystem} `{FileAvail} `{MapOrder} `{Env}.

(** C40: of the reactor's descriptors (those of its pollers, its listening socket
    and its clients), destroying the server closes the ones of its pollers and of the
    events that no thread is handling, and nothing else; the others stay alive for
    the threads that have them. The connections of a Redis cache are freed, in the
    world of the client library; the file of the log stays as it was. But the threads
    were detached and are not waited for: one that polls again, or only looks
    whether it should go on, uses a worker that has been destroyed. *)
Theorem destroy_closes_everything locals (s : sstate W K) :
  proc_wf locals (pr s) → owns_workers s → __listenFD (srv s) ≠ -1 →
  ∃ d, destroy_Server s = Ret d ∧
    (∀ e, is_Some (evs (estore (pr d)) !! e) ↔ e ∈ locals) ∧
    (∀ fd, fd ∈ fds (kern d) ↔
       fd ∈ fds (kern s) ∧ (fd ∉ poller_fds (workers (pr s))) ∧
       ∀ e x, evs (estore (pr s)) !! e = Some x → getFD x.1 = fd → e ∈ locals) ∧
    AsyncLogger.__out (log (pr d)) = AsyncLogger.__out (log (pr s)) ∧
    rworld d = match __resourceAccessor (srv s), accessor (pr s) with
               | true, CachedAcc (Some c) => drop_connections (heap c) (world c)
               | _, _ => rworld s
               end ∧
    ∀ fuel i error, run_iteration fuel i (pr d) = Undef ∧ worker_exit i error (pr d) = Undef.
Proof.
  intros Hwf How Hfd. destruct (destroy_shrunk locals s Hwf How Hfd) as (d & cl & -> & Hc & Hcl & Hs & Hws & Hout & Hrw).
  exists d. split; [done|]. split_and!; [| |exact Hout|exact Hrw|].
  - intros e. by apply counted_live.
  - intros fd. unfold kern. rewrite (sh_fds _ _ _ Hs), Hcl.
    split; intros (Hin & Hnc & Hall); split_and!; try done; intros e x Hx Hxfd; apply (counted_live _ _ _ Hc); by eapply Hall.
  - intros fuel i error. unfold run_iteration, eventPoll, worker_exit, get_worker. by rewrite Hws, lookup_nil.
Qed.
End properties.
