(* ===== verification/Lifecycle.v ===== *)
(** The whole life of a server: what starting it establishes for the reactor's
    threads, and what any run of theirs leaves to the destructor.

    The descriptors are followed by the notion of a stray one: open, and of no
    event. Every operation of the reactor keeps the stray descriptors as they are;
    starting adds those of the pollers, destroying takes them away. *)

From S2P Require Export Shutdown.

(** * The cache of a server that has been started *)

(** Connecting, authenticating, setting timeouts and giving up a context do
    nothing to the database. *)
Class HiredisSetupOk (W : Type) `{HiredisOk W} : Prop := {
  connect_ok ip port t w r w' :
    w_inv w → redisConnectWithTimeout ip port t w = (r, w') → w_inv w' ∧ written w' = written w;
  auth_ok x pw w r w' :
    w_inv w → redisCommand x (AUTH pw) w = (r, w') → w_inv w' ∧ written w' = written w;
  timeout_ok x t w : w_inv w → w_inv (redisSetTimeout x t w) ∧ written (redisSetTimeout x t w) = written w
}.

Section connecting.
Context {W : Type} `{HiredisSetupOk W}.

Lemma contextInit_keeps c w e c1 w1 :
  w_inv w → contextInit c w = Ret (e, c1, w1) →
  w_inv w1 ∧ written w1 = written w ∧ __locked c1 = __locked c.
Proof.
  intros Hw. unfold contextInit. destruct (__context c); [by intros [= <- <- <-]|].
  destruct (__locked c) eqn:Hl; [done|].
  destruct (redisConnectWithTimeout _ _ _ _) as [[x|] w0] eqn:Hc;
    destruct (connect_ok _ _ _ _ _ _ Hw Hc) as [Hw0 Hwr0]; [|by intros [= <- <- <-]].
  destruct (redis_err x w0); [by intros [= <- <- <-]|].
  assert (∀ t w2, w_inv w2 → written w2 = written w →
    w_inv (redisSetTimeout x t w2) ∧ written (redisSetTimeout x t w2) = written w) as Ht.
  { intros t w2 Hw2 <-. by apply timeout_ok. }
  destruct (__passwd c) as [|a l].
  { simpl. intros [= <- <- <-]. by destruct (Ht (req_timeval c) w0). }
  destruct (redisCommand x (AUTH _) w0) as [reply w2] eqn:Ha.
  destruct (auth_ok _ _ _ _ _ Hw0 Ha) as [Hw2 Hwr2]. rewrite Hwr0 in Hwr2.
  destruct (Ht (req_timeval c) w2 Hw2 Hwr2).
  destruct reply as [[]|]; simpl; try destruct (is_OK _); simpl; by intros [= <- <- <-].
Qed.

(** What the loop over the connections keeps. *)
Definition connected (w0 : W) (pool : RedisConnectionPool) (hp : gmap N RedisConnection) (w : W) : Prop :=
  cache_wf (mk_cache pool hp w) ∧ w_inv w ∧ written w = written w0.

Lemma connected_push w0 pool hp w addr pool1 conn w1 :
  connected w0 pool hp w → pushConnection addr pool = (SERVER_OK, pool1) → addr ∉ dom hp → __locked conn = false →
  w_inv w1 → written w1 = written w → connected w0 pool1 (<[addr := conn]> hp) w1.
Proof.
  intros ([Hp Hh] & _ & Hwr) Hpush Hfresh Hl Hw1 Hwr1. split; [|by rewrite Hwr1].
  pose proof (pushConnection_wf addr pool Hp) as Hp1. rewrite Hpush in Hp1. split; [done|]. cbn [__connPool heap] in *.
  intros c n Hc. destruct (decide (c = addr)) as [->|Hne]; [exists conn; by rewrite lookup_insert_eq|].
  rewrite lookup_insert_ne by done. apply (Hh c n). revert Hpush Hc. unfold pushConnection.
  destruct (addr =? null_conn)%N; [done|]. destruct (_ <=? _)%N; [done|].
  destruct (RedisPool.find addr _) eqn:Hn; [done|]. intros [= <-]. simpl.
  by rewrite (find_emplace _ _ _ _ (wf_sorted _ Hp) Hn), (proj2 (N.eqb_neq _ _) Hne).
Qed.

Lemma connect_loop_connected w0 n conf pool hp w pool' hp' w' :
  connected w0 pool hp w → connect_loop n conf pool hp w = Ret (SERVER_OK, pool', hp', w') →
  connected w0 pool' hp' w'.
Proof.
  revert pool hp w. induction n as [|n IH]; intros pool hp w Hc; cbn [connect_loop]; [by intros [= <- <- <-]|].
  destruct (contextInit (configured conf) w) as [[[e c1] w1]| | |] eqn:Hi; try discriminate.
  rewrite ret_bind. destruct (contextInit_keeps _ _ _ _ _ (proj1 (proj2 Hc)) Hi) as (Hw1 & Hwr1 & Hl).
  case_decide as He; [|by intros [= -> _ _ _]].
  set (addr := fresh _). destruct (pushConnection addr pool) as [e2 pool1] eqn:Hp.
  case_decide as He2; [|by intros [= -> _ _ _]]. subst e2. apply IH. eapply connected_push; try done.
  assert (addr ∉ {[null_conn]} ∪ dom hp) as Hf by apply is_fresh. set_solver.
Qed.
End connecting.

(** * The descriptors of a server that has been started *)

Section starting.
Context {W K : Type} `{Hiredis W} `{KernelOk K} `{AsyncLogger.LogFS}.
Abbreviation st := (sstate W K).
Abbreviation proc := (process K Router (ServerAccessor W)).

(** The stray descriptors are those of [base] and the pollers'. *)
Record settled (base : gset Z) (p : proc) : Prop := {
  se_stray fd : stray fd (estore p) ↔ fd ∈ base ∨ fd ∈ poller_fds (workers p);
  se_apart fd : fd ∈ base → fd ∉ poller_fds (workers p)
}.

Lemma settled_conserved base (p p' : proc) : conserved p p' → settled base p → settled base p'.
Proof. intros [Hst Hp] [Hs Ha]. split; intros fd; rewrite Hp; [rewrite (Hst fd); apply Hs|apply Ha]. Qed.

(** Opening a descriptor that is new: no event is for it. *)
Lemma stray_fresh c k locals (p : proc) fd :
  proc_wf locals p → fds k = {[c]} ∪ fds (kernel (estore p)) → c ∉ fds (kernel (estore p)) →
  stray fd (set_kernel k (estore p)) ↔ fd = c ∨ stray fd (estore p).
Proof.
  intros Hwf Hk Hc. destruct (decide (fd = c)) as [->|Hne]; [|rewrite (stray_open c) by done; tauto].
  split; [by left|]. intros _. split; [cbn [kernel set_kernel]; rewrite Hk; by apply elem_of_union_l, elem_of_singleton|].
  intros e x Hx Heq. apply Hc. rewrite <- Heq. by eapply (wf_open _ _ (pw_store _ _ Hwf)).
Qed.

Lemma add_worker_settled base h (s : st) i s' :
  ready (pr s) → settled base (pr s) → add_worker h s = (SERVER_OK, i, s') → settled base (pr s').
Proof.
  intros Hr [Hs Ha] Hadd. unfold add_worker, make_Epoll in Hadd.
  destruct (epoll_create1 (kern s)) as [[ep|] k1] eqn:Hc; simpl in Hadd; [|discriminate]. injection Hadd as <- <-.
  destruct (create_ok _ _ _ Hc) as (Hnew & _ & Hf & _).
  assert (∀ l : list Worker, poller_fds (l ++ [new_Worker (mk_Epoll ep (max_fds (srv s)) ∅) h]) = poller_fds l ++ [ep]) as Hp
    by (intros l; unfold poller_fds; by rewrite fmap_app).
  split; intros fd; cbn [pr with_pr set_workers estore set_store workers with_kernel]; rewrite Hp, elem_of_app, list_elem_of_singleton.
  - rewrite (stray_fresh ep _ [] (pr s) fd (rd_wf _ Hr) Hf Hnew), Hs. tauto.
  - intros Hb [Hin| ->]; [by eapply Ha|]. apply Hnew, stray_fds, Hs. by left.
Qed.

Lemma io_worker_loop_settled base n (s s' : st) :
  ready (pr s) → settled base (pr s) → io_worker_loop n s = (SERVER_OK, s') → settled base (pr s').
Proof.
  revert s. induction n as [|n IH]; intros s Hr Hs; cbn [io_worker_loop]; [by intros [= <-]|].
  destruct (add_worker new_IOEventHandler s) as [[e i] s1] eqn:Ha. case_decide as He; [|by intros [= -> _]]. subst e.
  destruct (add_worker_ok _ _ _ _ _ Hr Ha eq_refl) as (Hr1 & _).
  apply IH; [exact Hr1|]. exact (add_worker_settled _ _ _ _ _ Hr Hs Ha).
Qed.

(** The listening socket is stray until its event is made. *)
Lemma initListenSocket_settled base (s s' : st) :
  ready (pr s) → evs (estore (pr s)) = ∅ → settled base (pr s) → initListenSocket s = (SERVER_OK, s') →
  settled ({[__listenFD (srv s')]} ∪ base) (pr s') ∧ __listenFD (srv s') ∉ base.
Proof.
  intros Hr Hev [Hs Ha] Hi. destruct (initListenSocket_ok _ _ _ Hr Hev Hi eq_refl) as (_ & _ & _ & Hnew & k & Hk & ->).
  set (lfd := __listenFD (srv s')) in *. assert (∀ fd, fd ∈ base ∨ fd ∈ poller_fds (workers (pr s)) → fd ∈ fds (kern s)) as Hin.
  { intros fd Hfd. by apply stray_fds, Hs. }
  split; [split; intros fd; cbn [set_store estore workers]; rewrite elem_of_union, elem_of_singleton|auto].
  - rewrite (stray_fresh lfd _ [] (pr s) fd (rd_wf _ Hr) Hk Hnew), Hs. tauto.
  - intros [->|Hb]; [|by apply Ha]. auto.
Qed.

Lemma initListenWorker_settled base (s s' : st) :
  ready (pr s) → settled ({[__listenFD (srv s)]} ∪ base) (pr s) → __listenFD (srv s) ∉ base →
  initListenWorker s = Ret (SERVER_OK, s') → settled base (pr s').
Proof.
  intros Hr Hs Hnb Hi. unfold initListenWorker in Hi. destruct (poller_size _ <? 0); [done|].
  destruct (add_worker _ s) as [[e i] s1] eqn:Ha. case_decide as He; [|injection Hi as -> _; done]. subst e.
  destruct (add_worker_ok _ _ _ _ _ Hr Ha eq_refl) as (_ & Hsrv & _).
  pose proof (add_worker_settled _ _ _ _ _ Hr Hs Ha) as [Hs1 Ha1].
  destruct (make_event _ _ _) as [ev st1] eqn:Hm. cbn [with_srv pr srv set_listenWorker __listenFD] in Hm, Hi.
  rewrite Hsrv in Hm. set (lfd := __listenFD (srv s)) in *.
  destruct (addEvent i ev _) as [[err p2]| | |] eqn:Hadd; try discriminate. rewrite ret_bind in Hi. injection Hi as -> <-.
  apply addEvent_conserved in Hadd as [Hst2 Hp2]. cbn [estore set_store workers pr with_pr with_srv] in *.
  assert (∀ fd, stray fd (release ev (estore p2)) ↔ fd ≠ lfd ∧ stray fd (estore (pr s1))) as Hfd.
  { intros fd. rewrite (stray_release ev (estore p2) fd), (Hst2 fd). by apply (stray_make _ _ _ _ _ fd Hm). }
  split; intros fd; cbn [pr with_pr set_store estore workers]; rewrite Hp2.
  - rewrite Hfd, Hs1, elem_of_union, elem_of_singleton. split; [tauto|]. intros [Hb|Hb]; (split; [intros ->|tauto]); [done|].
    apply (Ha1 lfd); [|done]. by apply elem_of_union_l, elem_of_singleton.
  - intros Hb. apply Ha1. by apply elem_of_union_r.
Qed.

Lemma started_conserved (p p' : proc) : started p p' → conserved p p'.
Proof.
  intros (Hst & Hlen & He & _). split; [by rewrite He|]. unfold poller_fds. apply list_eq. intros i. rewrite !list_lookup_fmap.
  destruct (workers p !! i) as [w|] eqn:Hi.
  - destruct (Hst i w Hi) as (b & -> & _). done.
  - apply lookup_ge_None in Hi. rewrite <- Hlen in Hi. by rewrite (lookup_ge_None_2 _ _ Hi).
Qed.

(** What was open before the start, but for the -1 that cleaning up closes. *)
Definition opened_before (s : st) : gset Z := fds (kern (clean s)).

Lemma opened_before_elem (s : st) fd : fresh_server s → fd ≠ -1 → fd ∈ opened_before s ↔ fd ∈ fds (kern s).
Proof.
  intros [_ Hio Hlw _ _ _ _ _] Hne. unfold opened_before, kern, clean. rewrite Hio, Hlw. cbn [fold_left pr set_workers estore].
  destruct (__listenFD (srv s) =? -1) eqn:E; [|done]. apply Z.eqb_eq in E. rewrite E. simpl.
  destruct (close_ok (-1) (kern s)) as [-> _]. set_solver.
Qed.

Lemma init_settled (s s' : st) : fresh_server s → init s = Ret (SERVER_OK, s') → settled (opened_before s) (pr s').
Proof.
  intros Hf Hi. destruct (clean_fresh s Hf) as (Hr0 & Hev0 & Hws0 & _).
  destruct (init_stages s s' Hi) as (s1 & s3 & s4 & s5 & H1' & H3' & H4' & H5' & H6').
  destruct (initLogger_ok _ _ _ Hr0 H1') as (Hr1 & He1 & Hw1 & _).
  assert (ready (pr (routed s1))) as Hr2 by (destruct Hr1 as [Hwf ? ?]; split; [destruct Hwf; by split|done|done]).
  destruct (initResourceAccessor_ok _ _ _ Hr2 H3' eq_refl) as (Hr3 & He3 & Hw3 & _).
  destruct (io_worker_loop_ok _ _ _ _ Hr3 H4' eq_refl) as (Hr4 & He4 & _).
  assert (estore (pr s3) = estore (pr (clean s))) as He by (rewrite He3; cbn; by rewrite He1).
  assert (workers (pr s3) = []) as Hw by (rewrite Hw3; cbn; by rewrite Hw1).
  assert (settled (opened_before s) (pr s3)) as Hs3.
  { split; intros fd; rewrite Hw; cbn [poller_fds fmap list_fmap]; [|by intros _ ?%not_elem_of_nil].
    rewrite elem_of_nil, He. unfold stray, opened_before, kern. split; [tauto|]. intros [Hin|[]]. split; [done|].
    intros e x. by rewrite Hev0, lookup_empty. }
  pose proof (io_worker_loop_settled _ _ _ _ Hr3 Hs3 H4') as Hs4.
  assert (evs (estore (pr s4)) = ∅) as Hev4 by by rewrite He4, He.
  destruct (initListenSocket_ok _ _ _ Hr4 Hev4 H5' eq_refl) as (Hr5 & _).
  destruct (initListenSocket_settled _ _ _ Hr4 Hev4 Hs4 H5') as [Hs5 Hnb].
  by eapply initListenWorker_settled.
Qed.

Lemma init_listens (s s' : st) : fresh_server s → init s = Ret (SERVER_OK, s') → __listenFD (srv s') ≠ -1.
Proof.
  intros Hf Hi. destruct (clean_fresh s Hf) as (Hr0 & Hev0 & _).
  destruct (init_stages s s' Hi) as (s1 & s3 & s4 & s5 & H1' & H3' & H4' & H5' & H6').
  revert H6'. unfold initListenWorker. destruct (poller_size _ <? 0); [done|]. destruct (add_worker _ s5) as [[e i] s6] eqn:Ha.
  assert (srv s6 = srv s5) as Hsrv by (revert Ha; unfold add_worker; destruct (make_Epoll _ _) as [[? ?] ?]; by intros [= _ _ <-]).
  assert (__listenFD (srv s5) ≠ -1) as Hfd.
  { revert H5'. unfold initListenSocket. destruct (sys_socket _) as [[fd|] k1] eqn:Hso; [|done].
    destruct (socket_ok _ _ _ Hso) as (_ & _ & Hpos & _). cbn zeta.
    destruct (fcntl_getfl _ _) as [[fl|] k2]; [|done]. destruct (sys_bind _ _ _ _) as [[] k4]; [|done]. cbn [negb].
    destruct (sys_listen _ _ _) as [[] k5]; [|done]. cbn [negb]. intros [= <-]. cbn. lia. }
  case_decide; [|intros [= -> _]; done]. destruct (make_event _ _ _) as [ev st1].
  destruct (addEvent _ _ _) as [[err p]| | |]; try discriminate. rewrite ret_bind. intros [= _ <-].
  cbn. by rewrite Hsrv.
Qed.
End starting.

(** * What its handlers rely on *)

Section serving.
Context {W K : Type} `{HiredisSetupOk W} `{KernelOk K} `{AsyncLogger.LogFS} `{FileSystemOk} `{FileAvailOk}.
Abbreviation st := (sstate W K).
Abbreviation proc := (process K Router (ServerAccessor W)).

(** Nothing in the database contradicts the files. *)
Definition files_match (w : W) : Prop :=
  w_inv w ∧ ∀ k v, NUL ∉ k → written w !! k = Some v → file_content k = Some v.

(** The same router and accessor. *)
Definition same_service (p p' : proc) : Prop := router p' = router p ∧ accessor p' = accessor p.

#[export] Instance same_service_preorder : PreOrder same_service.
Proof. split; [done|]. intros p1 p2 p3 [? ?] [? ?]. split; by etrans. Qed.

Lemma add_worker_service h (s : st) err i s' : add_worker h s = (err, i, s') → same_service (pr s) (pr s').
Proof. unfold add_worker. destruct (make_Epoll _ _) as [[e p] k1]. by intros [= _ _ <-]. Qed.

Lemma io_worker_loop_service n (s s' : st) : io_worker_loop n s = (SERVER_OK, s') → same_service (pr s) (pr s').
Proof.
  revert s. induction n as [|n IH]; intros s; cbn [io_worker_loop]; [by intros [= <-]|].
  destruct (add_worker new_IOEventHandler s) as [[e i] s1] eqn:Ha. case_decide as He; [|by intros [= -> _]].
  intros Hl. etrans; [by eapply add_worker_service|]. exact (IH _ Hl).
Qed.

Lemma initListenWorker_service (s s' : st) : initListenWorker s = Ret (SERVER_OK, s') → same_service (pr s) (pr s').
Proof.
  unfold initListenWorker. destruct (poller_size _ <? 0); [done|]. destruct (add_worker _ s) as [[e i] s1] eqn:Ha. apply add_worker_service in Ha.
  case_decide; [|by intros [= -> _]]. destruct (make_event _ _ _) as [ev st1]. cbn [with_srv pr] in *.
  unfold addEvent, get_worker. destruct (workers _ !! i); [|done]. rewrite deref_Some_bind.
  destruct (epollAddEvent _ _ _) as [[[err p] st2]| | |]; try discriminate. rewrite !ret_bind.
  intros [= _ <-]. etrans; [exact Ha|done].
Qed.

Lemma initResourceAccessor_serves (s s' : st) :
  files_match (rworld s) → (__maxRef (__redisConf (__serverCfg (srv s))) < UINT_MAX)%N →
  initResourceAccessor s = Ret (SERVER_OK, s') →
  accessor_inv (accessor (pr s')) ∧ router (pr s') = router (pr s).
Proof.
  intros [Hw Hm] Hmax Hi. unfold initResourceAccessor in Hi. destruct (__redisCacheEnable _); [|by injection Hi as <-].
  set (conf := __redisConf _) in *.
  destruct (connect_loop _ _ _ _ _) as [[[[e pool1] hp] w1]| | |] eqn:Hc; try discriminate. rewrite ret_bind in Hi.
  case_decide; [|by injection Hi as -> _]. subst e. injection Hi as <-. split; [|done].
  destruct (connect_loop_connected (rworld s) _ _ _ _ _ _ _ _
              ltac:(split; [split; [exact (new_pool_wf (__maxConn conf) (__maxRef conf) Hmax)|done]|done]) Hc) as (Hwf & Hw1 & Hwr).
  cbn [accessor put_accessor pr with_pr set_accessor]. destruct (curConnNum pool1 =? 0)%N; [done|].
  split; [done|]. intros k v Hk Hv. apply Hm; [done|]. by rewrite <- Hwr.
Qed.

Lemma start_service alive (s s' : st) :
  fresh_server s → files_match (rworld s) → (__maxRef (__redisConf (__serverCfg (srv s))) < UINT_MAX)%N →
  start alive s = Ret (SERVER_OK, s') → router (pr s') = new_Router ∧ accessor_inv (accessor (pr s')).
Proof.
  intros Hf Hm Hmax Hst. destruct (start_stages alive s s' Hf Hst) as (s1 & Hi & p1 & lw & p2 & Hra & _ & Hrl & ->).
  destruct (init_stages s s1 Hi) as (t1 & t3 & t4 & t5 & H1' & H3' & H4' & H5' & H6').
  assert (rworld t1 = rworld s ∧ __serverCfg (srv t1) = __serverCfg (srv s)) as [Hr1 Hc1].
  { revert H1'. unfold initLogger. destruct (negb _); [done|]. destruct (AsyncLogger.logFileOn _); [|destruct (AsyncLogger.setLogFile _ _)];
      intros [= ? <-] || intros [= <-]; (split; [|done]); cbn [rworld with_pr]; unfold clean, drop_accessor;
      destruct (__listenFD (srv s) =? -1); cbn [rworld srv with_kernel with_pr]; by rewrite (fs_accessor _ Hf). }
  destruct (initResourceAccessor_serves (routed t1) t3) as [Ha3 Hr3];
    [unfold routed; cbn; by rewrite Hr1|unfold routed; cbn; by rewrite Hc1|done|].
  destruct (clean_fresh s Hf) as (Hr0 & Hev0 & _). destruct (initLogger_ok _ _ _ Hr0 H1') as (Hrd1 & He1 & _).
  assert (ready (pr (routed t1))) as Hrd2 by (destruct Hrd1 as [Hwf ? ?]; split; [destruct Hwf; by split|done|done]).
  destruct (initResourceAccessor_ok _ _ _ Hrd2 H3' eq_refl) as (Hrd3 & He3 & _).
  destruct (io_worker_loop_ok _ _ _ _ Hrd3 H4' eq_refl) as (Hrd4 & He4 & _).
  assert (evs (estore (pr t4)) = ∅) as Hev4 by (rewrite He4, He3; cbn; by rewrite He1).
  destruct (initListenSocket_ok _ _ _ Hrd4 Hev4 H5' eq_refl) as (_ & _ & _ & _ & k & _ & Hp5).
  destruct (init_ok s _ s1 Hf Hi eq_refl) as [[Hrd6 _] _].
  destruct (run_all_ok _ _ _ _ _ Hrd6 Hra eq_refl) as (Hrd7 & (_ & _ & _ & _ & Hr7 & Ha7) & _).
  destruct (run_ok _ _ _ _ _ Hrd7 Hrl eq_refl) as (_ & (_ & _ & _ & _ & Hr8 & Ha8) & _).
  assert (same_service (pr t3) p2) as [Hr Ha].
  { etrans; [exact (io_worker_loop_service _ _ _ H4')|]. etrans; [|etrans; [exact (initListenWorker_service _ _ H6')|]].
    - by rewrite Hp5.
    - split; [by rewrite Hr8|by rewrite Ha8]. }
  cbn [pr with_srv with_pr]. rewrite Hr, Ha, Hr3. split; [done|exact Ha3].
Qed.
End serving.

(** * Properties *)

Section properties.
Context {W K : Type} `{HiredisSetupOk W} `{KernelOk K} `{AsyncLogger.LogFS} `{FileSystemOk} `{FileAvailOk} `{MapOrderOk} `{EnvOk}.
Abbreviation proc := (process K Router (ServerAccessor W)).

(** The fuel covers every file and error page that the new router leads to. *)
Definition covers_content (fuel : nat) : Prop :=
  HttpResponse.reachable_files (A:=ServerAccessor W) fuel new_Router ∧
  ∀ req, (length (HttpResponse.answer_body req new_Router) ≤ fuel)%nat.

Lemma start_inv fuel alive (s s' : sstate W K) :
  fresh_server s → files_match (rworld s) → (__maxRef (__redisConf (__serverCfg (srv s))) < UINT_MAX)%N →
  covers_content fuel → start alive s = Ret (SERVER_OK, s') → sys_inv fuel (mk_system (pr s') []).
Proof.
  intros Hf Hm Hmax [Hfiles Hfit] Hst.
  destruct (start_service alive s s' Hf Hm Hmax Hst) as [Hr Ha].
  destruct (start_ok alive s s' Hf Hst) as (s1 & Hin & _ & _ & Hrd & Hs1 & _).
  split; cbn [sp batches].
  - apply Hrd.
  - split; rewrite ?Hr; [exact new_Router_wf|exact Hfiles|exact Ha|exact Hfit|apply (rd_wf _ Hrd)].
  - by intros i e ?%not_elem_of_nil.
  - eapply started_lists; [exact Hs1|by apply initialised_lists].
Qed.

Lemma start_settled alive (s s' : sstate W K) :
  fresh_server s → start alive s = Ret (SERVER_OK, s') →
  settled (opened_before s) (pr s') ∧ __listenFD (srv s') ≠ -1.
Proof.
  intros Hf Hst. destruct (start_stages alive s s' Hf Hst) as (s1 & Hi & p1 & lw & p2 & Hra & _ & Hrl & ->).
  destruct (init_ok s _ s1 Hf Hi eq_refl) as [[Hrd _] _].
  destruct (run_all_ok _ _ _ _ _ Hrd Hra eq_refl) as (Hrd1 & Hst1 & _).
  destruct (run_ok _ _ _ _ _ Hrd1 Hrl eq_refl) as (_ & Hst2 & _). split.
  - apply (settled_conserved _ (pr s1)); [|by apply init_settled].
    apply started_conserved. by eapply started_trans.
  - cbn [srv with_srv with_pr set_running __listenFD]. by apply (init_listens s).
Qed.

(** The destructor leaves what was open before the start, and what threads hold. *)
Lemma destroy_settled base (s : sstate W K) locals :
  proc_wf locals (pr s) → settled base (pr s) → owns_workers s → __listenFD (srv s) ≠ -1 →
  ∃ d, destroy_Server s = Ret d ∧ ∀ fd, fd ∈ fds (kern d) ↔
    fd ∈ base ∨ ∃ e x, e ∈ locals ∧ evs (estore (pr s)) !! e = Some x ∧ getFD x.1 = fd.
Proof.
  intros Hwf [Hs Ha] How Hl. destruct (destroy_shrunk locals s Hwf How Hl) as (d & cl & -> & Hc & Hcl & Hsh & _).
  exists d. split; [done|]. intros fd. unfold kern. rewrite (sh_fds _ _ _ Hsh), Hcl. split.
  - intros (Hin & Hnp & Hall). destruct (decide (map_Exists (λ _ x, getFD x.1 = fd) (evs (estore (pr s))))) as [(e & x & Hx & Hfd)|Hno].
    + right. exists e, x. split_and!; [|done..]. apply (counted_live e _ _ Hc). by eapply Hall.
    + left. destruct (proj1 (Hs fd)) as [Hb|Hp]; [|done|by destruct (Hnp Hp)]. split; [done|].
      intros e x Hx Hfd. apply Hno. by exists e, x.
  - intros [Hb|(e & x & He & Hx & <-)].
    + destruct (proj2 (Hs fd) (or_introl Hb)) as [Hin Hno]. split_and!; [done|by apply Ha|].
      intros e x Hx Hfd. by destruct (Hno e x).
    + split_and!; [by eapply (wf_open _ _ (pw_store _ _ Hwf))| |].
      * intros Hp. by destruct (proj2 (Hs (getFD x.1)) (or_intror Hp)) as [_ Hno]; destruct (Hno e x).
      * intros e' x' Hx' Hfd. rewrite (wf_fds _ _ (pw_store _ _ Hwf) _ _ _ _ Hx' Hx Hfd). by apply (counted_live e _ _ Hc).
Qed.

Lemma destroy_restores (s0 s : sstate W K) (held : list (nat * eptr)) :
  fresh_server s0 → proc_wf (held.*2) (pr s) → settled (opened_before s0) (pr s) → owns_workers s → __listenFD (srv s) ≠ -1 →
  ∃ d, destroy_Server s = Ret d ∧ ∀ fd, fd ≠ -1 →
    fd ∈ fds (kern d) ↔ fd ∈ fds (kern s0) ∨
      ∃ i e x, (i, e) ∈ held ∧ evs (estore (pr s)) !! e = Some x ∧ getFD x.1 = fd.
Proof.
  intros Hf Hwf Hset How Hl. destruct (destroy_settled _ s _ Hwf Hset How Hl) as (d & Hd & Hfds).
  exists d. split; [done|]. intros fd Hne. rewrite Hfds, (opened_before_elem s0 fd Hf Hne).
  apply or_iff_compat_l. split; [intros (e & x & ([i e'] & -> & Hin)%list_elem_of_fmap & Hx)|intros (i & e & x & Hin & Hx)].
  - by exists i, e', x.
  - exists e, x. split; [|done]. apply list_elem_of_fmap. by exists (i, e).
Qed.

(** C5: the life of a server: when a fresh server has started, whose Redis
    database (if the cache is enabled) contradicts none of the files and whose pool
    has a limit of references below UINT_MAX, then after any interleaving of its
    threads' polls, requests and failures and of stops no handler dereferences a null
    pointer or fails an assertion, and destroying the server leaves open, of the
    descriptors of the reactor (sockets, epoll instances and clients; the log file
    and the Redis sockets are not among them), exactly those that were open before it
    was started, and those of the events that threads still hold. *)
Theorem server_lifecycle fuel alive (s s' : sstate W K) y :
  fresh_server s → files_match (rworld s) → (__maxRef (__redisConf (__serverCfg (srv s))) < UINT_MAX)%N →
  covers_content fuel → start alive s = Ret (SERVER_OK, s') →
  reachable (sys_step fuel) (mk_system (pr s') []) y →
  (∀ i e, (i, e) ∈ batches y → input_fits fuel e (sp y) → handleEvent fuel i e (sp y) ≠ Undef) ∧
  ∃ d, destroy_Server (with_pr (sp y) s') = Ret d ∧
    ∀ fd, fd ≠ -1 →
      fd ∈ fds (kern d) ↔
      fd ∈ fds (kern s) ∨ ∃ i e x, (i, e) ∈ batches y ∧ evs (estore (sp y)) !! e = Some x ∧ getFD x.1 = fd.
Proof.
  intros Hf Hm Hmax Hfuel Hst Hy. pose proof (start_inv fuel alive s s' Hf Hm Hmax Hfuel Hst) as Hinv.
  assert (sys_inv fuel y) as Hsy by (eapply reachable_invariant; [apply sys_step_inv|exact Hinv|exact Hy]).
  split; [intros i e Hin Hfit Hu; pose proof (handle_ok fuel i e y Hsy Hin Hfit) as Hok; by rewrite Hu in Hok|].
  destruct (start_settled alive s s' Hf Hst) as [Hset Hl]. destruct (start_owns alive s s' Hf Hst) as [_ (lw & Hlw & Hown)].
  pose proof (reachable_conserved _ _ _ Hy) as Hcons. cbn [sp] in Hcons.
  destruct (destroy_restores s (with_pr (sp y) s') (batches y)) as (d & Hd & Hfds); [done|apply Hsy|..].
  - by apply (settled_conserved _ (pr s')).
  - exists lw. split; [done|]. cbn [with_pr pr srv]. by rewrite (poller_fds_length _ _ Hcons).
  - done.
  - by exists d.
Qed.
End properties.
