(* ===== verification/Service.v ===== *)
(** A server from its start to the answers its clients get: the roles of its workers
    among the steps of all threads, and what becomes of every client it takes in. *)

From S2P Require Export Admission Lifecycle.

Section roles.
Context {K R A : Type} `{KernelOk K} `{IRouterOk R} `{IResourceAccessorOk A} `{MapOrderOk} `{FileAvailOk} `{EnvOk}.
Abbreviation proc := (process K R A).

Definition handlers (s : proc) : list Handler := __eventHandler <$> workers s.

(** The worker [lw] distributes clients to [ios], in some order, and those are I/O
    workers. *)
Definition staffed (lw : nat) (ios : list nat) (s : proc) : Prop :=
  (∃ ios', handlers s !! lw = Some (ListenEventHandler ios') ∧ ios' ≡ₚ ios) ∧
  Forall (λ i, handlers s !! i = Some IOEventHandler) ios.

Lemma staffed_io_list lw ios ios' (s : proc) : staffed lw ios s → ios' ≡ₚ ios → io_list ios' s.
Proof.
  intros [_ Hall] Hp i w Hi Hw. rewrite Hp in Hi. rewrite list.Forall_forall in Hall.
  specialize (Hall i Hi). unfold handlers in Hall. rewrite list_lookup_fmap, Hw in Hall. by injection Hall.
Qed.

(** Putting back a worker with the handler it had. *)
Lemma handlers_put i w w' (s : proc) :
  workers s !! i = Some w → __eventHandler w' = __eventHandler w → handlers (put_worker i w' s) = handlers s.
Proof.
  intros Hi Hh. unfold handlers. cbn. rewrite list_fmap_insert, Hh. apply list_insert_id.
  by rewrite list_lookup_fmap, Hi.
Qed.

Lemma handlers_exit i error (s s' : proc) : worker_exit i error s = Ret s' → handlers s' = handlers s.
Proof.
  unfold worker_exit, get_worker. destruct (workers s !! i) as [w|] eqn:Hi; [|done]. rewrite deref_Some_bind.
  intros Hd%logged_workers. transitivity (handlers (put_worker i (Worker.stop w) s)); [unfold handlers; by rewrite Hd|].
  by eapply handlers_put.
Qed.

(** Handling an event: the handlers stay, but for the order of a listening one's list. *)
Lemma handlers_handle fuel i e (y : system) s1 :
  sys_inv fuel y → (i, e) ∈ batches y → input_fits fuel e (sp y) → handleEvent fuel i e (sp y) = Ret s1 →
  handlers s1 = handlers (sp y) ∨
  ∃ ios ios', handlers (sp y) !! i = Some (ListenEventHandler ios) ∧ ios' ≡ₚ ios ∧
    handlers s1 = <[i := ListenEventHandler ios']> (handlers (sp y)).
Proof.
  intros Hy Hin Hfit. destruct (link_event i e y fuel Hy Hin) as (ev & w & Hg & Hw & Hi).
  pose proof (held_elem _ _ _ Hin) as He. unfold handleEvent, get_worker. rewrite Hi, deref_Some_bind.
  destruct (__eventHandler w) as [|ios] eqn:Hh.
  - destruct (io_handle_ends fuel i w e ev _ (sp y) (si_wf _ _ Hy) (si_serves _ _ Hy) He Hg Hw Hi (Hfit _ Hg))
      as (l & in1 & _ & [(_ & s' & -> & _ & _ & (_ & Hk & _) & _)|[(_ & _ & ->)|(_ & x & _ & ->)]]); [|done|done].
    rewrite ret_bind. intros [= <-]. by left.
  - destruct (listen_handle_ends fuel i w ios e ev _ (sp y) (si_wf _ _ Hy)) as [->|(ios' & s' & -> & _ & Hp & Hf)];
      [by eapply si_lists|done|done|done|].
    rewrite ret_bind. destruct (workers s' !! i) as [w1|] eqn:Hw1; [|done]. rewrite deref_Some_bind. intros [= <-].
    right. exists ios, ios'. split_and!; [unfold handlers; by rewrite list_lookup_fmap, Hi; simpl; rewrite Hh|done|].
    apply frame_kept in Hf as (_ & Hk & _). unfold handlers. cbn. by rewrite list_fmap_insert, Hk.
Qed.

Lemma staffed_same lw ios (s s' : proc) : handlers s' = handlers s → staffed lw ios s → staffed lw ios s'.
Proof. unfold staffed. by intros ->. Qed.

Lemma step_staffed fuel lw ios (y y' : system) :
  sys_inv fuel y → sys_step fuel y y' → staffed lw ios (sp y) → staffed lw ios (sp y').
Proof.
  intros Hy Hst. revert Hy.
  destruct Hst as [i w events s1 s Hi _ Hp|i e s1 s Hin Hfit Hh|i e rest s _|i w events error s1 s2 s Hi _ Hp _ Hx
    |i w error s1 s Hi _ Hx|i w s Hi]; intros Hy; cbn [sp].
  - apply staffed_same. unfold handlers. by rewrite (poll_workers _ _ _ _ _ Hp).
  - destruct (handlers_handle _ _ _ _ _ Hy Hin Hfit Hh) as [Hs|(ios1 & ios2 & Hl & Hp & Hs)]; [by apply staffed_same|].
    intros [(ios' & Hlw & Hp') Hall]. unfold staffed. rewrite Hs. split.
    + destruct (decide (i = lw)) as [->|Hne].
      * exists ios2. rewrite Hl in Hlw. injection Hlw as <-. split; [|by rewrite Hp].
        apply list_lookup_insert_eq. by eapply lookup_lt_Some.
      * exists ios'. by rewrite list_lookup_insert_ne.
    + apply (list.Forall_impl _ _ _ Hall). intros j Hj. rewrite list_lookup_insert_ne; [done|]. intros ->. congruence.
  - done.
  - apply staffed_same. rewrite (handlers_exit _ _ _ _ Hx). unfold handlers. by rewrite (poll_workers _ _ _ _ _ Hp).
  - apply staffed_same. by eapply handlers_exit.
  - apply staffed_same. by eapply handlers_put.
Qed.
End roles.

Section service.
Context {W K : Type} `{HiredisSetupOk W} `{KernelOk K} `{AsyncLogger.LogFS} `{FileSystemOk} `{FileAvailOk} `{MapOrderOk} `{EnvOk}.
Abbreviation proc := (process K Router (ServerAccessor W)).

Lemma started_handlers (p p' : proc) : started p p' → handlers p' = handlers p.
Proof.
  intros (Hst & Hlen & _). unfold handlers. apply list_eq_same_length with (n := length (workers p));
    [by rewrite length_fmap|by rewrite length_fmap|].
  intros i x y _ Hx Hy. rewrite list_lookup_fmap in Hx, Hy.
  destruct (workers p !! i) as [w|] eqn:Hi; [|done]. destruct (Hst i w Hi) as (b & Hb & _). rewrite Hb in Hx.
  simpl in *. congruence.
Qed.

(** A started server is staffed with the workers it has made. *)
Lemma start_staffed alive (s s' : sstate W K) :
  fresh_server s → start alive s = Ret (SERVER_OK, s') →
  ∃ lw, __listenWorker (srv s') = Some lw ∧ staffed lw (__ioWorkers (srv s')) (pr s').
Proof.
  intros Hf Hst. destruct (start_ok alive s s' Hf Hst) as (s1 & Hin & _ & Hsrv & _ & Hs1 & _).
  destruct Hin as (_ & ws & w & e & Hws & Hn & Hall & Hio & Hlw & Hh & _). exists (length ws). rewrite Hsrv.
  split; [exact Hlw|]. cbn [set_running __ioWorkers]. apply (staffed_same _ _ (pr s1)); [by apply started_handlers|].
  unfold staffed, handlers. rewrite Hws, fmap_app. split.
  - exists (__ioWorkers (srv s1)). split; [|done]. rewrite <- Hh. rewrite <- (length_fmap __eventHandler ws). by apply list_lookup_middle.
  - rewrite Hio, <- Hn. apply list.Forall_forall. intros i Hi%elem_of_seq.
    destruct (lookup_lt_is_Some_2 ws i) as [wi Hwi]; [lia|]. rewrite lookup_app_l by (rewrite length_fmap; lia).
    rewrite list_lookup_fmap, Hwi. rewrite list.Forall_forall in Hall.
    destruct (Hall wi) as [ep ->]; [by eapply list_elem_of_lookup_2|done].
Qed.

(** C4: from the start to the answers: after a successful start of a fresh server,
    whose Redis database contradicts none of the files and whose pool has a limit of
    references below UINT_MAX, and any interleaving of its threads, whenever the
    thread of the listening worker handles an event it takes in clients until nobody
    is waiting, and each client that it gives to a worker, one of the server's I/O
    workers, is registered there and from then on attended to in every interleaving
    of all threads: it stays registered, and polled whenever the kernel reports it,
    until a thread handles it; and if what it has sent by then are well-formed
    requests, without bodies or in one piece that fits into the buffer, and no more
    of them than the fuel, that call returns having answered them in their order:
    exactly the answers are sent when every [send] takes all it is given, and a
    prefix of them when some of them take nothing. *)
Theorem started_server_attends fuel alive (s s' : sstate W K) y :
  fresh_server s → files_match (rworld s) → (__maxRef (__redisConf (__serverCfg (srv s))) < UINT_MAX)%N →
  covers_content fuel → start alive s = Ret (SERVER_OK, s') →
  reachable (sys_step fuel) (mk_system (pr s') []) y →
  ∃ lw, __listenWorker (srv s') = Some lw ∧ ∀ e p1,
    (lw, e) ∈ batches y → input_fits fuel e (sp y) → handleEvent fuel lw e (sp y) = Ret p1 →
    let y1 := mk_system p1 (batches y) in
    ∃ lfd ios l ios' p2 k1, ios ≡ₚ __ioWorkers (srv s') ∧ distribution lfd ios (sp y) l ios' p2 ∧
      sys_accept lfd (kernel (estore p2)) = (None, k1) ∧
      ∀ c cur, (c, Some cur) ∈ l → cur ∈ __ioWorkers (srv s') ∧ ∃ e', registered cur c e' p1 ∧
        ∀ y2, reachable (sys_step fuel) y1 y2 → attended fuel cur c e' y1 y2.
Proof.
  intros Hf Hm Hmax Hfuel Hst Hy. destruct (start_staffed alive s s' Hf Hst) as (lw & Hlw & Hstaff). exists lw. split; [done|].
  assert (sys_inv fuel y ∧ staffed lw (__ioWorkers (srv s')) (sp y)) as [Hinv Hsy].
  { apply (reachable_invariant _ (λ z, sys_inv fuel z ∧ staffed lw (__ioWorkers (srv s')) (sp z)) _ _) in Hy; [done| |].
    - intros a b [Ha Hsa] Hab. split; [by eapply sys_step_inv|by eapply step_staffed].
    - split; [by eapply start_inv|done]. }
  intros e p1 Hin Hfit Hh y1. destruct (link_event lw e y fuel Hinv Hin) as (ev & w & Hev & _ & Hw).
  destruct Hsy as [(ios & Hios & Hp) Hall]. unfold handlers in Hios. rewrite list_lookup_fmap, Hw in Hios. injection Hios as Hios.
  destruct (accepted_clients_attended fuel lw e ev w ios y p1) as (l & ios' & p2 & k1 & Hd & Ha & Hcl); try done.
  { apply (staffed_io_list lw (__ioWorkers (srv s'))); [|done]. split; [|done]. exists ios. split; [|done].
    unfold handlers. rewrite list_lookup_fmap, Hw. simpl. by rewrite Hios. }
  exists (getFD ev), ios, l, ios', p2, k1. split_and!; [done..|]. intros c cur Hc.
  split; [|by apply Hcl]. rewrite <- Hp. by eapply distribution_takers.
Qed.
End service.
