(* ===== verification/Main.v ===== *)
(** main.cc: the process that starts the server, looks at its workers every ten
    seconds and returns when one has stopped.

    The main thread's steps interleave with those of the workers' threads; what
    is written to the standard output is kept. Its handler for SIGPIPE does
    nothing: a failed send is only seen by its result. *)

From S2P Require Export Lifecycle.

(** Where the main thread is: before [start]; before [statusChecking]; asleep
    after a check; or returned, when the server has been destroyed. With the
    server come the events that threads hold. *)
Inductive main_state (W K : Type) :=
| Booting (s : sstate W K)
| Checking (s : sstate W K) (held : list (nat * eptr))
| Sleeping (s : sstate W K) (held : list (nat * eptr))
| Returned (code : Z) (s : sstate W K) (held : list (nat * eptr)).
Arguments Booting {W K} s.
Arguments Checking {W K} s held.
Arguments Sleeping {W K} s held.
Arguments Returned {W K} code s held.

Section main.
Context {W K : Type} `{Hiredis W} `{KernelOk K} `{AsyncLogger.LogFS} `{FileSystem} `{FileAvail} `{MapOrder} `{Env}.

Definition STARTED : bytes := $"server started" ++ [ch_LF].
Definition status_line (error : Error) : bytes :=
  $"server status checking with result " ++ to_string (err_code error) ++ [ch_LF].

(** A step of the main thread or of a worker's; [alive] as in [start]. *)
Inductive main_step (fuel : nat) (alive : nat → bool) : main_state W K * list bytes → main_state W K * list bytes → Prop :=
| main_start s s1 out :
    start alive s = Ret (SERVER_OK, s1) →
    main_step fuel alive (Booting s, out) (Checking s1 [], out ++ [STARTED])
| main_fail s error s1 d out :
    start alive s = Ret (error, s1) → error ≠ SERVER_OK → destroy_Server s1 = Ret d →
    main_step fuel alive (Booting s, out) (Returned (-1) d [], out ++ [to_string (err_code error) ++ [ch_LF]])
| main_check s held out :
    statusChecking s = Ret SERVER_OK →
    main_step fuel alive (Checking s held, out) (Sleeping s held, out)
| main_wake s held out :
    main_step fuel alive (Sleeping s held, out) (Checking s held, out ++ [status_line SERVER_OK])
| main_return s held error d out :
    statusChecking s = Ret error → error ≠ SERVER_OK → destroy_Server s = Ret d →
    main_step fuel alive (Checking s held, out) (Returned 0 d held, out)
| main_threads_checking s held y out :
    sys_step fuel (mk_system (pr s) held) y →
    main_step fuel alive (Checking s held, out) (Checking (with_pr (sp y) s) (batches y), out)
| main_threads_sleeping s held y out :
    sys_step fuel (mk_system (pr s) held) y →
    main_step fuel alive (Sleeping s held, out) (Sleeping (with_pr (sp y) s) (batches y), out).
End main.

(** * The life of the process *)

Section life.
Context {W K : Type} `{HiredisSetupOk W} `{KernelOk K} `{AsyncLogger.LogFS} `{FileSystemOk} `{FileAvailOk} `{MapOrderOk} `{EnvOk}.
Abbreviation st := (sstate W K).

(** All the workers of the process run. *)
Definition all_running (s : st) : Prop := ∀ i w, workers (pr s) !! i = Some w → isRunning w = true.

(** A started server whose threads hold [held]. *)
Record in_service (fuel : nat) (base : gset Z) (held : list (nat * eptr)) (s : st) : Prop := {
  is_inv : sys_inv fuel (mk_system (pr s) held);
  is_settled : settled base (pr s);
  is_owns : owns_workers s;
  is_listens : __listenFD (srv s) ≠ -1
}.

Lemma in_service_step fuel base held s y :
  in_service fuel base held s → sys_step fuel (mk_system (pr s) held) y →
  in_service fuel base (batches y) (with_pr (sp y) s).
Proof.
  intros [Hi Hs (lw & Hlw & Hp) Hl] Hst. pose proof (sys_step_conserved _ _ _ Hst) as Hc. split.
  - pose proof (sys_step_inv _ _ _ Hi Hst) as Hy. by destruct y.
  - by apply (settled_conserved _ (pr s)).
  - exists lw. split; [done|]. cbn [with_pr pr srv]. by rewrite (poller_fds_length _ _ Hc).
  - done.
Qed.

Lemma check_workers_reports ws (p : process K Router (ServerAccessor W)) :
  Forall (λ i, is_Some (workers p !! i)) ws →
  ∃ e, check_workers ws p = Ret e ∧
    (e = SERVER_OK ↔ Forall (λ i, ∀ w, workers p !! i = Some w → isRunning w = true) ws).
Proof.
  induction 1 as [|i ws [w Hw] _ (e & He & IH)]; cbn [check_workers]; [by exists SERVER_OK|].
  unfold get_worker. rewrite Hw, deref_Some_bind. destruct (isRunning w) eqn:Hr.
  - exists e. split; [done|]. rewrite IH, list.Forall_cons. split; [|by intros [_ ?]].
    intros Hall. split; [|done]. intros w' Hw'. congruence.
  - exists IO_WORKER_DUMP. split; [done|]. split; [done|]. rewrite list.Forall_cons. intros [Hi _]. specialize (Hi w Hw). congruence.
Qed.

(** The status check finds out whether a worker has stopped. *)
Lemma statusChecking_reports (s : st) :
  owns_workers s → ∃ e, statusChecking s = Ret e ∧ (e = SERVER_OK ↔ all_running s).
Proof.
  intros (lw & Hlw & Hp). assert (Forall (λ i, is_Some (workers (pr s) !! i)) (lw :: __ioWorkers (srv s))) as Hsome.
  { apply list.Forall_forall. intros i Hi. rewrite Hp in Hi. apply elem_of_seq in Hi. apply lookup_lt_is_Some. lia. }
  destruct (check_workers_reports _ _ Hsome) as (e & He & Hiff).
  assert (∀ i, i ∈ lw :: __ioWorkers (srv s) ↔ (i < length (workers (pr s)))%nat) as Hin
    by (intros i; rewrite Hp, elem_of_seq; lia).
  assert (Forall (λ i, ∀ w, workers (pr s) !! i = Some w → isRunning w = true) (lw :: __ioWorkers (srv s)) ↔ all_running s) as Hall.
  { rewrite list.Forall_forall. split.
    - intros Hf i w Hi. eapply Hf; [|exact Hi]. apply Hin. by eapply lookup_lt_Some.
    - intros Hf i _ w Hw. by eapply Hf. }
  rewrite Hall in Hiff. unfold statusChecking. rewrite Hlw, deref_Some_bind.
  apply Forall_cons_1 in Hsome as [[w Hw] _]. cbn [check_workers] in He. unfold get_worker in *.
  rewrite Hw, deref_Some_bind in *. destruct (isRunning w) eqn:Hr; [by exists e|].
  exists LISTEN_WORKER_DUMP. split; [done|]. injection He as <-. by split; [|intros Ha%Hiff].
Qed.

(** What the standard output holds while the server is in service. *)
Definition reported (out : list bytes) : Prop := ∃ n, out = STARTED :: replicate n (status_line SERVER_OK).

Definition main_inv (fuel : nat) (s0 : st) (m : main_state W K * list bytes) : Prop :=
  match m with
  | (Booting s, out) => s = s0 ∧ out = []
  | (Checking s held, out) | (Sleeping s held, out) => in_service fuel (opened_before s0) held s ∧ reported out
  | (Returned code d held, out) =>
      (code = -1 ∧ ∃ error, error ≠ SERVER_OK ∧ out = [to_string (err_code error) ++ [ch_LF]]) ∨
      (code = 0 ∧ reported out ∧ ∃ s, in_service fuel (opened_before s0) held s ∧ ¬ all_running s ∧ destroy_Server s = Ret d)
  end.
End life.

(** * Properties *)

Section properties.
Context {W K : Type} `{HiredisSetupOk W} `{KernelOk K} `{AsyncLogger.LogFS} `{FileSystemOk} `{FileAvailOk} `{MapOrderOk} `{EnvOk}.

Lemma main_inv_step fuel alive (s0 : sstate W K) m m' :
  fresh_server s0 → files_match (rworld s0) → (__maxRef (__redisConf (__serverCfg (srv s0))) < UINT_MAX)%N →
  covers_content (W:=W) fuel → main_inv fuel s0 m → main_step fuel alive m m' → main_inv fuel s0 m'.
Proof.
  intros Hf Hm Hmax Hfuel Hi Hst. destruct Hst as [s s1 out Hs|s error s1 d out Hs He Hd|s held out Hc|s held out
    |s held error d out Hc He Hd|s held y out Hy|s held y out Hy]; cbn [main_inv] in *.
  - destruct Hi as [-> ->]. destruct (start_settled alive s0 s1 Hf Hs). destruct (start_owns alive s0 s1 Hf Hs).
    split; [|by exists 0%nat]. split; try done. by eapply start_inv.
  - destruct Hi as [-> ->]. left. split; [done|]. by exists error.
  - done.
  - destruct Hi as [Hi [n ->]]. split; [done|]. exists (S n). cbn [app replicate]. f_equal.
    symmetry. apply replicate_cons_app.
  - destruct Hi as [Hi Ho]. right. split_and!; [done|done|]. exists s. split_and!; [done| |done].
    destruct (statusChecking_reports s (is_owns _ _ _ _ Hi)) as (e & Hce & Hiff). rewrite Hc in Hce. injection Hce as ->.
    by rewrite <- Hiff.
  - destruct Hi as [Hi Ho]. split; [|done]. by eapply in_service_step.
  - destruct Hi as [Hi Ho]. split; [|done]. by eapply in_service_step.
Qed.

(** C6: the process: from a fresh server, whose Redis database contradicts none of
    the files and whose pool has a limit of references below UINT_MAX, in every
    interleaving of the main thread with those of the workers, the status check never
    dereferences a null pointer, and is OK exactly as long as all workers run; the
    output is that the server started and then only that checks were OK; main returns
    -1 after a start that failed, having written its error, or 0 when a worker has
    stopped, and then the server has been destroyed: of the reactor's descriptors
    (the log file and the Redis sockets are not among them) those are open that were
    before the start and those of events that threads still hold. *)
Theorem main_watches_server fuel alive (s0 : sstate W K) m out :
  fresh_server s0 → files_match (rworld s0) → (__maxRef (__redisConf (__serverCfg (srv s0))) < UINT_MAX)%N →
  covers_content (W:=W) fuel → reachable (main_step fuel alive) (Booting s0, []) (m, out) →
  match m with
  | Booting s => s = s0 ∧ out = []
  | Checking s held | Sleeping s held =>
      reported out ∧ (∃ e, statusChecking s = Ret e ∧ (e = SERVER_OK ↔ all_running s)) ∧
      ∃ d, destroy_Server s = Ret d
  | Returned code d held =>
      (code = -1 ∧ ∃ error, error ≠ SERVER_OK ∧ out = [to_string (err_code error) ++ [ch_LF]]) ∨
      (code = 0 ∧ reported out ∧ ∃ s, ¬ all_running s ∧ destroy_Server s = Ret d ∧
       ∀ fd, fd ≠ -1 → fd ∈ fds (kern d) ↔ fd ∈ fds (kern s0) ∨
         ∃ i e x, (i, e) ∈ held ∧ evs (estore (pr s)) !! e = Some x ∧ getFD x.1 = fd)
  end.
Proof.
  intros Hf Hm Hmax Hfuel Hr.
  assert (main_inv fuel s0 (m, out)) as Hi.
  { apply (reachable_invariant (main_step fuel alive) (main_inv fuel s0) (Booting s0, [])); [|by split|exact Hr]. intros a b Ha Hab. by eapply main_inv_step. }
  assert (∀ held s, in_service fuel (opened_before s0) held s → ∃ d, destroy_Server s = Ret d ∧
    ∀ fd, fd ≠ -1 → fd ∈ fds (kern d) ↔ fd ∈ fds (kern s0) ∨
      ∃ i e x, (i, e) ∈ held ∧ evs (estore (pr s)) !! e = Some x ∧ getFD x.1 = fd) as Hd.
  { intros held s [Hsi Hse Hso Hsl]. apply (destroy_restores s0 s held Hf); [apply Hsi|done..]. }
  destruct m as [s|s held|s held|code d held]; cbn [main_inv] in Hi; [done| | |].
  - destruct Hi as [Hs Ho]. split_and!; [done|by apply statusChecking_reports, Hs|]. by destruct (Hd _ _ Hs) as (d & ? & _); exists d.
  - destruct Hi as [Hs Ho]. split_and!; [done|by apply statusChecking_reports, Hs|]. by destruct (Hd _ _ Hs) as (d & ? & _); exists d.
  - destruct Hi as [Hi|(-> & Ho & s & Hs & Hn & Hde)]; [by left|right]. split_and!; [done|done|]. exists s. split_and!; [done|done|].
    destruct (Hd _ _ Hs) as (d' & Hd' & Hfd). rewrite Hde in Hd'. by injection Hd' as <-.
Qed.
End properties.
