(* ===== verification/ServerExamples.v ===== *)
(** Starting, failing to start, stopping and destroying the server with its default
    configuration (but for a smaller number of descriptors), over the small operating system and the Redis server that keeps
    what it is sent. *)

From S2P Require Export ServerFacts Shutdown Lifecycle Service Main RedisExamples SimKernel.
From S2P Require LogExamples ReactorExamples.

#[local] Existing Instances LogExamples.reliable_fs HttpExamples.list_order HttpExamples.all_avail HttpExamples.two_files
  ReactorExamples.quiet_env.

#[local] Existing Instances LogExamples.reliable_fs HttpExamples.list_order_ok HttpExamples.all_avail_ok HttpExamples.two_files_ok
  ReactorExamples.quiet_env_ok.

Abbreviation demo_state := (sstate (gmap bytes bytes) sim_os).

Definition boot_kernel (bind : bool) : sim_os := mk_sim_os {[0; 1; 2]} ∅ 3 [] [] ∅ true bind.

Definition small_cfg : ServerConfig :=
  mk_ServerConfig 64 (__clientTimeoutSecond defaultCfg) (__workerNum defaultCfg) (__serverAddr defaultCfg)
    (__serverPort defaultCfg) (__listenQueue defaultCfg) (__redisConf defaultCfg) (__redisCacheEnable defaultCfg).

Definition boot (bind : bool) : demo_state :=
  mk_sstate (mk_Server [] small_cfg (-1) false false false [] None)
    (mk_process (mk_store (boot_kernel bind) ∅) [] new_Router FileAcc [] LogExamples.opened 0) ∅.

Lemma boot_fresh bind : fresh_server (boot bind).
Proof.
  by split.
Qed.

(** What [start] gives. *)
Definition result (bind : bool) : Error * demo_state :=
  match start (λ _, true) (boot bind) with Ret x => x | _ => (SERVER_OK, boot bind) end.

Definition running : demo_state := snd (result true).
Definition failed : demo_state := snd (result false).

Lemma start_establishes_reactor_witness :
  srv_running (srv running) = true ∧ statusChecking running = Ret SERVER_OK ∧
  __ioWorkers (srv running) = [0; 1; 2; 3; 4]%nat ∧
  proc_wf [] (pr running) ∧ lists_known (pr running) ∧
  ∃ lw w e, __listenWorker (srv running) = Some lw ∧ workers (pr running) !! lw = Some w ∧
    __eventHandler w = ListenEventHandler (__ioWorkers (srv running)) ∧
    __events (__eventPoller w) = {[__listenFD (srv running) := e]}.
Proof.
  apply (start_establishes_reactor (λ _, true) (boot true) running (boot_fresh true)). vm_compute. reflexivity.
Defined.

Lemma failed_start_leaks_socket_witness :
  srv_running (srv failed) = false ∧ 0 ≤ __listenFD (srv failed) ∧
  __listenFD (srv failed) ∈ fds (kern failed) ∧ __listenFD (srv failed) ∈ fds (kern (clean failed)) ∧
  workers (pr (clean failed)) = [].
Proof.
  apply (failed_start_leaks_socket (λ _, true) (boot false) failed SOCKET_BIND_FAILED (boot_fresh false));
    [vm_compute; reflexivity|by left].
Defined.

Lemma stop_stops_workers_witness :
  srv_running (srv (stop running)) = false ∧ statusChecking (stop running) = Ret LISTEN_WORKER_DUMP ∧
  Forall (λ i, idle i (pr (stop running))) (5%nat :: __ioWorkers (srv running)) ∧
  fixtures (pr (stop running)) = fixtures (pr running) ∧ estore (pr (stop running)) = estore (pr running).
Proof.
  apply (stop_stops_workers running 5); [vm_compute; reflexivity|].
  apply (bool_decide_unpack _). vm_compute. exact I.
Defined.

Lemma running_start : start (λ _, true) (boot true) = Ret (SERVER_OK, running).
Proof. vm_compute. reflexivity. Qed.

(** The log file is open afterwards. *)
Lemma destroy_closes_everything_witness :
  ∃ d, destroy_Server running = Ret d ∧
    (∀ e, is_Some (evs (estore (pr d)) !! e) ↔ e ∈ @nil nat) ∧
    (∀ fd, fd ∈ fds (kern d) ↔
       fd ∈ fds (kern running) ∧ (fd ∉ poller_fds (workers (pr running))) ∧
       ∀ e x, evs (estore (pr running)) !! e = Some x → getFD x.1 = fd → e ∈ @nil nat) ∧
    AsyncLogger.o_file (AsyncLogger.__out (log (pr d))) = Some ($"web.log") ∧
    ∀ fuel i error, run_iteration fuel i (pr d) = Undef ∧ worker_exit i error (pr d) = Undef.
Proof.
  destruct (destroy_closes_everything [] running (proj1 (start_owns _ _ _ (boot_fresh true) running_start))
           (proj2 (start_owns _ _ _ (boot_fresh true) running_start))) as (d & Hd & He & Hfd & Hout & _ & Hun);
    [vm_compute; discriminate|].
  exists d. split_and!; [done|done|done| |done]. rewrite Hout. vm_compute. reflexivity.
Defined.

(** * A whole life *)

#[local] Instance map_server_setup_ok : HiredisSetupOk (gmap bytes bytes).
Proof.
  split; [by intros ip port t w r w' _ [= _ <-]|by intros x pw w r w' _ [= _ <-]|by intros x t w _].
Qed.

(** A client waits to be accepted, as descriptor 20; the listening socket will be
    descriptor 8. *)
Definition busy_kernel : sim_os :=
  mk_sim_os {[0; 1; 2]} ∅ 3 [20] [(8, EPOLLIN); (20, EPOLLIN)] ∅ true true.

Definition busy_boot : demo_state :=
  mk_sstate (mk_Server [] small_cfg (-1) false false false [] None)
    (mk_process (mk_store busy_kernel ∅) [] new_Router FileAcc [] LogExamples.opened 0) ∅.

Definition busy : demo_state :=
  match start (λ _, true) busy_boot with Ret (_, s) => s | _ => busy_boot end.

Abbreviation demo_threads := (@system sim_os Router (ServerAccessor (gmap bytes bytes))).

Definition listening : demo_threads := ReactorExamples.poll_now 5 (mk_system (pr busy) []).
Definition accepted : demo_threads := ReactorExamples.handle_now 400 5 0 listening.
Definition serving : demo_threads := ReactorExamples.poll_now 0 accepted.

Lemma serving_reachable : reachable (sys_step 400) (mk_system (pr busy) []) serving.
Proof.
  apply (reach_step _ _ accepted serving); [|unfold serving; apply (ReactorExamples.poll_now_step 400 0 accepted); compute_now].
  apply (reach_step _ _ listening accepted); [|unfold accepted; apply (ReactorExamples.handle_now_step 400 5 0 listening); compute_now].
  apply (reach_step _ _ (mk_system (pr busy) []) listening); [apply reach_refl|].
  unfold listening. apply (ReactorExamples.poll_now_step 400 5 (mk_system (pr busy) [])). compute_now.
Qed.

Lemma busy_fresh : fresh_server busy_boot.
Proof. by split. Qed.

Lemma demo_covers : covers_content (W:=gmap bytes bytes) 400.
Proof.
  split.
  - intros v Hv. split; [|intros d Hd; apply HttpExamples.two_files_short in Hd; lia].
    assert (map_Forall (λ _ v, NUL ∉ getPath v) (__uriMapper new_Router) ∧
            map_Forall (λ _ v, NUL ∉ getPath v) (__errMapper new_Router)) as [Hu He] by (split; decide_now).
    destruct Hv as [[u Hv]|[c Hv]]; cbn [route_uri route_code Router_IRouter] in Hv.
    + unfold lookup_uri in Hv. destruct (_ !! u) eqn:E; [|done]. injection Hv as <-. by apply (Hu _ _ E).
    + unfold lookup_code in Hv. destruct (_ !! c) eqn:E; [|done]. injection Hv as <-. by apply (He _ _ E).
  - intros req. pose proof (ReactorExamples.answers_short req). lia.
Qed.

(** The connection and the listening socket outlive the server, whose threads
    hold them; all that was opened besides is closed. *)
Lemma server_lifecycle_witness :
  (∀ i e, (i, e) ∈ batches serving → input_fits 400 e (sp serving) → handleEvent 400 i e (sp serving) ≠ Undef) ∧
  ∃ d, destroy_Server (with_pr (sp serving) busy) = Ret d ∧
    ∀ fd, fd ≠ -1 →
      fd ∈ fds (kern d) ↔
      fd ∈ fds (kern busy_boot) ∨
      ∃ i e x, (i, e) ∈ batches serving ∧ evs (estore (sp serving)) !! e = Some x ∧ getFD x.1 = fd.
Proof.
  apply (server_lifecycle 400 (λ _, true) busy_boot busy serving busy_fresh).
  - split; [exact I|]. intros k v _. cbn. by rewrite lookup_empty.
  - decide_now.
  - exact demo_covers.
  - compute_now.
  - exact serving_reachable.
Defined.

(** The listening worker's thread takes the waiting client in. *)
Lemma listening_reachable : reachable (sys_step 400) (mk_system (pr busy) []) listening.
Proof.
  apply (reach_step _ _ (mk_system (pr busy) []) listening); [apply reach_refl|].
  unfold listening. apply (ReactorExamples.poll_now_step 400 5 (mk_system (pr busy) [])). compute_now.
Qed.

Lemma listening_handles : handleEvent 400 5 0%nat (sp listening) = Ret (sp accepted).
Proof.
  unfold accepted, ReactorExamples.handle_now. destruct (handleEvent _ _ _ _) eqn:E; [done|exfalso; vm_compute in E; discriminate..].
Qed.

Lemma started_server_attends_witness :
  let y1 := mk_system (sp accepted) (batches listening) in
  ∃ lfd ios l ios' p2 k1, ios ≡ₚ [0; 1; 2; 3; 4]%nat ∧ distribution lfd ios (sp listening) l ios' p2 ∧
    sys_accept lfd (kernel (estore p2)) = (None, k1) ∧
    ∀ c cur, (c, Some cur) ∈ l → cur ∈ [0; 1; 2; 3; 4]%nat ∧ ∃ e', registered cur c e' (sp accepted) ∧
      ∀ y2, reachable (sys_step 400) y1 y2 → attended 400 cur c e' y1 y2.
Proof.
  destruct (started_server_attends 400 (λ _, true) busy_boot busy listening busy_fresh) as (lw & Hlw & Hall).
  - split; [exact I|]. intros k v _. cbn. by rewrite lookup_empty.
  - decide_now.
  - exact demo_covers.
  - compute_now.
  - exact listening_reachable.
  - assert (__listenWorker (srv busy) = Some 5%nat) as H5 by compute_now. rewrite H5 in Hlw. injection Hlw as <-.
    apply (Hall 0%nat (sp accepted)); [| |exact listening_handles].
    + apply (bool_decide_unpack _). vm_compute. exact I.
    + intros ev Hev. revert Hev. vm_compute. intros [= <-]. lia.
Defined.

Example client_taken_in : worker_activeFDS <$> workers (sp accepted) = [1; 0; 0; 0; 0; 1]%nat.
Proof. compute_now. Qed.

(** The same with the main thread: a check that is OK, the three steps while it
    sleeps, a worker that stops, and the check that finds it. *)
Definition halted : demo_threads := ReactorExamples.stop_now 0 serving.
Definition halted_server : demo_state := with_pr (sp halted) busy.
Definition destroyed : demo_state :=
  match destroy_Server halted_server with Ret d => d | _ => halted_server end.

Abbreviation demo_main := (main_step 400 (λ _, true)).

Lemma sleeping_threads y y' s out :
  reachable (sys_step 400) y y' → pr s = sp y →
  reachable demo_main (Sleeping s (batches y), out) (Sleeping (with_pr (sp y') s) (batches y'), out).
Proof.
  intros Hr Hs. induction Hr as [|y1 y2 _ IH Hst].
  - rewrite <- Hs. destruct s. apply reach_refl.
  - eapply reach_step; [exact IH|].
    refine (main_threads_sleeping 400 (λ _, true) (with_pr (sp y1) s) (batches y1) y2 out _).
    by destruct y1.
Qed.

Lemma halted_step : sys_step 400 (mk_system (pr (with_pr (sp serving) busy)) (batches serving)) halted.
Proof. unfold halted. apply (ReactorExamples.stop_now_step 400 0 serving). compute_now. Qed.

Lemma main_asleep : reachable demo_main (Booting busy_boot, []) (Sleeping busy [], [STARTED]).
Proof.
  apply (reach_step _ _ (Checking busy [], [STARTED])); [|apply main_check; compute_now].
  apply (reach_step _ _ (Booting busy_boot, [])); [apply reach_refl|].
  apply (main_start 400 (λ _, true) busy_boot busy []). compute_now.
Qed.

Lemma main_wakes s t held out d :
  sys_step 400 (mk_system (pr s) held) t → statusChecking (with_pr (sp t) s) = Ret IO_WORKER_DUMP →
  destroy_Server (with_pr (sp t) s) = Ret d →
  reachable demo_main (Sleeping s held, out) (Returned 0 d (batches t), out ++ [status_line SERVER_OK]).
Proof.
  intros Ht Hc Hd. eapply reach_step; [|by eapply main_return].
  eapply reach_step; [|by apply main_threads_checking]. eapply reach_step; [apply reach_refl|apply main_wake].
Qed.

Lemma main_reachable :
  reachable demo_main (Booting busy_boot, [])
    (Returned 0 destroyed (batches halted), [STARTED; status_line SERVER_OK]).
Proof.
  apply (reachable_trans _ _ _ _ main_asleep).
  apply (reachable_trans _ _ _ _ (sleeping_threads (mk_system (pr busy) []) serving busy [STARTED] serving_reachable eq_refl)).
  apply (main_wakes (with_pr (sp serving) busy) halted (batches serving) [STARTED] destroyed halted_step); compute_now.
Qed.

Lemma main_watches_server_witness :
  (0 = -1 ∧ ∃ error, error ≠ SERVER_OK ∧ [STARTED; status_line SERVER_OK] = [to_string (err_code error) ++ [ch_LF]]) ∨
  (0 = 0 ∧ reported [STARTED; status_line SERVER_OK] ∧ ∃ s : demo_state, ¬ all_running s ∧ destroy_Server s = Ret destroyed ∧
   ∀ fd, fd ≠ -1 → fd ∈ fds (kern destroyed) ↔ fd ∈ fds (kern busy_boot) ∨
     ∃ i e x, (i, e) ∈ batches halted ∧ evs (estore (pr s)) !! e = Some x ∧ getFD x.1 = fd).
Proof.
  apply (main_watches_server 400 (λ _, true) busy_boot (Returned 0 destroyed (batches halted)) _ busy_fresh).
  - split; [exact I|]. intros k v _. cbn. by rewrite lookup_empty.
  - decide_now.
  - exact demo_covers.
  - exact main_reachable.
Defined.
